(** * MazeWar server: a shallow embedding of the game core

    The C sources (maze.c, client_registry.c, protocol.c, player.c,
    server.c, main.c) are transcribed function by function.  Shared
    state is one record, [World]; every C function that touches it is a
    computation in the monad [M], which threads the world and has no
    outcome ([None]) where the C program has no defined behaviour (an
    access outside an object, a use after free, a division by zero) or
    where the calling thread would block for ever on its own.

    C [int] values are integers [Z]; bytes are integers in [0, 256). *)

From Stdlib Require Import ZArith List Lia Bool String.
From stdpp Require Import base option list gmap.
Import ListNotations.
Open Scope Z_scope.

(** ** maze.h *)

(** Modelled from the spec: maze.h is not part of the sources.  An
    OBJECT is one byte; EMPTY is the space character; an avatar is an
    ASCII letter A..Z; every other byte is a wall. *)
Abbreviation OBJECT := Z.

Definition EMPTY : OBJECT := 32.

Definition IS_EMPTY (c : OBJECT) : bool := c =? 32.

Definition IS_AVATAR (c : OBJECT) : bool := (65 <=? c) && (c <=? 90).

(** Modelled from the spec: directions are encoded 0..3 in the order
    NORTH, WEST, SOUTH, EAST. *)
Inductive DIRECTION := NORTH | WEST | SOUTH | EAST.

Definition dir_code (d : DIRECTION) : nat :=
  match d with NORTH => 0 | WEST => 1 | SOUTH => 2 | EAST => 3 end%nat.

Definition dir_of_code (n : Z) : DIRECTION :=
  match n with 0 => NORTH | 1 => WEST | 2 => SOUTH | _ => EAST end.

(** Modelled from the spec: REVERSE(d) = (d+2) mod 4,
    TURN_LEFT(d) = (d+1) mod 4, TURN_RIGHT(d) = (d+3) mod 4. *)
Definition REVERSE (d : DIRECTION) : DIRECTION :=
  dir_of_code ((Z.of_nat (dir_code d) + 2) mod 4).

Definition TURN_LEFT (d : DIRECTION) : DIRECTION :=
  dir_of_code ((Z.of_nat (dir_code d) + 1) mod 4).

Definition TURN_RIGHT (d : DIRECTION) : DIRECTION :=
  dir_of_code ((Z.of_nat (dir_code d) + 3) mod 4).

(** Modelled from the spec: a view row is three bytes, indexed
    LEFT_WALL = 0, CORRIDOR = 1, RIGHT_WALL = 2. *)
Definition VIEW_WIDTH : Z := 3.
Definition LEFT_WALL : Z := 0.
Definition CORRIDOR : Z := 1.
Definition RIGHT_WALL : Z := 2.

Abbreviation VIEW := (list (list Z)).

(** An [int] table indexed by a direction, as in [drow[dir]]. *)
Definition at_dir (tbl : list Z) (d : DIRECTION) : Z := nth (dir_code d) tbl 0.

(** ** protocol.h *)

(** Modelled from the spec: the frame types of section 4.1.  Their
    numeric codes are fixed by protocol.h, which is not part of the
    sources; [MZW_NO_PKT] stands for every other value of the type
    byte. *)
Inductive MZW_PACKET_TYPE :=
| MZW_NO_PKT
| MZW_LOGIN_PKT | MZW_MOVE_PKT | MZW_TURN_PKT | MZW_FIRE_PKT
| MZW_REFRESH_PKT | MZW_SEND_PKT
| MZW_READY_PKT | MZW_INUSE_PKT | MZW_CLEAR_PKT | MZW_SHOW_PKT
| MZW_ALERT_PKT | MZW_SCORE_PKT | MZW_CHAT_PKT.

Definition to_u8 (z : Z) : Z := z mod 256.
Definition to_u16 (z : Z) : Z := z mod 65536.
Definition to_u32 (z : Z) : Z := z mod 4294967296.

(** Modelled from the spec: the header is
    {type:u8, size:u16, param1:u8, param2:u8, param3:u8,
     timestamp_sec:u32, timestamp_nsec:u32}. *)
Record MZW_PACKET := mkHeader {
  hdr_type : Z;
  hdr_size : Z;
  hdr_param1 : Z;
  hdr_param2 : Z;
  hdr_param3 : Z;
  hdr_timestamp_sec : Z;
  hdr_timestamp_nsec : Z
}.

(** The fields of an MZW_PACKET that player.c and server.c set and
    read: the type, by name, the size and the three parameters.  The
    timestamps are stamped by proto_send_packet. *)
Record PKT := mkPkt {
  pkt_type : MZW_PACKET_TYPE;
  pkt_size : Z;
  pkt_param1 : Z;
  pkt_param2 : Z;
  pkt_param3 : Z
}.

(** A designated initializer [{ .type = t, .size = n, .param1 = a, ... }]:
    each value is converted to the width of its field. *)
Definition packet (t : MZW_PACKET_TYPE) (size p1 p2 p3 : Z) : PKT :=
  mkPkt t (to_u16 size) (to_u8 p1) (to_u8 p2) (to_u8 p3).

(** ** The shared state *)

Inductive mutex :=
| maze_mutex
| map_mutex
| creg_mutex
| player_mutex (p : Z).

(** What a thread does to the world outside the process memory, and its
    synchronisation calls, in program order. *)
Inductive event :=
| EvMutexInit (m : mutex)
| EvLock (m : mutex)
| EvUnlock (m : mutex)
| EvMutexDestroy (m : mutex)
| EvSemPost
| EvSemWait
| EvSemDestroy
| EvSend (fd : Z) (pkt : PKT) (data : option (list Z))
| EvShutdownRd (fd : Z)
| EvClose (fd : Z)
| EvKill (tid : Z)
| EvSleep (secs : Z)
| EvFreePlayer (p : Z)
| EvFreeRegistry
| EvFreeMaze
| EvError (msg : string)
| EvExit (status : Z).

(** struct client_registry; [cr_empty] is the value of the semaphore. *)
Record CLIENT_REGISTRY := mkRegistry {
  cr_client_fds : list Z;
  cr_count : Z;
  cr_empty : Z
}.

(** struct player.  The recursive mutex of the record is
    [player_mutex p] for the record at address [p]. *)
Record PLAYER := mkPlayer {
  p_ref_count : Z;
  p_client_fd : Z;
  p_avatar : OBJECT;
  p_name : list Z;
  p_row : Z;
  p_col : Z;
  p_dir : DIRECTION;
  p_score : Z;
  p_laser_hit : Z;
  p_thread_id : Z;
  p_last_view : VIEW;
  p_view_valid_depth : Z
}.

(** The globals of the modules and what the environment supplies.
    [maze] is the grid, row by row, the empty list standing for the NULL
    pointer; the string of each row is one byte longer than the row,
    and [maze_ends] holds that byte for each row, the NUL that ends the
    string unless it has been written over; [rand_src] is the sequence the C library's generator will
    produce and [rand_pos] the number of values drawn so far;
    [client_registry] is the object the global pointer designates, [None]
    for NULL; [heap] holds the live PLAYER records by address, [brk] is
    the next address calloc hands out and [calloc_ok] tells whether it
    succeeds; [junk n d x] is the byte the [n]-th uninitialised VIEW on
    the stack holds at row [d], column [x], and [junk_pos] the number
    of such views so far; [this_player] is the thread-local
    pointer of each thread, by thread id, and [self] the running thread;
    [trace] lists the events so far, oldest first. *)
Record World := mkWorld {
  maze : list (list Z);
  maze_ends : list Z;
  maze_rows : Z;
  maze_cols : Z;
  rand_src : nat -> Z;
  rand_pos : nat;
  client_registry : option CLIENT_REGISTRY;
  heap : gmap Z PLAYER;
  brk : Z;
  calloc_ok : bool;
  junk : nat -> Z -> Z -> Z;
  junk_pos : nat;
  player_map : list (option Z);
  this_player : gmap Z Z;
  self : Z;
  listenfd : Z;
  trace : list event
}.

Definition set_maze (g : list (list Z)) (w : World) : World :=
  mkWorld g (maze_ends w) (maze_rows w) (maze_cols w) (rand_src w) (rand_pos w)
    (client_registry w) (heap w) (brk w) (calloc_ok w) (junk w) (junk_pos w)
    (player_map w) (this_player w) (self w) (listenfd w) (trace w).

Definition set_maze_ends (e : list Z) (w : World) : World :=
  mkWorld (maze w) e (maze_rows w) (maze_cols w) (rand_src w) (rand_pos w)
    (client_registry w) (heap w) (brk w) (calloc_ok w) (junk w) (junk_pos w)
    (player_map w) (this_player w) (self w) (listenfd w) (trace w).

Definition set_maze_dims (r c : Z) (w : World) : World :=
  mkWorld (maze w) (maze_ends w) r c (rand_src w) (rand_pos w)
    (client_registry w) (heap w) (brk w) (calloc_ok w) (junk w) (junk_pos w)
    (player_map w) (this_player w) (self w) (listenfd w) (trace w).

Definition set_rand_pos (n : nat) (w : World) : World :=
  mkWorld (maze w) (maze_ends w) (maze_rows w) (maze_cols w) (rand_src w) n
    (client_registry w) (heap w) (brk w) (calloc_ok w) (junk w) (junk_pos w)
    (player_map w) (this_player w) (self w) (listenfd w) (trace w).

Definition set_client_registry (cr : option CLIENT_REGISTRY) (w : World) : World :=
  mkWorld (maze w) (maze_ends w) (maze_rows w) (maze_cols w) (rand_src w) (rand_pos w)
    cr (heap w) (brk w) (calloc_ok w) (junk w) (junk_pos w)
    (player_map w) (this_player w) (self w) (listenfd w) (trace w).

Definition set_heap (h : gmap Z PLAYER) (w : World) : World :=
  mkWorld (maze w) (maze_ends w) (maze_rows w) (maze_cols w) (rand_src w) (rand_pos w)
    (client_registry w) h (brk w) (calloc_ok w) (junk w) (junk_pos w)
    (player_map w) (this_player w) (self w) (listenfd w) (trace w).

Definition set_brk (b : Z) (w : World) : World :=
  mkWorld (maze w) (maze_ends w) (maze_rows w) (maze_cols w) (rand_src w) (rand_pos w)
    (client_registry w) (heap w) b (calloc_ok w) (junk w) (junk_pos w)
    (player_map w) (this_player w) (self w) (listenfd w) (trace w).

Definition set_junk_pos (n : nat) (w : World) : World :=
  mkWorld (maze w) (maze_ends w) (maze_rows w) (maze_cols w) (rand_src w) (rand_pos w)
    (client_registry w) (heap w) (brk w) (calloc_ok w) (junk w) n
    (player_map w) (this_player w) (self w) (listenfd w) (trace w).

Definition set_player_map (t : list (option Z)) (w : World) : World :=
  mkWorld (maze w) (maze_ends w) (maze_rows w) (maze_cols w) (rand_src w) (rand_pos w)
    (client_registry w) (heap w) (brk w) (calloc_ok w) (junk w) (junk_pos w)
    t (this_player w) (self w) (listenfd w) (trace w).

Definition set_this_player (t : gmap Z Z) (w : World) : World :=
  mkWorld (maze w) (maze_ends w) (maze_rows w) (maze_cols w) (rand_src w) (rand_pos w)
    (client_registry w) (heap w) (brk w) (calloc_ok w) (junk w) (junk_pos w)
    (player_map w) t (self w) (listenfd w) (trace w).

Definition set_trace (t : list event) (w : World) : World :=
  mkWorld (maze w) (maze_ends w) (maze_rows w) (maze_cols w) (rand_src w) (rand_pos w)
    (client_registry w) (heap w) (brk w) (calloc_ok w) (junk w) (junk_pos w)
    (player_map w) (this_player w) (self w) (listenfd w) t.

(** ** The monad *)

(** A computation over a state [S]: [None] is the absence of an
    outcome. *)
Definition ST (S A : Type) : Type := S -> option (A * S).

Definition ret {S A} (a : A) : ST S A := fun s => Some (a, s).

Definition bind {S A B} (m : ST S A) (k : A -> ST S B) : ST S B :=
  fun s => match m s with
           | Some (a, s') => k a s'
           | None => None
           end.

Definition undefined {S A} : ST S A := fun _ => None.

Definition gets {S A} (f : S -> A) : ST S A := fun s => Some (f s, s).

Definition modify {S} (f : S -> S) : ST S unit := fun s => Some (tt, f s).

Notation "x <- m ;; k" := (bind m (fun x => k))
  (at level 100, m at next level, right associativity).
Notation "m ;; k" := (bind m (fun _ => k))
  (at level 100, right associativity).

Definition M : Type -> Type := ST World.

Definition emit (e : event) : M unit :=
  modify (fun w => set_trace (trace w ++ [e]) w).

Definition pthread_mutex_init (m : mutex) : M unit := emit (EvMutexInit m).
Definition pthread_mutex_lock (m : mutex) : M unit := emit (EvLock m).
Definition pthread_mutex_unlock (m : mutex) : M unit := emit (EvUnlock m).
Definition pthread_mutex_destroy (m : mutex) : M unit := emit (EvMutexDestroy m).
Definition error (msg : string) : M unit := emit (EvError msg).

(** [for (i = from; i < from + n; i++) body(i)] without break. *)
Fixpoint for_loop (n : nat) (from : Z) (body : Z -> M unit) : M unit :=
  match n with
  | O => ret tt
  | S n' => body from ;; for_loop n' (from + 1) body
  end.

(** ** maze.c *)

(** The cell at (row, col) of the grid [g]; none outside the grid. *)
Definition maze_at (g : list (list Z)) (row col : Z) : option Z :=
  if (row <? 0) || (col <? 0) then None
  else match g !! Z.to_nat row with
       | Some line => line !! Z.to_nat col
       | None => None
       end.

Definition maze_put (g : list (list Z)) (row col : Z) (c : Z) : list (list Z) :=
  match g !! Z.to_nat row with
  | Some line => <[Z.to_nat row := <[Z.to_nat col := c]> line]> g
  | None => g
  end.

(** The byte one past the last cell of a row: (row, col) designates it
    when [row] is a row of the grid and [col] its length.  maze_init
    makes each row with strdup, so that this byte belongs to the
    string of the row. *)
Definition maze_end_at (g : list (list Z)) (ends : list Z) (row col : Z)
  : option Z :=
  if (row <? 0) || (col <? 0) then None
  else match g !! Z.to_nat row with
       | Some line =>
           if col =? Z.of_nat (length line) then ends !! Z.to_nat row else None
       | None => None
       end.

(** [maze[row][col]] read as an rvalue: a cell of the grid, or the
    byte that ends the string of a row.  Any other access is outside
    the objects of the maze and has no defined value. *)
Definition maze_read (row col : Z) : M Z :=
  fun w => match maze_at (maze w) row col with
           | Some c => Some (c, w)
           | None =>
               match maze_end_at (maze w) (maze_ends w) row col with
               | Some e => Some (e, w)
               | None => None
               end
           end.

(** [maze[row][col] = c]. *)
Definition maze_write (row col : Z) (c : Z) : M unit :=
  fun w => match maze_at (maze w) row col with
           | Some _ => Some (tt, set_maze (maze_put (maze w) row col c) w)
           | None =>
               match maze_end_at (maze w) (maze_ends w) row col with
               | Some _ =>
                   Some (tt, set_maze_ends (<[Z.to_nat row := c]> (maze_ends w)) w)
               | None => None
               end
           end.

(** The test [row < 0 || row >= maze_rows || col < 0 || col >= maze_cols]
    that maze.c writes out at each use. *)
Definition outside (rows cols : Z) (row col : Z) : bool :=
  (row <? 0) || (row >=? rows) || (col <? 0) || (col >=? cols).

Definition is_outside (row col : Z) : M bool :=
  gets (fun w => outside (maze_rows w) (maze_cols w) row col).

Definition maze_init (template : list (list Z)) : M unit :=
  match template with
  | [] => error "maze_init: invalid or empty template"
  | first :: _ =>
      pthread_mutex_init maze_mutex ;;
      modify (set_maze_dims (Z.of_nat (length template)) (Z.of_nat (length first))) ;;
      modify (set_maze template) ;;
      modify (set_maze_ends (replicate (length template) 0))
  end.

Definition maze_fini : M unit :=
  pthread_mutex_lock maze_mutex ;;
  emit EvFreeMaze ;;
  modify (set_maze []) ;;
  modify (set_maze_ends []) ;;
  pthread_mutex_unlock maze_mutex ;;
  pthread_mutex_destroy maze_mutex.

Definition maze_get_rows : M Z := gets maze_rows.

Definition maze_get_cols : M Z := gets maze_cols.

Definition maze_set_player (avatar : OBJECT) (row col : Z) : M Z :=
  pthread_mutex_lock maze_mutex ;;
  oob <- is_outside row col ;;
  if oob then
    pthread_mutex_unlock maze_mutex ;;
    ret (-1)
  else
    c <- maze_read row col ;;
    if negb (IS_EMPTY c) then
      pthread_mutex_unlock maze_mutex ;;
      ret (-1)
    else
      maze_write row col avatar ;;
      pthread_mutex_unlock maze_mutex ;;
      ret 0.

(** The value of the [char] that holds the byte [c].  The grid is an
    array of plain [char], taken to be signed as on x86-64; maze.h,
    which is not part of the sources, is taken to make OBJECT an
    [unsigned char], the type player_get gives the avatar it receives
    and the index of [player_map] requires.  A byte of 128 or more
    read from the grid is then a negative number, and an OBJECT never
    is. *)
Definition char_value (c : Z) : Z := if c <? 128 then c else c - 256.

(** The test [maze[row][col] == avatar] compares a [char] with an
    OBJECT, both promoted to [int]. *)
Definition maze_remove_player (avatar : OBJECT) (row col : Z) : M unit :=
  pthread_mutex_lock maze_mutex ;;
  c <- maze_read row col ;;
  (if char_value c =? avatar then maze_write row col EMPTY else ret tt) ;;
  pthread_mutex_unlock maze_mutex.

(** [rand()]: the next value of the generator's sequence. *)
Definition rand : M Z :=
  fun w : World => Some (rand_src w (rand_pos w), set_rand_pos (S (rand_pos w)) w).

(** C's [%] on [int]: the remainder of the division truncated towards
    zero; undefined for a zero divisor. *)
Definition c_rem (a b : Z) : M Z :=
  if b =? 0 then undefined else ret (Z.rem a b).

(** The loop of maze_set_player_random, [attempts] iterations left.
    A success stores the cell through [rowp] and [colp], which the
    model returns. *)
Fixpoint maze_set_player_random_loop (attempts : nat) (avatar : OBJECT)
  : M (option (Z * Z)) :=
  match attempts with
  | O => ret None
  | S attempts' =>
      x <- rand ;;
      rows <- maze_get_rows ;;
      r <- c_rem x rows ;;
      y <- rand ;;
      cols <- maze_get_cols ;;
      c <- c_rem y cols ;;
      rc <- maze_set_player avatar r c ;;
      if rc =? 0 then ret (Some (r, c))
      else maze_set_player_random_loop attempts' avatar
  end.

Definition max_attempts : nat := 1000.

(** Returns [Some (r, c)] for the C function's 0 with [*rowp = r] and
    [*colp = c], and [None] for its -1, which leaves both untouched. *)
Definition maze_set_player_random (avatar : OBJECT) : M (option (Z * Z)) :=
  maze_set_player_random_loop max_attempts avatar.

Definition drow : list Z := [-1; 0; 1; 0].
Definition dcol : list Z := [0; -1; 0; 1].

Definition maze_move (row col : Z) (dir : DIRECTION) : M Z :=
  pthread_mutex_lock maze_mutex ;;
  oob <- is_outside row col ;;
  if oob then
    pthread_mutex_unlock maze_mutex ;;
    ret (-1)
  else
    src <- maze_read row col ;;
    if negb (IS_AVATAR src) then
      pthread_mutex_unlock maze_mutex ;;
      ret (-1)
    else
      let new_row := row + at_dir drow dir in
      let new_col := col + at_dir dcol dir in
      oob' <- is_outside new_row new_col ;;
      if oob' then
        pthread_mutex_unlock maze_mutex ;;
        ret (-1)
      else
        dst <- maze_read new_row new_col ;;
        if negb (IS_EMPTY dst) then
          pthread_mutex_unlock maze_mutex ;;
          ret (-1)
        else
          a <- maze_read row col ;;
          maze_write new_row new_col a ;;
          maze_write row col EMPTY ;;
          pthread_mutex_unlock maze_mutex ;;
          ret 0.

(** The while loop of maze_find_target, with [fuel] bounding the number
    of iterations: no outcome when the bound is reached before the loop
    ends.  The result is the value the function returns once it has
    released the lock. *)
Fixpoint maze_find_target_loop (fuel : nat) (row col : Z) (dir : DIRECTION)
  : M OBJECT :=
  match fuel with
  | O => undefined
  | S fuel' =>
      oob <- is_outside row col ;;
      if negb oob then
        let row := row + at_dir drow dir in
        let col := col + at_dir dcol dir in
        oob <- is_outside row col ;;
        if oob then
          pthread_mutex_unlock maze_mutex ;;
          ret EMPTY
        else
          c <- maze_read row col ;;
          if negb (IS_EMPTY c) then
            pthread_mutex_unlock maze_mutex ;;
            ret (if IS_AVATAR c then c else EMPTY)
          else maze_find_target_loop fuel' row col dir
      else
        pthread_mutex_unlock maze_mutex ;;
        ret EMPTY
  end.

(** Each iteration moves one cell further along one axis, so the loop
    ends within [maze_rows + maze_cols + 1] iterations. *)
Definition maze_find_target_fuel (w : World) : nat :=
  S (Z.to_nat (maze_rows w) + Z.to_nat (maze_cols w)).

Definition maze_find_target (row col : Z) (dir : DIRECTION) : M OBJECT :=
  pthread_mutex_lock maze_mutex ;;
  fuel <- gets maze_find_target_fuel ;;
  maze_find_target_loop fuel row col dir.

Definition lrow : list Z := [0; -1; 0; 1].
Definition lcol : list Z := [-1; 0; 1; 0].

(** [view[d][x] = c] through the VIEW pointer; a row or column outside
    the caller's buffer is a write outside the object. *)
Definition view_put (view : VIEW) (d x : Z) (c : Z) : option VIEW :=
  if (d <? 0) || (x <? 0) then None
  else match view !! Z.to_nat d with
       | Some line =>
           if (Z.to_nat x <? length line)%nat
           then Some (<[Z.to_nat d := <[Z.to_nat x := c]> line]> view)
           else None
       | None => None
       end.

Definition view_write (view : VIEW) (d x : Z) (c : Z) : M VIEW :=
  match view_put view d x c with
  | Some v => ret v
  | None => undefined
  end.

(** [cond ? '*' : maze[r][c]] *)
Definition wall_or_cell (r c : Z) : M Z :=
  oob <- is_outside r c ;;
  if oob then ret 42 else maze_read r c.

(** The for loop of maze_get_view, with [n] iterations left and the
    loop counter at [d]; [actual_depth] equals [d] throughout, as both
    start at 0 and are incremented together. *)
Fixpoint maze_get_view_loop (n : nat) (view : VIEW) (row col : Z)
    (gaze : DIRECTION) (d : Z) (actual_depth : Z) : M (VIEW * Z) :=
  match n with
  | O => ret (view, actual_depth)
  | S n' =>
      let r := row + d * at_dir drow gaze in
      let c := col + d * at_dir dcol gaze in
      oob <- is_outside r c ;;
      if oob then ret (view, actual_depth)
      else
        x <- maze_read r c ;;
        view <- view_write view d CORRIDOR x ;;
        let rl := r + at_dir lrow gaze in
        let cl := c + at_dir lcol gaze in
        l <- wall_or_cell rl cl ;;
        view <- view_write view d LEFT_WALL l ;;
        let rr := r - at_dir lrow gaze in
        let cr := c - at_dir lcol gaze in
        x <- wall_or_cell rr cr ;;
        view <- view_write view d RIGHT_WALL x ;;
        maze_get_view_loop n' view row col gaze (d + 1) (actual_depth + 1)
  end.

(** Returns the caller's buffer as the function leaves it, with the
    depth it returns. *)
Definition maze_get_view (view : VIEW) (row col : Z) (gaze : DIRECTION)
    (depth : Z) : M (VIEW * Z) :=
  pthread_mutex_lock maze_mutex ;;
  r <- maze_get_view_loop (Z.to_nat depth) view row col gaze 0 0 ;;
  pthread_mutex_unlock maze_mutex ;;
  ret r.

(** ** client_registry.c *)

Definition MAX_CLIENTS : nat := 128.

(** Access to the registry through the pointer [cr]; every call in the
    server passes the global [client_registry]. *)
Definition cr_load : M CLIENT_REGISTRY :=
  fun w : World =>
    match client_registry w with
    | Some cr => Some (cr, w)
    | None => None
    end.

Definition cr_store (cr : CLIENT_REGISTRY) : M unit :=
  modify (set_client_registry (Some cr)).

(** [cr->client_fds[i]] *)
Definition client_fds_read (i : Z) : M Z :=
  cr <- cr_load ;;
  if i <? 0 then undefined
  else match cr_client_fds cr !! Z.to_nat i with
       | Some fd => ret fd
       | None => undefined
       end.

(** [cr->client_fds[i] = fd] *)
Definition client_fds_write (i : Z) (fd : Z) : M unit :=
  cr <- cr_load ;;
  if (i <? 0) || (Z.of_nat (length (cr_client_fds cr)) <=? i) then undefined
  else cr_store (mkRegistry (<[Z.to_nat i := fd]> (cr_client_fds cr))
                            (cr_count cr) (cr_empty cr)).

(** [cr->count += d] *)
Definition count_add (d : Z) : M unit :=
  cr <- cr_load ;;
  cr_store (mkRegistry (cr_client_fds cr) (cr_count cr + d) (cr_empty cr)).

Definition sem_post : M unit :=
  cr <- cr_load ;;
  cr_store (mkRegistry (cr_client_fds cr) (cr_count cr) (cr_empty cr + 1)) ;;
  emit EvSemPost.

(** [sem_wait] returns once it has decremented a positive semaphore.
    On a semaphore at zero the caller sleeps until another thread
    posts: the thread has no outcome of its own. *)
Definition sem_wait : M unit :=
  cr <- cr_load ;;
  if cr_empty cr <=? 0 then undefined
  else
    cr_store (mkRegistry (cr_client_fds cr) (cr_count cr) (cr_empty cr - 1)) ;;
    emit EvSemWait.


(** After the call the global pointer dangles; the model keeps no
    object, so that a later access has no outcome. *)
Definition creg_fini : M unit :=
  cr <- gets client_registry ;;
  match cr with
  | None => ret tt
  | Some _ =>
      pthread_mutex_destroy creg_mutex ;;
      emit EvSemDestroy ;;
      emit EvFreeRegistry ;;
      modify (set_client_registry None)
  end.

(** The loop of creg_register, [n] iterations left, at index [i]. *)
Fixpoint creg_register_loop (n : nat) (i : Z) (fd : Z) : M unit :=
  match n with
  | O => ret tt
  | S n' =>
      x <- client_fds_read i ;;
      if x =? -1 then
        client_fds_write i fd ;;
        count_add 1
      else creg_register_loop n' (i + 1) fd
  end.

Definition creg_register (fd : Z) : M unit :=
  pthread_mutex_lock creg_mutex ;;
  creg_register_loop MAX_CLIENTS 0 fd ;;
  pthread_mutex_unlock creg_mutex.

(** The loop of creg_unregister, [n] iterations left, at index [i]. *)
Fixpoint creg_unregister_loop (n : nat) (i : Z) (fd : Z) : M unit :=
  match n with
  | O => ret tt
  | S n' =>
      x <- client_fds_read i ;;
      if x =? fd then
        client_fds_write i (-1) ;;
        count_add (-1)
      else creg_unregister_loop n' (i + 1) fd
  end.

Definition creg_unregister (fd : Z) : M unit :=
  pthread_mutex_lock creg_mutex ;;
  creg_unregister_loop MAX_CLIENTS 0 fd ;;
  cr <- cr_load ;;
  (if cr_count cr =? 0 then sem_post else ret tt) ;;
  pthread_mutex_unlock creg_mutex.

Definition creg_wait_for_empty : M unit :=
  pthread_mutex_lock creg_mutex ;;
  cr <- cr_load ;;
  let empty := cr_count cr =? 0 in
  pthread_mutex_unlock creg_mutex ;;
  if negb empty then sem_wait else ret tt.

(** [sem_wait] in a thread that runs among others.  On a semaphore at
    zero the caller sleeps while the other threads run: [others] is
    what they do until the caller is woken.  The call then returns if
    the semaphore has been posted, and has no outcome if it has
    not. *)
Definition sem_wait_among (others : M unit) : M unit :=
  cr <- cr_load ;;
  if cr_empty cr <=? 0 then others ;; sem_wait else sem_wait.

(** creg_wait_for_empty in a thread that runs among others. *)
Definition creg_wait_for_empty_among (others : M unit) : M unit :=
  pthread_mutex_lock creg_mutex ;;
  cr <- cr_load ;;
  let empty := cr_count cr =? 0 in
  pthread_mutex_unlock creg_mutex ;;
  if negb empty then sem_wait_among others else ret tt.

Definition creg_shutdown_all : M unit :=
  pthread_mutex_lock creg_mutex ;;
  for_loop MAX_CLIENTS 0 (fun i =>
    fd <- client_fds_read i ;;
    if negb (fd =? -1) then emit (EvShutdownRd fd) else ret tt) ;;
  pthread_mutex_unlock creg_mutex.

(** ** protocol.c *)

(** What read() returns: the bytes it stored, none at end of file, or
    -1 with errno. *)
Inductive read_ret :=
| ReadN (bs : list Z)
| ReadFail (errno : Z).

(** What the next call to read or write will do. *)
Inductive io_event :=
| IoUpTo (k : nat)       (* the call transfers at most k + 1 bytes *)
| IoFail (errno : Z).    (* the call returns -1 and sets errno *)

(** One end of a connection as protocol.c sees it through the system
    calls: [c_in] the bytes still to arrive before end of file, [c_out]
    the bytes written so far, [c_sched] what the next calls to read and
    write will do, [c_clock] the reading clock_gettime gives ([None]
    when it fails), [c_malloc_ok] whether malloc succeeds, [c_reads]
    what the calls to read have returned so far, oldest first. *)
Record Conn := mkConn {
  c_in : list Z;
  c_out : list Z;
  c_sched : list io_event;
  c_clock : option (Z * Z);
  c_malloc_ok : bool;
  c_reads : list read_ret
}.

Definition IO : Type -> Type := ST Conn.

Definition EINTR : Z := 4.

(** The state after a call to read that consumed [n] bytes and left
    the schedule [sched], returning [r]. *)
Definition read_done (c : Conn) (n : nat) (sched : list io_event)
    (r : read_ret) : Conn :=
  mkConn (drop n (c_in c)) (c_out c) sched (c_clock c) (c_malloc_ok c)
    (c_reads c ++ [r]).

(** [read(fd, ptr, count)].  Once the schedule is used up every call
    transfers all that is asked for and available. *)
Definition sys_read (count : nat) : IO read_ret :=
  fun c =>
    match c_sched c with
    | IoFail e :: sched =>
        Some (ReadFail e, read_done c 0 sched (ReadFail e))
    | IoUpTo k :: sched =>
        let n := Nat.min (S k) count in
        Some (ReadN (take n (c_in c)),
              read_done c n sched (ReadN (take n (c_in c))))
    | [] =>
        Some (ReadN (take count (c_in c)),
              read_done c count [] (ReadN (take count (c_in c))))
    end.

(** The state after a call to write that wrote [bs] and left the
    schedule [sched]. *)
Definition write_done (c : Conn) (bs : list Z) (sched : list io_event) : Conn :=
  mkConn (c_in c) (c_out c ++ bs) sched (c_clock c) (c_malloc_ok c) (c_reads c).

(** [write(fd, ptr, count)] on the [count] bytes [buf]; returns the
    number of bytes written or -1. *)
Definition sys_write (buf : list Z) : IO Z :=
  fun c =>
    match c_sched c with
    | IoFail e :: sched => Some (-1, write_done c [] sched)
    | IoUpTo k :: sched =>
        let n := Nat.min (S k) (length buf) in
        Some (Z.of_nat n, write_done c (take n buf) sched)
    | [] => Some (Z.of_nat (length buf), write_done c buf [])
    end.

(** The loop of write_all on the bytes still to write. *)
Fixpoint write_all_loop (fuel : nat) (buf : list Z) : IO Z :=
  match fuel with
  | O => undefined
  | S fuel' =>
      if (0 <? length buf)%nat then
        n <- sys_write buf ;;
        if n <=? 0 then ret (-1)
        else write_all_loop fuel' (drop (Z.to_nat n) buf)
      else ret 0
  end.

(** [write_all(fd, buf, count)]: reading [count] bytes from a shorter
    buffer has no defined outcome.  Every iteration but the last
    writes at least one byte, so [count + 1] iterations suffice. *)
Definition write_all (buf : list Z) (count : nat) : IO Z :=
  if (length buf <? count)%nat then undefined
  else write_all_loop (S count) (take count buf).

(** The loop of read_all: [count] bytes still to read, [got] the bytes
    stored so far.  Returns the status and the buffer. *)
Fixpoint read_all_loop (fuel : nat) (count : nat) (got : list Z)
  : IO (Z * list Z) :=
  match fuel with
  | O => undefined
  | S fuel' =>
      if (0 <? count)%nat then
        r <- sys_read count ;;
        match r with
        | ReadFail e =>
            if e =? EINTR then read_all_loop fuel' count got
            else ret (-1, got)
        | ReadN bs =>
            if (length bs =? 0)%nat then ret (-1, got)
            else read_all_loop fuel' (count - length bs) (got ++ bs)
        end
      else ret (0, got)
  end.

(** Every iteration uses up an event of the schedule or reads at least
    one byte, or is the last. *)
Definition read_all (count : nat) : IO (Z * list Z) :=
  sched <- gets c_sched ;;
  read_all_loop (S (length sched + count)) count [].

Definition clock_gettime : IO (option (Z * Z)) := gets c_clock.

Section Protocol.

(** The byte order of the host. *)
Variable little_endian : bool.

Definition bswap16 (x : Z) : Z := (x mod 256) * 256 + (x / 256) mod 256.

Definition bswap32 (x : Z) : Z :=
  (x mod 256) * 16777216 + ((x / 256) mod 256) * 65536
  + ((x / 65536) mod 256) * 256 + (x / 16777216) mod 256.

Definition htons (x : Z) : Z := if little_endian then bswap16 x else x.
Definition ntohs (x : Z) : Z := if little_endian then bswap16 x else x.
Definition htonl (x : Z) : Z := if little_endian then bswap32 x else x.
Definition ntohl (x : Z) : Z := if little_endian then bswap32 x else x.

(** The bytes of a uint16_t and of a uint32_t object in the memory of
    the host, lowest address first. *)
Definition store16 (x : Z) : list Z :=
  if little_endian then [x mod 256; (x / 256) mod 256]
  else [(x / 256) mod 256; x mod 256].

Definition store32 (x : Z) : list Z :=
  if little_endian
  then [x mod 256; (x / 256) mod 256; (x / 65536) mod 256; (x / 16777216) mod 256]
  else [(x / 16777216) mod 256; (x / 65536) mod 256; (x / 256) mod 256; x mod 256].

Definition load16 (b0 b1 : Z) : Z :=
  if little_endian then b0 + 256 * b1 else 256 * b0 + b1.

Definition load32 (b0 b1 b2 b3 : Z) : Z :=
  if little_endian then b0 + 256 * b1 + 65536 * b2 + 16777216 * b3
  else 16777216 * b0 + 65536 * b1 + 256 * b2 + b3.

(** Modelled from the spec: the 16 bytes of an MZW_PACKET object, the
    fields in the order of the spec's record, each at its natural
    alignment: type at 0, size at 2, the parameters at 4, 5 and 6, the
    timestamps at 8 and 12.  [pad] holds the two padding bytes, at 1
    and 7, whose value the program never sets. *)
Definition packet_bytes (pad : Z * Z) (h : MZW_PACKET) : list Z :=
  [hdr_type h; fst pad] ++ store16 (hdr_size h)
  ++ [hdr_param1 h; hdr_param2 h; hdr_param3 h; snd pad]
  ++ store32 (hdr_timestamp_sec h) ++ store32 (hdr_timestamp_nsec h).

(** The fields of the MZW_PACKET object that holds the given bytes. *)
Definition packet_of_bytes (bs : list Z) : MZW_PACKET :=
  let b i := nth i bs 0 in
  mkHeader (b 0%nat) (load16 (b 2%nat) (b 3%nat))
    (b 4%nat) (b 5%nat) (b 6%nat)
    (load32 (b 8%nat) (b 9%nat) (b 10%nat) (b 11%nat))
    (load32 (b 12%nat) (b 13%nat) (b 14%nat) (b 15%nat)).

Definition sizeof_MZW_PACKET : nat := 16.

(** [proto_send_packet(fd, pkt, data)]; [pkt] and [data] are [None]
    for NULL.  Returns the status and the caller's packet, which the
    function stamps. *)
Definition proto_send_packet (pad : Z * Z) (pkt : option MZW_PACKET)
    (data : option (list Z)) : IO (Z * option MZW_PACKET) :=
  match pkt with
  | None => ret (-1, None)
  | Some pkt =>
      ts <- clock_gettime ;;
      match ts with
      | None => ret (-1, Some pkt)
      | Some (tv_sec, tv_nsec) =>
          let pkt := mkHeader (hdr_type pkt) (hdr_size pkt) (hdr_param1 pkt)
                       (hdr_param2 pkt) (hdr_param3 pkt)
                       (to_u32 tv_sec) (to_u32 tv_nsec) in
          let copy := mkHeader (hdr_type pkt) (htons (hdr_size pkt))
                        (hdr_param1 pkt) (hdr_param2 pkt) (hdr_param3 pkt)
                        (htonl (hdr_timestamp_sec pkt))
                        (htonl (hdr_timestamp_nsec pkt)) in
          rc <- write_all (packet_bytes pad copy) sizeof_MZW_PACKET ;;
          if rc <? 0 then ret (-1, Some pkt)
          else
            match hdr_size pkt >? 0, data with
            | true, Some data =>
                rc <- write_all data (Z.to_nat (hdr_size pkt)) ;;
                if rc <? 0 then ret (-1, Some pkt) else ret (0, Some pkt)
            | _, _ => ret (0, Some pkt)
            end
      end
  end.

(** [proto_recv_packet(fd, pkt, datap)] with both pointers valid.
    Returns the status, the header stored through [pkt] if any, and the
    payload stored through [datap], [None] for NULL. *)
Definition proto_recv_packet
  : IO (Z * option MZW_PACKET * option (list Z)) :=
  r <- read_all sizeof_MZW_PACKET ;;
  if fst r <? 0 then ret (-1, None, None)
  else
    let net_pkt := packet_of_bytes (snd r) in
    let pkt := mkHeader (hdr_type net_pkt) (ntohs (hdr_size net_pkt))
                 (hdr_param1 net_pkt) (hdr_param2 net_pkt) (hdr_param3 net_pkt)
                 (ntohl (hdr_timestamp_sec net_pkt))
                 (ntohl (hdr_timestamp_nsec net_pkt)) in
    if hdr_size pkt >? 0 then
      ok <- gets c_malloc_ok ;;
      if negb ok then ret (-1, Some pkt, None)
      else
        d <- read_all (Z.to_nat (hdr_size pkt)) ;;
        if fst d <? 0 then ret (-1, Some pkt, None)
        else ret (0, Some pkt, Some (snd d))
    else ret (0, Some pkt, None).

End Protocol.

(** ** player.c *)

(** Assignments to the fields of a PLAYER. *)
Definition set_p_ref_count (v : Z) (r : PLAYER) : PLAYER :=
  mkPlayer v (p_client_fd r) (p_avatar r) (p_name r) (p_row r) (p_col r)
    (p_dir r) (p_score r) (p_laser_hit r) (p_thread_id r) (p_last_view r) (p_view_valid_depth r).

Definition set_p_client_fd (v : Z) (r : PLAYER) : PLAYER :=
  mkPlayer (p_ref_count r) v (p_avatar r) (p_name r) (p_row r) (p_col r)
    (p_dir r) (p_score r) (p_laser_hit r) (p_thread_id r) (p_last_view r) (p_view_valid_depth r).

Definition set_p_avatar (v : OBJECT) (r : PLAYER) : PLAYER :=
  mkPlayer (p_ref_count r) (p_client_fd r) v (p_name r) (p_row r) (p_col r)
    (p_dir r) (p_score r) (p_laser_hit r) (p_thread_id r) (p_last_view r) (p_view_valid_depth r).

Definition set_p_name (v : list Z) (r : PLAYER) : PLAYER :=
  mkPlayer (p_ref_count r) (p_client_fd r) (p_avatar r) v (p_row r) (p_col r)
    (p_dir r) (p_score r) (p_laser_hit r) (p_thread_id r) (p_last_view r) (p_view_valid_depth r).

Definition set_p_row (v : Z) (r : PLAYER) : PLAYER :=
  mkPlayer (p_ref_count r) (p_client_fd r) (p_avatar r) (p_name r) v (p_col r)
    (p_dir r) (p_score r) (p_laser_hit r) (p_thread_id r) (p_last_view r) (p_view_valid_depth r).

Definition set_p_col (v : Z) (r : PLAYER) : PLAYER :=
  mkPlayer (p_ref_count r) (p_client_fd r) (p_avatar r) (p_name r) (p_row r) v
    (p_dir r) (p_score r) (p_laser_hit r) (p_thread_id r) (p_last_view r) (p_view_valid_depth r).

Definition set_p_dir (v : DIRECTION) (r : PLAYER) : PLAYER :=
  mkPlayer (p_ref_count r) (p_client_fd r) (p_avatar r) (p_name r) (p_row r) (p_col r)
    v (p_score r) (p_laser_hit r) (p_thread_id r) (p_last_view r) (p_view_valid_depth r).

Definition set_p_score (v : Z) (r : PLAYER) : PLAYER :=
  mkPlayer (p_ref_count r) (p_client_fd r) (p_avatar r) (p_name r) (p_row r) (p_col r)
    (p_dir r) v (p_laser_hit r) (p_thread_id r) (p_last_view r) (p_view_valid_depth r).

Definition set_p_laser_hit (v : Z) (r : PLAYER) : PLAYER :=
  mkPlayer (p_ref_count r) (p_client_fd r) (p_avatar r) (p_name r) (p_row r) (p_col r)
    (p_dir r) (p_score r) v (p_thread_id r) (p_last_view r) (p_view_valid_depth r).

Definition set_p_thread_id (v : Z) (r : PLAYER) : PLAYER :=
  mkPlayer (p_ref_count r) (p_client_fd r) (p_avatar r) (p_name r) (p_row r) (p_col r)
    (p_dir r) (p_score r) (p_laser_hit r) v (p_last_view r) (p_view_valid_depth r).

Definition set_p_last_view (v : VIEW) (r : PLAYER) : PLAYER :=
  mkPlayer (p_ref_count r) (p_client_fd r) (p_avatar r) (p_name r) (p_row r) (p_col r)
    (p_dir r) (p_score r) (p_laser_hit r) (p_thread_id r) v (p_view_valid_depth r).

Definition set_p_view_valid_depth (v : Z) (r : PLAYER) : PLAYER :=
  mkPlayer (p_ref_count r) (p_client_fd r) (p_avatar r) (p_name r) (p_row r) (p_col r)
    (p_dir r) (p_score r) (p_laser_hit r) (p_thread_id r) (p_last_view r) v.

Definition MAX_PLAYERS : nat := 256.

(** Access to the PLAYER at address [p]; a record that was never
    allocated or has been freed has no defined content. *)
Definition load (p : Z) : M PLAYER :=
  fun w : World =>
    match heap w !! p with
    | Some r => Some (r, w)
    | None => None
    end.

Definition store (p : Z) (r : PLAYER) : M unit :=
  fun w : World =>
    match heap w !! p with
    | Some _ => Some (tt, set_heap (<[p := r]> (heap w)) w)
    | None => None
    end.

Definition upd (p : Z) (f : PLAYER -> PLAYER) : M unit :=
  r <- load p ;;
  store p (f r).

(** [free(player)] *)
Definition free_player (p : Z) : M unit :=
  _ <- load p ;;
  modify (fun w => set_heap (delete p (heap w)) w) ;;
  emit (EvFreePlayer p).

(** [player_map[i]] *)
Definition player_map_read (i : Z) : M (option Z) :=
  fun w : World =>
    if i <? 0 then None
    else match player_map w !! Z.to_nat i with
         | Some e => Some (e, w)
         | None => None
         end.

(** [player_map[i] = e] *)
Definition player_map_write (i : Z) (e : option Z) : M unit :=
  fun w : World =>
    if (i <? 0) || (Z.of_nat (length (player_map w)) <=? i) then None
    else Some (tt, set_player_map (<[Z.to_nat i := e]> (player_map w)) w).

(** The running thread's [this_player]. *)
Definition this_player_read : M (option Z) :=
  gets (fun w => this_player w !! self w).

Definition this_player_write (e : option Z) : M unit :=
  modify (fun w =>
    set_this_player
      match e with
      | Some p => <[self w := p]> (this_player w)
      | None => delete (self w) (this_player w)
      end w).

Definition pthread_self : M Z := gets self.

(** The handler of SIGUSR1 as it runs in thread [tid]. *)
Definition handle_sigusr1 (tid : Z) : M unit :=
  tp <- gets (fun w => this_player w !! tid) ;;
  match tp with
  | Some p => upd p (set_p_laser_hit 1)
  | None => ret tt
  end.

(** [pthread_kill(tid, SIGUSR1)]; the handler is taken to run at
    once. *)
Definition pthread_kill (tid : Z) : M unit :=
  emit (EvKill tid) ;;
  handle_sigusr1 tid.

(** The call [proto_send_packet(fd, pkt, data)] as player.c and
    server.c make it: they discard its status, and what it puts on the
    wire is the subject of [proto_send_packet] above. *)
Definition send_call (fd : Z) (pkt : PKT) (data : option (list Z)) : M unit :=
  emit (EvSend fd pkt data).

(** The bytes of the C string that starts a buffer; none when the
    buffer holds no NUL, as the scan then leaves the object. *)
Fixpoint c_string (buf : list Z) : option (list Z) :=
  match buf with
  | [] => None
  | b :: rest =>
      if b =? 0 then Some []
      else match c_string rest with
           | Some s => Some (b :: s)
           | None => None
           end
  end.

Definition strdup (buf : list Z) : M (list Z) :=
  match c_string buf with
  | Some s => ret s
  | None => undefined
  end.

(** The string literal of player_login, with its terminator. *)
Definition Anonymous : list Z := [65; 110; 111; 110; 121; 109; 111; 117; 115; 0].

Section Player.

(** The depth of a VIEW, a constant of maze.h, which is not part of
    the sources. *)
Variable VIEW_DEPTH : Z.

(** [calloc(1, sizeof(PLAYER))]: a record of zero bytes at a fresh
    address, or NULL. *)
Definition calloc_player : M (option Z) :=
  ok <- gets calloc_ok ;;
  if ok then
    p <- gets brk ;;
    modify (set_brk (p + 1)) ;;
    modify (fun w =>
      set_heap (<[p := mkPlayer 0 0 0 [] 0 0 NORTH 0 0 0
                         (replicate (Z.to_nat VIEW_DEPTH) [0; 0; 0]) 0]>
                  (heap w)) w) ;;
    ret (Some p)
  else ret None.


Definition player_ref (player : Z) : M Z :=
  pthread_mutex_lock (player_mutex player) ;;
  r <- load player ;;
  store player (set_p_ref_count (p_ref_count r + 1) r) ;;
  pthread_mutex_unlock (player_mutex player) ;;
  ret player.

Definition player_unref (player : Z) : M unit :=
  pthread_mutex_lock (player_mutex player) ;;
  r <- load player ;;
  store player (set_p_ref_count (p_ref_count r - 1) r) ;;
  r <- load player ;;
  if p_ref_count r =? 0 then
    pthread_mutex_unlock (player_mutex player) ;;
    pthread_mutex_destroy (player_mutex player) ;;
    free_player player
  else
    pthread_mutex_unlock (player_mutex player).

Definition player_fini : M unit :=
  pthread_mutex_lock map_mutex ;;
  for_loop MAX_PLAYERS 0 (fun i =>
    e <- player_map_read i ;;
    match e with
    | Some p => player_unref p
    | None => ret tt
    end) ;;
  pthread_mutex_unlock map_mutex.

(** [name] is [None] for a NULL pointer.  Returns the new PLAYER or
    [None] for NULL. *)
Definition player_login (clientfd : Z) (avatar : OBJECT)
    (name : option (list Z)) : M (option Z) :=
  pthread_mutex_lock map_mutex ;;
  e <- player_map_read avatar ;;
  match e with
  | Some _ =>
      pthread_mutex_unlock map_mutex ;;
      ret None
  | None =>
      a <- calloc_player ;;
      match a with
      | None =>
          pthread_mutex_unlock map_mutex ;;
          error "player_login: Memory allocation failed" ;;
          ret None
      | Some player =>
          pthread_mutex_init (player_mutex player) ;;
          upd player (set_p_ref_count 1) ;;
          upd player (set_p_client_fd clientfd) ;;
          upd player (set_p_avatar avatar) ;;
          s <- strdup match name with Some n => n | None => Anonymous end ;;
          upd player (set_p_name s) ;;
          upd player (set_p_dir NORTH) ;;
          upd player (set_p_view_valid_depth (-1)) ;;
          placed <- maze_set_player_random avatar ;;
          match placed with
          | None =>
              pthread_mutex_destroy (player_mutex player) ;;
              free_player player ;;
              pthread_mutex_unlock map_mutex ;;
              ret None
          | Some (r, c) =>
              upd player (set_p_row r) ;;
              upd player (set_p_col c) ;;
              tid <- pthread_self ;;
              upd player (set_p_thread_id tid) ;;
              this_player_write (Some player) ;;
              player_map_write avatar (Some player) ;;
              pthread_mutex_unlock map_mutex ;;
              ret (Some player)
          end
      end
  end.

Definition player_send_packet (player : Z) (pkt : PKT)
    (data : option (list Z)) : M unit :=
  pthread_mutex_lock (player_mutex player) ;;
  r <- load player ;;
  send_call (p_client_fd r) pkt data ;;
  pthread_mutex_unlock (player_mutex player).

Definition player_logout (player : Z) : M unit :=
  pthread_mutex_lock map_mutex ;;
  r <- load player ;;
  e <- player_map_read (p_avatar r) ;;
  (if bool_decide (e = Some player)
   then player_map_write (p_avatar r) None
   else ret tt) ;;
  pthread_mutex_unlock map_mutex ;;
  r <- load player ;;
  maze_remove_player (p_avatar r) (p_row r) (p_col r) ;;
  player_send_packet player (packet MZW_SCORE_PKT 0 (p_avatar r) (-1) 0) None ;;
  player_unref player.

Definition player_get (avatar : Z) : M (option Z) :=
  pthread_mutex_lock map_mutex ;;
  p <- player_map_read avatar ;;
  match p with
  | Some q => player_ref q ;; ret tt
  | None => ret tt
  end ;;
  pthread_mutex_unlock map_mutex ;;
  ret p.

Definition player_get_location (player : Z) : M (Z * Z * DIRECTION) :=
  pthread_mutex_lock (player_mutex player) ;;
  r <- load player ;;
  pthread_mutex_unlock (player_mutex player) ;;
  ret (p_row r, p_col r, p_dir r).

Definition player_invalidate_view (player : Z) : M unit :=
  upd player (set_p_view_valid_depth (-1)).

(** [view[d][x]] read from a VIEW. *)
Definition view_read (view : VIEW) (d x : Z) : M Z :=
  if (d <? 0) || (x <? 0) then undefined
  else match view !! Z.to_nat d with
       | Some line =>
           match line !! Z.to_nat x with
           | Some c => ret c
           | None => undefined
           end
       | None => undefined
       end.

(** The bytes the next uninitialised VIEW on the stack holds. *)
Definition fresh_view (w : World) : VIEW :=
  map (fun d => map (fun x => junk w (junk_pos w) (Z.of_nat d) (Z.of_nat x))
                  (seq 0 (Z.to_nat VIEW_WIDTH)))
      (seq 0 (Z.to_nat VIEW_DEPTH)).

(** The local [char view[VIEW_DEPTH][VIEW_WIDTH]] before it is
    written: its bytes are indeterminate, and another call may find
    other bytes. *)
Definition local_view : M VIEW :=
  fun w : World => Some (fresh_view w, set_junk_pos (S (junk_pos w)) w).

Definition player_update_view (player : Z) : M unit :=
  view <- local_view ;;
  pthread_mutex_lock (player_mutex player) ;;
  r <- load player ;;
  vd <- maze_get_view view (p_row r) (p_col r) (p_dir r) VIEW_DEPTH ;;
  let view := fst vd in
  let depth := snd vd in
  r <- load player ;;
  (if p_view_valid_depth r <? 0 then
     player_send_packet player (packet MZW_CLEAR_PKT 0 0 0 0) None ;;
     for_loop (Z.to_nat depth) 0 (fun d =>
       for_loop (Z.to_nat VIEW_WIDTH) 0 (fun x =>
         c <- view_read view d x ;;
         player_send_packet player (packet MZW_SHOW_PKT 0 c x d) None))
   else
     for_loop (Z.to_nat depth) 0 (fun d =>
       for_loop (Z.to_nat VIEW_WIDTH) 0 (fun x =>
         c <- view_read view d x ;;
         r <- load player ;;
         l <- view_read (p_last_view r) d x ;;
         if negb (c =? l) then
           player_send_packet player (packet MZW_SHOW_PKT 0 c x d) None
         else ret tt))) ;;
  upd player (set_p_last_view view) ;;
  upd player (set_p_view_valid_depth depth) ;;
  pthread_mutex_unlock (player_mutex player).

(** [for (i = 0; i < MAX_PLAYERS; i++) if (player_map[i]) f(player_map[i])] *)
Definition for_each_player (f : Z -> M unit) : M unit :=
  for_loop MAX_PLAYERS 0 (fun i =>
    e <- player_map_read i ;;
    match e with
    | Some q => f q
    | None => ret tt
    end).

Definition player_move (player : Z) (sign : Z) : M Z :=
  pthread_mutex_lock (player_mutex player) ;;
  r <- load player ;;
  let move_dir := if sign =? -1 then REVERSE (p_dir r) else p_dir r in
  rc <- maze_move (p_row r) (p_col r) move_dir ;;
  (if rc =? 0 then
     match move_dir with
     | NORTH => upd player (fun r => set_p_row (p_row r - 1) r)
     | SOUTH => upd player (fun r => set_p_row (p_row r + 1) r)
     | WEST => upd player (fun r => set_p_col (p_col r - 1) r)
     | EAST => upd player (fun r => set_p_col (p_col r + 1) r)
     end
   else ret tt) ;;
  pthread_mutex_unlock (player_mutex player) ;;
  for_each_player player_update_view ;;
  ret rc.

Definition player_rotate (player : Z) (dir : Z) : M unit :=
  pthread_mutex_lock (player_mutex player) ;;
  upd player (fun r =>
    set_p_dir (if dir =? 1 then TURN_LEFT (p_dir r) else TURN_RIGHT (p_dir r)) r) ;;
  player_invalidate_view player ;;
  pthread_mutex_unlock (player_mutex player) ;;
  player_update_view player.

Definition player_fire_laser (player : Z) : M unit :=
  pthread_mutex_lock (player_mutex player) ;;
  r <- load player ;;
  target <- maze_find_target (p_row r) (p_col r) (p_dir r) ;;
  pthread_mutex_unlock (player_mutex player) ;;
  if negb (IS_AVATAR target) then ret tt
  else
    v <- player_get target ;;
    match v with
    | None => ret tt
    | Some victim =>
        pthread_mutex_lock (player_mutex victim) ;;
        upd victim (set_p_laser_hit 1) ;;
        pthread_mutex_unlock (player_mutex victim) ;;
        vr <- load victim ;;
        pthread_kill (p_thread_id vr) ;;
        pthread_mutex_lock (player_mutex player) ;;
        upd player (fun r => set_p_score (p_score r + 1) r) ;;
        r <- load player ;;
        let score := p_score r in
        pthread_mutex_unlock (player_mutex player) ;;
        r <- load player ;;
        let pkt := packet MZW_SCORE_PKT 0 (p_avatar r) score 0 in
        for_each_player (fun q => player_send_packet q pkt None) ;;
        player_unref victim
    end.

Definition player_reset (player : Z) : M unit :=
  pthread_mutex_lock (player_mutex player) ;;
  r <- load player ;;
  let old_row := p_row r in
  let old_col := p_col r in
  maze_remove_player (p_avatar r) old_row old_col ;;
  placed <- maze_set_player_random (p_avatar r) ;;
  match placed with
  | None =>
      error "player_reset: Failed to place avatar in maze" ;;
      pthread_mutex_unlock (player_mutex player)
  | Some (row, col) =>
      upd player (set_p_row row) ;;
      upd player (set_p_col col) ;;
      upd player (set_p_score 0) ;;
      pthread_mutex_unlock (player_mutex player) ;;
      for_each_player (fun q =>
        if negb (q =? player) then
          qr <- load q ;;
          player_send_packet player
            (packet MZW_SCORE_PKT 0 (p_avatar qr) (p_score qr) 0) None
        else ret tt) ;;
      r <- load player ;;
      let pkt := packet MZW_SCORE_PKT 0 (p_avatar r) 0 0 in
      for_each_player (fun q => player_send_packet q pkt None) ;;
      for_each_player player_update_view
  end.

Definition player_check_for_laser_hit (player : Z) : M unit :=
  pthread_mutex_lock (player_mutex player) ;;
  r <- load player ;;
  let hit := p_laser_hit r in
  (if negb (hit =? 0) then upd player (set_p_laser_hit 0) else ret tt) ;;
  pthread_mutex_unlock (player_mutex player) ;;
  if hit =? 0 then ret tt
  else
    pthread_mutex_lock (player_mutex player) ;;
    r <- load player ;;
    let row := p_row r in
    let col := p_col r in
    pthread_mutex_unlock (player_mutex player) ;;
    maze_remove_player (p_avatar r) row col ;;
    for_each_player player_update_view ;;
    player_send_packet player (packet MZW_ALERT_PKT 0 0 0 0) None ;;
    emit (EvSleep 3) ;;
    player_reset player.

(** The conversion [%.*s] with precision [prec] on the buffer [buf]:
    at most [prec] bytes, up to the first NUL; a negative precision
    counts as none given.  The scan has no defined outcome when it
    runs past the end of the buffer. *)
Fixpoint string_upto (n : nat) (buf : list Z) : option (list Z) :=
  match n with
  | O => Some []
  | S n' =>
      match buf with
      | [] => None
      | b :: rest =>
          if b =? 0 then Some []
          else match string_upto n' rest with
               | Some s => Some (b :: s)
               | None => None
               end
      end
  end.

Definition format_prec_s (prec : Z) (buf : list Z) : option (list Z) :=
  if prec <? 0 then c_string buf else string_upto (Z.to_nat prec) buf.

(** [snprintf(buf, size, ...)] for the formatted text [text] and a
    positive [size]: the bytes it stores, terminator included, and the
    value it returns. *)
Definition snprintf (size : nat) (text : list Z) : list Z * Z :=
  (take (size - 1) text ++ [0], Z.of_nat (length text)).

(** The text of the format ["%s[%c] %.*s"]. *)
Definition chat_text (name : list Z) (avatar : OBJECT) (prec : Z)
    (msg : list Z) : option (list Z) :=
  match format_prec_s prec msg with
  | Some m => Some (name ++ [91; to_u8 avatar; 93; 32] ++ m)
  | None => None
  end.

(** [buf] in the broadcast is the initialised part of the 1024-byte
    array. *)
Definition player_send_chat (player : Z) (msg : list Z) (len : Z) : M unit :=
  r <- load player ;;
  match chat_text (p_name r) (p_avatar r) len msg with
  | None => undefined
  | Some text =>
      let buf := fst (snprintf 1024 text) in
      let n := snd (snprintf 1024 text) in
      let pkt := packet MZW_CHAT_PKT n 0 0 0 in
      for_each_player (fun q => player_send_packet q pkt (Some buf))
  end.

(** ** server.c *)

(** A frame as proto_recv_packet delivers it: header and payload. *)
Definition frame : Type := PKT * option (list Z).

(** The locals [player] and [logged_in] of mzw_client_service. *)
Definition locals : Type := option Z * bool.

(** The use of a PLAYER pointer that must not be NULL. *)
Definition nonnull (player : option Z) : M Z :=
  match player with
  | Some p => ret p
  | None => undefined
  end.

Definition check_this_player : M unit :=
  tp <- this_player_read ;;
  match tp with
  | Some p => player_check_for_laser_hit p
  | None => ret tt
  end.

(** The switch of the service loop. *)
Definition dispatch (client_fd : Z) (st : locals) (f : frame) : M locals :=
  let pkt := fst f in
  let data := snd f in
  let player := fst st in
  let logged_in := snd st in
  match pkt_type pkt with
  | MZW_LOGIN_PKT =>
      if logged_in then ret st
      else
        let avatar := pkt_param1 pkt in
        let username := data in
        player <- player_login client_fd avatar username ;;
        this_player_write player ;;
        match player with
        | None =>
            send_call client_fd (packet MZW_INUSE_PKT 0 0 0 0) None ;;
            ret (player, logged_in)
        | Some p =>
            send_call client_fd (packet MZW_READY_PKT 0 0 0 0) None ;;
            player_reset p ;;
            ret (player, true)
        end
  | MZW_MOVE_PKT =>
      if logged_in then
        p <- nonnull player ;;
        player_move p (pkt_param1 pkt) ;;
        ret st
      else ret st
  | MZW_TURN_PKT =>
      if logged_in then
        p <- nonnull player ;;
        player_rotate p (pkt_param1 pkt) ;;
        ret st
      else ret st
  | MZW_FIRE_PKT =>
      if logged_in then
        p <- nonnull player ;;
        player_fire_laser p ;;
        ret st
      else ret st
  | MZW_REFRESH_PKT =>
      if logged_in then
        p <- nonnull player ;;
        player_invalidate_view p ;;
        player_update_view p ;;
        ret st
      else ret st
  | MZW_SEND_PKT =>
      match data with
      | Some d =>
          if logged_in then
            p <- nonnull player ;;
            player_send_chat p d (pkt_size pkt) ;;
            ret st
          else ret st
      | None => ret st
      end
  | _ => ret st
  end.

(** The service loop on the frames that arrive before the receive
    fails: the iteration in which proto_recv_packet returns an error
    checks for a hit and leaves the loop. *)
Fixpoint service_loop (client_fd : Z) (frames : list frame) (st : locals)
  : M locals :=
  match frames with
  | [] =>
      check_this_player ;;
      ret st
  | f :: rest =>
      check_this_player ;;
      check_this_player ;;
      st <- dispatch client_fd st f ;;
      service_loop client_fd rest st
  end.

Definition mzw_client_service (client_fd : Z) (frames : list frame) : M unit :=
  creg_register client_fd ;;
  st <- service_loop client_fd frames (None, false) ;;
  match fst st with
  | Some p => player_logout p
  | None => ret tt
  end ;;
  creg_unregister client_fd ;;
  emit (EvClose client_fd).

(** ** main.c *)

Definition terminate (status : Z) : M unit :=
  fd <- gets listenfd ;;
  (if fd >? 0 then emit (EvClose fd) else ret tt) ;;
  creg_shutdown_all ;;
  creg_wait_for_empty ;;
  creg_fini ;;
  player_fini ;;
  maze_fini ;;
  emit (EvExit status).

Definition EXIT_SUCCESS : Z := 0.

Definition handle_sighup (sig : Z) : M unit :=
  terminate EXIT_SUCCESS.

(** terminate and handle_sighup in the main thread of a server with
    service threads, which run ([others]) while the main thread sleeps
    in creg_wait_for_empty. *)
Definition terminate_among (others : M unit) (status : Z) : M unit :=
  fd <- gets listenfd ;;
  (if fd >? 0 then emit (EvClose fd) else ret tt) ;;
  creg_shutdown_all ;;
  creg_wait_for_empty_among others ;;
  creg_fini ;;
  player_fini ;;
  maze_fini ;;
  emit (EvExit status).

Definition handle_sighup_among (others : M unit) (sig : Z) : M unit :=
  terminate_among others EXIT_SUCCESS.

End Player.

(** * Vocabulary of the properties *)

(** The grid has [maze_rows] rows of [maze_cols] cells each, as
    maze_init leaves it when all the rows of the template have the
    length of the first. *)
Definition maze_wf (w : World) : Prop :=
  Z.of_nat (length (maze w)) = maze_rows w /\
  Forall (fun line => Z.of_nat (length line) = maze_cols w) (maze w).

(** The step a move in direction [d] makes, as (rows, columns). *)
Definition offset (d : DIRECTION) : Z * Z :=
  match d with
  | NORTH => (-1, 0)
  | WEST => (0, -1)
  | SOUTH => (1, 0)
  | EAST => (0, 1)
  end.

(** The cell [k] steps from (row, col) in direction [d]. *)
Definition ahead (row col : Z) (d : DIRECTION) (k : Z) : Z * Z :=
  (row + k * fst (offset d), col + k * snd (offset d)).

(** The world [w] with the events [evs] added to its trace. *)
Definition after (evs : list event) (w : World) : World :=
  set_trace (trace w ++ evs) w.

(** maze_move can succeed: an avatar at the source and an empty cell of
    the grid next to it. *)
Definition move_ok (w : World) (row col : Z) (dir : DIRECTION) : Prop :=
  exists a,
    maze_at (maze w) row col = Some a /\ IS_AVATAR a = true /\
    maze_at (maze w) (fst (ahead row col dir 1)) (snd (ahead row col dir 1))
    = Some EMPTY.

(** The bytes of a string. *)
Definition bytes (s : string) : list Z :=
  map (fun a => Z.of_N (Ascii.N_of_ascii a)) (list_ascii_of_string s).

(** A world around the grid [g], with an empty registry, no player,
    the generator producing 0, 1, 2, ... *)
Definition world_of (g : list (list Z)) : World :=
  mkWorld g (replicate (length g) 0) (Z.of_nat (length g))
    (match g with line :: _ => Z.of_nat (length line) | [] => 0 end)
    (fun n => Z.of_nat n) 0
    (Some (mkRegistry (replicate MAX_CLIENTS (-1)) 0 0))
    ∅ 1 true (fun _ _ _ => 63) 0%nat (replicate MAX_PLAYERS None) ∅ 7 3 [].

Definition small_maze : list (list Z) :=
  [bytes "*****"; bytes "*A  *"; bytes "* #B*"; bytes "*****"].

(** A shot from (row, col) in direction [d] stops [k] steps ahead: the
    cells 1 .. k-1 steps ahead are EMPTY cells of the grid and the cell
    [k] steps ahead is not, being outside the grid or not EMPTY. *)
Definition scan_stops (w : World) (row col : Z) (d : DIRECTION) (k : Z) : Prop :=
  1 <= k /\
  (forall j, 1 <= j < k ->
     maze_at (maze w) (fst (ahead row col d j)) (snd (ahead row col d j))
     = Some EMPTY) /\
  maze_at (maze w) (fst (ahead row col d k)) (snd (ahead row col d k))
  <> Some EMPTY.

(** What the shot hits there: the byte of the cell if it is an avatar,
    EMPTY otherwise, also past the edge of the grid. *)
Definition target_at (w : World) (row col : Z) (d : DIRECTION) (k : Z) : OBJECT :=
  match maze_at (maze w) (fst (ahead row col d k)) (snd (ahead row col d k)) with
  | Some x => if IS_AVATAR x then x else EMPTY
  | None => EMPTY
  end.

(** The number of steps from an inside cell to the first cell outside
    the grid. *)
Definition steps_to_edge (w : World) (row col : Z) (d : DIRECTION) : Z :=
  match d with
  | NORTH => row + 1
  | WEST => col + 1
  | SOUTH => maze_rows w - row
  | EAST => maze_cols w - col
  end.

(** The byte a view shows for the cell at [rc]: the cell, or a star
    outside the grid. *)
Definition cell_or_star (w : World) (rc : Z * Z) : Z :=
  match maze_at (maze w) (fst rc) (snd rc) with
  | Some x => x
  | None => 42
  end.

(** The row of a view [i] steps ahead, {LEFT_WALL, CORRIDOR,
    RIGHT_WALL}, when the left wall of a cell lies at the offset
    [left gaze] of it and the right wall at the opposite offset. *)
Definition view_row (left : DIRECTION -> Z * Z) (w : World) (row col : Z)
    (gaze : DIRECTION) (i : Z) : list Z :=
  let p := ahead row col gaze i in
  [cell_or_star w (fst p + fst (left gaze), snd p + snd (left gaze));
   cell_or_star w p;
   cell_or_star w (fst p - fst (left gaze), snd p - snd (left gaze))].

(** The left-hand offsets of the specification: those of a left turn,
    N:(0,-1), W:(+1,0), S:(0,+1), E:(-1,0). *)
Definition left_offset (d : DIRECTION) : Z * Z :=
  match d with
  | NORTH => (0, -1)
  | WEST => (1, 0)
  | SOUTH => (0, 1)
  | EAST => (-1, 0)
  end.

(** The offsets the tables [lrow] and [lcol] of maze_get_view hold. *)
Definition table_left_offset (d : DIRECTION) : Z * Z :=
  (at_dir lrow d, at_dir lcol d).

(** The number of rows maze_get_view writes. *)
Definition view_steps (w : World) (row col : Z) (gaze : DIRECTION) (depth : Z) : Z :=
  Z.max 0 (Z.min depth (steps_to_edge w row col gaze)).

(** The registry holds MAX_CLIENTS descriptors: no slot is free. *)
Definition registry_full (cr : CLIENT_REGISTRY) : Prop :=
  length (cr_client_fds cr) = MAX_CLIENTS /\
  Forall (fun x => x <> -1) (cr_client_fds cr).

(** The descriptors creg_shutdown_all shuts down, in order. *)
Definition live_fds (cr : CLIENT_REGISTRY) : list Z :=
  filter (fun x => x <> -1) (cr_client_fds cr).

(** The registry of [w] replaced by [cr]. *)
Definition with_registry (cr : CLIENT_REGISTRY) (w : World) : World :=
  set_client_registry (Some cr) w.

(** A full registry: the descriptors 100 .. 227, count 128, semaphore
    at [sem]. *)
Definition full_registry (sem : Z) : CLIENT_REGISTRY :=
  mkRegistry (map (fun i => 100 + Z.of_nat i) (seq 0 MAX_CLIENTS)) 128 sem.

(** creg_unregister for each descriptor of a list, in order. *)
Fixpoint unregister_each (fds : list Z) : M unit :=
  match fds with
  | [] => ret tt
  | fd :: rest => creg_unregister fd ;; unregister_each rest
  end.

(** A call to read that makes read_all give up: end of file, or a
    failure other than an interruption by a signal. *)
Definition bad_read (r : read_ret) : Prop :=
  match r with
  | ReadN bs => bs = []
  | ReadFail e => e <> EINTR
  end.




(** A schedule in which no call fails, and one in which calls fail by
    interruption only. *)
Definition never_fails (sched : list io_event) : Prop :=
  Forall (fun ev => match ev with IoUpTo _ => True | IoFail _ => False end) sched.

Definition only_interrupted (sched : list io_event) : Prop :=
  Forall (fun ev => match ev with IoUpTo _ => True | IoFail e => e = EINTR end) sched.

(** The values the fields of a header can hold. *)
Definition packet_in_range (pkt : MZW_PACKET) : Prop :=
  0 <= hdr_type pkt < 256 /\ 0 <= hdr_size pkt < 65536 /\
  0 <= hdr_param1 pkt < 256 /\ 0 <= hdr_param2 pkt < 256 /\
  0 <= hdr_param3 pkt < 256.

(** The packet as proto_send_packet stamps it with the clock reading
    (tv_sec, tv_nsec). *)
Definition stamped (pkt : MZW_PACKET) (tv_sec tv_nsec : Z) : MZW_PACKET :=
  mkHeader (hdr_type pkt) (hdr_size pkt) (hdr_param1 pkt) (hdr_param2 pkt)
    (hdr_param3 pkt) (to_u32 tv_sec) (to_u32 tv_nsec).

(** The payload of a frame: the first [size] bytes of the buffer when
    the size is positive, none otherwise. *)
Definition payload_of (pkt : MZW_PACKET) (data : option (list Z)) : option (list Z) :=
  match data with
  | Some d => if hdr_size pkt >? 0 then Some (take (Z.to_nat (hdr_size pkt)) d) else None
  | None => None
  end.

(** The frame is well formed: a buffer comes with a positive size and
    holds as many bytes at least. *)
Definition payload_fits (pkt : MZW_PACKET) (data : option (list Z)) : Prop :=
  match data with
  | Some d => hdr_size pkt <= Z.of_nat (length d)
  | None => hdr_size pkt = 0
  end.

(** A connection with the input [inp] and the schedule [sched], the
    clock at (7, 9). *)
Definition conn_of (inp : list Z) (sched : list io_event) : Conn :=
  mkConn inp [] sched (Some (7, 9)) true [].


(** The bytes of the payload a frame puts on the wire. *)
Definition payload_bytes (pkt : MZW_PACKET) (data : option (list Z)) : list Z :=
  match payload_of pkt data with
  | Some p => p
  | None => []
  end.

(** An event of the maze module: the lock or unlock of its mutex. *)
Definition maze_event (e : event) : Prop :=
  e = EvLock maze_mutex \/ e = EvUnlock maze_mutex.

(** [w'] differs from [w] in the grid, in the position of the random
    generator and by events of the maze module only. *)
Definition maze_step (w w' : World) : Prop :=
  maze_rows w' = maze_rows w /\ maze_cols w' = maze_cols w /\
  rand_src w' = rand_src w /\
  client_registry w' = client_registry w /\ heap w' = heap w /\
  brk w' = brk w /\ calloc_ok w' = calloc_ok w /\ junk w' = junk w /\
  player_map w' = player_map w /\ this_player w' = this_player w /\
  self w' = self w /\ listenfd w' = listenfd w /\
  exists evs, trace w' = trace w ++ evs /\ Forall maze_event evs.

(** The world [w] with the record [r] at the address [p]. *)
Definition with_player (p : Z) (r : PLAYER) (w : World) : World :=
  set_player_map (<[Z.to_nat (p_avatar r) := Some p]> (player_map w))
    (set_heap (<[p := r]> (heap w)) w).

(** A grid without a free cell: its only cell that is not a wall
    holds the avatar B.  In [limbo_world] the player A, with a score of
    5, was hit while at that cell and removed from the grid, and B has
    taken the cell since. *)
Definition full_maze : list (list Z) := [bytes "*B"].

Definition limbo_world : World :=
  mkWorld full_maze [0] 1 2 (fun n => Z.of_nat n) 0
    (Some (mkRegistry (replicate MAX_CLIENTS (-1)) 0 0))
    (<[1 := mkPlayer 1 10 65 (bytes "alice") 0 1 NORTH 5 0 7
              (replicate 8 [0; 0; 0]) (-1)]>
       (<[2 := mkPlayer 1 11 66 (bytes "bob") 0 1 NORTH 0 0 8
                 (replicate 8 [0; 0; 0]) (-1)]> ∅))
    3 true (fun _ _ _ => 63) 0%nat
    (<[66%nat := Some 2]> (<[65%nat := Some 1]> (replicate MAX_PLAYERS None)))
    (<[7 := 1]> (<[8 := 2]> ∅)) 7 3 [].

(** The claim on a reset whose random placement fails, as stated: the
    record keeps its coordinates and its score is zero afterwards. *)
Definition reset_failure_zeroes_score : Prop :=
  forall (VIEW_DEPTH : Z) (w : World) (p : Z) (r : PLAYER) (w1 w2 w' : World),
    heap w !! p = Some r ->
    maze_remove_player (p_avatar r) (p_row r) (p_col r)
      (after [EvLock (player_mutex p)] w) = Some (tt, w1) ->
    maze_set_player_random (p_avatar r) w1 = Some (None, w2) ->
    player_reset VIEW_DEPTH p w = Some (tt, w') ->
    exists r',
      heap w' !! p = Some r' /\
      p_row r' = p_row r /\ p_col r' = p_col r /\ p_score r' = 0.

(** An event that puts no frame on a connection. *)
Definition not_a_send (e : event) : Prop :=
  match e with
  | EvSend _ _ _ => False
  | _ => True
  end.

(** Every entry of the player table designates a live record. *)
Definition table_live (w : World) : Prop :=
  length (player_map w) = MAX_PLAYERS /\
  forall (i : nat) (q : Z),
    player_map w !! i = Some (Some q) -> is_Some (heap w !! q).

(** The events of player_send_packet to the player of a table entry. *)
Definition send_events (w : World) (pkt : PKT) (data : option (list Z))
    (e : option Z) : list event :=
  match e with
  | Some q =>
      match heap w !! q with
      | Some r => [EvLock (player_mutex q); EvSend (p_client_fd r) pkt data;
                   EvUnlock (player_mutex q)]
      | None => []
      end
  | None => []
  end.

(** The events of a broadcast of [pkt] with the buffer [data] to the
    players of the table, in the order of the table. *)
Definition broadcast_events (w : World) (pkt : PKT) (data : option (list Z))
  : list event :=
  concat (map (send_events w pkt data) (player_map w)).

(** The claim on the size of a CHAT frame whose text has 1024 bytes or
    more, as stated: every frame of the broadcast has the length of the
    text as its size, which is beyond the 1024 bytes of the buffer. *)
Definition chat_size_is_text_length : Prop :=
  forall (w : World) (p : Z) (r : PLAYER) (msg : list Z)
         (len : Z) (text : list Z) (w' : World) (evs : list event),
    heap w !! p = Some r ->
    chat_text (p_name r) (p_avatar r) len msg = Some text ->
    1024 <= Z.of_nat (length text) ->
    player_send_chat p msg len w = Some (tt, w') ->
    trace w' = trace w ++ evs ->
    forall fd pkt data,
      In (EvSend fd pkt data) evs ->
      pkt_size pkt = Z.of_nat (length text) /\ 1024 < pkt_size pkt.

(** A world with one player, A, of the given name. *)
Definition chat_world (name : list Z) : World :=
  mkWorld small_maze [0; 0; 0; 0] 4 5 (fun n => Z.of_nat n) 0
    (Some (mkRegistry (replicate MAX_CLIENTS (-1)) 0 0))
    (<[1 := mkPlayer 1 10 65 name 1 1 NORTH 0 0 7
              (replicate 8 [0; 0; 0]) (-1)]> ∅)
    2 true (fun _ _ _ => 63) 0%nat
    (<[65%nat := Some 1]> (replicate MAX_PLAYERS None))
    (<[7 := 1]> ∅) 7 3 [].

(** A name and a message of 32766 bytes each. *)
Definition long_name : list Z := replicate (Z.to_nat 32766) 97.
Definition long_msg : list Z := replicate (Z.to_nat 32766) 98.

(** A LOGIN frame for the avatar [avatar] with the payload [name]. *)
Definition login_frame (avatar : Z) (name : option (list Z)) : frame :=
  (mkPkt MZW_LOGIN_PKT
     (match name with Some n => Z.of_nat (length n) | None => 0 end)
     avatar 0 0, name).

(** A world in which alice plays A at (1, 1) of [small_maze], served by
    thread 7 on the descriptor 10, while thread 8, which serves the
    descriptor 11, has not logged in. *)
Definition alice_maze : list (list Z) :=
  [bytes "*****"; bytes "*A  *"; bytes "* # *"; bytes "*****"].

Definition alice_world : World :=
  mkWorld alice_maze [0; 0; 0; 0] 4 5 (fun n => Z.of_nat n) 0
    (Some (mkRegistry (<[0%nat := 10]> (<[1%nat := 11]> (replicate MAX_CLIENTS (-1)))) 2 0))
    (<[1 := mkPlayer 1 10 65 (bytes "alice") 1 1 NORTH 0 0 7
              (replicate 8 [0; 0; 0]) (-1)]> ∅)
    2 true (fun _ _ _ => 63) 0%nat
    (<[65%nat := Some 1]> (replicate MAX_PLAYERS None))
    (<[7 := 1]> ∅) 8 3 [].

(** The frames sent in a trace: descriptor and type, in order. *)
Definition frames_sent (evs : list event) : list (Z * MZW_PACKET_TYPE) :=
  omap (fun e => match e with
                 | EvSend fd pkt _ => Some (fd, pkt_type pkt)
                 | _ => None
                 end) evs.

(** No record is in the player table twice. *)
Definition table_distinct (w : World) : Prop :=
  forall (i j : nat) (q : Z),
    player_map w !! i = Some (Some q) ->
    player_map w !! j = Some (Some q) -> i = j.

(** The events of player_unref on the record of a table entry: the
    lock and unlock of its mutex, and its destruction when the count
    drops to zero. *)
Definition unref_events (w : World) (e : option Z) : list event :=
  match e with
  | Some q =>
      match heap w !! q with
      | Some r =>
          [EvLock (player_mutex q); EvUnlock (player_mutex q)]
          ++ (if p_ref_count r - 1 =? 0
              then [EvMutexDestroy (player_mutex q); EvFreePlayer q]
              else [])
      | None => []
      end
  | None => []
  end.

(** [w'] differs from [w] in the records and the trace only. *)
Definition heap_step (w w' : World) : Prop :=
  maze w' = maze w /\ maze_rows w' = maze_rows w /\ maze_cols w' = maze_cols w /\
  rand_src w' = rand_src w /\ rand_pos w' = rand_pos w /\
  client_registry w' = client_registry w /\
  brk w' = brk w /\ calloc_ok w' = calloc_ok w /\ junk w' = junk w /\
  player_map w' = player_map w /\ this_player w' = this_player w /\
  self w' = self w /\ listenfd w' = listenfd w.

(** The finalization a teardown event belongs to: the release of the
    registry, the lock of the player table, which only player_fini
    takes during teardown, the release of the grid. *)
Inductive finalization := FiniRegistry | FiniPlayer | FiniMaze.

Definition fini_mark (e : event) : option finalization :=
  match e with
  | EvFreeRegistry => Some FiniRegistry
  | EvLock map_mutex => Some FiniPlayer
  | EvFreeMaze => Some FiniMaze
  | _ => None
  end.

(** The claim on the order of the teardown, as stated: the player
    module, then the maze, then the registry. *)
Definition teardown_order_claimed : Prop :=
  forall (w : World) (status : Z) (w' : World) (evs : list event),
    terminate status w = Some (tt, w') ->
    trace w' = trace w ++ evs ->
    omap fini_mark evs = [FiniPlayer; FiniMaze; FiniRegistry].

(** creg_wait_for_empty has to sleep: clients are registered and no
    post of the semaphore is pending. *)
Definition wait_blocks (cr : CLIENT_REGISTRY) : bool :=
  negb (cr_count cr =? 0) && (cr_empty cr <=? 0).

(** The events of the teardown up to the point where
    creg_wait_for_empty has looked at the count: the close of the
    listening socket when its descriptor is positive, creg_shutdown_all,
    and the lock and unlock of creg_wait_for_empty. *)
Definition teardown_start (w : World) (cr : CLIENT_REGISTRY) : list event :=
  (if listenfd w >? 0 then [EvClose (listenfd w)] else [])
  ++ ([EvLock creg_mutex] ++ map EvShutdownRd (live_fds cr) ++ [EvUnlock creg_mutex])
  ++ [EvLock creg_mutex; EvUnlock creg_mutex].

(** The world of alice with its registry drained: what the lifecycle
    task finds when the service threads have unregistered and alice's
    record is still in the table. *)
Definition drained_world : World :=
  set_client_registry (Some (mkRegistry (replicate MAX_CLIENTS (-1)) 0 1))
    alice_world.

(** What the two service threads of [alice_world] do when their
    connections are shut down, as at the end of mzw_client_service:
    the thread of alice logs her out, and each thread unregisters its
    descriptor and closes it. *)
Definition alice_world_exits : M unit :=
  player_logout 1 ;;
  creg_unregister 10 ;;
  emit (EvClose 10) ;;
  creg_unregister 11 ;;
  emit (EvClose 11).

(** ** main.c: the start of the server *)

(** The array default_maze of main.c, without its NULL terminator. *)
Definition default_maze : list (list Z) :=
  [bytes "******************************";
   bytes "***** %%%%%%%%% &&&&&&&&&&& **";
   bytes "***** %%%%%%%%%        $$$$  *";
   bytes "*           $$$$$$ $$$$$$$$$ *";
   bytes "*##########                  *";
   bytes "*########## @@@@@@@@@@@@@@@@@*";
   bytes "*           @@@@@@@@@@@@@@@@@*";
   bytes "******************************"].


(** * Vocabulary of the further properties *)

(** All the rows of a template have the length of the first. *)
Definition rectangular (template : list (list Z)) : Prop :=
  match template with
  | [] => True
  | first :: _ => Forall (fun line => length line = length first) template
  end.

(** The direction [back] steps by the opposite of the step of [d]. *)
Definition opposite (d back : DIRECTION) : Prop :=
  offset back = (- fst (offset d), - snd (offset d)).

(** The grid [g] with the byte [x] at (row, col), cell by cell. *)
Definition cell_set (g g' : list (list Z)) (row col : Z) (x : Z) : Prop :=
  forall r c,
    maze_at g' r c = if decide (r = row /\ c = col) then Some x else maze_at g r c.

(** The [j]-th cell maze_set_player_random tries in the world [w]: the
    remainders of the next two values of the generator. *)
Definition candidate (w : World) (j : nat) : Z * Z :=
  (Z.rem (rand_src w (rand_pos w + 2 * j)%nat) (maze_rows w),
   Z.rem (rand_src w (rand_pos w + 2 * j + 1)%nat) (maze_cols w)).

(** The cell [rc] is an EMPTY cell of the grid of [w]. *)
Definition free_cell (w : World) (rc : Z * Z) : Prop :=
  maze_at (maze w) (fst rc) (snd rc) = Some EMPTY.

(** The slot [k] is the first of [fds] that holds [x]. *)
Definition first_slot (fds : list Z) (x : Z) (k : nat) : Prop :=
  fds !! k = Some x /\ forall j : nat, (j < k)%nat -> fds !! j <> Some x.


(** The four bytes of a 32-bit value in network byte order. *)
Definition be32 (x : Z) : list Z :=
  [(x / 16777216) mod 256; (x / 65536) mod 256; (x / 256) mod 256; x mod 256].

(** The 16 bytes of a header on the wire: the type, a padding byte,
    the size with its high byte first, the three parameters, a padding
    byte, and the two timestamps with their high bytes first. *)
Definition wire_header (pad : Z * Z) (h : MZW_PACKET) : list Z :=
  [hdr_type h; fst pad; hdr_size h / 256; hdr_size h mod 256;
   hdr_param1 h; hdr_param2 h; hdr_param3 h; snd pad]
  ++ be32 (hdr_timestamp_sec h) ++ be32 (hdr_timestamp_nsec h).

(** The header a receiver reads from 16 bytes of the wire. *)
Definition header_of_wire (bs : list Z) : MZW_PACKET :=
  let b i := nth i bs 0 in
  mkHeader (b 0%nat) (256 * b 2%nat + b 3%nat) (b 4%nat) (b 5%nat) (b 6%nat)
    (16777216 * b 8%nat + 65536 * b 9%nat + 256 * b 10%nat + b 11%nat)
    (16777216 * b 12%nat + 65536 * b 13%nat + 256 * b 14%nat + b 15%nat).

(** A list of bytes. *)
Definition all_bytes (bs : list Z) : Prop := Forall (fun b => 0 <= b < 256) bs.

(** The buffer given with a packet holds the bytes its size announces. *)
Definition buffer_holds (pkt : MZW_PACKET) (data : option (list Z)) : Prop :=
  match data with
  | Some d => hdr_size pkt <= Z.of_nat (length d)
  | None => True
  end.

(** The byte at row [d], column [x] of a view. *)
Definition view_cell (view : VIEW) (d x : nat) : Z := nth x (nth d view []) 0.

(** The SHOW frame for the cell at row [d], column [x] of a view. *)
Definition show_frame (view : VIEW) (d x : nat) : PKT :=
  packet MZW_SHOW_PKT 0 (view_cell view d x) (Z.of_nat x) (Z.of_nat d).

(** The frames of an update of a view of [depth] rows.  When the view
    the client has is not valid: CLEAR, then every cell, row by row,
    left wall, corridor, right wall.  Otherwise: the cells that differ
    from the view the client has, in the same order. *)
Definition update_frames (valid : Z) (old new : VIEW) (depth : nat) : list PKT :=
  if valid <? 0 then
    packet MZW_CLEAR_PKT 0 0 0 0
    :: concat (map (fun d => map (show_frame new d) (seq 0 3)) (seq 0 depth))
  else
    concat (map (fun d =>
              concat (map (fun x =>
                        if view_cell new d x =? view_cell old d x then []
                        else [show_frame new d x]) (seq 0 3)))
              (seq 0 depth)).

(** The events of player_send_packet for each of the frames [pkts], to
    the record [p] whose client is [fd]. *)
Definition sends_to (p fd : Z) (pkts : list PKT) : list event :=
  concat (map (fun pkt => [EvLock (player_mutex p); EvSend fd pkt None;
                           EvUnlock (player_mutex p)]) pkts).

(** A view has [depth] rows of three cells. *)
Definition view_shaped (depth : Z) (view : VIEW) : Prop :=
  length view = Z.to_nat depth /\ Forall (fun line => length line = 3%nat) view.

(** The record [r] after an update that has found the view [view] of
    [depth] rows. *)
Definition with_view (view : VIEW) (depth : Z) (r : PLAYER) : PLAYER :=
  set_p_view_valid_depth depth (set_p_last_view view r).

(** The record [r'] is [r] but for the view sent last and its depth. *)
Definition same_but_view (r r' : PLAYER) : Prop :=
  r' = with_view (p_last_view r') (p_view_valid_depth r') r.

(** Every player of the table has a live record, whose position is a
    cell of the grid and whose view has [VIEW_DEPTH] rows, as
    player_login makes it. *)
Definition players_ok (VIEW_DEPTH : Z) (w : World) : Prop :=
  table_live w /\
  forall (i : nat) (q : Z) (r : PLAYER),
    player_map w !! i = Some (Some q) -> heap w !! q = Some r ->
    outside (maze_rows w) (maze_cols w) (p_row r) (p_col r) = false /\
    view_shaped VIEW_DEPTH (p_last_view r).

(** [w'] differs from [w] in the views sent last to the clients, in
    their depths and in the trace only. *)
Definition views_step (VIEW_DEPTH : Z) (w w' : World) : Prop :=
  maze w' = maze w /\ maze_rows w' = maze_rows w /\ maze_cols w' = maze_cols w /\
  rand_src w' = rand_src w /\ rand_pos w' = rand_pos w /\
  client_registry w' = client_registry w /\
  brk w' = brk w /\ calloc_ok w' = calloc_ok w /\ junk w' = junk w /\
  player_map w' = player_map w /\ this_player w' = this_player w /\
  self w' = self w /\ listenfd w' = listenfd w /\
  (exists evs, trace w' = trace w ++ evs) /\
  forall q,
    match heap w !! q, heap w' !! q with
    | Some r, Some r' =>
        same_but_view r r' /\
        (view_shaped VIEW_DEPTH (p_last_view r) ->
         view_shaped VIEW_DEPTH (p_last_view r'))
    | None, None => True
    | _, _ => False
    end.

(** The view the record [q] has sent its client last is the view from
    its position in the grid as it is: its depth is the number of rows
    in sight, and its rows in sight are those of the grid. *)
Definition view_fresh (VIEW_DEPTH : Z) (w : World) (q : Z) : Prop :=
  exists r,
    heap w !! q = Some r /\
    p_view_valid_depth r = view_steps w (p_row r) (p_col r) (p_dir r) VIEW_DEPTH /\
    forall i : nat,
      Z.of_nat i < p_view_valid_depth r ->
      p_last_view r !! i
      = Some (view_row table_left_offset w (p_row r) (p_col r) (p_dir r) (Z.of_nat i)).

(** The events of player_fire_laser that hits the record [q], served
    by thread [tid], before the score is broadcast: the scan under the
    lock of the shooter [p], the look-up of the victim, the mark, the
    signal and the new score. *)
Definition hit_events (p q tid : Z) : list event :=
  [EvLock (player_mutex p); EvLock maze_mutex; EvUnlock maze_mutex;
   EvUnlock (player_mutex p);
   EvLock map_mutex; EvLock (player_mutex q); EvUnlock (player_mutex q);
   EvUnlock map_mutex;
   EvLock (player_mutex q); EvUnlock (player_mutex q);
   EvKill tid;
   EvLock (player_mutex p); EvUnlock (player_mutex p)].

(** A world in which A, served by thread 7, faces B, served by thread
    8, across one EMPTY cell. *)
Definition duel_maze : list (list Z) :=
  [bytes "*****"; bytes "*A B*"; bytes "*****"].

Definition duel_world : World :=
  mkWorld duel_maze [0; 0; 0] 3 5 (fun n => Z.of_nat n) 0
    (Some (mkRegistry (<[0%nat := 10]> (<[1%nat := 11]> (replicate MAX_CLIENTS (-1)))) 2 0))
    (<[1 := mkPlayer 1 10 65 (bytes "alice") 1 1 EAST 0 0 7
              (replicate 8 [0; 0; 0]) (-1)]>
       (<[2 := mkPlayer 1 11 66 (bytes "bob") 1 3 WEST 4 0 8
                 (replicate 8 [0; 0; 0]) (-1)]> ∅))
    3 true (fun _ _ _ => 63) 0%nat
    (<[66%nat := Some 2]> (<[65%nat := Some 1]> (replicate MAX_PLAYERS None)))
    (<[7 := 1]> (<[8 := 2]> ∅)) 7 3 [].

(** A frame that is no LOGIN. *)
Definition not_login (f : frame) : Prop := pkt_type (fst f) <> MZW_LOGIN_PKT.

(** * Properties *)

(** Unfolds the monad and the primitive accesses, then reduces the
    projections of the worlds built by the setters. *)
Ltac mred :=
  cbv beta delta [bind ret gets modify emit undefined
    pthread_mutex_lock pthread_mutex_unlock pthread_mutex_init
    pthread_mutex_destroy error maze_read maze_write is_outside
    maze_get_rows maze_get_cols] in *;
  cbn [maze maze_ends maze_rows maze_cols rand_src rand_pos client_registry heap brk
    calloc_ok junk junk_pos player_map this_player self listenfd trace
    set_maze set_maze_ends set_maze_dims set_rand_pos set_client_registry set_heap
    set_brk set_junk_pos set_player_map set_this_player set_trace negb fst snd] in *.

Lemma bind_Some {S A B} (m : ST S A) (k : A -> ST S B) s a s' :
  m s = Some (a, s') -> bind m k s = k a s'.
Proof. intros H. unfold bind. rewrite H. reflexivity. Qed.

Lemma bind_None {S A B} (m : ST S A) (k : A -> ST S B) s :
  m s = None -> bind m k s = None.
Proof. intros H. unfold bind. rewrite H. reflexivity. Qed.

Lemma after_after evs1 evs2 w : after evs2 (after evs1 w) = after (evs1 ++ evs2) w.
Proof. unfold after. mred. rewrite <- app_assoc. reflexivity. Qed.

Lemma after_nil w : after [] w = w.
Proof. unfold after. rewrite app_nil_r. destruct w; reflexivity. Qed.

Lemma emit_after e w : emit e w = Some (tt, after [e] w).
Proof. reflexivity. Qed.

(** ** The grid *)

Lemma at_dir_offset d : (at_dir drow d, at_dir dcol d) = offset d.
Proof. destruct d; reflexivity. Qed.

Lemma offset_unit d :
  (fst (offset d) = 0 /\ Z.abs (snd (offset d)) = 1) \/
  (Z.abs (fst (offset d)) = 1 /\ snd (offset d) = 0).
Proof. destruct d; simpl; lia. Qed.

Lemma outside_false rows cols r c :
  outside rows cols r c = false <-> 0 <= r < rows /\ 0 <= c < cols.
Proof. unfold outside. rewrite !orb_false_iff. lia. Qed.

Lemma outside_true rows cols r c :
  outside rows cols r c = true <-> ~ (0 <= r < rows /\ 0 <= c < cols).
Proof. rewrite <- outside_false. destruct (outside rows cols r c); intuition congruence. Qed.

Lemma maze_at_inside w r c :
  maze_wf w -> outside (maze_rows w) (maze_cols w) r c = false ->
  is_Some (maze_at (maze w) r c).
Proof.
  intros [Hr Hc] Ho. apply outside_false in Ho. unfold maze_at.
  destruct (r <? 0) eqn:E1; [lia|]. destruct (c <? 0) eqn:E2; [lia|]. simpl.
  destruct (maze w !! Z.to_nat r) as [line|] eqn:El.
  - apply lookup_lt_is_Some. rewrite Forall_lookup in Hc.
    specialize (Hc _ _ El). simpl in Hc. lia.
  - apply lookup_ge_None in El. lia.
Qed.

Lemma maze_at_Some_inside w r c x :
  maze_wf w -> maze_at (maze w) r c = Some x ->
  outside (maze_rows w) (maze_cols w) r c = false.
Proof.
  intros [Hr Hc] H. apply outside_false. unfold maze_at in H.
  destruct (r <? 0) eqn:E1; [discriminate|].
  destruct (c <? 0) eqn:E2; [discriminate|]. simpl in H.
  destruct (maze w !! Z.to_nat r) as [line|] eqn:El; [|discriminate].
  rewrite Forall_lookup in Hc. specialize (Hc _ _ El). simpl in Hc.
  apply lookup_lt_Some in H. apply lookup_lt_Some in El. lia.
Qed.

Lemma maze_at_outside w r c :
  maze_wf w -> outside (maze_rows w) (maze_cols w) r c = true ->
  maze_at (maze w) r c = None.
Proof.
  intros Hwf Ho. destruct (maze_at (maze w) r c) as [x|] eqn:E; [|reflexivity].
  apply maze_at_Some_inside in E; [congruence|assumption].
Qed.

Lemma maze_at_put g r c x r' c' :
  is_Some (maze_at g r c) ->
  maze_at (maze_put g r c x) r' c' =
  if decide (r' = r /\ c' = c) then Some x else maze_at g r' c'.
Proof.
  intros [y Hy]. unfold maze_at in *. unfold maze_put.
  destruct (r <? 0) eqn:E1; [discriminate|].
  destruct (c <? 0) eqn:E2; [discriminate|]. simpl in Hy.
  destruct (g !! Z.to_nat r) as [line|] eqn:El; [|discriminate].
  case_decide as Hd.
  - destruct Hd as [-> ->]. rewrite E1, E2. simpl.
    rewrite list_lookup_insert_eq by (apply lookup_lt_Some in El; lia).
    rewrite list_lookup_insert_eq by (apply lookup_lt_Some in Hy; lia).
    reflexivity.
  - destruct (r' <? 0) eqn:E3; [reflexivity|].
    destruct (c' <? 0) eqn:E4; [reflexivity|]. simpl.
    destruct (decide (Z.to_nat r' = Z.to_nat r)) as [e|n].
    + rewrite e. rewrite list_lookup_insert_eq by (apply lookup_lt_Some in El; lia).
      rewrite El. rewrite list_lookup_insert_ne; [reflexivity|].
      intros e2. apply Hd. lia.
    + rewrite list_lookup_insert_ne by congruence. reflexivity.
Qed.

Lemma small_maze_wf : maze_wf (world_of small_maze).
Proof. split; [reflexivity | repeat constructor]. Qed.

(** ** Broadcasts *)

Lemma player_map_read_at (w : World) (i : nat) e :
  player_map w !! i = Some e ->
  player_map_read (Z.of_nat i) w = Some (e, w).
Proof.
  intros H. unfold player_map_read.
  assert ((Z.of_nat i <? 0) = false) as -> by (apply Z.ltb_ge; lia).
  rewrite Nat2Z.id, H. reflexivity.
Qed.

Lemma player_send_packet_spec (w : World) q r pkt data :
  heap w !! q = Some r ->
  player_send_packet q pkt data w
  = Some (tt, after [EvLock (player_mutex q); EvSend (p_client_fd r) pkt data;
                     EvUnlock (player_mutex q)] w).
Proof.
  intros Hq. unfold player_send_packet.
  erewrite bind_Some by apply emit_after.
  erewrite bind_Some by (unfold load; cbn; rewrite Hq; reflexivity).
  erewrite bind_Some by apply emit_after.
  unfold pthread_mutex_unlock. rewrite emit_after, !after_after. reflexivity.
Qed.

(** The loop of a broadcast over the entries [i .. i + n - 1] of the
    table. *)
Lemma broadcast_loop (w0 : World) pkt data (n : nat) :
  forall (i : nat) (w : World),
    heap w = heap w0 -> player_map w = player_map w0 ->
    table_live w0 ->
    (i + n <= length (player_map w0))%nat ->
    for_loop n (Z.of_nat i) (fun i =>
      e <- player_map_read i ;;
      match e with
      | Some q => player_send_packet q pkt data
      | None => ret tt
      end) w
    = Some (tt, after (concat (map (send_events w0 pkt data)
                                 (take n (drop i (player_map w0))))) w).
Proof.
  induction n as [|n IH]; intros i w Hheap Hmap Hlive Hlen.
  - simpl. rewrite after_nil. reflexivity.
  - cbn [for_loop].
    destruct (lookup_lt_is_Some_2 (player_map w0) i ltac:(lia)) as [e He].
    rewrite (drop_S _ _ _ He). cbn [take map concat].
    replace (Z.of_nat i + 1) with (Z.of_nat (S i)) by lia.
    assert (Hbody : (e <- player_map_read (Z.of_nat i) ;;
                     match e with
                     | Some q => player_send_packet q pkt data
                     | None => ret tt
                     end) w
                    = Some (tt, after (send_events w0 pkt data e) w)).
    { erewrite bind_Some by (apply player_map_read_at; rewrite Hmap; exact He).
      destruct e as [q|].
      - destruct (proj2 Hlive i q He) as [r Hr]. unfold send_events. rewrite Hr.
        apply player_send_packet_spec. rewrite Hheap. exact Hr.
      - unfold send_events. rewrite after_nil. reflexivity. }
    erewrite bind_Some by exact Hbody.
    rewrite IH by (assumption || lia || (unfold after; mred; assumption)).
    rewrite after_after. reflexivity.
Qed.

Lemma for_each_player_send (w : World) pkt data :
  table_live w ->
  for_each_player (fun q => player_send_packet q pkt data) w
  = Some (tt, after (broadcast_events w pkt data) w).
Proof.
  intros Hlive. unfold for_each_player, broadcast_events.
  pose proof (broadcast_loop w pkt data MAX_PLAYERS 0 w eq_refl eq_refl Hlive) as H.
  change (Z.of_nat 0) with 0 in H. rewrite H by (rewrite (proj1 Hlive); simpl; lia).
  rewrite drop_0, <- (proj1 Hlive), firstn_all. reflexivity.
Qed.

Lemma broadcast_events_sends (w : World) pkt data fd pkt' data' :
  In (EvSend fd pkt' data') (broadcast_events w pkt data) ->
  pkt' = pkt /\ data' = data.
Proof.
  unfold broadcast_events. intros H. apply in_concat in H.
  destruct H as (evs & Hevs & Hin). apply in_map_iff in Hevs.
  destruct Hevs as (e & <- & _). unfold send_events in Hin.
  destruct e as [q|]; [|contradiction].
  destruct (heap w !! q); [|contradiction].
  simpl in Hin. destruct Hin as [H|[H|[H|[]]]]; try discriminate.
  injection H as _ <- <-. auto.
Qed.

(** ** maze_move *)

(** C3.  On a well-formed grid maze_move returns 0 or -1; it returns 0
    exactly when the source cell holds an avatar and the neighbour in
    direction [dir], at the offset of the table N:(-1,0), W:(0,-1),
    S:(+1,0), E:(0,+1), is a cell of the grid and EMPTY.  On success
    the avatar byte is in the neighbour cell, EMPTY is in the source
    cell and every other cell is as before; on failure the grid is
    unchanged.  Either way the call only adds the lock and unlock of
    the maze mutex to the trace. *)
Theorem maze_move_spec (w : World) (row col : Z) (dir : DIRECTION) :
  maze_wf w ->
  exists rc w',
    maze_move row col dir w = Some (rc, w') /\
    (rc = 0 \/ rc = -1) /\
    (rc = 0 <-> move_ok w row col dir) /\
    (rc = 0 -> forall a, maze_at (maze w) row col = Some a ->
       forall r c, maze_at (maze w') r c =
         if decide (r = row /\ c = col) then Some EMPTY
         else if decide (r = row + fst (offset dir) /\ c = col + snd (offset dir))
              then Some a
              else maze_at (maze w) r c) /\
    (rc = -1 -> maze w' = maze w) /\
    w' = after [EvLock maze_mutex; EvUnlock maze_mutex] (set_maze (maze w') w).
Proof.
  intros Hwf. unfold maze_move, move_ok, ahead.
  pose proof (at_dir_offset dir) as Ho. destruct (offset dir) as [dr dc] eqn:Eo.
  injection Ho as Hdr Hdc. rewrite Hdr, Hdc. clear Hdr Hdc.
  replace (row + 1 * fst (dr, dc)) with (row + dr) by (simpl; lia).
  replace (col + 1 * snd (dr, dc)) with (col + dc) by (simpl; lia).
  mred.
  destruct (outside (maze_rows w) (maze_cols w) row col) eqn:E1; mred.
  { eexists _, _. split; [reflexivity|]. split; [auto|].
    split; [|split; [lia|split; [reflexivity|]]].
    - split; [lia|]. intros (a & Ha & _).
      apply maze_at_Some_inside in Ha; congruence.
    - mred. rewrite <- app_assoc. reflexivity. }
  destruct (maze_at_inside w row col Hwf E1) as [a Ha]. rewrite Ha.
  destruct (IS_AVATAR a) eqn:E2; mred.
  2:{ eexists _, _. split; [reflexivity|]. split; [auto|].
      split; [|split; [lia|split; [reflexivity|]]].
      - split; [lia|]. intros (a' & Ha' & Hav & _). congruence.
      - mred. rewrite <- app_assoc. reflexivity. }
  destruct (outside (maze_rows w) (maze_cols w) (row + dr) (col + dc)) eqn:E3; mred.
  { eexists _, _. split; [reflexivity|]. split; [auto|].
    split; [|split; [lia|split; [reflexivity|]]].
    - split; [lia|]. intros (a' & _ & _ & Hd).
      apply maze_at_Some_inside in Hd; congruence.
    - mred. rewrite <- app_assoc. reflexivity. }
  destruct (maze_at_inside w _ _ Hwf E3) as [b Hb]. rewrite Hb.
  destruct (IS_EMPTY b) eqn:E4; mred.
  2:{ eexists _, _. split; [reflexivity|]. split; [auto|].
      split; [|split; [lia|split; [reflexivity|]]].
      - split; [lia|]. intros (a' & _ & _ & Hd). injection Hd as ->. discriminate.
      - mred. rewrite <- app_assoc. reflexivity. }
  assert (Hsrc : is_Some (maze_at (maze_put (maze w) (row + dr) (col + dc) a) row col)).
  { rewrite maze_at_put by eauto. case_decide; eauto. }
  destruct Hsrc as [s Hs]. rewrite Ha; mred. rewrite Hb; mred. rewrite Hs; mred.
  eexists _, _. split; [reflexivity|]. split; [auto|].
  assert (b = EMPTY) as -> by (unfold IS_EMPTY in E4; unfold EMPTY; lia).
  split; [|split; [|split; [lia|]]].
  - split; [|reflexivity]. intros _. eauto.
  - intros _ a' Ha' r c. injection Ha' as <-. mred.
    rewrite maze_at_put by eauto. case_decide; [reflexivity|].
    rewrite maze_at_put by eauto. reflexivity.
  - mred. rewrite <- app_assoc. reflexivity.
Qed.

(** The theorem at a concrete grid: the avatar A of [small_maze] moves
    east. *)
Lemma maze_move_spec_witness :
  exists rc w',
    maze_move 1 1 EAST (world_of small_maze) = Some (rc, w') /\
    (rc = 0 \/ rc = -1) /\
    (rc = 0 <-> move_ok (world_of small_maze) 1 1 EAST) /\
    (rc = 0 -> forall a, maze_at (maze (world_of small_maze)) 1 1 = Some a ->
       forall r c, maze_at (maze w') r c =
         if decide (r = 1 /\ c = 1) then Some EMPTY
         else if decide (r = 1 + fst (offset EAST) /\ c = 1 + snd (offset EAST))
              then Some a
              else maze_at (maze (world_of small_maze)) r c) /\
    (rc = -1 -> maze w' = maze (world_of small_maze)) /\
    w' = after [EvLock maze_mutex; EvUnlock maze_mutex]
           (set_maze (maze w') (world_of small_maze)).
Proof.
  apply (maze_move_spec (world_of small_maze) 1 1 EAST).
  split; [reflexivity | repeat constructor].
Defined.

Example maze_move_east :
  option_map (fun x => (fst x, maze (snd x)))
    (maze_move 1 1 EAST (world_of small_maze))
  = Some (0, [bytes "*****"; bytes "* A *"; bytes "* #B*"; bytes "*****"]).
Proof. vm_compute. reflexivity. Qed.

Example maze_move_blocked :
  option_map (fun x => (fst x, maze (snd x)))
    (maze_move 1 1 NORTH (world_of small_maze))
  = Some (-1, small_maze).
Proof. vm_compute. reflexivity. Qed.

(** ** maze_find_target *)

Lemma ahead_step row col d j :
  ahead (row + fst (offset d)) (col + snd (offset d)) d j = ahead row col d (j + 1).
Proof. unfold ahead. f_equal; lia. Qed.

Lemma ahead_one row col d :
  ahead row col d 1 = (row + fst (offset d), col + snd (offset d)).
Proof. unfold ahead. f_equal; lia. Qed.

(** The loop from an inside cell, with fuel for the steps left to the
    edge: it stops where the scan stops, unlocks and returns the
    target. *)
Lemma maze_find_target_loop_spec (w : World) (d : DIRECTION) (fuel : nat) :
  maze_wf w ->
  forall row col,
    outside (maze_rows w) (maze_cols w) row col = false ->
    steps_to_edge w row col d < Z.of_nat fuel ->
    exists k,
      scan_stops w row col d k /\
      maze_find_target_loop fuel row col d w
      = Some (target_at w row col d k, after [EvUnlock maze_mutex] w).
Proof.
  intros Hwf. induction fuel as [|fuel IH]; intros row col Hin Hfuel.
  - apply outside_false in Hin. destruct d; simpl in Hfuel; lia.
  - cbn [maze_find_target_loop]. mred. rewrite Hin. mred.
    pose proof (at_dir_offset d) as Ho. destruct (offset d) as [dr dc] eqn:Eo.
    injection Ho as Hdr Hdc. rewrite Hdr, Hdc.
    assert (Hone : ahead row col d 1 = (row + dr, col + dc)).
    { rewrite ahead_one, Eo. reflexivity. }
    destruct (outside (maze_rows w) (maze_cols w) (row + dr) (col + dc)) eqn:E1; mred.
    + exists 1. split.
      * split; [lia|]. split; [intros; lia|]. rewrite Hone. simpl.
        rewrite maze_at_outside by assumption. discriminate.
      * unfold target_at. rewrite Hone. simpl.
        rewrite maze_at_outside by assumption. reflexivity.
    + destruct (maze_at_inside w _ _ Hwf E1) as [x Hx]. rewrite Hx.
      destruct (IS_EMPTY x) eqn:E2; mred.
      * assert (x = EMPTY) as -> by (unfold IS_EMPTY in E2; unfold EMPTY; lia).
        destruct (IH (row + dr) (col + dc) E1) as (k & (Hk1 & Hk2 & Hk3) & Hrun).
        { apply outside_false in Hin, E1.
          destruct d; simpl in *; injection Eo as <- <-; lia. }
        assert (Hshift : forall j, ahead (row + dr) (col + dc) d j = ahead row col d (j + 1)).
        { intros j. rewrite <- ahead_step, Eo. reflexivity. }
        exists (k + 1). split.
        -- split; [lia|]. split.
           ++ intros j Hj. destruct (decide (j = 1)) as [->|Hne].
              ** rewrite Hone. exact Hx.
              ** replace j with ((j - 1) + 1) by lia. rewrite <- Hshift.
                 apply Hk2. lia.
           ++ rewrite <- Hshift. exact Hk3.
        -- rewrite Hrun. unfold target_at. rewrite Hshift. reflexivity.
      * exists 1. split.
        -- split; [lia|]. split; [intros; lia|]. rewrite Hone. simpl.
           rewrite Hx. intros [= ->]. discriminate.
        -- unfold target_at. rewrite Hone. simpl. rewrite Hx. reflexivity.
Qed.

Lemma steps_to_edge_fuel (w : World) row col d :
  outside (maze_rows w) (maze_cols w) row col = false ->
  steps_to_edge w row col d < Z.of_nat (maze_find_target_fuel w).
Proof.
  intros Hin. apply outside_false in Hin. unfold maze_find_target_fuel.
  destruct d; simpl; lia.
Qed.

(** C8.  From a cell of a well-formed grid maze_find_target returns:
    there is the step [k] at which the scan in direction [d] stops,
    the first cell ahead that is not an EMPTY cell of the grid; the
    result is that cell's byte if it is an avatar and EMPTY otherwise,
    also when the scan left the grid; the world after the call is the
    world before it with the lock and unlock of the maze mutex added to
    the trace, so that every cell of the grid is unchanged. *)
Theorem maze_find_target_spec (w : World) (row col : Z) (d : DIRECTION) :
  maze_wf w ->
  outside (maze_rows w) (maze_cols w) row col = false ->
  exists k w',
    scan_stops w row col d k /\
    maze_find_target row col d w = Some (target_at w row col d k, w') /\
    w' = after [EvLock maze_mutex; EvUnlock maze_mutex] w /\
    maze w' = maze w.
Proof.
  intros Hwf Hin. unfold maze_find_target. mred.
  destruct (maze_find_target_loop_spec (after [EvLock maze_mutex] w) d
              (maze_find_target_fuel w) Hwf row col Hin
              (steps_to_edge_fuel w row col d Hin)) as (k & Hk & Hrun).
  exists k, (after [EvLock maze_mutex; EvUnlock maze_mutex] w).
  split; [exact Hk|]. split; [|split; reflexivity].
  unfold after in Hrun. mred. unfold maze_find_target_fuel in *. mred.
  rewrite Hrun. unfold target_at. mred.
  rewrite <- app_assoc. reflexivity.
Qed.

(** The theorem at a concrete input: the avatar B of [small_maze]
    looks north. *)
Lemma maze_find_target_spec_witness :
  exists k w',
    scan_stops (world_of small_maze) 2 3 NORTH k /\
    maze_find_target 2 3 NORTH (world_of small_maze)
    = Some (target_at (world_of small_maze) 2 3 NORTH k, w') /\
    w' = after [EvLock maze_mutex; EvUnlock maze_mutex] (world_of small_maze) /\
    maze w' = maze (world_of small_maze).
Proof.
  apply (maze_find_target_spec (world_of small_maze) 2 3 NORTH).
  - split; [reflexivity | repeat constructor].
  - reflexivity.
Defined.

Example maze_find_target_hits :
  option_map fst (maze_find_target 1 3 SOUTH (world_of small_maze)) = Some 66.
Proof. vm_compute. reflexivity. Qed.

Example maze_find_target_wall :
  option_map fst (maze_find_target 2 3 WEST (world_of small_maze)) = Some EMPTY.
Proof. vm_compute. reflexivity. Qed.

(** ** maze_get_view *)

Lemma ahead_inside (w : World) row col d k :
  outside (maze_rows w) (maze_cols w) row col = false ->
  0 <= k ->
  (outside (maze_rows w) (maze_cols w)
     (fst (ahead row col d k)) (snd (ahead row col d k)) = false
   <-> k < steps_to_edge w row col d).
Proof.
  intros Hin Hk. rewrite outside_false. apply outside_false in Hin.
  destruct d; unfold ahead, steps_to_edge; simpl; lia.
Qed.

Lemma wall_or_cell_spec (w : World) r c :
  maze_wf w -> wall_or_cell r c w = Some (cell_or_star w (r, c), w).
Proof.
  intros Hwf. unfold wall_or_cell, cell_or_star. mred.
  destruct (outside (maze_rows w) (maze_cols w) r c) eqn:E; mred.
  - rewrite maze_at_outside by assumption. reflexivity.
  - destruct (maze_at_inside w r c Hwf E) as [x Hx]. rewrite Hx. reflexivity.
Qed.

(** The three stores of one iteration fill row [d] of the buffer. *)
Lemma view_put_row (view : VIEW) (d : nat) a b c l x r :
  view !! d = Some [a; b; c] ->
  view_put view (Z.of_nat d) CORRIDOR x = Some (<[d := [a; x; c]]> view) /\
  (view_put (<[d := [a; x; c]]> view) (Z.of_nat d) LEFT_WALL l
   = Some (<[d := [l; x; c]]> view)) /\
  (view_put (<[d := [l; x; c]]> view) (Z.of_nat d) RIGHT_WALL r
   = Some (<[d := [l; x; r]]> view)).
Proof.
  intros Hd. assert (Hlt : (d < length view)%nat) by (eapply lookup_lt_Some; eauto).
  unfold view_put, CORRIDOR, LEFT_WALL, RIGHT_WALL.
  assert ((Z.of_nat d <? 0) = false) as -> by lia.
  rewrite Nat2Z.id, Hd.
  rewrite !list_lookup_insert_eq by assumption.
  rewrite !list_insert_insert_eq. simpl. auto.
Qed.

Lemma rows3_lookup (view : VIEW) (d : nat) :
  Forall (fun line => length line = 3%nat) view ->
  (d < length view)%nat ->
  exists a b c, view !! d = Some [a; b; c].
Proof.
  intros H3 Hlt. destruct (lookup_lt_is_Some_2 view d Hlt) as [line Hl].
  rewrite Forall_lookup in H3. specialize (H3 _ _ Hl). simpl in H3.
  destruct line as [|a [|b [|c [|]]]]; try discriminate. eauto.
Qed.

(** The loop at counter [d]: it writes the rows [d .. d + m - 1], where
    [m] is the number of cells left ahead inside the grid, at most the
    number [n] of iterations left; each row holds the corridor cell and
    the two cells at the offsets of the tables [lrow] and [lcol]. *)
Lemma maze_get_view_loop_spec (w : World) row col gaze :
  maze_wf w ->
  outside (maze_rows w) (maze_cols w) row col = false ->
  forall (n d : nat) (view : VIEW),
    Forall (fun line => length line = 3%nat) view ->
    (d + n <= length view)%nat ->
    exists view',
      let m := Z.max 0 (Z.min (Z.of_nat n)
                          (steps_to_edge w row col gaze - Z.of_nat d)) in
      maze_get_view_loop n view row col gaze (Z.of_nat d) (Z.of_nat d) w
      = Some ((view', Z.of_nat d + m), w) /\
      length view' = length view /\
      forall i : nat,
        view' !! i =
        if decide (Z.of_nat d <= Z.of_nat i < Z.of_nat d + m)
        then Some (view_row table_left_offset w row col gaze (Z.of_nat i))
        else view !! i.
Proof.
  intros Hwf Hin. induction n as [|n IH]; intros d view H3 Hlen.
  - exists view. cbn zeta. cbn [maze_get_view_loop]. mred.
    replace (Z.max 0 _) with 0 by lia. rewrite Z.add_0_r.
    split; [reflexivity|]. split; [reflexivity|].
    intros i. case_decide; [lia|reflexivity].
  - cbn zeta. cbn [maze_get_view_loop]. mred.
    pose proof (at_dir_offset gaze) as Ho.
    destruct (offset gaze) as [dr dc] eqn:Eo. injection Ho as Hdr Hdc.
    rewrite Hdr, Hdc.
    assert (Hahead : ahead row col gaze (Z.of_nat d)
                     = (row + Z.of_nat d * dr, col + Z.of_nat d * dc)).
    { unfold ahead. rewrite Eo. reflexivity. }
    pose proof (ahead_inside w row col gaze (Z.of_nat d) Hin ltac:(lia)) as Hk.
    rewrite Hahead in Hk. simpl in Hk.
    destruct (outside (maze_rows w) (maze_cols w)
                (row + Z.of_nat d * dr) (col + Z.of_nat d * dc)) eqn:E1; mred.
    + exists view.
      assert (~ Z.of_nat d < steps_to_edge w row col gaze).
      { intros Hlt. apply Hk in Hlt. discriminate. }
      replace (Z.max 0 _) with 0 by lia. rewrite Z.add_0_r.
      split; [reflexivity|]. split; [reflexivity|].
      intros i. case_decide; [lia|reflexivity].
    + assert (Hdlt : Z.of_nat d < steps_to_edge w row col gaze) by (apply Hk; reflexivity).
      destruct (maze_at_inside w _ _ Hwf E1) as [x Hx]. rewrite Hx.
      destruct (rows3_lookup view d H3 ltac:(lia)) as (a & b & c & Hrow).
      set (l := cell_or_star w (row + Z.of_nat d * dr + at_dir lrow gaze,
                                col + Z.of_nat d * dc + at_dir lcol gaze)).
      set (r := cell_or_star w (row + Z.of_nat d * dr - at_dir lrow gaze,
                                col + Z.of_nat d * dc - at_dir lcol gaze)).
      destruct (view_put_row view d a b c l x r Hrow) as (P1 & P2 & P3).
      unfold view_write. rewrite P1. mred.
      rewrite wall_or_cell_spec by assumption. fold l. rewrite P2. mred.
      rewrite wall_or_cell_spec by assumption. fold r. rewrite P3. mred.
      destruct (IH (S d) (<[d := [l; x; r]]> view)) as (view' & Hrun & Hlen' & Hrows).
      { apply Forall_insert; [assumption|reflexivity]. }
      { rewrite length_insert. lia. }
      cbn zeta in Hrun.
      replace (Z.of_nat d + 1) with (Z.of_nat (S d)) by lia.
      rewrite Hrun. exists view'.
      split; [f_equal; f_equal; f_equal; lia|].
      split; [rewrite Hlen', length_insert; reflexivity|].
      intros i. rewrite Hrows.
      destruct (decide (i = d)) as [->|Hne].
      * rewrite list_lookup_insert_eq by lia.
        case_decide; [lia|]. case_decide; [|lia].
        f_equal. unfold view_row. rewrite Hahead. unfold table_left_offset.
        subst l r. unfold cell_or_star. cbn [fst snd]. rewrite Hx. reflexivity.
      * rewrite list_lookup_insert_ne by congruence.
        repeat case_decide; try lia; reflexivity.
Qed.

(** What maze_get_view does, for every gaze: from a cell of a
    well-formed grid, into a buffer of at least [depth] rows of three
    bytes, it writes one row per step ahead before the first step
    outside the grid, at most [depth] rows, returns their number and
    leaves the other rows and the grid as they were.  The walls are the
    cells at the offsets of the tables [lrow] and [lcol]. *)
Theorem maze_get_view_spec (w : World) (view : VIEW) row col gaze depth :
  maze_wf w ->
  outside (maze_rows w) (maze_cols w) row col = false ->
  Forall (fun line => length line = 3%nat) view ->
  depth <= Z.of_nat (length view) ->
  exists view',
    maze_get_view view row col gaze depth w
    = Some ((view', view_steps w row col gaze depth),
            after [EvLock maze_mutex; EvUnlock maze_mutex] w) /\
    length view' = length view /\
    forall i : nat,
      view' !! i =
      if decide (Z.of_nat i < view_steps w row col gaze depth)
      then Some (view_row table_left_offset w row col gaze (Z.of_nat i))
      else view !! i.
Proof.
  intros Hwf Hin H3 Hdepth. unfold maze_get_view. mred.
  destruct (maze_get_view_loop_spec (after [EvLock maze_mutex] w) row col gaze
              Hwf Hin (Z.to_nat depth) 0%nat view H3 ltac:(lia))
    as (view' & Hrun & Hlen & Hrows).
  cbn zeta in Hrun.
  assert (Hm : Z.max 0 (Z.min (Z.of_nat (Z.to_nat depth))
                  (steps_to_edge (after [EvLock maze_mutex] w) row col gaze
                   - Z.of_nat 0))
               = view_steps w row col gaze depth).
  { unfold view_steps. apply outside_false in Hin.
    destruct gaze; unfold steps_to_edge, after; mred; lia. }
  rewrite Hm in Hrun, Hrows. clear Hm.
  change (Z.of_nat 0) with 0 in Hrun, Hrows. rewrite Z.add_0_l in Hrun, Hrows.
  unfold after in Hrun. unfold after. mred. rewrite Hrun. mred.
  exists view'. split.
  - rewrite <- app_assoc. reflexivity.
  - split; [assumption|]. intros i. rewrite Hrows.
    repeat case_decide; try lia; reflexivity.
Qed.

(** The tables [lrow] and [lcol] agree with the left-hand offsets of
    the specification for NORTH and SOUTH and hold their opposites, the
    right-hand offsets, for WEST and EAST. *)
Lemma table_left_offset_cases (d : DIRECTION) :
  match d with
  | NORTH | SOUTH => table_left_offset d = left_offset d
  | WEST | EAST =>
      table_left_offset d = (- fst (left_offset d), - snd (left_offset d))
  end.
Proof. destruct d; reflexivity. Qed.

(** Hence the row written when the gaze is WEST or EAST is the mirror
    image of the row of the specification. *)
Lemma view_row_mirrored (w : World) row col gaze i :
  gaze = WEST \/ gaze = EAST ->
  view_row table_left_offset w row col gaze i
  = rev (view_row left_offset w row col gaze i).
Proof.
  intros [-> | ->]; unfold view_row, table_left_offset, left_offset; simpl;
    repeat f_equal; lia.
Qed.

Lemma view_row_as_specified (w : World) row col gaze i :
  gaze = NORTH \/ gaze = SOUTH ->
  view_row table_left_offset w row col gaze i
  = view_row left_offset w row col gaze i.
Proof. intros [-> | ->]; reflexivity. Qed.

(** C1, at the input where the code departs from it.  In [small_maze]
    the cell (1,3) has a wall to its north and the avatar B to its
    south.  Looking WEST from it, the left-hand cell, one unit to the
    perpendicular left at the offset (+1,0), is the one to the south, so
    that the first row of the view should be {B, space, star};
    maze_get_view writes {star, space, B}. *)
Theorem maze_get_view_west_swaps_walls :
  exists view',
    option_map fst
      (maze_get_view (replicate 4 [0; 0; 0]) 1 3 WEST 4 (world_of small_maze))
    = Some (view', 4) /\
    view' !! 0%nat = Some [42; 32; 66] /\
    view_row left_offset (world_of small_maze) 1 3 WEST 0 = [66; 32; 42].
Proof.
  eexists. split; [vm_compute; reflexivity|]. split; reflexivity.
Qed.

(** ** The client registry *)

Ltac cred :=
  cbv beta delta [cr_load cr_store client_fds_read client_fds_write count_add
    sem_post sem_wait] in *;
  mred.

Lemma client_fds_read_at (w : World) cr (i : nat) x :
  client_registry w = Some cr ->
  cr_client_fds cr !! i = Some x ->
  client_fds_read (Z.of_nat i) w = Some (x, w).
Proof.
  intros Hcr Hx. cred. rewrite Hcr.
  assert ((Z.of_nat i <? 0) = false) as -> by (apply Z.ltb_ge; lia).
  rewrite Nat2Z.id, Hx. reflexivity.
Qed.

(** A loop of creg_register that meets no free slot changes nothing. *)
Lemma creg_register_loop_full (w : World) cr fd (n i : nat) :
  client_registry w = Some cr ->
  (i + n <= length (cr_client_fds cr))%nat ->
  Forall (fun x => x <> -1) (cr_client_fds cr) ->
  creg_register_loop n (Z.of_nat i) fd w = Some (tt, w).
Proof.
  intros Hcr. revert i. induction n as [|n IH]; intros i Hlen Hfull.
  - reflexivity.
  - cbn [creg_register_loop].
    destruct (lookup_lt_is_Some_2 (cr_client_fds cr) i ltac:(lia)) as [x Hx].
    unfold bind at 1. rewrite (client_fds_read_at w cr i x Hcr Hx).
    rewrite Forall_lookup in Hfull. pose proof (Hfull _ _ Hx) as Hne. simpl in Hne.
    assert ((x =? -1) = false) as -> by lia.
    replace (Z.of_nat i + 1) with (Z.of_nat (S i)) by lia.
    apply IH; [lia|]. rewrite Forall_lookup. exact Hfull.
Qed.

(** A loop of creg_unregister that does not meet [fd] changes nothing. *)
Lemma creg_unregister_loop_absent (w : World) cr fd (n i : nat) :
  client_registry w = Some cr ->
  (i + n <= length (cr_client_fds cr))%nat ->
  ~ In fd (cr_client_fds cr) ->
  creg_unregister_loop n (Z.of_nat i) fd w = Some (tt, w).
Proof.
  intros Hcr. revert i. induction n as [|n IH]; intros i Hlen Habs.
  - reflexivity.
  - cbn [creg_unregister_loop].
    destruct (lookup_lt_is_Some_2 (cr_client_fds cr) i ltac:(lia)) as [x Hx].
    unfold bind at 1. rewrite (client_fds_read_at w cr i x Hcr Hx).
    assert (x <> fd).
    { intros ->. apply Habs. apply list_elem_of_In. eapply list_elem_of_lookup_2; eauto. }
    assert ((x =? fd) = false) as -> by lia.
    replace (Z.of_nat i + 1) with (Z.of_nat (S i)) by lia.
    apply IH; [lia|assumption].
Qed.

(** The loop of creg_shutdown_all shuts down the descriptors of the
    slots it visits that are in use, in order. *)
Lemma creg_shutdown_loop (w : World) cr (n i : nat) :
  client_registry w = Some cr ->
  (i + n <= length (cr_client_fds cr))%nat ->
  for_loop n (Z.of_nat i) (fun i =>
    fd <- client_fds_read i ;;
    if negb (fd =? -1) then emit (EvShutdownRd fd) else ret tt) w
  = Some (tt, after (map EvShutdownRd
                       (filter (fun x => x <> -1)
                          (take n (drop i (cr_client_fds cr))))) w).
Proof.
  revert w i. induction n as [|n IH]; intros w i Hcr Hlen.
  - simpl. rewrite after_nil. reflexivity.
  - cbn [for_loop].
    destruct (lookup_lt_is_Some_2 (cr_client_fds cr) i ltac:(lia)) as [x Hx].
    rewrite (drop_S _ _ _ Hx). cbn [take].
    replace (Z.of_nat i + 1) with (Z.of_nat (S i)) by lia.
    destruct (decide (x = -1)) as [->|Hne].
    + erewrite bind_Some; cycle 1.
      { erewrite bind_Some by (eapply client_fds_read_at; eauto). reflexivity. }
      rewrite IH by (assumption || lia).
      rewrite filter_cons_False by (intros H; apply H; reflexivity).
      reflexivity.
    + erewrite bind_Some; cycle 1.
      { erewrite bind_Some by (eapply client_fds_read_at; eauto).
        assert ((x =? -1) = false) as -> by lia. apply emit_after. }
      rewrite IH by (assumption || lia).
      rewrite after_after. rewrite filter_cons_True by assumption.
      reflexivity.
Qed.

Lemma creg_register_full (w : World) cr fd :
  client_registry w = Some cr ->
  registry_full cr ->
  creg_register fd w
  = Some (tt, after [EvLock creg_mutex; EvUnlock creg_mutex] w).
Proof.
  intros Hcr [Hlen Hfull]. unfold creg_register.
  erewrite bind_Some by apply emit_after.
  erewrite bind_Some.
  2:{ apply (creg_register_loop_full _ cr fd MAX_CLIENTS 0); [exact Hcr| |exact Hfull].
      rewrite Hlen. simpl. lia. }
  unfold pthread_mutex_unlock. rewrite emit_after, after_after. reflexivity.
Qed.

Lemma creg_shutdown_all_spec (w : World) cr :
  client_registry w = Some cr ->
  length (cr_client_fds cr) = MAX_CLIENTS ->
  creg_shutdown_all w
  = Some (tt, after ([EvLock creg_mutex] ++ map EvShutdownRd (live_fds cr)
                     ++ [EvUnlock creg_mutex]) w).
Proof.
  intros Hcr Hlen. unfold creg_shutdown_all.
  erewrite bind_Some by apply emit_after.
  erewrite bind_Some.
  2:{ apply (creg_shutdown_loop _ cr MAX_CLIENTS 0); [exact Hcr|].
      rewrite Hlen. simpl. lia. }
  unfold pthread_mutex_unlock. rewrite emit_after, !after_after.
  rewrite drop_0, <- Hlen, firstn_all. reflexivity.
Qed.

(** creg_wait_for_empty looks at the count alone: at zero it returns
    at once; otherwise it waits on the semaphore, which lets it through
    only if a post is pending. *)
Lemma creg_wait_for_empty_spec (w : World) cr :
  client_registry w = Some cr ->
  creg_wait_for_empty w =
  if cr_count cr =? 0
  then Some (tt, after [EvLock creg_mutex; EvUnlock creg_mutex] w)
  else if cr_empty cr <=? 0 then None
  else Some (tt, after [EvLock creg_mutex; EvUnlock creg_mutex; EvSemWait]
                   (with_registry (mkRegistry (cr_client_fds cr) (cr_count cr)
                                              (cr_empty cr - 1)) w)).
Proof.
  intros Hcr. unfold creg_wait_for_empty, with_registry, after. cred. rewrite Hcr.
  destruct (cr_count cr =? 0); mred.
  - rewrite <- app_assoc. reflexivity.
  - rewrite Hcr. destruct (cr_empty cr <=? 0); mred; [reflexivity|].
    rewrite <- !app_assoc. reflexivity.
Qed.

Lemma creg_unregister_absent (w : World) cr fd :
  client_registry w = Some cr ->
  length (cr_client_fds cr) = MAX_CLIENTS ->
  ~ In fd (cr_client_fds cr) ->
  creg_unregister fd w =
  if cr_count cr =? 0
  then Some (tt, after [EvLock creg_mutex; EvSemPost; EvUnlock creg_mutex]
                   (with_registry (mkRegistry (cr_client_fds cr) (cr_count cr)
                                              (cr_empty cr + 1)) w))
  else Some (tt, after [EvLock creg_mutex; EvUnlock creg_mutex] w).
Proof.
  intros Hcr Hlen Habs. unfold creg_unregister.
  erewrite bind_Some by apply emit_after.
  erewrite bind_Some.
  2:{ apply (creg_unregister_loop_absent _ cr fd MAX_CLIENTS 0); [exact Hcr| |exact Habs].
      rewrite Hlen. simpl. lia. }
  unfold with_registry, after. cred. rewrite Hcr.
  destruct (cr_count cr =? 0); mred.
  - rewrite Hcr. mred. rewrite <- !app_assoc. reflexivity.
  - rewrite <- app_assoc. reflexivity.
Qed.

(** C10.  The registry tracks at most MAX_CLIENTS = 128 descriptors.
    When all the slots are taken, creg_register changes neither the
    array nor the count: the world after it is the world before it with
    the lock and unlock of the registry mutex added to the trace.  A
    later creg_shutdown_all then shuts down exactly the descriptors of
    the array, so not [fd] unless it was in the array already, and a
    later creg_wait_for_empty decides on the unchanged count: it
    returns at once when the count is zero and otherwise waits for a
    post.  creg_unregister of a descriptor that is in no slot leaves
    the array and the count as they are, and posts the semaphore
    exactly when the count is zero. *)
Theorem creg_capacity (w : World) (cr : CLIENT_REGISTRY) (fd : Z) :
  client_registry w = Some cr ->
  registry_full cr ->
  let w1 := after [EvLock creg_mutex; EvUnlock creg_mutex] w in
  MAX_CLIENTS = 128%nat /\
  creg_register fd w = Some (tt, w1) /\
  client_registry w1 = Some cr /\
  creg_shutdown_all w1
  = Some (tt, after ([EvLock creg_mutex] ++ map EvShutdownRd (cr_client_fds cr)
                     ++ [EvUnlock creg_mutex]) w1) /\
  (~ In fd (cr_client_fds cr) ->
   ~ In (EvShutdownRd fd) (map EvShutdownRd (cr_client_fds cr))) /\
  (creg_wait_for_empty w1 =
   if cr_count cr =? 0
   then Some (tt, after [EvLock creg_mutex; EvUnlock creg_mutex] w1)
   else if cr_empty cr <=? 0 then None
   else Some (tt, after [EvLock creg_mutex; EvUnlock creg_mutex; EvSemWait]
                    (with_registry (mkRegistry (cr_client_fds cr) (cr_count cr)
                                               (cr_empty cr - 1)) w1))) /\
  (forall (w2 : World) (cr2 : CLIENT_REGISTRY) (fd2 : Z),
     client_registry w2 = Some cr2 ->
     length (cr_client_fds cr2) = MAX_CLIENTS ->
     ~ In fd2 (cr_client_fds cr2) ->
     creg_unregister fd2 w2 =
     if cr_count cr2 =? 0
     then Some (tt, after [EvLock creg_mutex; EvSemPost; EvUnlock creg_mutex]
                      (with_registry (mkRegistry (cr_client_fds cr2) (cr_count cr2)
                                                 (cr_empty cr2 + 1)) w2))
     else Some (tt, after [EvLock creg_mutex; EvUnlock creg_mutex] w2)).
Proof.
  intros Hcr Hfull w1.
  assert (Hcr1 : client_registry w1 = Some cr) by exact Hcr.
  split; [reflexivity|].
  split; [apply (creg_register_full w cr fd); assumption|].
  split; [exact Hcr1|].
  split.
  { rewrite (creg_shutdown_all_spec w1 cr Hcr1 (proj1 Hfull)).
    unfold live_fds. destruct Hfull as [_ Hall].
    replace (filter (fun x => x <> -1) (cr_client_fds cr)) with (cr_client_fds cr);
      [reflexivity|].
    induction Hall as [|x l Hx Hall IH]; [reflexivity|].
    rewrite filter_cons_True by assumption. f_equal. exact IH. }
  split.
  { intros Habs Hin. apply in_map_iff in Hin. destruct Hin as (x & [= ->] & Hx).
    contradiction. }
  split; [apply creg_wait_for_empty_spec; exact Hcr1|].
  intros w2 cr2 fd2 H1 H2 H3. apply creg_unregister_absent; assumption.
Qed.

(** The theorem at a full registry holding the descriptors 100 .. 227,
    for the new descriptor 500. *)
Lemma creg_capacity_witness :
  creg_register 500 (with_registry (full_registry 0) (world_of small_maze))
  = Some (tt, after [EvLock creg_mutex; EvUnlock creg_mutex]
                (with_registry (full_registry 0) (world_of small_maze))).
Proof.
  refine (proj1 (proj2 (creg_capacity
            (with_registry (full_registry 0) (world_of small_maze))
            (full_registry 0) 500 _ _))).
  - reflexivity.
  - split; [reflexivity|]. apply Forall_forall. intros x Hx.
    apply list_elem_of_In, in_map_iff in Hx. destruct Hx as (i & <- & _). lia.
Defined.

(** A run on that registry: the 129th connection registers and is not
    tracked; once the 128 tracked connections have unregistered the
    count is zero and a post is pending, so that creg_wait_for_empty
    returns although the 129th connection never unregistered. *)
Example untracked_fd_not_awaited :
  option_map (fun x => client_registry (snd x))
    ((creg_register 500 ;;
      unregister_each (cr_client_fds (full_registry 0)) ;;
      creg_wait_for_empty)
       (with_registry (full_registry 0) (world_of small_maze)))
  = Some (Some (mkRegistry (replicate MAX_CLIENTS (-1)) 0 1)).
Proof. vm_compute. reflexivity. Qed.

(** ** read_all and proto_recv_packet *)

Lemma take_take_drop {A} (l : list A) (n m : nat) :
  (n <= m)%nat -> take n l ++ take (m - n) (drop n l) = take m l.
Proof.
  revert l m. induction n as [|n IH]; intros l m H.
  - simpl. rewrite Nat.sub_0_r. reflexivity.
  - destruct m as [|m]; [lia|]. destruct l as [|a l]; [simpl; rewrite take_nil; reflexivity|].
    simpl. f_equal. apply IH. lia.
Qed.

(** read_all on any state, with fuel for the schedule and the count:
    it returns 0 or -1, and -1 exactly when one of its reads met end of
    file or failed otherwise than by interruption; on 0 the buffer
    holds the next [count] bytes of the input. *)
Lemma read_all_loop_spec (fuel : nat) :
  forall (count : nat) (got : list Z) (c : Conn),
    (length (c_sched c) + count < fuel)%nat ->
    exists rc got' c' log,
      read_all_loop fuel count got c = Some ((rc, got'), c') /\
      (rc = 0 \/ rc = -1) /\
      c_reads c' = c_reads c ++ log /\
      (rc = -1 <-> Exists bad_read log) /\
      c_out c' = c_out c /\ c_clock c' = c_clock c /\
      c_malloc_ok c' = c_malloc_ok c /\
      (exists used, c_sched c = used ++ c_sched c') /\
      (rc = 0 -> got' = got ++ take count (c_in c) /\
                 (count <= length (c_in c))%nat /\
                 c_in c' = drop count (c_in c)) /\
      (only_interrupted (c_sched c) -> (count <= length (c_in c))%nat -> rc = 0).
Proof.
  induction fuel as [|fuel IH]; intros count got c Hfuel; [lia|].
  cbn [read_all_loop].
  destruct count as [|count'].
  { simpl. exists 0, got, c, []. unfold ret.
    split; [reflexivity|]. split; [auto|]. split; [rewrite app_nil_r; reflexivity|].
    split; [split; [lia|intros H; inversion H]|].
    do 3 (split; [reflexivity|]). split; [exists []; reflexivity|].
    split; [|auto]. intros _. rewrite take_0, app_nil_r, drop_0. split; [reflexivity|].
    split; [lia|reflexivity]. }
  remember (S count') as count eqn:Ecount.
  assert ((0 <? count)%nat = true) as -> by (apply Nat.ltb_lt; lia).
  unfold bind, sys_read.
  destruct (c_sched c) as [|[k|e] sched] eqn:Es.
  - (* the schedule is used up *)
    set (bs := take count (c_in c)).
    destruct (decide (bs = [])) as [Hbs|Hbs].
    + rewrite Hbs. simpl.
      exists (-1), got, (read_done c count [] (ReadN [])), [ReadN []]. unfold ret.
      split; [reflexivity|]. split; [auto|]. split; [reflexivity|].
      split; [split; [intros _; constructor; reflexivity|reflexivity]|].
      do 3 (split; [reflexivity|]). split; [exists []; reflexivity|].
      split; [lia|]. intros _ Hlen. exfalso.
      subst bs. apply (f_equal length) in Hbs. rewrite length_take in Hbs.
      simpl in Hbs. lia.
    + assert (Hl : (length bs =? 0)%nat = false).
      { apply Nat.eqb_neq. destruct bs; [congruence|simpl; lia]. }
      rewrite Hl.
      destruct (IH (count - length bs)%nat (got ++ bs)
                  (read_done c count [] (ReadN bs)))
        as (rc & got' & c' & log & Hrun & Hrc & Hlog & Hbad & Ho & Hc & Hm & Hu & Hok & Hint).
      { simpl. apply Nat.eqb_neq in Hl. lia. }
      exists rc, got', c', (ReadN bs :: log).
      split; [exact Hrun|]. split; [exact Hrc|].
      split; [rewrite Hlog; simpl; rewrite <- app_assoc; reflexivity|].
      split.
      { rewrite Hbad. split; [intros H; right; exact H|].
        intros H. inversion H; subst; [simpl in *; contradiction|assumption]. }
      do 3 (split; [assumption|]).
      split; [destruct Hu as [used Hu]; exists []; simpl in *;
              destruct used; [assumption|discriminate]|].
      assert (Hlb : length bs = Nat.min count (length (c_in c)))
        by (subst bs; apply length_take).
      split.
      * intros H0. destruct (Hok H0) as (Hg & Hle & Hin). simpl in Hle, Hin, Hg.
        rewrite length_drop in Hle.
        assert (count <= length (c_in c))%nat by lia.
        assert (length bs = count) by lia.
        split; [|split; [lia|]].
        -- rewrite Hg, <- app_assoc. f_equal.
           replace (count - length bs)%nat with 0%nat by lia.
           rewrite take_0, app_nil_r. reflexivity.
        -- rewrite Hin. replace (count - length bs)%nat with 0%nat by lia.
           rewrite drop_0. reflexivity.
      * intros _ Hle. apply Hint; [constructor|]. simpl.
        rewrite length_drop. lia.
  - (* a short read *)
    set (n := Nat.min (S k) count). set (bs := take n (c_in c)).
    destruct (decide (bs = [])) as [Hbs|Hbs].
    + rewrite Hbs. simpl.
      exists (-1), got, (read_done c n sched (ReadN [])), [ReadN []]. unfold ret.
      split; [reflexivity|]. split; [auto|]. split; [reflexivity|].
      split; [split; [intros _; constructor; reflexivity|reflexivity]|].
      do 3 (split; [reflexivity|]). split; [exists [IoUpTo k]; reflexivity|].
      split; [lia|]. intros _ Hlen. exfalso.
      subst bs. apply (f_equal length) in Hbs. rewrite length_take in Hbs.
      simpl in Hbs. lia.
    + assert (Hl : (length bs =? 0)%nat = false).
      { apply Nat.eqb_neq. destruct bs; [congruence|simpl; lia]. }
      rewrite Hl.
      destruct (IH (count - length bs)%nat (got ++ bs)
                  (read_done c n sched (ReadN bs)))
        as (rc & got' & c' & log & Hrun & Hrc & Hlog & Hbad & Ho & Hc & Hm & Hu & Hok & Hint).
      { simpl in *. apply Nat.eqb_neq in Hl. lia. }
      exists rc, got', c', (ReadN bs :: log).
      split; [exact Hrun|]. split; [exact Hrc|].
      split; [rewrite Hlog; simpl; rewrite <- app_assoc; reflexivity|].
      split.
      { rewrite Hbad. split; [intros H; right; exact H|].
        intros H. inversion H; subst; [simpl in *; contradiction|assumption]. }
      do 3 (split; [assumption|]).
      split; [destruct Hu as [used Hu]; exists (IoUpTo k :: used); simpl in *;
              rewrite Hu; reflexivity|].
      assert (Hlb : length bs = Nat.min n (length (c_in c)))
        by (subst bs; apply length_take).
      split.
      * intros H0. destruct (Hok H0) as (Hg & Hle & Hin). simpl in Hle, Hin, Hg.
        rewrite length_drop in Hle.
        assert (n <= length (c_in c))%nat by lia.
        assert (length bs = n) by lia.
        split; [|split; [lia|]].
        -- rewrite Hg, <- app_assoc. f_equal. subst bs.
           replace (length (take n (c_in c))) with n by lia.
           apply take_take_drop. lia.
        -- rewrite Hin, drop_drop. f_equal. lia.
      * intros Hoi Hle. apply Hint.
        -- simpl. inversion Hoi; assumption.
        -- simpl. rewrite length_drop. lia.
  - (* a failure *)
    destruct (e =? EINTR) eqn:Ee.
    + destruct (IH count got (read_done c 0 sched (ReadFail e)))
        as (rc & got' & c' & log & Hrun & Hrc & Hlog & Hbad & Ho & Hc & Hm & Hu & Hok & Hint).
      { simpl in *. lia. }
      exists rc, got', c', (ReadFail e :: log).
      split; [exact Hrun|]. split; [exact Hrc|].
      split; [rewrite Hlog; simpl; rewrite <- app_assoc; reflexivity|].
      split.
      { rewrite Hbad. split; [intros H; right; exact H|].
        intros H. inversion H; subst; [simpl in *; lia|assumption]. }
      do 3 (split; [assumption|]).
      split; [destruct Hu as [used Hu]; exists (IoFail e :: used); simpl in *;
              rewrite Hu; reflexivity|].
      split.
      * intros H0. destruct (Hok H0) as (Hg & Hle & Hin). simpl in Hle, Hin, Hg.
        rewrite drop_0 in *. auto.
      * intros Hoi Hle. apply Hint.
        -- simpl. inversion Hoi; assumption.
        -- simpl. rewrite drop_0. lia.
    + exists (-1), got, (read_done c 0 sched (ReadFail e)), [ReadFail e]. unfold ret.
      split; [reflexivity|]. split; [auto|]. split; [reflexivity|].
      split; [split; [intros _; constructor; simpl; lia|reflexivity]|].
      do 3 (split; [reflexivity|]). split; [exists [IoFail e]; reflexivity|].
      split; [lia|]. intros Hoi _. inversion Hoi; subst. lia.
Qed.







Lemma read_all_spec (count : nat) (c : Conn) :
  exists rc got c' log,
    read_all count c = Some ((rc, got), c') /\
    (rc = 0 \/ rc = -1) /\
    c_reads c' = c_reads c ++ log /\
    (rc = -1 <-> Exists bad_read log) /\
    c_out c' = c_out c /\ c_clock c' = c_clock c /\
    c_malloc_ok c' = c_malloc_ok c /\
    (exists used, c_sched c = used ++ c_sched c') /\
    (rc = 0 -> got = take count (c_in c) /\
               (count <= length (c_in c))%nat /\
               c_in c' = drop count (c_in c)) /\
    (only_interrupted (c_sched c) -> (count <= length (c_in c))%nat -> rc = 0).
Proof.
  unfold read_all, bind, gets.
  apply (read_all_loop_spec (S (length (c_sched c) + count)) count [] c). lia.
Qed.



Example proto_recv_packet_interrupted :
  option_map fst
    (proto_recv_packet true
       (conn_of [13; 0; 0; 2; 65; 0; 0; 0; 0; 0; 0; 7; 0; 0; 0; 9; 104; 105]
          [IoUpTo 0; IoFail EINTR; IoUpTo 30; IoFail EINTR; IoFail EINTR]))
  = Some (0, Some (mkHeader 13 2 65 0 0 7 9), Some [104; 105]).
Proof. vm_compute. reflexivity. Qed.

Example proto_recv_packet_eof :
  option_map (fun x => fst (fst (fst x)))
    (proto_recv_packet true
       (conn_of [13; 0; 0; 2; 65; 0; 0; 0; 0; 0; 0; 7; 0; 0; 0; 9; 104]
          [IoFail EINTR]))
  = Some (-1).
Proof. vm_compute. reflexivity. Qed.

(** ** The round trip of a frame *)

(** write_all on a connection whose writes never fail writes the whole
    buffer, in as many pieces as the schedule makes. *)
Lemma write_all_loop_spec (fuel : nat) :
  forall (buf : list Z) (c : Conn),
    never_fails (c_sched c) ->
    (length buf < fuel)%nat ->
    exists c',
      write_all_loop fuel buf c = Some (0, c') /\
      c_out c' = c_out c ++ buf /\
      never_fails (c_sched c') /\
      c_in c' = c_in c /\ c_clock c' = c_clock c /\
      c_malloc_ok c' = c_malloc_ok c /\ c_reads c' = c_reads c.
Proof.
  induction fuel as [|fuel IH]; intros buf c Hnf Hfuel; [lia|].
  cbn [write_all_loop].
  destruct buf as [|b buf'].
  { simpl. exists c. unfold ret. rewrite app_nil_r. auto 10. }
  remember (b :: buf') as buf eqn:Ebuf.
  assert (Hpos : (0 < length buf)%nat) by (subst buf; simpl; lia).
  assert ((0 <? length buf)%nat = true) as -> by (apply Nat.ltb_lt; exact Hpos).
  unfold bind, sys_write.
  destruct (c_sched c) as [|[k|e] sched] eqn:Es.
  - assert ((Z.of_nat (length buf) <=? 0) = false) as -> by (apply Z.leb_gt; lia).
    rewrite Nat2Z.id.
    destruct (IH (drop (length buf) buf) (write_done c buf []))
      as (c' & Hrun & Hout & Hnf' & Hrest).
    { constructor. } { rewrite length_drop. lia. }
    exists c'. split; [exact Hrun|]. split; [|split; [exact Hnf'|exact Hrest]].
    rewrite Hout. simpl. rewrite drop_all, app_nil_r. reflexivity.
  - set (n := Nat.min (S k) (length buf)).
    assert ((Z.of_nat n <=? 0) = false) as -> by (apply Z.leb_gt; lia).
    rewrite Nat2Z.id.
    destruct (IH (drop n buf) (write_done c (take n buf) sched))
      as (c' & Hrun & Hout & Hnf' & Hrest).
    { simpl. inversion Hnf; assumption. } { rewrite length_drop. lia. }
    exists c'. split; [exact Hrun|]. split; [|split; [exact Hnf'|exact Hrest]].
    rewrite Hout. simpl. rewrite <- app_assoc, take_drop. reflexivity.
  - inversion Hnf; subst. contradiction.
Qed.

Lemma write_all_spec (buf : list Z) (count : nat) (c : Conn) :
  never_fails (c_sched c) ->
  (count <= length buf)%nat ->
  exists c',
    write_all buf count c = Some (0, c') /\
    c_out c' = c_out c ++ take count buf /\
    never_fails (c_sched c') /\
    c_in c' = c_in c /\ c_clock c' = c_clock c /\
    c_malloc_ok c' = c_malloc_ok c /\ c_reads c' = c_reads c.
Proof.
  intros Hnf Hlen. unfold write_all.
  assert ((length buf <? count)%nat = false) as -> by (apply Nat.ltb_ge; exact Hlen).
  apply write_all_loop_spec; [exact Hnf|]. rewrite length_take. lia.
Qed.

Lemma join16 x :
  0 <= x < 65536 -> x mod 256 + 256 * ((x / 256) mod 256) = x.
Proof. intros H. Z.div_mod_to_equations. lia. Qed.

Lemma join32 x :
  0 <= x < 4294967296 ->
  x mod 256 + 256 * ((x / 256) mod 256) + 65536 * ((x / 65536) mod 256)
  + 16777216 * ((x / 16777216) mod 256) = x.
Proof. intros H. Z.div_mod_to_equations. lia. Qed.

Lemma bswap16_range x : 0 <= bswap16 x < 65536.
Proof. unfold bswap16. Z.div_mod_to_equations. lia. Qed.

Lemma bswap32_range x : 0 <= bswap32 x < 4294967296.
Proof. unfold bswap32. Z.div_mod_to_equations. lia. Qed.

Lemma bswap16_bytes x :
  bswap16 x mod 256 = (x / 256) mod 256 /\
  (bswap16 x / 256) mod 256 = x mod 256.
Proof. unfold bswap16. Z.div_mod_to_equations. lia. Qed.

Lemma bswap32_bytes x :
  bswap32 x mod 256 = (x / 16777216) mod 256 /\
  (bswap32 x / 256) mod 256 = (x / 65536) mod 256 /\
  (bswap32 x / 65536) mod 256 = (x / 256) mod 256 /\
  (bswap32 x / 16777216) mod 256 = x mod 256.
Proof. unfold bswap32. Z.div_mod_to_equations. lia. Qed.

Lemma bswap16_involutive x : 0 <= x < 65536 -> bswap16 (bswap16 x) = x.
Proof.
  intros H. unfold bswap16 at 1. destruct (bswap16_bytes x) as [-> ->].
  pose proof (join16 x H). lia.
Qed.

Lemma bswap32_involutive x : 0 <= x < 4294967296 -> bswap32 (bswap32 x) = x.
Proof.
  intros H. unfold bswap32 at 1.
  destruct (bswap32_bytes x) as (-> & -> & -> & ->).
  pose proof (join32 x H). lia.
Qed.

Lemma ntohs_htons le x : 0 <= x < 65536 -> ntohs le (htons le x) = x.
Proof.
  intros H. unfold ntohs, htons. destruct le; [|reflexivity].
  apply bswap16_involutive. exact H.
Qed.

Lemma ntohl_htonl le x : 0 <= x < 4294967296 -> ntohl le (htonl le x) = x.
Proof.
  intros H. unfold ntohl, htonl. destruct le; [|reflexivity].
  apply bswap32_involutive. exact H.
Qed.

Lemma htons_range le x : 0 <= x < 65536 -> 0 <= htons le x < 65536.
Proof. intros H. unfold htons. destruct le; [apply bswap16_range|exact H]. Qed.

Lemma htonl_range le x : 0 <= x < 4294967296 -> 0 <= htonl le x < 4294967296.
Proof. intros H. unfold htonl. destruct le; [apply bswap32_range|exact H]. Qed.

Lemma to_u32_range x : 0 <= to_u32 x < 4294967296.
Proof. unfold to_u32. Z.div_mod_to_equations. lia. Qed.

Lemma length_packet_bytes le pad h : length (packet_bytes le pad h) = 16%nat.
Proof. unfold packet_bytes, store16, store32. destruct le; reflexivity. Qed.

(** A uint16_t and a uint32_t read back from the bytes stored. *)
Lemma load16_store16 le x d :
  0 <= x < 65536 ->
  load16 le (nth 0 (store16 le x) d) (nth 1 (store16 le x) d) = x.
Proof.
  intros H. unfold load16, store16. pose proof (join16 x H).
  destruct le; cbn [nth]; lia.
Qed.

Lemma load32_store32 le x d :
  0 <= x < 4294967296 ->
  load32 le (nth 0 (store32 le x) d) (nth 1 (store32 le x) d)
    (nth 2 (store32 le x) d) (nth 3 (store32 le x) d) = x.
Proof.
  intros H. unfold load32, store32. pose proof (join32 x H).
  destruct le; cbn [nth]; lia.
Qed.

(** On the wire the size is in network byte order on either host: its
    high byte at offset 2 and its low byte at offset 3. *)
Lemma store16_htons le x :
  0 <= x < 65536 -> store16 le (htons le x) = [x / 256; x mod 256].
Proof.
  intros H. unfold store16, htons. destruct le.
  - destruct (bswap16_bytes x) as [-> ->]. f_equal.
    Z.div_mod_to_equations. lia.
  - f_equal. Z.div_mod_to_equations. lia.
Qed.

Lemma length_store16 le x : length (store16 le x) = 2%nat.
Proof. unfold store16. destruct le; reflexivity. Qed.

Lemma length_store32 le x : length (store32 le x) = 4%nat.
Proof. unfold store32. destruct le; reflexivity. Qed.

(** Reading back the 16 bytes of a header gives its fields. *)
Lemma packet_of_bytes_packet_bytes le pad h :
  0 <= hdr_size h < 65536 ->
  0 <= hdr_timestamp_sec h < 4294967296 ->
  0 <= hdr_timestamp_nsec h < 4294967296 ->
  packet_of_bytes le (packet_bytes le pad h) = h.
Proof.
  intros Hs Ht Hn. destruct h as [t s p1 p2 p3 sec nsec]. cbn [hdr_size hdr_timestamp_sec hdr_timestamp_nsec] in *.
  pose proof (load16_store16 le s 0 Hs) as H16.
  pose proof (load32_store32 le sec 0 Ht) as H32a.
  pose proof (load32_store32 le nsec 0 Hn) as H32b.
  unfold packet_of_bytes, packet_bytes.
  cbn [hdr_type hdr_size hdr_param1 hdr_param2 hdr_param3 hdr_timestamp_sec
       hdr_timestamp_nsec fst snd].
  destruct (store16 le s) as [|a0 [|a1 [|]]] eqn:E16;
    try (apply (f_equal length) in E16; rewrite length_store16 in E16; discriminate).
  destruct (store32 le sec) as [|b0 [|b1 [|b2 [|b3 [|]]]]] eqn:E32a;
    try (apply (f_equal length) in E32a; rewrite length_store32 in E32a; discriminate).
  destruct (store32 le nsec) as [|c0 [|c1 [|c2 [|c3 [|]]]]] eqn:E32b;
    try (apply (f_equal length) in E32b; rewrite length_store32 in E32b; discriminate).
  cbn [nth app] in *. rewrite H16, H32a, H32b. reflexivity.
Qed.

(** proto_send_packet on a connection whose clock and writes work: it
    stamps the packet and puts on the wire the 16 bytes of the header,
    in network byte order, and the payload. *)
Lemma proto_send_packet_spec le pad pkt data cs tv_sec tv_nsec :
  payload_fits pkt data ->
  c_clock cs = Some (tv_sec, tv_nsec) ->
  never_fails (c_sched cs) ->
  let pkt' := stamped pkt tv_sec tv_nsec in
  let copy := mkHeader (hdr_type pkt') (htons le (hdr_size pkt'))
                (hdr_param1 pkt') (hdr_param2 pkt') (hdr_param3 pkt')
                (htonl le (hdr_timestamp_sec pkt'))
                (htonl le (hdr_timestamp_nsec pkt')) in
  exists cs',
    proto_send_packet le pad (Some pkt) data cs = Some ((0, Some pkt'), cs') /\
    c_out cs' = c_out cs ++ packet_bytes le pad copy ++ payload_bytes pkt data.
Proof.
  intros Hfit Hclock Hnf pkt' copy. unfold proto_send_packet.
  erewrite bind_Some by (unfold clock_gettime, gets; rewrite Hclock; reflexivity).
  fold (stamped pkt tv_sec tv_nsec). fold pkt'. fold copy.
  destruct (write_all_spec (packet_bytes le pad copy) sizeof_MZW_PACKET cs Hnf)
    as (c1 & Hrun1 & Hout1 & Hnf1 & _).
  { rewrite length_packet_bytes. reflexivity. }
  erewrite bind_Some by exact Hrun1. change (0 <? 0) with false. cbv iota.
  rewrite firstn_all2 in Hout1 by (rewrite length_packet_bytes; reflexivity).
  unfold payload_bytes, payload_of. change (hdr_size pkt') with (hdr_size pkt).
  cbn [hdr_size].
  destruct (hdr_size pkt >? 0) eqn:Esz; destruct data as [d|]; cbv beta iota.
  - simpl in Hfit.
    destruct (write_all_spec d (Z.to_nat (hdr_size pkt)) c1 Hnf1 ltac:(lia))
      as (c2 & Hrun2 & Hout2 & _).
    erewrite bind_Some by exact Hrun2. change (0 <? 0) with false. cbv iota.
    exists c2. split; [reflexivity|]. rewrite Hout2, Hout1, <- app_assoc. reflexivity.
  - exists c1. split; [reflexivity|]. rewrite Hout1, app_nil_r. reflexivity.
  - exists c1. split; [reflexivity|]. rewrite Hout1, app_nil_r. reflexivity.
  - exists c1. split; [reflexivity|]. rewrite Hout1, app_nil_r. reflexivity.
Qed.

Lemma only_interrupted_suffix used sched :
  only_interrupted (used ++ sched) -> only_interrupted sched.
Proof. unfold only_interrupted. rewrite Forall_app. tauto. Qed.

(** proto_recv_packet on an input that starts with a frame as sent,
    when memory is available and reads fail by interruption only. *)
Lemma proto_recv_packet_spec le pad pkt data cr rest :
  packet_in_range pkt ->
  0 <= hdr_timestamp_sec pkt < 4294967296 ->
  0 <= hdr_timestamp_nsec pkt < 4294967296 ->
  payload_fits pkt data ->
  let copy := mkHeader (hdr_type pkt) (htons le (hdr_size pkt))
                (hdr_param1 pkt) (hdr_param2 pkt) (hdr_param3 pkt)
                (htonl le (hdr_timestamp_sec pkt))
                (htonl le (hdr_timestamp_nsec pkt)) in
  c_in cr = (packet_bytes le pad copy ++ payload_bytes pkt data) ++ rest ->
  c_malloc_ok cr = true ->
  only_interrupted (c_sched cr) ->
  exists cr',
    proto_recv_packet le cr = Some ((0, Some pkt, payload_of pkt data), cr') /\
    c_in cr' = rest.
Proof.
  intros Hrange Hsec Hnsec Hfit copy Hin Hmal Hoi. unfold proto_recv_packet.
  destruct Hrange as (Ht & Hs & Hp1 & Hp2 & Hp3).
  destruct (read_all_spec sizeof_MZW_PACKET cr)
    as (rc1 & got1 & c1 & log1 & Hrun1 & _ & _ & _ & _ & _ & Hm1 & [used Hu] & Hok1 & Hz1).
  assert (Hlen : length (packet_bytes le pad copy) = sizeof_MZW_PACKET)
    by apply length_packet_bytes.
  assert (rc1 = 0) as ->.
  { apply Hz1; [exact Hoi|]. rewrite Hin, !length_app, Hlen. lia. }
  destruct (Hok1 eq_refl) as (Hgot1 & _ & Hin1).
  erewrite bind_Some by exact Hrun1. cbn [fst snd].
  change (0 <? 0) with false. cbv iota zeta.
  rewrite Hin, <- app_assoc in Hgot1, Hin1.
  rewrite take_app_length' in Hgot1 by (symmetry; exact Hlen).
  rewrite drop_app_length' in Hin1 by (symmetry; exact Hlen).
  rewrite Hgot1.
  rewrite (packet_of_bytes_packet_bytes le pad copy)
    by (subst copy; cbn; auto using htons_range, htonl_range).
  subst copy. cbn [hdr_type hdr_size hdr_param1 hdr_param2 hdr_param3
                   hdr_timestamp_sec hdr_timestamp_nsec].
  rewrite ntohs_htons, !ntohl_htonl by assumption.
  replace (mkHeader (hdr_type pkt) (hdr_size pkt) (hdr_param1 pkt) (hdr_param2 pkt)
             (hdr_param3 pkt) (hdr_timestamp_sec pkt) (hdr_timestamp_nsec pkt))
    with pkt by (destruct pkt; reflexivity).
  unfold payload_bytes, payload_of in *.
  destruct (hdr_size pkt >? 0) eqn:Esz.
  - erewrite bind_Some by (unfold gets; reflexivity).
    rewrite Hm1, Hmal. cbn [negb].
    destruct data as [d|]; [|simpl in Hfit; lia].
    simpl in Hfit.
    destruct (read_all_spec (Z.to_nat (hdr_size pkt)) c1)
      as (rc2 & got2 & c2 & log2 & Hrun2 & _ & _ & _ & _ & _ & _ & _ & Hok2 & Hz2).
    assert (Hlp : length (take (Z.to_nat (hdr_size pkt)) d) = Z.to_nat (hdr_size pkt))
      by (rewrite length_take; lia).
    assert (rc2 = 0) as ->.
    { apply Hz2.
      - rewrite Hu in Hoi. eapply only_interrupted_suffix; exact Hoi.
      - rewrite Hin1, length_app, Hlp. lia. }
    destruct (Hok2 eq_refl) as (Hgot2 & _ & Hin2).
    erewrite bind_Some by exact Hrun2. cbn [fst snd].
    change (0 <? 0) with false. cbv iota.
    rewrite Hin1 in Hgot2, Hin2.
    rewrite take_app_length' in Hgot2 by (symmetry; exact Hlp).
    rewrite drop_app_length' in Hin2 by (symmetry; exact Hlp).
    exists c2. rewrite Hgot2. split; [reflexivity|exact Hin2].
  - exists c1. split.
    + destruct data; reflexivity.
    + rewrite Hin1. destruct data; reflexivity.
Qed.

Lemma store32_htonl le x : store32 le (htonl le x) = be32 x.
Proof.
  unfold store32, htonl, be32. destruct le; [|reflexivity].
  destruct (bswap32_bytes x) as (-> & -> & -> & ->). reflexivity.
Qed.

(** The image of the header proto_send_packet builds, whatever the
    byte order of the host. *)
Lemma packet_bytes_wire le pad (h : MZW_PACKET) :
  0 <= hdr_size h < 65536 ->
  packet_bytes le pad
    (mkHeader (hdr_type h) (htons le (hdr_size h)) (hdr_param1 h) (hdr_param2 h)
       (hdr_param3 h) (htonl le (hdr_timestamp_sec h)) (htonl le (hdr_timestamp_nsec h)))
  = wire_header pad h.
Proof.
  intros Hs. unfold packet_bytes, wire_header.
  cbn [hdr_type hdr_size hdr_param1 hdr_param2 hdr_param3 hdr_timestamp_sec
       hdr_timestamp_nsec].
  rewrite store16_htons by exact Hs. rewrite !store32_htonl. reflexivity.
Qed.

(** C4.  A frame sent and received is the frame stamped by the sender.
    On a connection whose clock and writes work, proto_send_packet
    returns 0 and hands back the packet with the two timestamps set
    from the clock; the bytes it writes have the high byte of the size
    at offset 2 and the low byte at offset 3, and the two timestamps
    at offsets 8 and 12, each with its high byte first, on a host of
    either byte order.  From any input that starts with those bytes,
    proto_recv_packet, with memory for the payload and reads that fail
    by interruption only, returns 0 with that stamped packet, so with
    the type, the three parameters and the size of the packet sent and
    the timestamps the sender stamped, and with the first [size] bytes
    of the sender's buffer as payload when the size is positive, no
    payload otherwise; it leaves the rest of the input unread. *)
Theorem proto_round_trip (little_endian : bool) (pad : Z * Z)
    (pkt : MZW_PACKET) (data : option (list Z)) (cs : Conn)
    (tv_sec tv_nsec : Z) :
  packet_in_range pkt ->
  payload_fits pkt data ->
  c_clock cs = Some (tv_sec, tv_nsec) ->
  never_fails (c_sched cs) ->
  exists cs' wire,
    proto_send_packet little_endian pad (Some pkt) data cs
    = Some ((0, Some (stamped pkt tv_sec tv_nsec)), cs') /\
    c_out cs' = c_out cs ++ wire /\
    nth 2 wire 0 = hdr_size pkt / 256 /\
    nth 3 wire 0 = hdr_size pkt mod 256 /\
    wire = wire_header pad (stamped pkt tv_sec tv_nsec) ++ payload_bytes pkt data /\
    take 4 (drop 8 wire) = be32 (to_u32 tv_sec) /\
    take 4 (drop 12 wire) = be32 (to_u32 tv_nsec) /\
    forall (cr : Conn) (rest : list Z),
      c_in cr = wire ++ rest ->
      c_malloc_ok cr = true ->
      only_interrupted (c_sched cr) ->
      exists cr',
        proto_recv_packet little_endian cr
        = Some ((0, Some (stamped pkt tv_sec tv_nsec), payload_of pkt data), cr') /\
        c_in cr' = rest.
Proof.
  intros Hrange Hfit Hclock Hnf.
  destruct (proto_send_packet_spec little_endian pad pkt data cs tv_sec tv_nsec
              Hfit Hclock Hnf) as (cs' & Hsend & Hout).
  cbv zeta in Hsend, Hout.
  eexists cs', _. split; [exact Hsend|]. split; [exact Hout|].
  destruct Hrange as (Ht & Hs & Hp1 & Hp2 & Hp3).
  assert (Hwire : packet_bytes little_endian pad
                    (mkHeader (hdr_type (stamped pkt tv_sec tv_nsec))
                       (htons little_endian (hdr_size (stamped pkt tv_sec tv_nsec)))
                       (hdr_param1 (stamped pkt tv_sec tv_nsec))
                       (hdr_param2 (stamped pkt tv_sec tv_nsec))
                       (hdr_param3 (stamped pkt tv_sec tv_nsec))
                       (htonl little_endian (hdr_timestamp_sec (stamped pkt tv_sec tv_nsec)))
                       (htonl little_endian (hdr_timestamp_nsec (stamped pkt tv_sec tv_nsec))))
                  = wire_header pad (stamped pkt tv_sec tv_nsec)).
  { apply packet_bytes_wire. exact Hs. }
  split; [|split; [|split; [|split; [|split]]]].
  - unfold packet_bytes. cbn [hdr_size stamped hdr_type fst].
    rewrite store16_htons by assumption. reflexivity.
  - unfold packet_bytes. cbn [hdr_size stamped hdr_type fst].
    rewrite store16_htons by assumption. reflexivity.
  - rewrite Hwire. reflexivity.
  - rewrite Hwire. reflexivity.
  - rewrite Hwire. reflexivity.
  - intros cr rest Hin Hmal Hoi.
    apply (proto_recv_packet_spec little_endian pad
             (stamped pkt tv_sec tv_nsec) data cr rest).
    + unfold packet_in_range, stamped; cbn; lia.
    + apply to_u32_range.
    + apply to_u32_range.
    + exact Hfit.
    + exact Hin.
    + exact Hmal.
    + exact Hoi.
Qed.

(** The theorem for a CHAT-like frame of five payload bytes, sent in
    three pieces from a little-endian host. *)
Lemma proto_round_trip_witness :
  exists cs' wire,
    proto_send_packet true (170, 187) (Some (mkHeader 13 5 65 0 0 0 0))
      (Some (bytes "hello!")) (conn_of [] [IoUpTo 2; IoUpTo 0; IoUpTo 100])
    = Some ((0, Some (stamped (mkHeader 13 5 65 0 0 0 0) 7 9)), cs') /\
    c_out cs' = [] ++ wire /\
    nth 2 wire 0 = 5 / 256 /\
    nth 3 wire 0 = 5 mod 256 /\
    wire = wire_header (170, 187) (stamped (mkHeader 13 5 65 0 0 0 0) 7 9)
           ++ payload_bytes (mkHeader 13 5 65 0 0 0 0) (Some (bytes "hello!")) /\
    take 4 (drop 8 wire) = be32 (to_u32 7) /\
    take 4 (drop 12 wire) = be32 (to_u32 9) /\
    forall (cr : Conn) (rest : list Z),
      c_in cr = wire ++ rest ->
      c_malloc_ok cr = true ->
      only_interrupted (c_sched cr) ->
      exists cr',
        proto_recv_packet true cr
        = Some ((0, Some (stamped (mkHeader 13 5 65 0 0 0 0) 7 9),
                 payload_of (mkHeader 13 5 65 0 0 0 0) (Some (bytes "hello!"))), cr') /\
        c_in cr' = rest.
Proof.
  apply (proto_round_trip true (170, 187) (mkHeader 13 5 65 0 0 0 0)
           (Some (bytes "hello!")) (conn_of [] [IoUpTo 2; IoUpTo 0; IoUpTo 100]) 7 9).
  - unfold packet_in_range. simpl. lia.
  - simpl. lia.
  - reflexivity.
  - repeat constructor.
Defined.

Example wire_of_frame :
  option_map (fun x => c_out (snd x))
    (proto_send_packet true (170, 187) (Some (mkHeader 13 5 65 0 0 0 0))
       (Some (bytes "hello!")) (conn_of [] [IoUpTo 2; IoUpTo 0; IoUpTo 100]))
  = Some [13; 170; 0; 5; 65; 0; 0; 187; 0; 0; 0; 7; 0; 0; 0; 9;
          104; 101; 108; 108; 111].
Proof. vm_compute. reflexivity. Qed.

(** ** What the maze module leaves alone *)

Lemma maze_step_refl w : maze_step w w.
Proof.
  unfold maze_step. repeat (split; [reflexivity|]).
  exists []. rewrite app_nil_r. split; [reflexivity|constructor].
Qed.

Lemma maze_step_trans w1 w2 w3 :
  maze_step w1 w2 -> maze_step w2 w3 -> maze_step w1 w3.
Proof.
  unfold maze_step.
  intros (A1 & A2 & A3 & A4 & A5 & A6 & A7 & A8 & A9 & A10 & A11 & A12 & e1 & T1 & F1)
         (B1 & B2 & B3 & B4 & B5 & B6 & B7 & B8 & B9 & B10 & B11 & B12 & e2 & T2 & F2).
  repeat (split; [congruence|]).
  exists (e1 ++ e2). split; [rewrite T2, T1, app_assoc; reflexivity|].
  apply Forall_app; split; assumption.
Qed.

Lemma maze_step_after e w : maze_event e -> maze_step w (after [e] w).
Proof.
  intros He. unfold maze_step, after. mred. repeat (split; [reflexivity|]).
  exists [e]. split; [reflexivity|]. constructor; [assumption|constructor].
Qed.

Lemma maze_step_set_maze g w : maze_step w (set_maze g w).
Proof.
  unfold maze_step. mred. repeat (split; [reflexivity|]).
  exists []. rewrite app_nil_r. split; [reflexivity|constructor].
Qed.

Lemma maze_step_set_rand_pos n w : maze_step w (set_rand_pos n w).
Proof.
  unfold maze_step. mred. repeat (split; [reflexivity|]).
  exists []. rewrite app_nil_r. split; [reflexivity|constructor].
Qed.

(** Steps through a computation: a result of [bind] comes from a
    result of each part. *)
Lemma bind_inv {S A B} (m : ST S A) (k : A -> ST S B) s b s'' :
  bind m k s = Some (b, s'') ->
  exists a s', m s = Some (a, s') /\ k a s' = Some (b, s'').
Proof.
  unfold bind. destruct (m s) as [[a s']|]; [|discriminate]. eauto.
Qed.

Lemma maze_read_inv row col w x w' :
  maze_read row col w = Some (x, w') -> w' = w.
Proof.
  unfold maze_read. destruct (maze_at (maze w) row col).
  - intros [= _ <-]. reflexivity.
  - destruct (maze_end_at (maze w) (maze_ends w) row col); [|discriminate].
    intros [= _ <-]. reflexivity.
Qed.

Lemma maze_step_set_maze_ends e w : maze_step w (set_maze_ends e w).
Proof.
  unfold maze_step. mred. repeat (split; [reflexivity|]).
  exists []. rewrite app_nil_r. split; [reflexivity|constructor].
Qed.

Lemma maze_write_step row col x w u w' :
  maze_write row col x w = Some (u, w') -> maze_step w w'.
Proof.
  unfold maze_write. destruct (maze_at (maze w) row col).
  - intros [= <- <-]. apply maze_step_set_maze.
  - destruct (maze_end_at (maze w) (maze_ends w) row col); [|discriminate].
    intros [= <- <-]. apply maze_step_set_maze_ends.
Qed.

Lemma lock_maze_step w u w' :
  pthread_mutex_lock maze_mutex w = Some (u, w') -> maze_step w w'.
Proof.
  intros [= <- <-]. apply (maze_step_after (EvLock maze_mutex)). left. reflexivity.
Qed.

Lemma unlock_maze_step w u w' :
  pthread_mutex_unlock maze_mutex w = Some (u, w') -> maze_step w w'.
Proof.
  intros [= <- <-]. apply (maze_step_after (EvUnlock maze_mutex)). right. reflexivity.
Qed.

Lemma maze_set_player_step avatar row col w rc w' :
  maze_set_player avatar row col w = Some (rc, w') -> maze_step w w'.
Proof.
  unfold maze_set_player. intros H.
  apply bind_inv in H. destruct H as (u & w1 & H1 & H).
  apply lock_maze_step in H1.
  apply bind_inv in H. destruct H as (oob & w2 & H2 & H).
  injection H2 as <- <-.
  destruct (outside _ _ row col).
  - apply bind_inv in H. destruct H as (u2 & w3 & H3 & H).
    apply unlock_maze_step in H3. injection H as _ <-.
    eapply maze_step_trans; eassumption.
  - apply bind_inv in H. destruct H as (c & w3 & H3 & H).
    apply maze_read_inv in H3. subst w3.
    destruct (negb (IS_EMPTY c)).
    + apply bind_inv in H. destruct H as (u2 & w4 & H4 & H).
      apply unlock_maze_step in H4. injection H as _ <-.
      eapply maze_step_trans; eassumption.
    + apply bind_inv in H. destruct H as (u2 & w4 & H4 & H).
      apply maze_write_step in H4.
      apply bind_inv in H. destruct H as (u3 & w5 & H5 & H).
      apply unlock_maze_step in H5. injection H as _ <-.
      eapply maze_step_trans; [eassumption|].
      eapply maze_step_trans; eassumption.
Qed.

Lemma maze_remove_player_step avatar row col w u w' :
  maze_remove_player avatar row col w = Some (u, w') -> maze_step w w'.
Proof.
  unfold maze_remove_player. intros H.
  apply bind_inv in H. destruct H as (u1 & w1 & H1 & H).
  apply lock_maze_step in H1.
  apply bind_inv in H. destruct H as (c & w2 & H2 & H).
  apply maze_read_inv in H2. subst w2.
  apply bind_inv in H. destruct H as (u2 & w3 & H3 & H).
  apply unlock_maze_step in H.
  eapply maze_step_trans; [eassumption|].
  eapply maze_step_trans; [|eassumption].
  destruct (char_value c =? avatar).
  - eapply maze_write_step; eassumption.
  - injection H3 as _ <-. apply maze_step_refl.
Qed.

Lemma c_rem_inv a b w x w' : c_rem a b w = Some (x, w') -> w' = w.
Proof.
  unfold c_rem. destruct (b =? 0); [discriminate|]. intros [= _ <-]. reflexivity.
Qed.

Lemma maze_set_player_random_loop_step (n : nat) avatar :
  forall w r w',
    maze_set_player_random_loop n avatar w = Some (r, w') -> maze_step w w'.
Proof.
  induction n as [|n IH]; intros w r w' H.
  - injection H as _ <-. apply maze_step_refl.
  - cbn [maze_set_player_random_loop] in H.
    apply bind_inv in H. destruct H as (x & w1 & H1 & H).
    injection H1 as _ <-.
    apply bind_inv in H. destruct H as (rows & w2 & H2 & H).
    injection H2 as _ <-.
    apply bind_inv in H. destruct H as (rr & w3 & H3 & H).
    apply c_rem_inv in H3. subst w3.
    apply bind_inv in H. destruct H as (y & w4 & H4 & H).
    injection H4 as _ <-.
    apply bind_inv in H. destruct H as (cols & w5 & H5 & H).
    injection H5 as _ <-.
    apply bind_inv in H. destruct H as (cc & w6 & H6 & H).
    apply c_rem_inv in H6. subst w6.
    apply bind_inv in H. destruct H as (rc & w7 & H7 & H).
    apply maze_set_player_step in H7.
    eapply maze_step_trans; [apply maze_step_set_rand_pos|].
    eapply maze_step_trans; [apply maze_step_set_rand_pos|].
    eapply maze_step_trans; [exact H7|].
    destruct (rc =? 0).
    + injection H as _ <-. apply maze_step_refl.
    + eapply IH. exact H.
Qed.

Lemma maze_set_player_random_step avatar w r w' :
  maze_set_player_random avatar w = Some (r, w') -> maze_step w w'.
Proof. apply maze_set_player_random_loop_step. Qed.

(** ** player_reset when the maze is full *)

Lemma maze_event_not_a_send e : maze_event e -> not_a_send e.
Proof. intros [-> | ->]; exact I. Qed.

(** What player_reset does when the random placement fails: it
    returns with the record of the player as it
    was: the coordinates are the stale ones and the score is the one
    the player had, as the score is set to zero after a successful
    placement only.  The player table is unchanged and no frame is
    sent: the player is not logged out. *)
Theorem player_reset_placement_fails (VIEW_DEPTH : Z) (w : World) (p : Z)
    (r : PLAYER) (w1 w2 : World) :
  heap w !! p = Some r ->
  maze_remove_player (p_avatar r) (p_row r) (p_col r)
    (after [EvLock (player_mutex p)] w) = Some (tt, w1) ->
  maze_set_player_random (p_avatar r) w1 = Some (None, w2) ->
  exists w',
    player_reset VIEW_DEPTH p w = Some (tt, w') /\
    heap w' !! p = Some r /\
    heap w' = heap w /\
    player_map w' = player_map w /\
    exists evs, trace w' = trace w ++ evs /\ Forall not_a_send evs.
Proof.
  intros Hp Hrem Hrand.
  pose proof (maze_remove_player_step _ _ _ _ _ _ Hrem) as S1.
  pose proof (maze_set_player_random_step _ _ _ _ Hrand) as S2.
  pose proof (maze_step_trans _ _ _ S1 S2)
    as (_ & _ & _ & _ & Hheap & _ & _ & _ & Hmap & _ & _ & _ & evs & Htr & Hevs).
  unfold player_reset.
  erewrite bind_Some by apply emit_after.
  erewrite bind_Some by (unfold load; cbn; rewrite Hp; reflexivity).
  erewrite bind_Some by exact Hrem.
  erewrite bind_Some by exact Hrand.
  eexists. split; [reflexivity|]. mred.
  split; [rewrite Hheap; exact Hp|]. split; [exact Hheap|]. split; [exact Hmap|].
  eexists. split.
  - rewrite Htr. unfold after. mred. rewrite <- !app_assoc. reflexivity.
  - constructor; [exact I|]. apply Forall_app. split.
    + eapply Forall_impl; [exact Hevs|]. intros e He. apply maze_event_not_a_send, He.
    + repeat constructor.
Qed.

Lemma limbo_world_reset :
  exists w1 w2,
    maze_remove_player 65 0 1 (after [EvLock (player_mutex 1)] limbo_world)
    = Some (tt, w1) /\
    maze_set_player_random 65 w1 = Some (None, w2).
Proof.
  eexists _, _. split.
  - vm_compute. reflexivity.
  - vm_compute. reflexivity.
Qed.

(** The theorem in [limbo_world], for the player A. *)
Lemma player_reset_placement_fails_witness :
  exists w',
    player_reset 8 1 limbo_world = Some (tt, w') /\
    heap w' !! 1 = Some (mkPlayer 1 10 65 (bytes "alice") 0 1 NORTH 5 0 7
                           (replicate 8 [0; 0; 0]) (-1)) /\
    heap w' = heap limbo_world /\
    player_map w' = player_map limbo_world /\
    exists evs, trace w' = trace limbo_world ++ evs /\ Forall not_a_send evs.
Proof.
  destruct limbo_world_reset as (w1 & w2 & H1 & H2).
  apply (player_reset_placement_fails 8 limbo_world 1
           (mkPlayer 1 10 65 (bytes "alice") 0 1 NORTH 5 0 7
              (replicate 8 [0; 0; 0]) (-1)) w1 w2).
  - reflexivity.
  - exact H1.
  - exact H2.
Defined.

Lemma limbo_world_reset_run :
  exists w',
    player_reset 8 1 limbo_world = Some (tt, w') /\
    option_map p_score (heap w' !! 1) = Some 5.
Proof. eexists. split; vm_compute; reflexivity. Qed.


(** C2 as stated fails in [limbo_world]: the reset of A, whose
    placement fails as the grid is full, leaves the score at 5. *)
Lemma reset_failure_keeps_score : ~ reset_failure_zeroes_score.
Proof.
  intros Hclaim.
  destruct limbo_world_reset as (w1 & w2 & H1 & H2).
  destruct limbo_world_reset_run as (w' & Hrun & Hscore).
  destruct (Hclaim 8 limbo_world 1 _ w1 w2 w' eq_refl H1 H2 Hrun)
    as (r' & Hr' & _ & _ & Hzero).
  rewrite Hr' in Hscore. simpl in Hscore. congruence.
Qed.

(** ** player_send_chat *)

Lemma player_send_chat_run (w : World) (p : Z) (r : PLAYER)
    (msg : list Z) (len : Z) (text : list Z) :
  table_live w ->
  heap w !! p = Some r ->
  chat_text (p_name r) (p_avatar r) len msg = Some text ->
  player_send_chat p msg len w
  = Some (tt, after (broadcast_events w
                       (mkPkt MZW_CHAT_PKT (Z.of_nat (length text) mod 65536) 0 0 0)
                       (Some (take 1023 text ++ [0]))) w).
Proof.
  intros Hlive Hp Htext. unfold player_send_chat.
  erewrite bind_Some by (unfold load; rewrite Hp; reflexivity).
  rewrite Htext. cbv zeta.
  apply (for_each_player_send w _ _ Hlive).
Qed.

(** C9, as the code has it.  Let L be the length of the formatted text
    of a chat.  player_send_chat sends every player of the table a
    CHAT frame whose size field is L modulo 65536, the field having 16
    bits, with the buffer that holds the first 1023 bytes of the text
    and a terminator.  For L below 1024 the size is L, the number of
    bytes of text in the buffer; for L from 1024 to 65535 the size is L
    while the buffer holds 1023 bytes of text; for L of 65536 or more
    the size is L modulo 65536, which is less than L, and the buffer
    holds 1023 bytes of text.  The size is the number of bytes of text
    in the buffer exactly when L is below 1024 or L modulo 65536 is
    1023. *)
Theorem player_send_chat_size (w : World) (p : Z) (r : PLAYER)
    (msg : list Z) (len : Z) (text : list Z) :
  table_live w ->
  heap w !! p = Some r ->
  chat_text (p_name r) (p_avatar r) len msg = Some text ->
  let L := Z.of_nat (length text) in
  let pkt := mkPkt MZW_CHAT_PKT (L mod 65536) 0 0 0 in
  let buf := take 1023 text ++ [0] in
  player_send_chat p msg len w
  = Some (tt, after (broadcast_events w pkt (Some buf)) w) /\
  (forall fd pkt' data',
     In (EvSend fd pkt' data') (broadcast_events w pkt (Some buf)) ->
     pkt' = pkt /\ data' = Some buf) /\
  (L < 1024 ->
   pkt_size pkt = L /\ Z.of_nat (length (take 1023 text)) = L) /\
  (1024 <= L < 65536 ->
   pkt_size pkt = L /\ Z.of_nat (length (take 1023 text)) = 1023) /\
  (65536 <= L ->
   pkt_size pkt = L mod 65536 /\ pkt_size pkt < L /\
   Z.of_nat (length (take 1023 text)) = 1023) /\
  Z.of_nat (length (take 1023 text)) = Z.min L 1023 /\
  (pkt_size pkt = Z.of_nat (length (take 1023 text)) <->
   L < 1024 \/ L mod 65536 = 1023).
Proof.
  intros Hlive Hp Htext L pkt buf.
  split; [|split; [|split; [|split; [|split; [|split]]]]].
  - apply (player_send_chat_run w p r); assumption.
  - intros fd pkt' data'. apply broadcast_events_sends.
  - intros HL. subst pkt L. cbn [pkt_size]. rewrite length_take.
    split; [apply Z.mod_small|]; lia.
  - intros HL. subst pkt L. cbn [pkt_size]. rewrite length_take.
    split; [apply Z.mod_small|]; lia.
  - intros HL. subst pkt. cbn [pkt_size]. rewrite length_take.
    split; [reflexivity|]. split; [|subst L; lia].
    pose proof (Z.mod_pos_bound L 65536 ltac:(lia)). lia.
  - rewrite length_take. subst L. lia.
  - subst pkt. cbn [pkt_size]. rewrite length_take.
    pose proof (Z.mod_pos_bound L 65536 ltac:(lia)) as Hmod.
    destruct (Z_lt_le_dec L 1024) as [Hlt|Hge].
    + rewrite (Z.mod_small L 65536) by (subst L; lia). subst L. lia.
    + subst L. lia.
Qed.

Lemma chat_world_live name : table_live (chat_world name).
Proof.
  split; [reflexivity|]. intros i q Hi.
  unfold chat_world in *. cbn [player_map heap] in *.
  destruct (decide (i = 65%nat)) as [->|Hne].
  - rewrite list_lookup_insert_eq in Hi by (rewrite length_replicate; unfold MAX_PLAYERS; lia).
    injection Hi as <-. rewrite lookup_insert_eq. eauto.
  - rewrite list_lookup_insert_ne in Hi by congruence.
    apply lookup_replicate in Hi. destruct Hi as [Hi _]. discriminate.
Qed.

(** The theorem for the chat "hi" of the player alice. *)
Lemma player_send_chat_size_witness :
  player_send_chat 1 (bytes "hi") 2 (chat_world (bytes "alice"))
  = Some (tt, after
       (broadcast_events (chat_world (bytes "alice"))
          (mkPkt MZW_CHAT_PKT (Z.of_nat (length (bytes "alice[A] hi")) mod 65536) 0 0 0)
          (Some (take 1023 (bytes "alice[A] hi") ++ [0])))
       (chat_world (bytes "alice"))).
Proof.
  refine (proj1 (player_send_chat_size (chat_world (bytes "alice")) 1
            (mkPlayer 1 10 65 (bytes "alice") 1 1 NORTH 0 0 7
               (replicate 8 [0; 0; 0]) (-1))
            (bytes "hi") 2 (bytes "alice[A] hi") _ _ _)).
  - exact (chat_world_live (bytes "alice")).
  - reflexivity.
  - vm_compute. reflexivity.
Defined.

Example chat_of_alice :
  option_map (fun x => trace (snd x))
    (player_send_chat 1 (bytes "hi") 2 (chat_world (bytes "alice")))
  = Some [EvLock (player_mutex 1);
          EvSend 10 (mkPkt MZW_CHAT_PKT 11 0 0 0) (Some (bytes "alice[A] hi" ++ [0]));
          EvUnlock (player_mutex 1)].
Proof. vm_compute. reflexivity. Qed.

Lemma string_upto_replicate (n : nat) (b : Z) :
  b <> 0 -> string_upto n (replicate n b) = Some (replicate n b).
Proof.
  intros Hb. induction n as [|n IH]; [reflexivity|].
  cbn [replicate string_upto].
  assert ((b =? 0) = false) as -> by lia. rewrite IH. reflexivity.
Qed.

Lemma long_chat_text :
  chat_text long_name 65 32766 long_msg
  = Some (long_name ++ [91; 65; 93; 32] ++ long_msg).
Proof.
  unfold chat_text, format_prec_s. change (32766 <? 0) with false. cbv iota.
  unfold long_msg. rewrite string_upto_replicate by discriminate. reflexivity.
Qed.

Lemma long_chat_length :
  Z.of_nat (length (long_name ++ [91; 65; 93; 32] ++ long_msg)) = 65536.
Proof.
  unfold long_name, long_msg. rewrite !length_app, !length_replicate.
  cbn [length]. lia.
Qed.

(** C9 as stated fails in [chat_world]: a name and a message of 32766
    bytes each make a text of 65536 bytes, and the size field of the
    frame is 0. *)
Lemma chat_size_wraps : ~ chat_size_is_text_length.
Proof.
  intros Hclaim.
  pose proof (player_send_chat_run (chat_world long_name) 1 _ long_msg 32766 _
                (chat_world_live long_name) (lookup_insert_eq _ _ _) long_chat_text)
    as Hrun.
  rewrite long_chat_length in Hrun. change (65536 mod 65536) with 0 in Hrun.
  destruct (Hclaim (chat_world long_name) 1 _ long_msg 32766 _ _ _
              (lookup_insert_eq _ _ _) long_chat_text
              ltac:(rewrite long_chat_length; lia) Hrun eq_refl
              10 (mkPkt MZW_CHAT_PKT 0 0 0 0)
              (Some (take 1023 (long_name ++ [91; 65; 93; 32] ++ long_msg) ++ [0])))
    as [_ Hgt].
  - unfold broadcast_events. apply in_concat.
    eexists. split.
    + apply in_map. apply list_elem_of_In.
      apply (list_elem_of_lookup_2 _ 65%nat). unfold chat_world. cbn [player_map].
      apply list_lookup_insert_eq. rewrite length_replicate. unfold MAX_PLAYERS. lia.
    + unfold send_events, chat_world. cbn [heap]. rewrite lookup_insert_eq.
      right. left. reflexivity.
  - cbn [pkt_size] in Hgt. lia.
Qed.

(** ** Login *)

(** Unfolds the accesses to the records and the tables of player.c. *)
Ltac pred :=
  cbv beta delta [load store upd free_player player_map_read player_map_write
    this_player_read this_player_write pthread_self calloc_player strdup
    send_call] in *;
  mred;
  cbn [p_ref_count p_client_fd p_avatar p_name p_row p_col p_dir p_score
       p_laser_hit p_thread_id p_last_view p_view_valid_depth
       set_p_ref_count set_p_client_fd set_p_avatar set_p_name set_p_row
       set_p_col set_p_dir set_p_score set_p_laser_hit set_p_thread_id
       set_p_last_view set_p_view_valid_depth] in *.

Lemma set_this_player_id (w : World) : set_this_player (this_player w) w = w.
Proof. destruct w; reflexivity. Qed.

(** player_login for an avatar that is taken: it returns NULL between
    the lock and the unlock of the table mutex and changes nothing. *)
Lemma player_login_in_use (VIEW_DEPTH : Z) (w : World) clientfd avatar name q :
  0 <= avatar ->
  player_map w !! Z.to_nat avatar = Some (Some q) ->
  player_login VIEW_DEPTH clientfd avatar name w
  = Some (None, after [EvLock map_mutex; EvUnlock map_mutex] w).
Proof.
  intros Hav Hq. unfold player_login.
  erewrite bind_Some by apply emit_after.
  erewrite bind_Some.
  2:{ unfold player_map_read.
      assert ((avatar <? 0) = false) as -> by (apply Z.ltb_ge; lia).
      change (player_map (after [EvLock map_mutex] w)) with (player_map w).
      rewrite Hq. reflexivity. }
  cbv beta iota.
  erewrite bind_Some by apply emit_after.
  unfold ret. rewrite after_after. reflexivity.
Qed.

Lemma check_this_player_unbound (VIEW_DEPTH : Z) (w : World) :
  this_player w !! self w = None ->
  check_this_player VIEW_DEPTH w = Some (tt, w).
Proof.
  intros H. unfold check_this_player.
  erewrite bind_Some by (unfold this_player_read, gets; reflexivity).
  rewrite H. reflexivity.
Qed.

(** The switch on a LOGIN frame for an avatar that is taken, from a
    connection that has not logged in. *)
Lemma dispatch_login_in_use (VIEW_DEPTH : Z) (w : World) client_fd avatar name q :
  0 <= avatar ->
  player_map w !! Z.to_nat avatar = Some (Some q) ->
  this_player w !! self w = None ->
  dispatch VIEW_DEPTH client_fd (None, false) (login_frame avatar name) w
  = Some ((None, false),
          after [EvLock map_mutex; EvUnlock map_mutex;
                 EvSend client_fd (mkPkt MZW_INUSE_PKT 0 0 0 0) None] w).
Proof.
  intros Hav Hq Htp. unfold dispatch, login_frame. cbn [fst snd pkt_type pkt_param1].
  erewrite bind_Some by (eapply player_login_in_use; eassumption).
  erewrite bind_Some.
  2:{ unfold this_player_write, modify. reflexivity. }
  cbv beta iota. unfold send_call. erewrite bind_Some by apply emit_after.
  unfold ret. f_equal. f_equal.
  unfold after. cbn [this_player self set_trace trace].
  rewrite delete_id by exact Htp.
  rewrite <- (set_this_player_id w) at 3.
  destruct w; cbn. rewrite <- !app_assoc. reflexivity.
Qed.

(** A login that returns a record: what it leaves behind. *)
Lemma player_login_success (VIEW_DEPTH : Z) (w : World) fd avatar name p w1 :
  player_login VIEW_DEPTH fd avatar name w = Some (Some p, w1) ->
  exists s r c evs,
    p = brk w /\
    player_map w !! Z.to_nat avatar = Some None /\
    heap w1 = <[p := mkPlayer 1 fd avatar s r c NORTH 0 0 (self w)
                       (replicate (Z.to_nat VIEW_DEPTH) [0; 0; 0]) (-1)]> (heap w) /\
    player_map w1 = <[Z.to_nat avatar := Some p]> (player_map w) /\
    this_player w1 = <[self w := p]> (this_player w) /\
    self w1 = self w /\
    trace w1 = trace w ++ [EvLock map_mutex; EvMutexInit (player_mutex p)]
                 ++ evs ++ [EvUnlock map_mutex] /\
    Forall maze_event evs.
Proof.
  intros H. unfold player_login in H. pred.
  destruct (avatar <? 0) eqn:Eav; [discriminate|].
  destruct (player_map w !! Z.to_nat avatar) as [[q|]|] eqn:Etab; pred; try discriminate.
  destruct (calloc_ok w) eqn:Eok; pred; [|discriminate].
  repeat (rewrite lookup_insert_eq in H; pred; rewrite ?insert_insert_eq in H).
  destruct (c_string match name with Some n => n | None => Anonymous end) as [s|] eqn:Es;
    pred; [|discriminate].
  repeat (rewrite lookup_insert_eq in H; pred; rewrite ?insert_insert_eq in H).
  match type of H with
  | context [maze_set_player_random avatar ?W] =>
      destruct (maze_set_player_random avatar W) as [[[[r c]|] w2]|] eqn:Er
  end; pred; [| |discriminate].
  2:{ pose proof (maze_set_player_random_step _ _ _ _ Er)
        as (_ & _ & _ & _ & Hheap & _).
      pred.
      repeat (first [rewrite Hheap in H | rewrite lookup_insert_eq in H
                    | rewrite insert_insert_eq in H]; pred).
      discriminate. }
  pose proof (maze_set_player_random_step _ _ _ _ Er)
    as (_ & _ & _ & _ & Hheap & _ & _ & _ & Hmap & Htp & Hself & _ & evs & Htr & Hevs).
  pred.
  repeat (first [rewrite Hheap in H | rewrite lookup_insert_eq in H
                | rewrite insert_insert_eq in H | rewrite Hmap in H]; pred).
  destruct (Z.of_nat (length (player_map w)) <=? avatar) eqn:Elen; pred; [discriminate|].
  injection H as <- <-. pred.
  exists s, r, c, evs.
  split; [reflexivity|]. split; [reflexivity|].
  rewrite Hself, Htp.
  split; [reflexivity|]. split; [reflexivity|]. split; [reflexivity|].
  split; [reflexivity|]. split; [|exact Hevs].
  rewrite Htr. rewrite <- !app_assoc. reflexivity.
Qed.

(** C6.  From a connection that has not logged in, a LOGIN frame for
    an avatar that the player table maps to a record is rejected:
    player_login returns NULL between the lock and the unlock of the
    table mutex; the switch sends INUSE on the connection and leaves
    the locals as they were, so that the service loop goes on to the
    next frame; the player table and the records are unchanged.  When
    player_login returns a record, the record has a reference count of
    1, the direction NORTH and the view depth -1 of an invalid cache,
    the table maps the avatar to it, and the switch sends READY and
    then runs player_reset on it. *)
Theorem login_dispatch (VIEW_DEPTH : Z) (w : World) (client_fd avatar : Z)
    (name : option (list Z)) :
  this_player w !! self w = None ->
  0 <= avatar ->
  (forall q,
     player_map w !! Z.to_nat avatar = Some (Some q) ->
     let w' := after [EvLock map_mutex; EvUnlock map_mutex;
                      EvSend client_fd (mkPkt MZW_INUSE_PKT 0 0 0 0) None] w in
     player_login VIEW_DEPTH client_fd avatar name w
     = Some (None, after [EvLock map_mutex; EvUnlock map_mutex] w) /\
     dispatch VIEW_DEPTH client_fd (None, false) (login_frame avatar name) w
     = Some ((None, false), w') /\
     (forall rest,
        service_loop VIEW_DEPTH client_fd (login_frame avatar name :: rest)
          (None, false) w
        = service_loop VIEW_DEPTH client_fd rest (None, false) w') /\
     player_map w' = player_map w /\ heap w' = heap w) /\
  (forall p w1,
     player_login VIEW_DEPTH client_fd avatar name w = Some (Some p, w1) ->
     (exists r,
        heap w1 !! p = Some r /\ p_ref_count r = 1 /\ p_dir r = NORTH /\
        p_view_valid_depth r = -1 /\ p_client_fd r = client_fd /\
        p_avatar r = avatar) /\
     player_map w1 !! Z.to_nat avatar = Some (Some p) /\
     dispatch VIEW_DEPTH client_fd (None, false) (login_frame avatar name) w
     = (player_reset VIEW_DEPTH p ;; ret (Some p, true))
         (after [EvSend client_fd (mkPkt MZW_READY_PKT 0 0 0 0) None] w1)).
Proof.
  intros Htp Hav. split.
  - intros q Hq w'.
    pose proof (dispatch_login_in_use VIEW_DEPTH w client_fd avatar name q Hav Hq Htp)
      as Hd.
    split; [apply (player_login_in_use VIEW_DEPTH w client_fd avatar name q Hav Hq)|].
    split; [exact Hd|]. split; [|split; reflexivity].
    intros rest. cbn [service_loop].
    erewrite bind_Some by (apply check_this_player_unbound; exact Htp).
    erewrite bind_Some by (apply check_this_player_unbound; exact Htp).
    erewrite bind_Some by exact Hd. reflexivity.
  - intros p w1 Hlogin.
    destruct (player_login_success VIEW_DEPTH w client_fd avatar name p w1 Hlogin)
      as (s & r & c & evs & Hp & Htab & Hheap & Hmap & Htp1 & Hself & Htr & Hevs).
    split; [|split].
    + eexists. split; [rewrite Hheap; apply lookup_insert_eq|].
      cbn. auto.
    + rewrite Hmap. apply list_lookup_insert_eq.
      apply lookup_lt_Some in Htab. exact Htab.
    + unfold dispatch, login_frame. cbn [fst snd pkt_type pkt_param1].
      erewrite bind_Some by exact Hlogin.
      erewrite bind_Some.
      2:{ unfold this_player_write, modify. reflexivity. }
      cbv beta iota. unfold send_call.
      erewrite bind_Some by apply emit_after.
      rewrite Hself, Htp1, insert_insert_eq, <- Htp1, set_this_player_id.
      reflexivity.
Qed.

(** The theorem in [alice_world], where thread 8 asks for the avatar A
    that alice holds. *)
Lemma login_dispatch_witness :
  dispatch 8 11 (None, false) (login_frame 65 (Some (bytes "bob" ++ [0]))) alice_world
  = Some ((None, false),
          after [EvLock map_mutex; EvUnlock map_mutex;
                 EvSend 11 (mkPkt MZW_INUSE_PKT 0 0 0 0) None] alice_world).
Proof.
  refine (proj1 (proj2 (proj1 (login_dispatch 8 alice_world 11 65
                                 (Some (bytes "bob" ++ [0])) _ _) 1 _))).
  - reflexivity.
  - lia.
  - reflexivity.
Defined.

Example login_accepted :
  option_map (fun x => (fst x, take 5 (frames_sent (trace (snd x))), maze (snd x)))
    (dispatch 8 11 (None, false) (login_frame 66 (Some (bytes "bob" ++ [0])))
       alice_world)
  = Some ((Some 2, true),
          [(11, MZW_READY_PKT); (11, MZW_SCORE_PKT); (10, MZW_SCORE_PKT);
           (11, MZW_SCORE_PKT); (10, MZW_CLEAR_PKT)],
          [bytes "*****"; bytes "*A  *"; bytes "*B# *"; bytes "*****"]).
Proof. vm_compute. reflexivity. Qed.

(** ** Teardown *)

(** player_unref on a live record. *)
Lemma player_unref_spec (w : World) q r :
  heap w !! q = Some r ->
  exists w',
    player_unref q w = Some (tt, w') /\
    trace w' = trace w ++ unref_events w (Some q) /\
    heap_step w w' /\
    forall q', q' <> q -> heap w' !! q' = heap w !! q'.
Proof.
  intros Hq. unfold player_unref, unref_events. rewrite Hq.
  erewrite bind_Some by apply emit_after.
  erewrite bind_Some by (unfold load, after; cbn [heap set_trace]; rewrite Hq; reflexivity).
  erewrite bind_Some
    by (unfold store, after; cbn [heap set_trace]; rewrite Hq; reflexivity).
  erewrite bind_Some
    by (unfold load; cbn [heap set_heap]; rewrite lookup_insert_eq; reflexivity).
  cbn [p_ref_count set_p_ref_count].
  destruct (p_ref_count r - 1 =? 0).
  - erewrite bind_Some by apply emit_after.
    erewrite bind_Some by apply emit_after.
    unfold free_player.
    erewrite bind_Some
      by (unfold load, after; cbn [heap set_heap set_trace];
          rewrite lookup_insert_eq; reflexivity).
    erewrite bind_Some by (unfold modify; reflexivity).
    rewrite emit_after. eexists. split; [reflexivity|].
    unfold after. cbn [trace heap set_heap set_trace].
    split; [rewrite <- !app_assoc; reflexivity|].
    split; [repeat split|].
    intros q' Hne. rewrite lookup_delete_ne, lookup_insert_ne by congruence.
    reflexivity.
  - unfold pthread_mutex_unlock. rewrite emit_after.
    eexists. split; [reflexivity|].
    unfold after. cbn [trace heap set_heap set_trace].
    split; [rewrite <- !app_assoc, app_nil_r; reflexivity|].
    split; [repeat split|].
    intros q' Hne. rewrite lookup_insert_ne by congruence. reflexivity.
Qed.

Lemma heap_step_trans w1 w2 w3 : heap_step w1 w2 -> heap_step w2 w3 -> heap_step w1 w3.
Proof.
  unfold heap_step. intros H1 H2.
  destruct H1 as (?&?&?&?&?&?&?&?&?&?&?&?&?).
  destruct H2 as (?&?&?&?&?&?&?&?&?&?&?&?&?).
  repeat split; congruence.
Qed.

Lemma heap_step_refl w : heap_step w w.
Proof. unfold heap_step. repeat split. Qed.

(** The loop of player_fini over the entries [i .. i + n - 1] of a
    table of live, distinct records: one player_unref for each. *)
Lemma player_fini_loop (w0 : World) (n : nat) :
  table_live w0 -> table_distinct w0 ->
  forall (i : nat) (w : World),
    player_map w = player_map w0 ->
    (forall j q, (i <= j)%nat -> player_map w0 !! j = Some (Some q) ->
                 heap w !! q = heap w0 !! q) ->
    (i + n <= length (player_map w0))%nat ->
    exists w',
      for_loop n (Z.of_nat i) (fun i =>
        e <- player_map_read i ;;
        match e with
        | Some p => player_unref p
        | None => ret tt
        end) w = Some (tt, w') /\
      trace w' = trace w ++ concat (map (unref_events w0)
                                      (take n (drop i (player_map w0)))) /\
      heap_step w w'.
Proof.
  intros Hlive Hdist. induction n as [|n IH]; intros i w Hmap Hheap Hlen.
  - exists w. simpl. rewrite app_nil_r. split; [reflexivity|].
    split; [reflexivity|apply heap_step_refl].
  - cbn [for_loop].
    destruct (lookup_lt_is_Some_2 (player_map w0) i ltac:(lia)) as [e He].
    rewrite (drop_S _ _ _ He). cbn [take map concat].
    replace (Z.of_nat i + 1) with (Z.of_nat (S i)) by lia.
    assert (Hbody : exists w1,
               (e <- player_map_read (Z.of_nat i) ;;
                match e with
                | Some p => player_unref p
                | None => ret tt
                end) w = Some (tt, w1) /\
               trace w1 = trace w ++ unref_events w0 e /\
               heap_step w w1 /\
               forall j q, (S i <= j)%nat -> player_map w0 !! j = Some (Some q) ->
                           heap w1 !! q = heap w0 !! q).
    { erewrite bind_Some by (apply player_map_read_at; rewrite Hmap; exact He).
      destruct e as [q|].
      - destruct (proj2 Hlive i q He) as [r Hr].
        assert (Hr' : heap w !! q = Some r) by (rewrite (Hheap i q); auto).
        destruct (player_unref_spec w q r Hr') as (w1 & Hrun & Htr & Hstep & Hother).
        exists w1. split; [exact Hrun|]. split.
        + rewrite Htr. unfold unref_events. rewrite Hr, Hr'. reflexivity.
        + split; [exact Hstep|]. intros j q' Hj Hq'.
          rewrite Hother; [apply (Hheap j); [lia|exact Hq']|].
          intros ->. pose proof (Hdist i j q He Hq'). lia.
      - exists w. unfold unref_events. rewrite app_nil_r.
        split; [reflexivity|]. split; [reflexivity|].
        split; [apply heap_step_refl|]. intros j q Hj Hq. apply (Hheap j); [lia|exact Hq]. }
    destruct Hbody as (w1 & Hrun1 & Htr1 & Hstep1 & Hheap1).
    erewrite bind_Some by exact Hrun1.
    destruct (IH (S i) w1) as (w' & Hrun & Htr & Hstep).
    { destruct Hstep1 as (_&_&_&_&_&_&_&_&_&Hm&_). congruence. }
    { exact Hheap1. }
    { lia. }
    exists w'. split; [exact Hrun|]. split.
    + rewrite Htr, Htr1, <- app_assoc. reflexivity.
    + eapply heap_step_trans; eassumption.
Qed.

Lemma player_fini_spec (w : World) :
  table_live w -> table_distinct w ->
  exists w',
    player_fini w = Some (tt, w') /\
    trace w' = trace w ++ [EvLock map_mutex]
                 ++ concat (map (unref_events w) (player_map w))
                 ++ [EvUnlock map_mutex] /\
    heap_step w w'.
Proof.
  intros Hlive Hdist. unfold player_fini.
  erewrite bind_Some by apply emit_after.
  destruct (player_fini_loop w MAX_PLAYERS Hlive Hdist 0 (after [EvLock map_mutex] w))
    as (w1 & Hrun & Htr & Hstep).
  { reflexivity. } { reflexivity. } { rewrite (proj1 Hlive). simpl. lia. }
  change (Z.of_nat 0) with 0 in Hrun.
  erewrite bind_Some by exact Hrun.
  unfold pthread_mutex_unlock. rewrite emit_after. eexists. split; [reflexivity|].
  rewrite drop_0, <- (proj1 Hlive), firstn_all in Htr.
  unfold after. cbn [trace set_trace].
  split.
  - rewrite Htr. unfold after. cbn [trace set_trace]. rewrite <- !app_assoc. reflexivity.
  - destruct Hstep as (?&?&?&?&?&?&?&?&?&?&?&?&?). repeat split; assumption.
Qed.

Lemma omap_fini_mark_app evs1 evs2 :
  omap fini_mark (evs1 ++ evs2) = omap fini_mark evs1 ++ omap fini_mark evs2.
Proof. apply omap_app. Qed.

Lemma fini_mark_shutdowns fds : omap fini_mark (map EvShutdownRd fds) = [].
Proof. induction fds as [|fd fds IH]; [reflexivity|exact IH]. Qed.

Lemma fini_mark_unrefs (w : World) tbl :
  omap fini_mark (concat (map (unref_events w) tbl)) = [].
Proof.
  induction tbl as [|e tbl IH]; [reflexivity|].
  cbn [map concat]. rewrite omap_fini_mark_app, IH, app_nil_r.
  unfold unref_events. destruct e as [q|]; [|reflexivity].
  destruct (heap w !! q) as [r|]; [|reflexivity].
  destruct (p_ref_count r - 1 =? 0); reflexivity.
Qed.

Lemma bind_bind {S A B C} (m : ST S A) (f : A -> ST S B) (k : B -> ST S C) s :
  bind (bind m f) k s = bind m (fun a => bind (f a) k) s.
Proof. unfold bind. destruct (m s) as [[a s']|]; reflexivity. Qed.

(** creg_wait_for_empty among other threads is creg_wait_for_empty
    when it does not have to sleep. *)
Lemma creg_wait_for_empty_among_awake (others : M unit) (w : World) cr :
  client_registry w = Some cr ->
  wait_blocks cr = false ->
  creg_wait_for_empty_among others w = creg_wait_for_empty w.
Proof.
  intros Hcr Hawake. unfold wait_blocks in Hawake.
  unfold creg_wait_for_empty_among, creg_wait_for_empty, sem_wait_among, cr_load.
  mred. rewrite Hcr. mred.
  destruct (cr_count cr =? 0); cbn [negb andb] in *; [reflexivity|].
  mred. rewrite Hcr. mred. rewrite Hawake. reflexivity.
Qed.

(** The teardown goes on from a world with a registry, whose
    semaphore is posted when the registry had clients, and a table of
    live, distinct records. *)
Lemma teardown_finish (w1 : World) (cr1 : CLIENT_REGISTRY) (waited : bool) (status : Z) :
  client_registry w1 = Some cr1 ->
  (waited = true -> 0 < cr_empty cr1) ->
  table_live w1 -> table_distinct w1 ->
  exists w',
    ((if waited then sem_wait else ret tt) ;;
     creg_fini ;; player_fini ;; maze_fini ;; emit (EvExit status)) w1
    = Some (tt, w') /\
    trace w' = trace w1
               ++ (if waited then [EvSemWait] else [])
               ++ [EvMutexDestroy creg_mutex; EvSemDestroy; EvFreeRegistry]
               ++ ([EvLock map_mutex]
                   ++ concat (map (unref_events w1) (player_map w1))
                   ++ [EvUnlock map_mutex])
               ++ [EvLock maze_mutex; EvFreeMaze; EvUnlock maze_mutex;
                   EvMutexDestroy maze_mutex]
               ++ [EvExit status] /\
    client_registry w' = None /\ maze w' = [].
Proof.
  intros Hcr1 Hpost Hlive Hdist.
  set (wa := if waited
             then after [EvSemWait]
                    (with_registry (mkRegistry (cr_client_fds cr1) (cr_count cr1)
                                               (cr_empty cr1 - 1)) w1)
             else w1).
  assert (Hwait : (if waited then sem_wait else ret tt) w1 = Some (tt, wa)).
  { subst wa. destruct waited; [|reflexivity].
    assert (Hle : (cr_empty cr1 <=? 0) = false) by (apply Z.leb_gt; auto).
    unfold after, with_registry. cred. rewrite Hcr1. mred. rewrite Hle. mred.
    reflexivity. }
  erewrite bind_Some by exact Hwait.
  assert (Hwa : trace wa = trace w1 ++ (if waited then [EvSemWait] else []) /\
                is_Some (client_registry wa) /\
                player_map wa = player_map w1 /\ heap wa = heap w1).
  { subst wa. destruct waited.
    - unfold after, with_registry.
      cbn [trace set_trace set_client_registry client_registry player_map heap]. eauto.
    - rewrite app_nil_r, Hcr1. eauto. }
  destruct Hwa as (Htra & [cra Hcra] & Hmapa & Heapa). clearbody wa.
  assert (Hfini : creg_fini wa
                  = Some (tt, set_client_registry None
                                (after [EvMutexDestroy creg_mutex; EvSemDestroy;
                                        EvFreeRegistry] wa))).
  { unfold creg_fini. erewrite bind_Some by reflexivity. rewrite Hcra.
    unfold pthread_mutex_destroy.
    erewrite bind_Some by apply emit_after.
    erewrite bind_Some by apply emit_after.
    erewrite bind_Some by apply emit_after.
    rewrite !after_after. reflexivity. }
  erewrite bind_Some by exact Hfini.
  set (w2 := set_client_registry None _).
  assert (Hlive2 : table_live w2).
  { destruct Hlive as [Hl Hh]. split.
    - subst w2. unfold after. cbn [player_map set_client_registry set_trace].
      rewrite Hmapa. exact Hl.
    - intros i q Hq. subst w2. unfold after in *.
      cbn [player_map heap set_client_registry set_trace] in *.
      rewrite Heapa. rewrite Hmapa in Hq. eauto. }
  assert (Hdist2 : table_distinct w2).
  { intros i j q Hi Hj. subst w2. unfold after in *.
    cbn [player_map set_client_registry set_trace] in *.
    rewrite Hmapa in Hi, Hj. eauto. }
  destruct (player_fini_spec w2 Hlive2 Hdist2) as (w3 & Hrun3 & Htr3 & Hstep3).
  erewrite bind_Some by exact Hrun3.
  unfold maze_fini, pthread_mutex_lock, pthread_mutex_unlock, pthread_mutex_destroy.
  erewrite bind_Some.
  2:{ erewrite bind_Some by apply emit_after.
      erewrite bind_Some by apply emit_after.
      erewrite bind_Some by (unfold modify; reflexivity).
      erewrite bind_Some by (unfold modify; reflexivity).
      erewrite bind_Some by apply emit_after.
      apply emit_after. }
  rewrite emit_after.
  assert (Hun : map (unref_events w2) (player_map w2)
                = map (unref_events w1) (player_map w1)).
  { subst w2. unfold after. cbn [player_map set_client_registry set_trace].
    rewrite Hmapa. apply map_ext. intros [q|]; [|reflexivity].
    unfold unref_events. cbn [heap set_client_registry set_trace].
    rewrite Heapa. reflexivity. }
  eexists. split; [reflexivity|]. split.
  - unfold after. cbn [trace set_trace set_maze set_maze_ends].
    rewrite Htr3, Hun. subst w2. unfold after.
    cbn [trace set_client_registry set_trace]. rewrite Htra.
    rewrite <- !app_assoc. reflexivity.
  - destruct Hstep3 as (Hm & _ & _ & _ & _ & Hc & _).
    unfold after. cbn [client_registry maze set_trace set_maze set_maze_ends].
    split; [|reflexivity]. rewrite Hc. reflexivity.
Qed.

(** C7, as the code has it.  On the graceful-stop signal the main
    thread closes the listening socket (when the descriptor is
    positive), runs creg_shutdown_all and enters creg_wait_for_empty.
    When clients are registered and no post of the semaphore is
    pending it sleeps there while the service threads run; [w1] is the
    world in which it goes on, which is the world it has reached
    itself when it does not have to sleep.  If the semaphore is posted
    by then and the table holds live, distinct records, the teardown
    completes and the events of the main thread are, in this order:
    those up to the wait; the return of sem_wait when clients were
    registered; the finalization of the registry; the finalization of
    the player module, one player_unref for each table entry; the
    finalization of the maze; the exit.  The registry is finalized
    first of the three modules, not last.  When the main thread does
    not have to sleep, this is handle_sighup as it stands. *)
Theorem handle_sighup_order (others : M unit) (w w1 : World) (sig : Z)
    (cr cr1 : CLIENT_REGISTRY) :
  client_registry w = Some cr ->
  length (cr_client_fds cr) = MAX_CLIENTS ->
  (if wait_blocks cr
   then others (after (teardown_start w cr) w) = Some (tt, w1)
   else w1 = after (teardown_start w cr) w) ->
  client_registry w1 = Some cr1 ->
  (cr_count cr <> 0 -> 0 < cr_empty cr1) ->
  table_live w1 -> table_distinct w1 ->
  exists (w' : World) (rest : list event),
    handle_sighup_among others sig w = Some (tt, w') /\
    trace w' = trace w1 ++ rest /\
    rest = (if cr_count cr =? 0 then [] else [EvSemWait])
           ++ [EvMutexDestroy creg_mutex; EvSemDestroy; EvFreeRegistry]
           ++ ([EvLock map_mutex]
               ++ concat (map (unref_events w1) (player_map w1))
               ++ [EvUnlock map_mutex])
           ++ [EvLock maze_mutex; EvFreeMaze; EvUnlock maze_mutex;
               EvMutexDestroy maze_mutex]
           ++ [EvExit EXIT_SUCCESS] /\
    omap fini_mark (teardown_start w cr ++ rest)
    = [FiniRegistry; FiniPlayer; FiniMaze] /\
    client_registry w' = None /\ maze w' = [] /\
    (wait_blocks cr = false ->
     handle_sighup sig w = Some (tt, w') /\
     trace w' = trace w ++ teardown_start w cr ++ rest).
Proof.
  intros Hcr Hlen Hothers Hcr1 Hpost Hlive Hdist.
  set (closing := if listenfd w >? 0 then [EvClose (listenfd w)] else []).
  assert (Hclose : (if listenfd w >? 0 then emit (EvClose (listenfd w)) else ret tt) w
                   = Some (tt, after closing w)).
  { subst closing. destruct (listenfd w >? 0); [apply emit_after|].
    rewrite after_nil. reflexivity. }
  set (shut := closing ++ [EvLock creg_mutex] ++ map EvShutdownRd (live_fds cr)
                 ++ [EvUnlock creg_mutex]).
  assert (Hshut : creg_shutdown_all (after closing w) = Some (tt, after shut w)).
  { rewrite (creg_shutdown_all_spec _ cr) by (try exact Hcr; exact Hlen).
    rewrite after_after. reflexivity. }
  assert (Hstart : teardown_start w cr = shut ++ [EvLock creg_mutex; EvUnlock creg_mutex]).
  { unfold teardown_start. subst shut closing. rewrite <- !app_assoc. reflexivity. }
  destruct (teardown_finish w1 cr1 (negb (cr_count cr =? 0)) EXIT_SUCCESS Hcr1)
    as (w' & Hrun & Htr & Hnone & Hmaze); [|exact Hlive|exact Hdist|].
  { intros Hc. apply Hpost. apply negb_true_iff, Z.eqb_neq in Hc. exact Hc. }
  assert (Hload : cr_load (after [EvLock creg_mutex] (after shut w))
                  = Some (cr, after [EvLock creg_mutex] (after shut w))).
  { unfold cr_load, after. cbn [client_registry set_trace]. rewrite Hcr. reflexivity. }
  assert (Hload2 : cr_load (after (teardown_start w cr) w)
                   = Some (cr, after (teardown_start w cr) w)).
  { unfold cr_load, after. cbn [client_registry set_trace]. rewrite Hcr. reflexivity. }
  assert (Hstart2 : after [EvUnlock creg_mutex]
                      (after [EvLock creg_mutex] (after shut w))
                    = after (teardown_start w cr) w).
  { rewrite Hstart, !after_after, <- ?app_assoc. reflexivity. }
  assert (Hamong : (creg_wait_for_empty_among others ;;
                    creg_fini ;; player_fini ;; maze_fini ;; emit (EvExit EXIT_SUCCESS))
                     (after shut w) = Some (tt, w')).
  { unfold creg_wait_for_empty_among. rewrite bind_bind.
    erewrite bind_Some by apply emit_after. rewrite bind_bind.
    erewrite bind_Some by exact Hload. cbv zeta. rewrite bind_bind.
    erewrite bind_Some by apply emit_after.
    rewrite Hstart2.
    unfold wait_blocks in Hothers.
    destruct (cr_count cr =? 0) eqn:Hc; cbn [negb andb] in *.
    - subst w1. exact Hrun.
    - unfold sem_wait_among. rewrite bind_bind.
      erewrite bind_Some by exact Hload2. cbv beta.
      destruct (cr_empty cr <=? 0) eqn:He.
      + rewrite bind_bind. erewrite bind_Some by exact Hothers. exact Hrun.
      + subst w1. exact Hrun. }
  exists w'. eexists. split.
  { unfold handle_sighup_among, terminate_among.
    erewrite bind_Some by reflexivity.
    erewrite bind_Some by exact Hclose.
    erewrite bind_Some by exact Hshut.
    exact Hamong. }
  split; [exact Htr|]. split.
  { destruct (cr_count cr =? 0); reflexivity. }
  split.
  { rewrite Hstart. subst shut closing.
    rewrite !omap_fini_mark_app, fini_mark_shutdowns, fini_mark_unrefs.
    destruct (listenfd w >? 0), (cr_count cr =? 0); reflexivity. }
  split; [exact Hnone|]. split; [exact Hmaze|].
  intros Hawake. split.
  - unfold handle_sighup, terminate.
    erewrite bind_Some by reflexivity.
    erewrite bind_Some by exact Hclose.
    erewrite bind_Some by exact Hshut.
    unfold bind at 1.
    rewrite <- (creg_wait_for_empty_among_awake others _ cr) by (try exact Hcr; exact Hawake).
    exact Hamong.
  - rewrite Hawake in Hothers. subst w1. rewrite Htr.
    unfold after. cbn [trace set_trace].
    destruct (cr_count cr =? 0); rewrite <- !app_assoc; reflexivity.
Qed.

Lemma drained_world_live : table_live drained_world.
Proof.
  split; [reflexivity|]. intros i q Hq.
  destruct (decide (i = 65%nat)) as [->|Hne].
  - vm_compute in Hq. injection Hq as <-. vm_compute. eauto.
  - unfold drained_world, alice_world in Hq. cbn [player_map set_client_registry] in Hq.
    rewrite list_lookup_insert_ne in Hq by congruence.
    apply lookup_replicate in Hq. destruct Hq as [Hq _]. discriminate.
Qed.

Lemma drained_world_distinct : table_distinct drained_world.
Proof.
  assert (H : forall i q, player_map drained_world !! i = Some (Some q) -> i = 65%nat).
  { intros i q Hq. destruct (decide (i = 65%nat)) as [->|Hne]; [reflexivity|].
    unfold drained_world, alice_world in Hq. cbn [player_map set_client_registry] in Hq.
    rewrite list_lookup_insert_ne in Hq by congruence.
    apply lookup_replicate in Hq. destruct Hq as [Hq _]. discriminate. }
  intros i j q Hi Hj. rewrite (H i q Hi), (H j q Hj). reflexivity.
Qed.

(** What the service threads of [alice_world] leave when they have
    gone: an empty registry with its semaphore posted and an empty
    table. *)
Lemma alice_world_exits_run :
  exists w1,
    alice_world_exits (after (teardown_start alice_world
                                (mkRegistry (<[0%nat := 10]> (<[1%nat := 11]>
                                               (replicate MAX_CLIENTS (-1)))) 2 0))
                         alice_world)
    = Some (tt, w1) /\
    client_registry w1 = Some (mkRegistry (replicate MAX_CLIENTS (-1)) 0 1) /\
    player_map w1 = replicate MAX_PLAYERS None.
Proof.
  eexists. split; [vm_compute; reflexivity|]. split; vm_compute; reflexivity.
Qed.

Lemma table_live_empty (w : World) :
  player_map w = replicate MAX_PLAYERS None -> table_live w.
Proof.
  intros H. split; [rewrite H; apply length_replicate|].
  intros i q Hi. rewrite H in Hi. apply lookup_replicate in Hi.
  destruct Hi as [Hi _]. discriminate.
Qed.

Lemma table_distinct_empty (w : World) :
  player_map w = replicate MAX_PLAYERS None -> table_distinct w.
Proof.
  intros H i j q Hi _. rewrite H in Hi. apply lookup_replicate in Hi.
  destruct Hi as [Hi _]. discriminate.
Qed.

(** The order at two stops of the world of alice.  With both clients
    registered and no post pending the main thread sleeps until the
    service threads have gone; at the drained world, where alice's
    record is still in the table, it does not sleep and handle_sighup
    as it stands releases the registry, then the record, then the
    grid. *)
Lemma handle_sighup_order_witness :
  (exists (w1 w' : World) (rest : list event),
     handle_sighup_among alice_world_exits 1 alice_world = Some (tt, w') /\
     trace w' = trace w1 ++ rest /\
     omap fini_mark
       (teardown_start alice_world
          (mkRegistry (<[0%nat := 10]> (<[1%nat := 11]> (replicate MAX_CLIENTS (-1)))) 2 0)
        ++ rest)
     = [FiniRegistry; FiniPlayer; FiniMaze]) /\
  (exists (w' : World) (rest : list event),
     handle_sighup 1 drained_world = Some (tt, w') /\
     trace w' = trace drained_world
                ++ teardown_start drained_world
                     (mkRegistry (replicate MAX_CLIENTS (-1)) 0 1) ++ rest /\
     omap fini_mark
       (teardown_start drained_world (mkRegistry (replicate MAX_CLIENTS (-1)) 0 1) ++ rest)
     = [FiniRegistry; FiniPlayer; FiniMaze]).
Proof.
  split.
  - destruct alice_world_exits_run as (w1 & Hrun1 & Hcr1 & Hmap1).
    destruct (handle_sighup_order alice_world_exits alice_world w1 1
                (mkRegistry (<[0%nat := 10]> (<[1%nat := 11]> (replicate MAX_CLIENTS (-1)))) 2 0)
                (mkRegistry (replicate MAX_CLIENTS (-1)) 0 1)
                eq_refl eq_refl Hrun1 Hcr1)
      as (w' & rest & Hrun & Htr & _ & Hmarks & _).
    + intros _. reflexivity.
    + apply table_live_empty. exact Hmap1.
    + apply table_distinct_empty. exact Hmap1.
    + exists w1, w', rest. split; [exact Hrun|]. split; [exact Htr|exact Hmarks].
  - destruct (handle_sighup_order undefined drained_world _ 1
                (mkRegistry (replicate MAX_CLIENTS (-1)) 0 1)
                (mkRegistry (replicate MAX_CLIENTS (-1)) 0 1)
                eq_refl eq_refl eq_refl eq_refl)
      as (w' & rest & _ & _ & _ & Hmarks & _ & _ & Hplain).
    + intros H. contradiction.
    + exact drained_world_live.
    + exact drained_world_distinct.
    + destruct (Hplain eq_refl) as [Hrun Htr].
      exists w', rest. split; [exact Hrun|]. split; [exact Htr|exact Hmarks].
Defined.

Lemma drained_world_teardown :
  option_map (fun x => trace (snd x)) (terminate 0 drained_world)
  = Some [EvClose 3;
          EvLock creg_mutex; EvUnlock creg_mutex;
          EvLock creg_mutex; EvUnlock creg_mutex;
          EvMutexDestroy creg_mutex; EvSemDestroy; EvFreeRegistry;
          EvLock map_mutex;
          EvLock (player_mutex 1); EvUnlock (player_mutex 1);
          EvMutexDestroy (player_mutex 1); EvFreePlayer 1;
          EvUnlock map_mutex;
          EvLock maze_mutex; EvFreeMaze; EvUnlock maze_mutex;
          EvMutexDestroy maze_mutex;
          EvExit 0].
Proof. vm_compute. reflexivity. Qed.

(** C7, as stated, does not hold: at the drained world of alice the
    registry is finalized before the player module and the maze. *)
Lemma teardown_order_not_as_claimed : ~ teardown_order_claimed.
Proof.
  intros H.
  pose proof drained_world_teardown as Hrun.
  destruct (terminate 0 drained_world) as [[[] w']|] eqn:Ht; [|discriminate].
  cbn [option_map snd] in Hrun. injection Hrun as Htr.
  specialize (H drained_world 0 w' (trace w') Ht eq_refl).
  rewrite Htr in H. vm_compute in H. discriminate.
Qed.

(** * Further properties *)

(** ** Placement in the maze *)

Lemma maze_wf_after evs w : maze_wf (after evs w) <-> maze_wf w.
Proof. reflexivity. Qed.

Lemma maze_put_length g r c x : length (maze_put g r c x) = length g.
Proof.
  unfold maze_put. destruct (g !! Z.to_nat r); [|reflexivity].
  apply length_insert.
Qed.

Lemma maze_wf_put w r c x :
  maze_wf w -> maze_wf (set_maze (maze_put (maze w) r c x) w).
Proof.
  intros [Hr Hc]. unfold maze_wf. mred. split.
  - rewrite maze_put_length. exact Hr.
  - unfold maze_put. destruct (maze w !! Z.to_nat r) as [line|] eqn:El; [|exact Hc].
    apply Forall_insert; [exact Hc|]. rewrite length_insert.
    rewrite Forall_lookup in Hc. exact (Hc _ _ El).
Qed.

(** Two grids of the same shape with the same cells are equal. *)
Lemma maze_ext (g g' : list (list Z)) :
  length g = length g' ->
  (forall i l l', g !! i = Some l -> g' !! i = Some l' -> length l = length l') ->
  (forall r c, maze_at g r c = maze_at g' r c) ->
  g = g'.
Proof.
  intros Hlen Hrows Hcells. apply list_eq_same_length with (length g); auto.
  intros i l l' Hi Hl Hl'. f_equal.
  pose proof (Hrows i l l' Hl Hl') as Hll.
  apply list_eq_same_length with (length l); auto.
  intros j x y Hj Hx Hy.
  specialize (Hcells (Z.of_nat i) (Z.of_nat j)). unfold maze_at in Hcells.
  replace (Z.of_nat i <? 0) with false in Hcells by (symmetry; apply Z.ltb_ge; lia).
  replace (Z.of_nat j <? 0) with false in Hcells by (symmetry; apply Z.ltb_ge; lia).
  simpl in Hcells. rewrite !Nat2Z.id, Hl, Hl', Hx, Hy in Hcells. congruence.
Qed.

(** Putting back the byte a cell held restores the grid. *)
Lemma maze_put_put_back g r c x y :
  maze_at g r c = Some y ->
  maze_put (maze_put g r c x) r c y = g.
Proof.
  intros H. unfold maze_at in H.
  destruct ((r <? 0) || (c <? 0)); [discriminate|].
  unfold maze_put at 2. destruct (g !! Z.to_nat r) as [line|] eqn:El; [|discriminate].
  unfold maze_put. rewrite list_lookup_insert_eq by (eapply lookup_lt_Some; eassumption).
  rewrite list_insert_insert_eq, list_insert_insert_eq.
  rewrite (list_insert_id line _ y H). apply list_insert_id. exact El.
Qed.

(** maze_set_player as a function of the cell it is asked to fill. *)
Lemma maze_set_player_run (w : World) avatar row col :
  maze_wf w ->
  maze_set_player avatar row col w =
  Some (match maze_at (maze w) row col with
        | Some c =>
            if IS_EMPTY c
            then (0, after [EvLock maze_mutex; EvUnlock maze_mutex]
                       (set_maze (maze_put (maze w) row col avatar) w))
            else (-1, after [EvLock maze_mutex; EvUnlock maze_mutex] w)
        | None => (-1, after [EvLock maze_mutex; EvUnlock maze_mutex] w)
        end).
Proof.
  intros Hwf. unfold maze_set_player, after. mred.
  destruct (outside (maze_rows w) (maze_cols w) row col) eqn:E; mred.
  - rewrite (maze_at_outside w row col Hwf E), <- app_assoc. reflexivity.
  - destruct (maze_at_inside w row col Hwf E) as [c Hc]. rewrite Hc.
    destruct (IS_EMPTY c); mred.
    + rewrite Hc. mred. rewrite <- app_assoc. reflexivity.
    + rewrite <- app_assoc. reflexivity.
Qed.

Lemma maze_remove_player_run (w : World) avatar row col :
  maze_remove_player avatar row col w =
  match maze_at (maze w) row col with
  | Some c =>
      Some (tt, after [EvLock maze_mutex; EvUnlock maze_mutex]
                  (if char_value c =? avatar
                   then set_maze (maze_put (maze w) row col EMPTY) w
                   else w))
  | None =>
      match maze_end_at (maze w) (maze_ends w) row col with
      | Some e =>
          Some (tt, after [EvLock maze_mutex; EvUnlock maze_mutex]
                      (if char_value e =? avatar
                       then set_maze_ends (<[Z.to_nat row := EMPTY]> (maze_ends w)) w
                       else w))
      | None => None
      end
  end.
Proof.
  unfold maze_remove_player, after. mred.
  destruct (maze_at (maze w) row col) as [c|] eqn:Hc.
  - destruct (char_value c =? avatar); mred.
    + rewrite Hc. mred. rewrite <- app_assoc. reflexivity.
    + rewrite <- app_assoc. reflexivity.
  - destruct (maze_end_at (maze w) (maze_ends w) row col) as [e|] eqn:He;
      [|reflexivity].
    destruct (char_value e =? avatar); mred.
    + rewrite Hc, He. mred. rewrite <- app_assoc. reflexivity.
    + rewrite <- app_assoc. reflexivity.
Qed.

(** The byte that ends a row is no cell of the grid. *)
Lemma maze_end_no_cell (g : list (list Z)) (ends : list Z) row col e :
  maze_end_at g ends row col = Some e -> maze_at g row col = None.
Proof.
  unfold maze_end_at, maze_at.
  destruct ((row <? 0) || (col <? 0)); [discriminate|].
  destruct (g !! Z.to_nat row) as [line|]; [|discriminate].
  destruct (Z.eqb_spec col (Z.of_nat (length line))) as [->|_]; [|discriminate].
  intros _. apply lookup_ge_None. lia.
Qed.

Lemma char_value_byte (c : Z) :
  (c < 128 -> char_value c = c) /\ (128 <= c < 256 -> char_value c < 0).
Proof. unfold char_value. split; intros H; destruct (Z.ltb_spec c 128); lia. Qed.

Lemma IS_EMPTY_true c : IS_EMPTY c = true <-> c = EMPTY.
Proof. unfold IS_EMPTY, EMPTY. lia. Qed.

(** Maze_init on a template that is not empty and whose rows all
    have the length of the first makes a well-formed grid of these
    dimensions and initialises the mutex; on an empty template it
    reports an error and leaves the maze and its dimensions as they
    were. *)
Theorem maze_init_wf (template : list (list Z)) (w : World) :
  rectangular template ->
  exists w',
    maze_init template w = Some (tt, w') /\
    match template with
    | [] => w' = after [EvError "maze_init: invalid or empty template"] w
    | first :: _ =>
        maze_wf w' /\ maze w' = template /\
        maze_rows w' = Z.of_nat (length template) /\
        maze_cols w' = Z.of_nat (length first) /\
        trace w' = trace w ++ [EvMutexInit maze_mutex]
    end.
Proof.
  intros Hrect. destruct template as [|first rest].
  - eexists. split; reflexivity.
  - eexists. split; [reflexivity|]. unfold maze_wf. mred.
    repeat split; try reflexivity.
    unfold rectangular in Hrect. eapply Forall_impl; [exact Hrect|].
    intros line Hl. simpl in Hl. simpl. congruence.
Qed.

Lemma maze_init_wf_witness :
  exists w',
    maze_init default_maze (world_of []) = Some (tt, w') /\
    maze_wf w' /\ maze_rows w' = 8 /\ maze_cols w' = 30.
Proof.
  assert (Hrect : rectangular default_maze).
  { unfold rectangular, default_maze. repeat constructor. }
  destruct (maze_init_wf default_maze (world_of []) Hrect) as (w' & Hrun & Hwf & _ & Hr & Hc & _).
  exists w'. split; [exact Hrun|]. split; [exact Hwf|]. split; [exact Hr|exact Hc].
Defined.

(** X1.  On a well-formed grid maze_set_player returns 0 exactly when
    the cell is a cell of the grid that holds EMPTY; it then holds the
    byte given, whatever it is, and every other cell is as before.
    Otherwise it returns -1 and the grid is unchanged. *)
Theorem maze_set_player_spec (w : World) (avatar : OBJECT) (row col : Z) :
  maze_wf w ->
  exists rc w',
    maze_set_player avatar row col w = Some (rc, w') /\
    (rc = 0 \/ rc = -1) /\
    (rc = 0 <-> free_cell w (row, col)) /\
    (rc = 0 -> cell_set (maze w) (maze w') row col avatar) /\
    (rc = -1 -> maze w' = maze w) /\
    maze_wf w' /\
    trace w' = trace w ++ [EvLock maze_mutex; EvUnlock maze_mutex].
Proof.
  intros Hwf. rewrite (maze_set_player_run w avatar row col Hwf).
  unfold free_cell, cell_set. cbn [fst snd].
  destruct (maze_at (maze w) row col) as [c|] eqn:Hc.
  - destruct (IS_EMPTY c) eqn:He.
    + apply IS_EMPTY_true in He. subst c.
      eexists _, _. split; [reflexivity|]. split; [auto|].
      split; [tauto|]. split; [|split; [lia|split; [|reflexivity]]].
      * intros _ r c. unfold after. mred. apply maze_at_put. eauto.
      * apply maze_wf_after, maze_wf_put, Hwf.
    + eexists _, _. split; [reflexivity|]. split; [auto|].
      split; [|split; [lia|split; [reflexivity|split; [exact Hwf|reflexivity]]]].
      split; [lia|]. intros [= ->]. discriminate.
  - eexists _, _. split; [reflexivity|]. split; [auto|].
    split; [|split; [lia|split; [reflexivity|split; [exact Hwf|reflexivity]]]].
    split; [lia|discriminate].
Qed.

Lemma maze_set_player_spec_witness :
  exists rc w',
    maze_set_player 67 1 2 (world_of small_maze) = Some (rc, w') /\
    (rc = 0 <-> free_cell (world_of small_maze) (1, 2)) /\
    maze_wf w'.
Proof.
  destruct (maze_set_player_spec (world_of small_maze) 67 1 2 small_maze_wf)
    as (rc & w' & Hrun & _ & Hiff & _ & _ & Hwf & _).
  exists rc, w'. split; [exact Hrun|]. split; [exact Hiff|exact Hwf].
Defined.

(** X2.  maze_remove_player checks no bounds, and it compares the
    [char] of the grid with the avatar after promotion.  At a cell of
    the grid it puts EMPTY when the value of the cell as a [char] is
    the avatar, and no other cell changes; otherwise the grid is
    unchanged, so that a cell that holds a byte of 128 or more is
    never emptied for an avatar that is a byte.  At the position one
    past the last cell of a row it reads the byte that ends the string
    of the row, and writes EMPTY over it when that byte is the avatar,
    as the NUL is for the avatar 0; the cells of the grid are
    unchanged.  At every other position the access is outside the
    strings of the maze and the call has no defined outcome. *)
Theorem maze_remove_player_spec (w : World) (avatar : OBJECT) (row col : Z) :
  (forall c,
     maze_at (maze w) row col = Some c ->
     exists w',
       maze_remove_player avatar row col w = Some (tt, w') /\
       (char_value c = avatar -> cell_set (maze w) (maze w') row col EMPTY) /\
       (char_value c <> avatar -> maze w' = maze w) /\
       (128 <= c < 256 -> 0 <= avatar -> maze w' = maze w) /\
       (c < 128 -> c = avatar -> cell_set (maze w) (maze w') row col EMPTY) /\
       maze_ends w' = maze_ends w /\
       trace w' = trace w ++ [EvLock maze_mutex; EvUnlock maze_mutex]) /\
  (forall e,
     maze_end_at (maze w) (maze_ends w) row col = Some e ->
     exists w',
       maze_remove_player avatar row col w = Some (tt, w') /\
       maze w' = maze w /\
       maze_ends w' = (if decide (char_value e = avatar)
                       then <[Z.to_nat row := EMPTY]> (maze_ends w)
                       else maze_ends w) /\
       trace w' = trace w ++ [EvLock maze_mutex; EvUnlock maze_mutex]) /\
  (maze_at (maze w) row col = None ->
   maze_end_at (maze w) (maze_ends w) row col = None ->
   maze_remove_player avatar row col w = None).
Proof.
  rewrite maze_remove_player_run. split; [|split].
  - intros c Hc. rewrite Hc. eexists. split; [reflexivity|].
    destruct (char_value_byte c) as [Hlow Hhigh].
    destruct (Z.eqb_spec (char_value c) avatar) as [Heq|Hne].
    + assert (Hset : cell_set (maze w)
                       (maze (after [EvLock maze_mutex; EvUnlock maze_mutex]
                                (set_maze (maze_put (maze w) row col EMPTY) w)))
                       row col EMPTY).
      { intros r c'. unfold after. mred. apply maze_at_put. eauto. }
      split; [intros _; exact Hset|]. split; [congruence|].
      split; [intros Hc8 Hav; specialize (Hhigh Hc8); lia|].
      split; [intros _ _; exact Hset|]. split; reflexivity.
    + split; [congruence|]. split; [reflexivity|]. split; [reflexivity|].
      split; [|split; reflexivity].
      intros Hc7 Heq. specialize (Hlow Hc7). congruence.
  - intros e He. rewrite (maze_end_no_cell _ _ _ _ _ He), He.
    eexists. split; [reflexivity|].
    destruct (Z.eqb_spec (char_value e) avatar) as [Heq|Hne].
    + rewrite decide_True by exact Heq. repeat split.
    + rewrite decide_False by exact Hne. repeat split.
  - intros -> ->. reflexivity.
Qed.

(** The theorem at the end of row 1 of [small_maze], for the avatar
    0: the NUL that ends the row is written over. *)
Lemma maze_remove_player_spec_witness :
  exists w',
    maze_remove_player 0 1 5 (world_of small_maze) = Some (tt, w') /\
    maze w' = small_maze /\
    maze_ends w' = [0; 32; 0; 0].
Proof.
  destruct (proj1 (proj2 (maze_remove_player_spec (world_of small_maze) 0 1 5)) 0 eq_refl)
    as (w' & Hrun & Hmaze & Hends & _).
  exists w'. split; [exact Hrun|]. split; [exact Hmaze|exact Hends].
Defined.

(** X3.  What maze_set_player has placed, maze_remove_player takes
    away when the byte is below 128: after a placement that returned
    0, the removal of the same byte at the same cell gives back the
    grid as it was.  A byte of 128 or more stays where it was placed:
    read from the grid it is a negative [char], which the avatar is
    not, and the removal leaves the grid as the placement left it. *)
Theorem maze_set_then_remove (w w1 : World) (avatar : OBJECT) (row col : Z) :
  maze_wf w ->
  maze_set_player avatar row col w = Some (0, w1) ->
  exists w2,
    maze_remove_player avatar row col w1 = Some (tt, w2) /\
    (avatar < 128 -> maze w2 = maze w) /\
    (128 <= avatar ->
     maze w2 = maze w1 /\ maze_at (maze w2) row col = Some avatar).
Proof.
  intros Hwf Hset. rewrite (maze_set_player_run w avatar row col Hwf) in Hset.
  destruct (maze_at (maze w) row col) as [c|] eqn:Hc; [|discriminate].
  destruct (IS_EMPTY c) eqn:He; [|discriminate].
  apply IS_EMPTY_true in He. subst c. injection Hset as <-.
  rewrite maze_remove_player_run. unfold after. mred.
  assert (Hat : maze_at (maze_put (maze w) row col avatar) row col = Some avatar).
  { rewrite maze_at_put by eauto. rewrite decide_True by auto. reflexivity. }
  rewrite Hat. eexists. split; [reflexivity|].
  unfold char_value. destruct (Z.ltb_spec avatar 128) as [Hlt|Hge].
  - rewrite Z.eqb_refl. mred. split; [|lia].
    intros _. apply maze_put_put_back. exact Hc.
  - assert ((avatar - 256 =? avatar) = false) as -> by lia. mred.
    split; [lia|]. intros _. split; [reflexivity|exact Hat].
Qed.

Lemma maze_set_then_remove_witness :
  exists w1 w2,
    maze_set_player 67 1 2 (world_of small_maze) = Some (0, w1) /\
    maze_remove_player 67 1 2 w1 = Some (tt, w2) /\
    maze w2 = small_maze.
Proof.
  eexists.
  destruct (maze_set_then_remove (world_of small_maze) _ 67 1 2 small_maze_wf eq_refl)
    as (w2 & Hrun & Hlow & _).
  exists w2. split; [reflexivity|]. split; [exact Hrun|]. apply Hlow. lia.
Defined.

(** The byte 200, placed at (1, 2) of [small_maze], is not removed. *)
Example high_byte_stays :
  option_map (fun x => maze (snd x))
    ((maze_set_player 200 1 2 ;; maze_remove_player 200 1 2) (world_of small_maze))
  = Some [bytes "*****"; [42; 65; 200; 32; 42]; bytes "* #B*"; bytes "*****"].
Proof. vm_compute. reflexivity. Qed.

(** ** Moving there and back *)

Lemma maze_wf_ext (w w' : World) :
  maze_wf w -> maze_wf w' ->
  maze_rows w' = maze_rows w -> maze_cols w' = maze_cols w ->
  (forall r c, maze_at (maze w') r c = maze_at (maze w) r c) ->
  maze w' = maze w.
Proof.
  intros [Hr Hc] [Hr' Hc'] Erows Ecols Hcells. apply maze_ext.
  - lia.
  - intros i l l' Hl Hl'. rewrite Forall_lookup in Hc, Hc'.
    specialize (Hc _ _ Hl'). specialize (Hc' _ _ Hl). simpl in Hc, Hc'. lia.
  - exact Hcells.
Qed.

Lemma maze_move_run (w : World) row col dir :
  maze_wf w ->
  let r' := row + fst (offset dir) in
  let c' := col + snd (offset dir) in
  let stay := (-1, after [EvLock maze_mutex; EvUnlock maze_mutex] w) in
  maze_move row col dir w =
  Some (match maze_at (maze w) row col with
        | Some a =>
            if IS_AVATAR a then
              match maze_at (maze w) r' c' with
              | Some b =>
                  if IS_EMPTY b
                  then (0, after [EvLock maze_mutex; EvUnlock maze_mutex]
                             (set_maze (maze_put (maze_put (maze w) r' c' a)
                                          row col EMPTY) w))
                  else stay
              | None => stay
              end
            else stay
        | None => stay
        end).
Proof.
  intros Hwf r' c' stay. subst r' c' stay. unfold maze_move, after.
  pose proof (at_dir_offset dir) as Ho. destruct (offset dir) as [dr dc] eqn:Eo.
  injection Ho as Hdr Hdc. rewrite Hdr, Hdc. clear Hdr Hdc. cbn [fst snd].
  mred.
  destruct (outside (maze_rows w) (maze_cols w) row col) eqn:E1; mred.
  { rewrite (maze_at_outside w row col Hwf E1), <- app_assoc. reflexivity. }
  destruct (maze_at_inside w row col Hwf E1) as [a Ha]. rewrite Ha.
  destruct (IS_AVATAR a) eqn:E2; mred.
  2:{ rewrite <- app_assoc. reflexivity. }
  destruct (outside (maze_rows w) (maze_cols w) (row + dr) (col + dc)) eqn:E3; mred.
  { rewrite (maze_at_outside w _ _ Hwf E3), <- app_assoc. reflexivity. }
  destruct (maze_at_inside w _ _ Hwf E3) as [b Hb]. rewrite Hb.
  destruct (IS_EMPTY b) eqn:E4; mred.
  2:{ rewrite <- app_assoc. reflexivity. }
  assert (Hsrc : is_Some (maze_at (maze_put (maze w) (row + dr) (col + dc) a) row col)).
  { rewrite maze_at_put by eauto. case_decide; eauto. }
  destruct Hsrc as [s Hs]. rewrite Ha; mred. rewrite Hb; mred. rewrite Hs; mred.
  rewrite <- app_assoc. reflexivity.
Qed.

Lemma IS_AVATAR_not_EMPTY a : IS_AVATAR a = true -> a <> EMPTY.
Proof. unfold IS_AVATAR, EMPTY. lia. Qed.

(** X4.  A move is undone by the move in the opposite direction: when
    maze_move returns 0, maze_move from the cell reached, in the
    direction of the opposite step, returns 0 as well and the grid is
    as it was before the two moves. *)
Theorem maze_move_back (w w1 : World) (row col : Z) (dir back : DIRECTION) :
  maze_wf w ->
  opposite dir back ->
  maze_move row col dir w = Some (0, w1) ->
  exists w2,
    maze_move (row + fst (offset dir)) (col + snd (offset dir)) back w1
    = Some (0, w2) /\
    maze w2 = maze w.
Proof.
  intros Hwf Hopp Hmove. unfold opposite in Hopp. rewrite (maze_move_run w row col dir Hwf) in Hmove.
  cbv zeta in Hmove.
  pose proof (offset_unit dir) as Hunit.
  set (r' := row + fst (offset dir)) in *. set (c' := col + snd (offset dir)) in *.
  assert (Hne : ~ (r' = row /\ c' = col)) by (subst r' c'; lia).
  destruct (maze_at (maze w) row col) as [a|] eqn:Ha; [|discriminate].
  destruct (IS_AVATAR a) eqn:Hav; [|discriminate].
  destruct (maze_at (maze w) r' c') as [b|] eqn:Hb; [|discriminate].
  destruct (IS_EMPTY b) eqn:He; [|discriminate].
  apply IS_EMPTY_true in He. subst b. injection Hmove as <-.
  set (g1 := maze_put (maze_put (maze w) r' c' a) row col EMPTY).
  assert (Hmid : is_Some (maze_at (maze_put (maze w) r' c' a) row col)).
  { rewrite maze_at_put by eauto. case_decide; eauto. }
  assert (Hg1 : forall r c, maze_at g1 r c =
                  if decide (r = row /\ c = col) then Some EMPTY
                  else if decide (r = r' /\ c = c') then Some a
                       else maze_at (maze w) r c).
  { intros r c. subst g1. rewrite maze_at_put by exact Hmid.
    case_decide; [reflexivity|]. apply maze_at_put. eauto. }
  assert (Hwf1 : maze_wf (after [EvLock maze_mutex; EvUnlock maze_mutex] (set_maze g1 w))).
  { apply maze_wf_after. subst g1.
    apply (maze_wf_put (set_maze (maze_put (maze w) r' c' a) w)).
    apply maze_wf_put, Hwf. }
  rewrite (maze_move_run _ r' c' back Hwf1). cbv zeta.
  rewrite Hopp. cbn [fst snd].
  replace (r' + - fst (offset dir)) with row by (subst r'; lia).
  replace (c' + - snd (offset dir)) with col by (subst c'; lia).
  unfold after at 1 2 3. mred.
  rewrite (Hg1 r' c'), decide_False, decide_True by tauto. rewrite Hav.
  rewrite (Hg1 row col), decide_True by tauto.
  change (IS_EMPTY EMPTY) with true. cbv iota.
  eexists. split; [reflexivity|].
  unfold after. mred.
  assert (Hback : is_Some (maze_at (maze_put g1 row col a) r' c')).
  { rewrite maze_at_put by (rewrite Hg1, decide_True by tauto; eauto).
    rewrite decide_False by tauto. rewrite Hg1, decide_False, decide_True by tauto. eauto. }
  apply (maze_wf_ext w (set_maze (maze_put (maze_put g1 row col a) r' c' EMPTY) w)).
  - exact Hwf.
  - apply (maze_wf_put (set_maze (maze_put g1 row col a) w)).
    apply (maze_wf_put (set_maze g1 w)). exact Hwf1.
  - reflexivity.
  - reflexivity.
  - intros r c. mred. rewrite maze_at_put by exact Hback.
    case_decide as H1; [destruct H1 as [-> ->]; congruence|].
    rewrite maze_at_put by (rewrite Hg1, decide_True by tauto; eauto).
    case_decide as H2; [destruct H2 as [-> ->]; congruence|].
    rewrite Hg1, decide_False, decide_False by tauto. reflexivity.
Qed.

Lemma maze_move_back_witness :
  exists w1 w2,
    maze_move 1 1 EAST (world_of small_maze) = Some (0, w1) /\
    maze_move 1 2 WEST w1 = Some (0, w2) /\
    maze w2 = small_maze.
Proof.
  assert (H1 : exists w1, maze_move 1 1 EAST (world_of small_maze) = Some (0, w1))
    by (vm_compute; eauto).
  destruct H1 as [w1 H1]. exists w1.
  destruct (maze_move_back (world_of small_maze) w1 1 1 EAST WEST small_maze_wf eq_refl H1)
    as (w2 & Hrun & Hmaze).
  exists w2. split; [exact H1|]. split; [exact Hrun|exact Hmaze].
Defined.

(** ** Random placement *)

Lemma candidate_shift (w w' : World) (i : nat) :
  rand_src w' = rand_src w -> rand_pos w' = S (S (rand_pos w)) ->
  maze_rows w' = maze_rows w -> maze_cols w' = maze_cols w ->
  candidate w' i = candidate w (S i).
Proof.
  intros Hs Hp Hr Hc. unfold candidate. rewrite Hs, Hp, Hr, Hc.
  replace (S (S (rand_pos w)) + 2 * i)%nat with (rand_pos w + 2 * S i)%nat by lia.
  replace (S (S (rand_pos w)) + 2 * i + 1)%nat with (rand_pos w + 2 * S i + 1)%nat by lia.
  reflexivity.
Qed.

Lemma maze_set_player_random_loop_spec (avatar : OBJECT) (n : nat) :
  forall w : World,
    maze_wf w -> maze_rows w <> 0 -> maze_cols w <> 0 ->
    exists res w',
      maze_set_player_random_loop n avatar w = Some (res, w') /\
      match res with
      | Some rc =>
          exists k : nat,
            (k < n)%nat /\ rc = candidate w k /\ free_cell w rc /\
            (forall i : nat, (i < k)%nat -> ~ free_cell w (candidate w i)) /\
            maze w' = maze_put (maze w) (fst rc) (snd rc) avatar /\
            rand_pos w' = (rand_pos w + 2 * (k + 1))%nat
      | None =>
          (forall i : nat, (i < n)%nat -> ~ free_cell w (candidate w i)) /\
          maze w' = maze w /\
          rand_pos w' = (rand_pos w + 2 * n)%nat
      end.
Proof.
  induction n as [|n IH]; intros w Hwf Hrows Hcols.
  - exists None, w. split; [reflexivity|]. split; [intros i Hi; lia|].
    split; [reflexivity|lia].
  - cbn [maze_set_player_random_loop]. unfold rand, c_rem. mred.
    destruct (Z.eqb_spec (maze_rows w) 0) as [|_]; [contradiction|]. mred.
    destruct (Z.eqb_spec (maze_cols w) 0) as [|_]; [contradiction|]. mred.
    set (w1 := set_rand_pos (S (S (rand_pos w))) (set_rand_pos (S (rand_pos w)) w)).
    set (r := Z.rem (rand_src w (rand_pos w)) (maze_rows w)).
    set (c := Z.rem (rand_src w (S (rand_pos w))) (maze_cols w)).
    assert (Hcand : candidate w 0 = (r, c)).
    { unfold candidate, r, c. rewrite Nat.mul_0_r, Nat.add_0_r.
      replace (rand_pos w + 1)%nat with (S (rand_pos w)) by lia. reflexivity. }
    assert (Hwf1 : maze_wf w1) by exact Hwf.
    rewrite (maze_set_player_run w1 avatar r c Hwf1).
    change (maze w1) with (maze w).
    destruct (maze_at (maze w) r c) as [x|] eqn:Hx.
    + destruct (IS_EMPTY x) eqn:He.
      * apply IS_EMPTY_true in He. subst x. cbn [fst]. change (0 =? 0) with true. cbv iota.
        eexists (Some (r, c)), _. split; [reflexivity|].
        exists 0%nat. split; [lia|]. split; [auto|]. split; [exact Hx|].
        split; [intros i Hi; lia|]. unfold after, w1. mred. split; [reflexivity|lia].
      * cbn [fst]. change (-1 =? 0) with false. cbv iota. cbn [snd].
        set (w2 := after _ w1).
        destruct (IH w2 Hwf1 Hrows Hcols) as (res & w' & Hrun & Hres).
        exists res, w'. split; [exact Hrun|].
        assert (Hshift : forall i, candidate w2 i = candidate w (S i)).
        { intros i. apply candidate_shift; reflexivity. }
        assert (Hnot : ~ free_cell w (candidate w 0)).
        { rewrite Hcand. unfold free_cell. cbn [fst snd]. rewrite Hx.
          intros [= ->]. discriminate. }
        destruct res as [rc|].
        -- destruct Hres as (k & Hk & Hrc & Hfree & Hbefore & Hmaze & Hpos).
           exists (S k). split; [lia|]. split; [rewrite <- Hshift; exact Hrc|].
           split; [exact Hfree|]. split.
           ++ intros [|i] Hi; [exact Hnot|]. rewrite <- Hshift. apply Hbefore. lia.
           ++ split; [exact Hmaze|]. rewrite Hpos. unfold w2, w1, after. mred. lia.
        -- destruct Hres as (Hall & Hmaze & Hpos). split.
           ++ intros [|i] Hi; [exact Hnot|]. rewrite <- Hshift. apply Hall. lia.
           ++ split; [exact Hmaze|]. rewrite Hpos. unfold w2, w1, after. mred. lia.
    + cbn [fst]. change (-1 =? 0) with false. cbv iota. cbn [snd].
      set (w2 := after _ w1).
      destruct (IH w2 Hwf1 Hrows Hcols) as (res & w' & Hrun & Hres).
      exists res, w'. split; [exact Hrun|].
      assert (Hshift : forall i, candidate w2 i = candidate w (S i)).
      { intros i. apply candidate_shift; reflexivity. }
      assert (Hnot : ~ free_cell w (candidate w 0)).
      { rewrite Hcand. unfold free_cell. cbn [fst snd]. rewrite Hx. discriminate. }
      destruct res as [rc|].
      * destruct Hres as (k & Hk & Hrc & Hfree & Hbefore & Hmaze & Hpos).
        exists (S k). split; [lia|]. split; [rewrite <- Hshift; exact Hrc|].
        split; [exact Hfree|]. split.
        -- intros [|i] Hi; [exact Hnot|]. rewrite <- Hshift. apply Hbefore. lia.
        -- split; [exact Hmaze|]. rewrite Hpos. unfold w2, w1, after. mred. lia.
      * destruct Hres as (Hall & Hmaze & Hpos). split.
        -- intros [|i] Hi; [exact Hnot|]. rewrite <- Hshift. apply Hall. lia.
        -- split; [exact Hmaze|]. rewrite Hpos. unfold w2, w1, after. mred. lia.
Qed.

(** X5.  On a well-formed grid with rows and columns,
    maze_set_player_random tries the cells the generator designates,
    two values for each, and places the byte at the first of at most
    1000 that is an EMPTY cell of the grid, which it returns; when none
    of the 1000 is, it returns failure with the grid unchanged and 2000
    values drawn.  On a grid without EMPTY cell it fails. *)
Theorem maze_set_player_random_spec (w : World) (avatar : OBJECT) :
  maze_wf w -> maze_rows w <> 0 -> maze_cols w <> 0 ->
  exists res w',
    maze_set_player_random avatar w = Some (res, w') /\
    match res with
    | Some rc =>
        exists k : nat,
          (k < 1000)%nat /\ rc = candidate w k /\ free_cell w rc /\
          (forall i : nat, (i < k)%nat -> ~ free_cell w (candidate w i)) /\
          maze w' = maze_put (maze w) (fst rc) (snd rc) avatar /\
          rand_pos w' = (rand_pos w + 2 * (k + 1))%nat
    | None =>
        (forall i : nat, (i < 1000)%nat -> ~ free_cell w (candidate w i)) /\
        maze w' = maze w /\
        rand_pos w' = (rand_pos w + 2000)%nat
    end /\
    maze_wf w' /\
    ((forall rc, ~ free_cell w rc) -> res = None).
Proof.
  intros Hwf Hrows Hcols.
  destruct (maze_set_player_random_loop_spec avatar max_attempts w Hwf Hrows Hcols)
    as (res & w' & Hrun & Hres).
  pose proof (maze_set_player_random_loop_step _ _ _ _ _ Hrun) as (Er & Ec & _).
  exists res, w'. split; [exact Hrun|]. split; [exact Hres|]. split.
  - destruct res as [rc|].
    + destruct Hres as (k & _ & _ & _ & _ & Hmaze & _).
      pose proof (maze_wf_put w (fst rc) (snd rc) avatar Hwf) as [H1 H2].
      unfold maze_wf. rewrite Hmaze, Er, Ec. split; assumption.
    + destruct Hres as (_ & Hmaze & _). unfold maze_wf. rewrite Hmaze, Er, Ec. exact Hwf.
  - intros Hfull. destruct res as [rc|]; [|reflexivity].
    destruct Hres as (k & _ & _ & Hfree & _). destruct (Hfull rc Hfree).
Qed.

Lemma maze_set_player_random_spec_witness :
  exists res w',
    maze_set_player_random 67 (world_of small_maze) = Some (res, w') /\
    maze_wf w'.
Proof.
  destruct (maze_set_player_random_spec (world_of small_maze) 67 small_maze_wf)
    as (res & w' & Hrun & _ & Hwf & _); [discriminate|discriminate|].
  exists res, w'. split; [exact Hrun|exact Hwf].
Defined.

(** ** The shape of the grid *)

Lemma maze_set_player_wf avatar row col w rc w' :
  maze_wf w -> maze_set_player avatar row col w = Some (rc, w') -> maze_wf w'.
Proof.
  intros Hwf H. rewrite (maze_set_player_run w avatar row col Hwf) in H.
  destruct (maze_at (maze w) row col) as [c|]; [destruct (IS_EMPTY c)|];
    injection H as _ <-; try exact Hwf.
  apply maze_wf_after, maze_wf_put, Hwf.
Qed.

Lemma maze_set_player_random_loop_wf (avatar : OBJECT) (n : nat) :
  forall w res w',
    maze_wf w ->
    maze_set_player_random_loop n avatar w = Some (res, w') -> maze_wf w'.
Proof.
  induction n as [|n IH]; intros w res w' Hwf H.
  - injection H as _ <-. exact Hwf.
  - cbn [maze_set_player_random_loop] in H.
    apply bind_inv in H. destruct H as (x & w1 & H1 & H). injection H1 as _ <-.
    apply bind_inv in H. destruct H as (rows & w2 & H2 & H). injection H2 as _ <-.
    apply bind_inv in H. destruct H as (r & w3 & H3 & H).
    apply c_rem_inv in H3. subst w3.
    apply bind_inv in H. destruct H as (y & w4 & H4 & H). injection H4 as _ <-.
    apply bind_inv in H. destruct H as (cols & w5 & H5 & H). injection H5 as _ <-.
    apply bind_inv in H. destruct H as (c & w6 & H6 & H).
    apply c_rem_inv in H6. subst w6.
    apply bind_inv in H. destruct H as (rc & w7 & H7 & H).
    apply maze_set_player_wf in H7; [|exact Hwf].
    destruct (rc =? 0).
    + injection H as _ <-. exact H7.
    + eapply IH; eassumption.
Qed.

(** X6.  The operations that change the grid keep it well formed:
    after maze_set_player, maze_remove_player, maze_set_player_random
    and maze_move the grid still has [maze_rows] rows of [maze_cols]
    cells, whatever they return, so that the bounds they test are the
    bounds of the array. *)
Theorem maze_wf_kept (w : World) :
  maze_wf w ->
  (forall avatar row col rc w',
     maze_set_player avatar row col w = Some (rc, w') -> maze_wf w') /\
  (forall avatar row col u w',
     maze_remove_player avatar row col w = Some (u, w') -> maze_wf w') /\
  (forall avatar res w',
     maze_set_player_random avatar w = Some (res, w') -> maze_wf w') /\
  (forall row col dir rc w',
     maze_move row col dir w = Some (rc, w') -> maze_wf w').
Proof.
  intros Hwf. split; [|split; [|split]].
  - intros avatar row col rc w'. apply maze_set_player_wf, Hwf.
  - intros avatar row col u w' H. rewrite maze_remove_player_run in H.
    destruct (maze_at (maze w) row col) as [c|].
    + injection H as _ <-. apply maze_wf_after.
      destruct (char_value c =? avatar); [apply maze_wf_put|]; exact Hwf.
    + destruct (maze_end_at (maze w) (maze_ends w) row col) as [e|]; [|discriminate].
      injection H as _ <-. apply maze_wf_after.
      destruct (char_value e =? avatar); exact Hwf.
  - intros avatar res w'. apply maze_set_player_random_loop_wf, Hwf.
  - intros row col dir rc w' H. rewrite (maze_move_run w row col dir Hwf) in H.
    cbv zeta in H.
    destruct (maze_at (maze w) row col) as [a|]; [|injection H as _ <-; exact Hwf].
    destruct (IS_AVATAR a); [|injection H as _ <-; exact Hwf].
    destruct (maze_at (maze w) _ _) as [b|]; [|injection H as _ <-; exact Hwf].
    destruct (IS_EMPTY b); injection H as _ <-; [|exact Hwf].
    apply maze_wf_after.
    apply (maze_wf_put (set_maze (maze_put (maze w) _ _ a) w)).
    apply maze_wf_put, Hwf.
Qed.

Lemma maze_wf_kept_witness :
  exists w',
    maze_move 1 1 EAST (world_of small_maze) = Some (0, w') /\ maze_wf w'.
Proof.
  assert (H : exists w', maze_move 1 1 EAST (world_of small_maze) = Some (0, w'))
    by (vm_compute; eauto).
  destruct H as [w' H]. exists w'. split; [exact H|].
  exact (proj2 (proj2 (proj2 (maze_wf_kept (world_of small_maze) small_maze_wf)))
           1 1 EAST 0 w' H).
Defined.

(** ** The view in the two directions of a corridor *)

Lemma table_left_offset_opposite (d back : DIRECTION) :
  opposite d back ->
  table_left_offset back
  = (- fst (table_left_offset d), - snd (table_left_offset d)).
Proof. unfold opposite. destruct d, back; intros H; try discriminate H; reflexivity. Qed.

(** X7.  maze_get_view starts at the cell of the viewer: for a depth
    of at least 1, from a cell of a well-formed grid, it returns at
    least one row, and the CORRIDOR of row 0 is the cell of the viewer
    itself.  The viewer who turns around sees, in row 0, the same
    corridor cell with the two walls exchanged. *)
Theorem maze_get_view_turn_around (w : World) (view : VIEW) (row col : Z)
    (gaze back : DIRECTION) (depth : Z) :
  maze_wf w ->
  outside (maze_rows w) (maze_cols w) row col = false ->
  Forall (fun line => length line = 3%nat) view ->
  1 <= depth <= Z.of_nat (length view) ->
  opposite gaze back ->
  exists v1 n1 v2 n2 l c r,
    maze_get_view view row col gaze depth w
    = Some ((v1, n1), after [EvLock maze_mutex; EvUnlock maze_mutex] w) /\
    maze_get_view view row col back depth w
    = Some ((v2, n2), after [EvLock maze_mutex; EvUnlock maze_mutex] w) /\
    1 <= n1 <= depth /\ 1 <= n2 <= depth /\
    maze_at (maze w) row col = Some c /\
    v1 !! 0%nat = Some [l; c; r] /\
    v2 !! 0%nat = Some [r; c; l].
Proof.
  intros Hwf Hin H3 Hdepth Hopp.
  destruct (maze_get_view_spec w view row col gaze depth Hwf Hin H3 ltac:(lia))
    as (v1 & Hrun1 & _ & Hrows1).
  destruct (maze_get_view_spec w view row col back depth Hwf Hin H3 ltac:(lia))
    as (v2 & Hrun2 & _ & Hrows2).
  destruct (maze_at_inside w row col Hwf Hin) as [c Hc].
  assert (Hsteps : forall d, 1 <= view_steps w row col d depth <= depth).
  { intros d. unfold view_steps, steps_to_edge. apply outside_false in Hin.
    destruct d; lia. }
  assert (Hcell : forall d, cell_or_star w (ahead row col d 0) = c).
  { intros d. unfold cell_or_star, ahead. cbn [fst snd].
    rewrite !Z.mul_0_l, !Z.add_0_r, Hc. reflexivity. }
  specialize (Hrows1 0%nat). specialize (Hrows2 0%nat).
  rewrite decide_True in Hrows1 by (specialize (Hsteps gaze); lia).
  rewrite decide_True in Hrows2 by (specialize (Hsteps back); lia).
  unfold view_row in Hrows1, Hrows2. cbv zeta in Hrows1, Hrows2.
  change (Z.of_nat 0) with 0 in Hrows1, Hrows2.
  rewrite Hcell in Hrows1, Hrows2.
  rewrite (table_left_offset_opposite gaze back Hopp) in Hrows2.
  cbn [fst snd] in Hrows2.
  eexists v1, _, v2, _, _, c, _.
  split; [exact Hrun1|]. split; [exact Hrun2|].
  split; [apply Hsteps|]. split; [apply Hsteps|]. split; [exact Hc|].
  split; [exact Hrows1|].
  rewrite Hrows2. unfold ahead. cbn [fst snd].
  repeat (f_equal; try lia).
Qed.

(** The views from (1, 2) of [small_maze], to the NORTH and to the
    SOUTH. *)
Lemma maze_get_view_turn_around_witness :
  exists v1 n1 v2 n2 l c r,
    maze_get_view (replicate 4 [0; 0; 0]) 1 2 NORTH 4 (world_of small_maze)
    = Some ((v1, n1), after [EvLock maze_mutex; EvUnlock maze_mutex] (world_of small_maze)) /\
    maze_get_view (replicate 4 [0; 0; 0]) 1 2 SOUTH 4 (world_of small_maze)
    = Some ((v2, n2), after [EvLock maze_mutex; EvUnlock maze_mutex] (world_of small_maze)) /\
    1 <= n1 <= 4 /\ 1 <= n2 <= 4 /\
    maze_at (maze (world_of small_maze)) 1 2 = Some c /\
    v1 !! 0%nat = Some [l; c; r] /\
    v2 !! 0%nat = Some [r; c; l].
Proof.
  apply (maze_get_view_turn_around (world_of small_maze) (replicate 4 [0; 0; 0])
           1 2 NORTH SOUTH 4).
  - exact small_maze_wf.
  - reflexivity.
  - repeat constructor.
  - simpl. lia.
  - reflexivity.
Defined.

(** ** Registering and unregistering *)

Lemma client_fds_write_at (w : World) cr (i : nat) x :
  client_registry w = Some cr ->
  (i < length (cr_client_fds cr))%nat ->
  client_fds_write (Z.of_nat i) x w
  = Some (tt, with_registry (mkRegistry (<[i := x]> (cr_client_fds cr))
                                        (cr_count cr) (cr_empty cr)) w).
Proof.
  intros Hcr Hi. unfold with_registry. cred. rewrite Hcr.
  assert ((Z.of_nat i <? 0) = false) as -> by (apply Z.ltb_ge; lia).
  assert ((Z.of_nat (length (cr_client_fds cr)) <=? Z.of_nat i) = false) as ->
    by (apply Z.leb_gt; lia).
  rewrite Nat2Z.id. reflexivity.
Qed.

(** The loop of creg_register stops at the first free slot. *)
Lemma creg_register_loop_free (w : World) cr fd (k : nat) :
  client_registry w = Some cr ->
  cr_client_fds cr !! k = Some (-1) ->
  forall (n i : nat),
    (forall j : nat, (i <= j < k)%nat -> cr_client_fds cr !! j <> Some (-1)) ->
    (i <= k < i + n)%nat ->
    creg_register_loop n (Z.of_nat i) fd w
    = Some (tt, with_registry (mkRegistry (<[k := fd]> (cr_client_fds cr))
                                          (cr_count cr + 1) (cr_empty cr)) w).
Proof.
  intros Hcr Hk. induction n as [|n IH]; intros i Hbefore Hi; [lia|].
  cbn [creg_register_loop].
  destruct (decide (i = k)) as [->|Hne].
  - erewrite bind_Some by (eapply client_fds_read_at; eauto).
    change (-1 =? -1) with true. cbv iota.
    erewrite bind_Some
      by (apply client_fds_write_at; [exact Hcr|eapply lookup_lt_Some; exact Hk]).
    unfold with_registry. cred. reflexivity.
  - assert (Hlt : (i < length (cr_client_fds cr))%nat).
    { apply lookup_lt_Some in Hk. lia. }
    destruct (lookup_lt_is_Some_2 _ _ Hlt) as [x Hx].
    erewrite bind_Some by (eapply client_fds_read_at; eauto).
    assert (x <> -1) by (intros ->; apply (Hbefore i); [lia|exact Hx]).
    assert ((x =? -1) = false) as -> by lia.
    replace (Z.of_nat i + 1) with (Z.of_nat (S i)) by lia.
    apply IH; [|lia]. intros j Hj. apply Hbefore. lia.
Qed.

(** The loop of creg_unregister stops at the first slot that holds the
    descriptor. *)
Lemma creg_unregister_loop_found (w : World) cr fd (k : nat) :
  client_registry w = Some cr ->
  cr_client_fds cr !! k = Some fd ->
  forall (n i : nat),
    (forall j : nat, (i <= j < k)%nat -> cr_client_fds cr !! j <> Some fd) ->
    (i <= k < i + n)%nat ->
    creg_unregister_loop n (Z.of_nat i) fd w
    = Some (tt, with_registry (mkRegistry (<[k := -1]> (cr_client_fds cr))
                                          (cr_count cr - 1) (cr_empty cr)) w).
Proof.
  intros Hcr Hk. induction n as [|n IH]; intros i Hbefore Hi; [lia|].
  cbn [creg_unregister_loop].
  destruct (decide (i = k)) as [->|Hne].
  - erewrite bind_Some by (eapply client_fds_read_at; eauto).
    rewrite Z.eqb_refl.
    erewrite bind_Some
      by (apply client_fds_write_at; [exact Hcr|eapply lookup_lt_Some; exact Hk]).
    unfold with_registry. cred. reflexivity.
  - assert (Hlt : (i < length (cr_client_fds cr))%nat).
    { apply lookup_lt_Some in Hk. lia. }
    destruct (lookup_lt_is_Some_2 _ _ Hlt) as [x Hx].
    erewrite bind_Some by (eapply client_fds_read_at; eauto).
    assert (x <> fd) by (intros ->; apply (Hbefore i); [lia|exact Hx]).
    assert ((x =? fd) = false) as -> by lia.
    replace (Z.of_nat i + 1) with (Z.of_nat (S i)) by lia.
    apply IH; [|lia]. intros j Hj. apply Hbefore. lia.
Qed.

Lemma creg_register_run (w : World) cr fd (k : nat) :
  client_registry w = Some cr ->
  length (cr_client_fds cr) = MAX_CLIENTS ->
  first_slot (cr_client_fds cr) (-1) k ->
  creg_register fd w
  = Some (tt, after [EvLock creg_mutex; EvUnlock creg_mutex]
                (with_registry (mkRegistry (<[k := fd]> (cr_client_fds cr))
                                           (cr_count cr + 1) (cr_empty cr)) w)).
Proof.
  intros Hcr Hlen [Hk Hfirst]. unfold creg_register.
  erewrite bind_Some by apply emit_after.
  erewrite bind_Some.
  2:{ apply (creg_register_loop_free _ cr fd k) with (i := 0%nat);
        [exact Hcr|exact Hk| |].
      - intros j Hj. apply Hfirst. lia.
      - apply lookup_lt_Some in Hk. rewrite Hlen in Hk. lia. }
  unfold pthread_mutex_unlock. rewrite emit_after.
  unfold after, with_registry. mred. rewrite <- app_assoc. reflexivity.
Qed.

Lemma creg_unregister_run (w : World) cr fd (k : nat) :
  client_registry w = Some cr ->
  length (cr_client_fds cr) = MAX_CLIENTS ->
  first_slot (cr_client_fds cr) fd k ->
  creg_unregister fd w
  = Some (tt,
          if cr_count cr - 1 =? 0
          then after [EvLock creg_mutex; EvSemPost; EvUnlock creg_mutex]
                 (with_registry (mkRegistry (<[k := -1]> (cr_client_fds cr))
                                            (cr_count cr - 1) (cr_empty cr + 1)) w)
          else after [EvLock creg_mutex; EvUnlock creg_mutex]
                 (with_registry (mkRegistry (<[k := -1]> (cr_client_fds cr))
                                            (cr_count cr - 1) (cr_empty cr)) w)).
Proof.
  intros Hcr Hlen [Hk Hfirst]. unfold creg_unregister.
  erewrite bind_Some by apply emit_after.
  erewrite bind_Some.
  2:{ apply (creg_unregister_loop_found _ cr fd k) with (i := 0%nat);
        [exact Hcr|exact Hk| |].
      - intros j Hj. apply Hfirst. lia.
      - apply lookup_lt_Some in Hk. rewrite Hlen in Hk. lia. }
  unfold after, with_registry. cred. cbn [cr_count cr_client_fds cr_empty].
  destruct (cr_count cr - 1 =? 0); cred; cbn [cr_count cr_client_fds cr_empty];
    rewrite <- ?app_assoc; reflexivity.
Qed.


(** X8.  With a free slot in the registry, creg_register stores the
    descriptor in the first free slot, leaves the other slots and the
    semaphore alone and adds one to the count. *)
Theorem creg_register_spec (w : World) (cr : CLIENT_REGISTRY) (fd : Z) (k : nat) :
  client_registry w = Some cr ->
  length (cr_client_fds cr) = MAX_CLIENTS ->
  first_slot (cr_client_fds cr) (-1) k ->
  exists w' cr',
    creg_register fd w = Some (tt, w') /\
    client_registry w' = Some cr' /\
    cr_client_fds cr' !! k = Some fd /\
    (forall j : nat, j <> k -> cr_client_fds cr' !! j = cr_client_fds cr !! j) /\
    cr_count cr' = cr_count cr + 1 /\
    cr_empty cr' = cr_empty cr /\
    trace w' = trace w ++ [EvLock creg_mutex; EvUnlock creg_mutex].
Proof.
  intros Hcr Hlen Hk. rewrite (creg_register_run w cr fd k Hcr Hlen Hk).
  eexists _, _. split; [reflexivity|]. split; [reflexivity|].
  cbn [cr_client_fds cr_count cr_empty]. split.
  - apply list_lookup_insert_eq. destruct Hk as [Hk _]. eapply lookup_lt_Some, Hk.
  - split; [|repeat split].
    intros j Hj. apply list_lookup_insert_ne. congruence.
Qed.

Lemma creg_register_spec_witness :
  exists w' cr',
    creg_register 12 alice_world = Some (tt, w') /\
    client_registry w' = Some cr' /\
    cr_client_fds cr' !! 2%nat = Some 12 /\
    cr_count cr' = 2 + 1.
Proof.
  destruct (creg_register_spec alice_world _ 12 2 eq_refl eq_refl)
    as (w' & cr' & Hrun & Hcr & Hk & _ & Hcount & _).
  - split; [reflexivity|]. intros [|[|j]] Hj; [discriminate|discriminate|lia].
  - exists w', cr'. split; [exact Hrun|]. split; [exact Hcr|]. split; [exact Hk|exact Hcount].
Defined.

(** X9.  creg_unregister of a descriptor the registry holds frees the
    first slot that holds it and takes one from the count; it posts the
    semaphore, once, exactly when the count has become 0. *)
Theorem creg_unregister_spec (w : World) (cr : CLIENT_REGISTRY) (fd : Z) (k : nat) :
  client_registry w = Some cr ->
  length (cr_client_fds cr) = MAX_CLIENTS ->
  first_slot (cr_client_fds cr) fd k ->
  exists w' cr',
    creg_unregister fd w = Some (tt, w') /\
    client_registry w' = Some cr' /\
    cr_client_fds cr' = <[k := -1]> (cr_client_fds cr) /\
    cr_count cr' = cr_count cr - 1 /\
    (cr_count cr = 1 ->
     cr_empty cr' = cr_empty cr + 1 /\
     trace w' = trace w ++ [EvLock creg_mutex; EvSemPost; EvUnlock creg_mutex]) /\
    (cr_count cr <> 1 ->
     cr_empty cr' = cr_empty cr /\
     trace w' = trace w ++ [EvLock creg_mutex; EvUnlock creg_mutex]).
Proof.
  intros Hcr Hlen Hk. rewrite (creg_unregister_run w cr fd k Hcr Hlen Hk).
  destruct (Z.eqb_spec (cr_count cr - 1) 0) as [H0|H0].
  - eexists _, _. split; [reflexivity|]. split; [reflexivity|].
    cbn [cr_client_fds cr_count cr_empty]. split; [reflexivity|]. split; [reflexivity|].
    split; [intros _; split; reflexivity|]. intros H1. lia.
  - eexists _, _. split; [reflexivity|]. split; [reflexivity|].
    cbn [cr_client_fds cr_count cr_empty]. split; [reflexivity|]. split; [reflexivity|].
    split; [intros H1; lia|]. intros _. split; reflexivity.
Qed.

Lemma creg_unregister_spec_witness :
  exists w' cr',
    creg_unregister 11 alice_world = Some (tt, w') /\
    client_registry w' = Some cr' /\
    cr_client_fds cr' !! 1%nat = Some (-1) /\
    cr_count cr' = 2 - 1.
Proof.
  destruct (creg_unregister_spec alice_world _ 11 1 eq_refl eq_refl)
    as (w' & cr' & Hrun & Hcr & Hfds & Hcount & _).
  - split; [reflexivity|]. intros [|j] Hj; [discriminate|lia].
  - exists w', cr'. split; [exact Hrun|]. split; [exact Hcr|].
    split; [rewrite Hfds; reflexivity|exact Hcount].
Defined.

(** X10.  A descriptor that is registered and then unregistered leaves
    the slots and the count of the registry as they were, provided the
    registry had a free slot and did not hold the descriptor already;
    the semaphore is posted once when the registry was empty, as the
    count then returns to 0. *)
Theorem creg_register_unregister (w : World) (cr : CLIENT_REGISTRY) (fd : Z) (k : nat) :
  client_registry w = Some cr ->
  length (cr_client_fds cr) = MAX_CLIENTS ->
  first_slot (cr_client_fds cr) (-1) k ->
  ~ In fd (cr_client_fds cr) ->
  exists w' cr',
    (creg_register fd ;; creg_unregister fd) w = Some (tt, w') /\
    client_registry w' = Some cr' /\
    cr_client_fds cr' = cr_client_fds cr /\
    cr_count cr' = cr_count cr /\
    cr_empty cr' = cr_empty cr + (if cr_count cr =? 0 then 1 else 0).
Proof.
  intros Hcr Hlen Hk Habs.
  erewrite bind_Some by (apply (creg_register_run w cr fd k); assumption).
  set (cr1 := mkRegistry (<[k := fd]> (cr_client_fds cr)) (cr_count cr + 1) (cr_empty cr)).
  assert (Hlt : (k < length (cr_client_fds cr))%nat).
  { destruct Hk as [Hk _]. eapply lookup_lt_Some, Hk. }
  assert (Hk1 : first_slot (cr_client_fds cr1) fd k).
  { split.
    - apply list_lookup_insert_eq. exact Hlt.
    - intros j Hj. cbn [cr_client_fds cr1].
      rewrite list_lookup_insert_ne by lia. intros Hin. apply Habs.
      apply list_elem_of_In. eapply list_elem_of_lookup_2, Hin. }
  rewrite (creg_unregister_run _ cr1 fd k); [|reflexivity| |exact Hk1].
  2:{ cbn [cr_client_fds cr1]. rewrite length_insert. exact Hlen. }
  cbn [cr_client_fds cr_count cr_empty cr1].
  assert (Hfds : <[k := -1]> (<[k := fd]> (cr_client_fds cr)) = cr_client_fds cr).
  { rewrite list_insert_insert_eq. apply list_insert_id. apply Hk. }
  replace (cr_count cr + 1 - 1) with (cr_count cr) by lia.
  destruct (cr_count cr =? 0).
  - eexists _, _. split; [reflexivity|]. split; [reflexivity|].
    cbn [cr_client_fds cr_count cr_empty]. repeat split. exact Hfds.
  - eexists _, _. split; [reflexivity|]. split; [reflexivity|].
    cbn [cr_client_fds cr_count cr_empty]. split; [exact Hfds|]. split; [reflexivity|lia].
Qed.

Lemma creg_register_unregister_witness :
  exists w' cr',
    (creg_register 12 ;; creg_unregister 12) alice_world = Some (tt, w') /\
    client_registry w' = Some cr' /\
    Some cr' = client_registry alice_world.
Proof.
  destruct (creg_register_unregister alice_world _ 12 2 eq_refl eq_refl)
    as (w' & cr' & Hrun & Hcr & Hfds & Hcount & Hempty).
  - split; [reflexivity|]. intros [|[|j]] Hj; [discriminate|discriminate|lia].
  - intros Hin. apply list_elem_of_In in Hin.
    apply list_elem_of_lookup_1 in Hin. destruct Hin as [i Hi].
    unfold alice_world in Hi. cbn [client_registry cr_client_fds] in Hi.
    destruct i as [|[|i]]; [discriminate|discriminate|].
    rewrite !list_lookup_insert_ne in Hi by lia.
    apply lookup_replicate in Hi. destruct Hi as [Hi _]. discriminate.
  - exists w', cr'. split; [exact Hrun|]. split; [exact Hcr|].
    destruct cr' as [fds count empty]. cbn [cr_client_fds cr_count cr_empty] in *.
    rewrite Hfds, Hcount, Hempty. reflexivity.
Defined.

(** ** The count of the registry *)



Lemma live_absent (fds : list Z) :
  ~ In (-1) fds -> filter (fun z : Z => z <> -1) fds = fds.
Proof.
  induction fds as [|z fds IH]; intros H; [reflexivity|].
  rewrite filter_cons_True by (intros ->; apply H; left; reflexivity).
  rewrite IH; [reflexivity|]. intros Hin. apply H. right. exact Hin.
Qed.



(** ** Waiting for the registry to drain *)


(** Creg_shutdown_all shuts down the reading side of each
    descriptor the registry holds, slot by slot, and of nothing else;
    it changes neither the slots nor the count nor the semaphore, and
    it closes no descriptor. *)
Theorem creg_shutdown_all_live (w : World) (cr : CLIENT_REGISTRY) :
  client_registry w = Some cr ->
  length (cr_client_fds cr) = MAX_CLIENTS ->
  exists w',
    creg_shutdown_all w = Some (tt, w') /\
    client_registry w' = Some cr /\
    trace w' = trace w ++ [EvLock creg_mutex] ++ map EvShutdownRd (live_fds cr)
                 ++ [EvUnlock creg_mutex] /\
    (forall fd, In fd (live_fds cr) <-> In fd (cr_client_fds cr) /\ fd <> -1) /\
    (forall i fd, cr_client_fds cr !! i = Some fd -> fd <> -1 ->
                  exists j, live_fds cr !! j = Some fd).
Proof.
  intros Hcr Hlen. rewrite (creg_shutdown_all_spec w cr Hcr Hlen).
  eexists. split; [reflexivity|]. split; [exact Hcr|]. split; [reflexivity|].
  split.
  - intros fd. unfold live_fds. rewrite <- !list_elem_of_In, list_elem_of_filter. tauto.
  - intros i fd Hi Hne. apply list_elem_of_lookup_1. unfold live_fds.
    apply list_elem_of_filter. split; [exact Hne|].
    eapply list_elem_of_lookup_2, Hi.
Qed.

Lemma creg_shutdown_all_live_witness :
  exists w',
    creg_shutdown_all alice_world = Some (tt, w') /\
    client_registry w' = client_registry alice_world /\
    trace w' = [EvLock creg_mutex; EvShutdownRd 10; EvShutdownRd 11;
                EvUnlock creg_mutex].
Proof.
  destruct (creg_shutdown_all_live alice_world _ eq_refl eq_refl)
    as (w' & Hrun & Hcr & Htr & _).
  exists w'. split; [exact Hrun|]. split; [exact Hcr|]. rewrite Htr. reflexivity.
Defined.

(** ** Writing to a connection *)

Lemma never_fails_snoc (shorts : list io_event) (k : nat) :
  never_fails shorts -> never_fails (IoUpTo k :: shorts).
Proof. intros H. constructor; [exact I|exact H]. Qed.

(** The loop of write_all on any schedule: it stops at the first call
    that fails, with what the calls before have written. *)
Lemma write_all_loop_any (fuel : nat) :
  forall (buf : list Z) (c : Conn),
    (length buf < fuel)%nat ->
    exists rc c' (n : nat) used,
      write_all_loop fuel buf c = Some (rc, c') /\
      (rc = 0 \/ rc = -1) /\
      c_out c' = c_out c ++ take n buf /\
      c_sched c = used ++ c_sched c' /\
      (rc = 0 -> n = length buf /\ never_fails used) /\
      (rc = -1 -> (n < length buf)%nat /\
                  exists shorts e, used = shorts ++ [IoFail e] /\ never_fails shorts) /\
      c_in c' = c_in c /\ c_clock c' = c_clock c /\
      c_malloc_ok c' = c_malloc_ok c /\ c_reads c' = c_reads c.
Proof.
  induction fuel as [|fuel IH]; intros buf c Hfuel; [lia|].
  cbn [write_all_loop].
  destruct buf as [|b buf'].
  { simpl. exists 0, c, 0%nat, []. unfold ret. rewrite app_nil_r.
    split; [reflexivity|]. split; [auto|]. split; [reflexivity|]. split; [reflexivity|].
    split; [intros _; split; [reflexivity|constructor]|]. split; [lia|]. auto. }
  remember (b :: buf') as buf eqn:Ebuf.
  assert (Hpos : (0 < length buf)%nat) by (subst buf; simpl; lia).
  assert ((0 <? length buf)%nat = true) as -> by (apply Nat.ltb_lt; exact Hpos).
  unfold bind, sys_write.
  destruct (c_sched c) as [|[k|e] sched] eqn:Es.
  - assert ((Z.of_nat (length buf) <=? 0) = false) as -> by (apply Z.leb_gt; lia).
    rewrite Nat2Z.id.
    destruct (IH (drop (length buf) buf) (write_done c buf []))
      as (rc & c' & n & used & Hrun & Hrc & Hout & Hs & H0 & H1 & Hrest).
    { rewrite length_drop. lia. }
    rewrite drop_all in *. simpl in Hs.
    assert (rc = 0) as ->.
    { destruct Hrc as [->| ->]; [reflexivity|].
      destruct (H1 eq_refl) as [Hlt _]. simpl in Hlt. lia. }
    destruct (H0 eq_refl) as [-> Hnf].
    exists 0, c', (length buf), []. split; [exact Hrun|]. split; [auto|].
    split; [rewrite Hout; simpl; rewrite firstn_all, app_nil_r; reflexivity|].
    split.
    { symmetry in Hs. apply app_eq_nil in Hs. destruct Hs as [_ ->]. reflexivity. }
    split; [intros _; split; [reflexivity|constructor]|]. split; [lia|exact Hrest].
  - set (m := Nat.min (S k) (length buf)).
    assert ((Z.of_nat m <=? 0) = false) as -> by (apply Z.leb_gt; lia).
    rewrite Nat2Z.id.
    destruct (IH (drop m buf) (write_done c (take m buf) sched))
      as (rc & c' & n & used & Hrun & Hrc & Hout & Hs & H0 & H1 & Hrest).
    { rewrite length_drop. lia. }
    simpl in Hs, Hout.
    assert (Hm : (m <= length buf)%nat) by lia.
    assert (Hjoin : forall n', (n' <= length (drop m buf))%nat ->
              take m buf ++ take n' (drop m buf) = take (m + n') buf).
    { intros n' Hn'. rewrite <- (take_take_drop buf m (m + n')) by lia.
      replace (m + n' - m)%nat with n' by lia. reflexivity. }
    rewrite length_drop in *.
    destruct Hrc as [->| ->].
    + destruct (H0 eq_refl) as [-> Hnf].
      exists 0, c', (length buf), (IoUpTo k :: used). split; [exact Hrun|].
      split; [auto|].
      split; [rewrite Hout, <- app_assoc, Hjoin by lia;
              f_equal; f_equal; lia|].
      split; [rewrite Hs; reflexivity|].
      split; [intros _; split; [reflexivity|apply never_fails_snoc, Hnf]|].
      split; [lia|exact Hrest].
    + destruct (H1 eq_refl) as (Hlt & shorts & e & -> & Hnf).
      exists (-1), c', (m + n)%nat, (IoUpTo k :: shorts ++ [IoFail e]).
      split; [exact Hrun|]. split; [auto|].
      split; [rewrite Hout, <- app_assoc, Hjoin by lia;
              reflexivity|].
      split; [rewrite Hs; reflexivity|].
      split; [lia|]. split; [|exact Hrest].
      intros _. split; [lia|].
      exists (IoUpTo k :: shorts), e. split; [reflexivity|apply never_fails_snoc, Hnf].
  - change (-1 <=? 0) with true. cbv iota.
    exists (-1), (write_done c [] sched), 0%nat, [IoFail e].
    split; [reflexivity|]. split; [auto|].
    split; [simpl; rewrite !app_nil_r; reflexivity|].
    split; [reflexivity|]. split; [lia|].
    split; [|simpl; auto].
    intros _. split; [lia|]. exists [], e. split; [reflexivity|constructor].
Qed.

(** X13.  write_all writes the buffer by as many calls to write as it
    takes and returns 0 when none of them fails.  It does not retry:
    the first call that fails, be it interrupted by a signal, makes it
    return -1, and what the calls before have written, short of the
    count, stays written. *)
Theorem write_all_no_retry (buf : list Z) (count : nat) (c : Conn) :
  (count <= length buf)%nat ->
  exists rc c' (n : nat) used,
    write_all buf count c = Some (rc, c') /\
    (rc = 0 \/ rc = -1) /\
    c_out c' = c_out c ++ take n buf /\
    c_sched c = used ++ c_sched c' /\
    (rc = 0 -> n = count /\ never_fails used) /\
    (rc = -1 -> (n < count)%nat /\
                exists shorts e, used = shorts ++ [IoFail e] /\ never_fails shorts) /\
    (forall sched, c_sched c = IoFail EINTR :: sched -> (0 < count)%nat ->
                   rc = -1 /\ n = 0%nat).
Proof.
  intros Hlen. unfold write_all.
  assert ((length buf <? count)%nat = false) as -> by (apply Nat.ltb_ge; exact Hlen).
  destruct (write_all_loop_any (S count) (take count buf) c)
    as (rc & c' & n & used & Hrun & Hrc & Hout & Hs & H0 & H1 & _).
  { rewrite length_take. lia. }
  rewrite length_take, Nat.min_l in * by exact Hlen.
  assert (Hn : (n <= count)%nat).
  { destruct Hrc as [->| ->]; [destruct (H0 eq_refl); lia|destruct (H1 eq_refl); lia]. }
  rewrite take_take, Nat.min_l in Hout by exact Hn.
  exists rc, c', n, used. split; [exact Hrun|]. split; [exact Hrc|].
  split; [exact Hout|]. split; [exact Hs|]. split; [exact H0|]. split; [exact H1|].
  intros sched Hsched Hcount.
  destruct Hrc as [->| ->].
  - destruct (H0 eq_refl) as [_ Hnf]. rewrite Hsched in Hs.
    destruct used as [|ev used]; simpl in Hs.
    + exfalso. revert Hrun. cbn [write_all_loop].
      assert ((0 <? length (take count buf))%nat = true) as ->
        by (apply Nat.ltb_lt; rewrite length_take; lia).
      unfold bind, sys_write. rewrite Hsched. change (-1 <=? 0) with true. cbv iota.
      discriminate.
    + injection Hs as <- _. inversion Hnf; subst. contradiction.
  - split; [reflexivity|].
    destruct (H1 eq_refl) as (_ & shorts & e & -> & Hnf). rewrite Hsched in Hs.
    revert Hrun Hout. cbn [write_all_loop].
    assert ((0 <? length (take count buf))%nat = true) as ->
      by (apply Nat.ltb_lt; rewrite length_take; lia).
    unfold bind, sys_write. rewrite Hsched. change (-1 <=? 0) with true. cbv iota.
    intros [= <-]. simpl. rewrite app_nil_r. intros Hout.
    apply (f_equal length) in Hout. rewrite length_app, length_take in Hout. lia.
Qed.

Lemma write_all_no_retry_witness :
  exists c',
    write_all (bytes "hello") 5 (conn_of [] [IoUpTo 1; IoFail EINTR; IoUpTo 9])
    = Some (-1, c') /\
    c_out c' = bytes "he".
Proof.
  destruct (write_all_no_retry (bytes "hello") 5
              (conn_of [] [IoUpTo 1; IoFail EINTR; IoUpTo 9]))
    as (rc & c' & n & used & Hrun & _).
  - simpl. lia.
  - exists c'. vm_compute in Hrun. injection Hrun as <- <-. split; reflexivity.
Defined.

(** ** Frames on the wire *)

Lemma ntohs_load16 le b0 b1 :
  0 <= b0 < 256 -> 0 <= b1 < 256 -> ntohs le (load16 le b0 b1) = 256 * b0 + b1.
Proof.
  intros H0 H1. unfold ntohs, load16. destruct le; [|reflexivity].
  unfold bswap16. Z.div_mod_to_equations. lia.
Qed.

Lemma ntohl_load32 le b0 b1 b2 b3 :
  0 <= b0 < 256 -> 0 <= b1 < 256 -> 0 <= b2 < 256 -> 0 <= b3 < 256 ->
  ntohl le (load32 le b0 b1 b2 b3)
  = 16777216 * b0 + 65536 * b1 + 256 * b2 + b3.
Proof.
  intros H0 H1 H2 H3. unfold ntohl, load32. destruct le; [|reflexivity].
  unfold bswap32.
  set (x := b0 + 256 * b1 + 65536 * b2 + 16777216 * b3).
  assert (E0 : x mod 256 = b0) by (subst x; Z.div_mod_to_equations; lia).
  assert (E1 : (x / 256) mod 256 = b1) by (subst x; Z.div_mod_to_equations; lia).
  assert (E2 : (x / 65536) mod 256 = b2) by (subst x; Z.div_mod_to_equations; lia).
  assert (E3 : (x / 16777216) mod 256 = b3) by (subst x; Z.div_mod_to_equations; lia).
  rewrite E0, E1, E2, E3. lia.
Qed.

Lemma header_of_wire_header pad (h : MZW_PACKET) :
  0 <= hdr_size h < 65536 ->
  0 <= hdr_timestamp_sec h < 4294967296 ->
  0 <= hdr_timestamp_nsec h < 4294967296 ->
  header_of_wire (wire_header pad h) = h.
Proof.
  intros Hs Ha Hb. destruct h as [t s p1 p2 p3 sec nsec].
  cbn [hdr_size hdr_timestamp_sec hdr_timestamp_nsec] in *.
  unfold header_of_wire, wire_header, be32.
  cbn [hdr_type hdr_size hdr_param1 hdr_param2 hdr_param3 hdr_timestamp_sec
       hdr_timestamp_nsec fst snd app nth].
  f_equal; Z.div_mod_to_equations; lia.
Qed.

Lemma all_bytes_wire_header pad (h : MZW_PACKET) :
  packet_in_range h -> 0 <= fst pad < 256 -> 0 <= snd pad < 256 ->
  all_bytes (wire_header pad h).
Proof.
  intros (Ht & Hs & H1 & H2 & H3) Hp1 Hp2. unfold all_bytes, wire_header, be32.
  repeat constructor; try lia; try (apply Z.mod_pos_bound; lia);
    Z.div_mod_to_equations; lia.
Qed.

(** proto_send_packet when the clock and the writes work. *)
Lemma proto_send_packet_run le pad pkt data cs tv_sec tv_nsec :
  0 <= hdr_size pkt < 65536 ->
  buffer_holds pkt data ->
  c_clock cs = Some (tv_sec, tv_nsec) ->
  never_fails (c_sched cs) ->
  exists cs',
    proto_send_packet le pad (Some pkt) data cs
    = Some ((0, Some (stamped pkt tv_sec tv_nsec)), cs') /\
    c_out cs' = c_out cs ++ wire_header pad (stamped pkt tv_sec tv_nsec)
                  ++ payload_bytes pkt data /\
    never_fails (c_sched cs') /\
    c_in cs' = c_in cs /\ c_clock cs' = c_clock cs /\
    c_malloc_ok cs' = c_malloc_ok cs /\ c_reads cs' = c_reads cs.
Proof.
  intros Hsize Hfit Hclock Hnf. unfold proto_send_packet.
  erewrite bind_Some by (unfold clock_gettime, gets; rewrite Hclock; reflexivity).
  fold (stamped pkt tv_sec tv_nsec).
  set (pkt' := stamped pkt tv_sec tv_nsec).
  set (copy := mkHeader (hdr_type pkt') (htons le (hdr_size pkt')) (hdr_param1 pkt')
                 (hdr_param2 pkt') (hdr_param3 pkt') (htonl le (hdr_timestamp_sec pkt'))
                 (htonl le (hdr_timestamp_nsec pkt'))).
  assert (Hwire : packet_bytes le pad copy = wire_header pad pkt').
  { apply (packet_bytes_wire le pad pkt'). exact Hsize. }
  destruct (write_all_spec (packet_bytes le pad copy) sizeof_MZW_PACKET cs Hnf)
    as (c1 & Hrun1 & Hout1 & Hnf1 & Hin1 & Hclk1 & Hmal1 & Hrd1).
  { rewrite length_packet_bytes. reflexivity. }
  erewrite bind_Some by exact Hrun1. change (0 <? 0) with false. cbv iota.
  rewrite firstn_all2 in Hout1 by (rewrite length_packet_bytes; reflexivity).
  rewrite Hwire in Hout1.
  unfold payload_bytes, payload_of. change (hdr_size pkt') with (hdr_size pkt).
  cbn [hdr_size].
  destruct (hdr_size pkt >? 0) eqn:Esz; destruct data as [d|]; cbv beta iota.
  - simpl in Hfit.
    destruct (write_all_spec d (Z.to_nat (hdr_size pkt)) c1 Hnf1 ltac:(lia))
      as (c2 & Hrun2 & Hout2 & Hnf2 & Hin2 & Hclk2 & Hmal2 & Hrd2).
    erewrite bind_Some by exact Hrun2. change (0 <? 0) with false. cbv iota.
    exists c2. split; [reflexivity|].
    split; [rewrite Hout2, Hout1, <- app_assoc; reflexivity|].
    repeat split; congruence.
  - exists c1. split; [reflexivity|]. rewrite Hout1, app_nil_r. auto 10.
  - exists c1. split; [reflexivity|]. rewrite Hout1, app_nil_r. auto 10.
  - exists c1. split; [reflexivity|]. rewrite Hout1, app_nil_r. auto 10.
Qed.

Lemma nth_all_bytes (bs : list Z) (i : nat) :
  all_bytes bs -> 0 <= nth i bs 0 < 256.
Proof.
  intros H. destruct (nth_in_or_default i bs 0) as [Hin| ->]; [|lia].
  unfold all_bytes in H. rewrite Forall_forall in H. apply H.
  apply list_elem_of_In. exact Hin.
Qed.

(** proto_recv_packet on any bytes, when memory is available and the
    reads fail by interruption only. *)
Lemma proto_recv_packet_any le (c : Conn) :
  c_malloc_ok c = true ->
  only_interrupted (c_sched c) ->
  all_bytes (take 16 (c_in c)) ->
  let h := header_of_wire (take 16 (c_in c)) in
  16 + hdr_size h <= Z.of_nat (length (c_in c)) ->
  exists c',
    proto_recv_packet le c
    = Some ((0, Some h,
             if hdr_size h >? 0
             then Some (take (Z.to_nat (hdr_size h)) (drop 16 (c_in c)))
             else None), c') /\
    c_in c' = drop (16 + Z.to_nat (hdr_size h)) (c_in c) /\
    c_malloc_ok c' = true /\
    only_interrupted (c_sched c') /\
    c_out c' = c_out c /\ c_clock c' = c_clock c.
Proof.
  intros Hmal Hoi Hbytes h Hlen. unfold proto_recv_packet.
  assert (Hsize : 0 <= hdr_size h).
  { subst h. unfold header_of_wire. cbn [hdr_size].
    pose proof (nth_all_bytes _ 2 Hbytes). pose proof (nth_all_bytes _ 3 Hbytes). lia. }
  destruct (read_all_spec sizeof_MZW_PACKET c)
    as (rc1 & got1 & c1 & log1 & Hrun1 & _ & _ & _ & Ho1 & Hc1 & Hm1 & [used Hu] & Hok1 & Hz1).
  assert (rc1 = 0) as ->.
  { apply Hz1; [exact Hoi|]. unfold sizeof_MZW_PACKET. lia. }
  destruct (Hok1 eq_refl) as (Hgot1 & _ & Hin1).
  erewrite bind_Some by exact Hrun1. cbn [fst snd].
  change (0 <? 0) with false. cbv iota zeta.
  assert (Hhdr : mkHeader (hdr_type (packet_of_bytes le got1))
                   (ntohs le (hdr_size (packet_of_bytes le got1)))
                   (hdr_param1 (packet_of_bytes le got1))
                   (hdr_param2 (packet_of_bytes le got1))
                   (hdr_param3 (packet_of_bytes le got1))
                   (ntohl le (hdr_timestamp_sec (packet_of_bytes le got1)))
                   (ntohl le (hdr_timestamp_nsec (packet_of_bytes le got1))) = h).
  { subst h. rewrite Hgot1. unfold packet_of_bytes, header_of_wire, sizeof_MZW_PACKET.
    cbn [hdr_type hdr_size hdr_param1 hdr_param2 hdr_param3 hdr_timestamp_sec
         hdr_timestamp_nsec].
    rewrite ntohs_load16, !ntohl_load32 by (apply nth_all_bytes; exact Hbytes).
    reflexivity. }
  rewrite Hhdr.
  assert (Hoi1 : only_interrupted (c_sched c1)).
  { rewrite Hu in Hoi. eapply only_interrupted_suffix; exact Hoi. }
  destruct (hdr_size h >? 0) eqn:Esz.
  - erewrite bind_Some by (unfold gets; reflexivity).
    rewrite Hm1, Hmal. cbn [negb].
    destruct (read_all_spec (Z.to_nat (hdr_size h)) c1)
      as (rc2 & got2 & c2 & log2 & Hrun2 & _ & _ & _ & Ho2 & Hc2 & Hm2 & [used2 Hu2]
          & Hok2 & Hz2).
    assert (rc2 = 0) as ->.
    { apply Hz2; [exact Hoi1|]. rewrite Hin1, length_drop. unfold sizeof_MZW_PACKET. lia. }
    destruct (Hok2 eq_refl) as (Hgot2 & _ & Hin2).
    erewrite bind_Some by exact Hrun2. cbn [fst snd].
    change (0 <? 0) with false. cbv iota.
    exists c2. rewrite Hgot2, Hin1. split; [reflexivity|].
    split; [rewrite Hin2, Hin1, drop_drop; reflexivity|].
    split; [congruence|]. split.
    + rewrite Hu2 in Hoi1. eapply only_interrupted_suffix; exact Hoi1.
    + split; congruence.
  - exists c1. split; [reflexivity|].
    assert (hdr_size h = 0) as -> by lia.
    split; [rewrite Hin1; reflexivity|]. split; [congruence|].
    split; [exact Hoi1|]. split; congruence.
Qed.

(** X14.  The errors of proto_send_packet before anything reaches the
    wire: with a NULL packet it returns -1; when the clock cannot be
    read it returns -1 and leaves the packet unstamped; when the first
    write of the header fails it returns -1 with the packet stamped.
    In each case no byte has been written. *)
Theorem proto_send_packet_errors (little_endian : bool) (pad : Z * Z)
    (pkt : MZW_PACKET) (data : option (list Z)) (c : Conn) :
  proto_send_packet little_endian pad None data c = Some ((-1, None), c) /\
  (c_clock c = None ->
   proto_send_packet little_endian pad (Some pkt) data c = Some ((-1, Some pkt), c)) /\
  (forall tv_sec tv_nsec e sched,
     c_clock c = Some (tv_sec, tv_nsec) ->
     c_sched c = IoFail e :: sched ->
     exists c',
       proto_send_packet little_endian pad (Some pkt) data c
       = Some ((-1, Some (stamped pkt tv_sec tv_nsec)), c') /\
       c_out c' = c_out c /\ c_sched c' = sched).
Proof.
  split; [reflexivity|]. split.
  - intros Hclock. unfold proto_send_packet.
    erewrite bind_Some by (unfold clock_gettime, gets; rewrite Hclock; reflexivity).
    reflexivity.
  - intros tv_sec tv_nsec e sched Hclock Hsched. unfold proto_send_packet.
    erewrite bind_Some by (unfold clock_gettime, gets; rewrite Hclock; reflexivity).
    cbv beta iota zeta. fold (stamped pkt tv_sec tv_nsec).
    erewrite bind_Some.
    2:{ unfold write_all. rewrite length_packet_bytes.
        change (16 <? sizeof_MZW_PACKET)%nat with false. cbv iota.
        cbn [write_all_loop]. rewrite length_take, length_packet_bytes.
        change (0 <? Nat.min sizeof_MZW_PACKET 16)%nat with true. cbv iota.
        unfold bind, sys_write. rewrite Hsched.
        change (-1 <=? 0) with true. cbv iota. reflexivity. }
    change (-1 <? 0) with true. cbv iota.
    eexists. split; [reflexivity|]. split; [simpl; apply app_nil_r|reflexivity].
Qed.

Lemma proto_send_packet_errors_witness :
  exists c',
    proto_send_packet true (0, 0) (Some (mkHeader 13 0 65 0 0 0 0)) None
      (conn_of [] [IoFail EINTR])
    = Some ((-1, Some (stamped (mkHeader 13 0 65 0 0 0 0) 7 9)), c') /\
    c_out c' = [] /\ c_sched c' = [].
Proof.
  exact (proj2 (proj2 (proto_send_packet_errors true (0, 0) (mkHeader 13 0 65 0 0 0 0)
                         None (conn_of [] [IoFail EINTR])))
           7 9 EINTR [] eq_refl eq_refl).
Defined.

(** X15.  What proto_send_packet puts on the wire when the clock and
    the writes work, on a host of either byte order: the 16 bytes of
    the header, with the size and the two timestamps high byte first,
    followed by the first [size] bytes of the buffer.  With a NULL
    buffer it sends the header alone and returns 0, whatever size the
    header announces. *)
Theorem proto_send_packet_wire (little_endian : bool) (pad : Z * Z)
    (pkt : MZW_PACKET) (data : option (list Z)) (cs : Conn) (tv_sec tv_nsec : Z) :
  0 <= hdr_size pkt < 65536 ->
  buffer_holds pkt data ->
  c_clock cs = Some (tv_sec, tv_nsec) ->
  never_fails (c_sched cs) ->
  exists cs',
    proto_send_packet little_endian pad (Some pkt) data cs
    = Some ((0, Some (stamped pkt tv_sec tv_nsec)), cs') /\
    c_out cs' = c_out cs ++ wire_header pad (stamped pkt tv_sec tv_nsec)
                  ++ match data with
                     | Some d => take (Z.to_nat (hdr_size pkt)) d
                     | None => []
                     end.
Proof.
  intros Hsize Hfit Hclock Hnf.
  destruct (proto_send_packet_run little_endian pad pkt data cs tv_sec tv_nsec
              Hsize Hfit Hclock Hnf) as (cs' & Hrun & Hout & _).
  exists cs'. split; [exact Hrun|]. rewrite Hout. f_equal. f_equal.
  unfold payload_bytes, payload_of. destruct data as [d|]; [|reflexivity].
  destruct (hdr_size pkt >? 0) eqn:E; [reflexivity|].
  assert (hdr_size pkt = 0) as -> by lia. reflexivity.
Qed.

Lemma proto_send_packet_wire_witness :
  exists cs',
    proto_send_packet false (170, 187) (Some (mkHeader 13 5 65 0 0 0 0)) None
      (conn_of [] [IoUpTo 2])
    = Some ((0, Some (stamped (mkHeader 13 5 65 0 0 0 0) 7 9)), cs') /\
    c_out cs' = [13; 170; 0; 5; 65; 0; 0; 187; 0; 0; 0; 7; 0; 0; 0; 9].
Proof.
  destruct (proto_send_packet_wire false (170, 187) (mkHeader 13 5 65 0 0 0 0) None
              (conn_of [] [IoUpTo 2]) 7 9)
    as (cs' & Hrun & Hout).
  - simpl. lia.
  - exact I.
  - reflexivity.
  - repeat constructor.
  - exists cs'. split; [exact Hrun|]. rewrite Hout. reflexivity.
Defined.

(** X16.  What proto_recv_packet makes of the bytes that arrive, on a
    host of either byte order, when memory is available and reads fail
    by interruption only: the header is read from the first 16 bytes,
    the size and the timestamps high byte first; when the size is
    positive the payload is the [size] bytes that follow, and NULL
    otherwise; exactly 16 + size bytes are consumed. *)
Theorem proto_recv_packet_decodes (little_endian : bool) (c : Conn) :
  c_malloc_ok c = true ->
  only_interrupted (c_sched c) ->
  all_bytes (take 16 (c_in c)) ->
  let h := header_of_wire (take 16 (c_in c)) in
  16 + hdr_size h <= Z.of_nat (length (c_in c)) ->
  exists c',
    proto_recv_packet little_endian c
    = Some ((0, Some h,
             if hdr_size h >? 0
             then Some (take (Z.to_nat (hdr_size h)) (drop 16 (c_in c)))
             else None), c') /\
    c_in c' = drop (16 + Z.to_nat (hdr_size h)) (c_in c) /\
    c_out c' = c_out c.
Proof.
  intros Hmal Hoi Hbytes h Hlen.
  destruct (proto_recv_packet_any little_endian c Hmal Hoi Hbytes Hlen)
    as (c' & Hrun & Hin & _ & _ & Hout & _).
  exists c'. split; [exact Hrun|]. split; [exact Hin|exact Hout].
Qed.

Lemma proto_recv_packet_decodes_witness :
  exists c',
    proto_recv_packet true
      (conn_of ([13; 0; 0; 3; 65; 0; 0; 0; 0; 0; 0; 7; 0; 0; 0; 9] ++ bytes "hey!")
         [IoFail EINTR; IoUpTo 3])
    = Some ((0, Some (mkHeader 13 3 65 0 0 7 9), Some (bytes "hey")), c') /\
    c_in c' = bytes "!".
Proof.
  destruct (proto_recv_packet_decodes true
              (conn_of ([13; 0; 0; 3; 65; 0; 0; 0; 0; 0; 0; 7; 0; 0; 0; 9]
                        ++ bytes "hey!") [IoFail EINTR; IoUpTo 3]))
    as (c' & Hrun & Hin & _).
  - reflexivity.
  - repeat constructor.
  - unfold all_bytes. simpl. repeat constructor; lia.
  - simpl. lia.
  - exists c'. split; [exact Hrun|exact Hin].
Defined.

Lemma length_wire_header pad h : length (wire_header pad h) = 16%nat.
Proof. reflexivity. Qed.

Lemma length_payload_bytes pkt data :
  0 <= hdr_size pkt -> payload_fits pkt data ->
  length (payload_bytes pkt data) = Z.to_nat (hdr_size pkt).
Proof.
  intros Hs Hfit. unfold payload_bytes, payload_of.
  destruct data as [d|]; simpl in Hfit.
  - destruct (hdr_size pkt >? 0) eqn:E.
    + rewrite length_take. lia.
    + simpl. lia.
  - rewrite Hfit. reflexivity.
Qed.

Lemma payload_fits_holds pkt data : payload_fits pkt data -> buffer_holds pkt data.
Proof. destruct data; simpl; [auto|intros _; exact I]. Qed.

(** A frame at the head of the input is received as it was stamped. *)
Lemma proto_recv_packet_frame le pad (pkt : MZW_PACKET) data (cr : Conn) rest :
  packet_in_range pkt ->
  0 <= hdr_timestamp_sec pkt < 4294967296 ->
  0 <= hdr_timestamp_nsec pkt < 4294967296 ->
  0 <= fst pad < 256 -> 0 <= snd pad < 256 ->
  payload_fits pkt data ->
  c_in cr = wire_header pad pkt ++ payload_bytes pkt data ++ rest ->
  c_malloc_ok cr = true ->
  only_interrupted (c_sched cr) ->
  exists cr',
    proto_recv_packet le cr = Some ((0, Some pkt, payload_of pkt data), cr') /\
    c_in cr' = rest /\
    c_malloc_ok cr' = true /\ only_interrupted (c_sched cr').
Proof.
  intros Hrange Hsec Hnsec Hp1 Hp2 Hfit Hin Hmal Hoi.
  assert (Hsize : 0 <= hdr_size pkt < 65536) by (destruct Hrange as (_ & H & _); exact H).
  assert (Htake : take 16 (c_in cr) = wire_header pad pkt).
  { rewrite Hin. apply take_app_length'. reflexivity. }
  assert (Hh : header_of_wire (take 16 (c_in cr)) = pkt).
  { rewrite Htake. apply header_of_wire_header; assumption. }
  pose proof (length_payload_bytes pkt data ltac:(lia) Hfit) as Hlp.
  destruct (proto_recv_packet_any le cr Hmal Hoi) as (cr' & Hrun & Hin' & Hmal' & Hoi' & _).
  { rewrite Htake. apply all_bytes_wire_header; assumption. }
  { rewrite Hh, Hin, !length_app, length_wire_header, Hlp. lia. }
  rewrite Hh in Hrun, Hin'.
  assert (Hdrop : drop 16 (c_in cr) = payload_bytes pkt data ++ rest).
  { rewrite Hin. apply drop_app_length'. reflexivity. }
  exists cr'. split; [|split; [|split; assumption]].
  - rewrite Hrun. f_equal. f_equal. f_equal. rewrite Hdrop.
    unfold payload_bytes, payload_of in *. destruct data as [d|]; simpl in Hfit.
    + destruct (hdr_size pkt >? 0) eqn:E; [|reflexivity].
      rewrite take_app_length' by (symmetry; exact Hlp). reflexivity.
    + rewrite Hfit. reflexivity.
  - rewrite Hin', <- drop_drop, Hdrop. apply drop_app_length'. symmetry. exact Hlp.
Qed.

(** X17.  Frames arrive in the order sent, each with its payload.
    Two frames sent one after the other on a connection whose clock
    and writes work are received by two calls to proto_recv_packet, on
    a host of the same or of the other byte order, as the two frames
    stamped by the sender, and the input that follows them is left for
    the next call. *)
Theorem proto_frames_in_order (sender_le receiver_le : bool) (pad : Z * Z)
    (pkt1 pkt2 : MZW_PACKET) (data1 data2 : option (list Z)) (cs : Conn)
    (tv_sec tv_nsec : Z) :
  packet_in_range pkt1 -> packet_in_range pkt2 ->
  payload_fits pkt1 data1 -> payload_fits pkt2 data2 ->
  0 <= fst pad < 256 -> 0 <= snd pad < 256 ->
  c_clock cs = Some (tv_sec, tv_nsec) ->
  never_fails (c_sched cs) ->
  exists cs1 cs2 wire,
    proto_send_packet sender_le pad (Some pkt1) data1 cs
    = Some ((0, Some (stamped pkt1 tv_sec tv_nsec)), cs1) /\
    proto_send_packet sender_le pad (Some pkt2) data2 cs1
    = Some ((0, Some (stamped pkt2 tv_sec tv_nsec)), cs2) /\
    c_out cs2 = c_out cs ++ wire /\
    forall (cr : Conn) (rest : list Z),
      c_in cr = wire ++ rest ->
      c_malloc_ok cr = true ->
      only_interrupted (c_sched cr) ->
      exists cr1 cr2,
        proto_recv_packet receiver_le cr
        = Some ((0, Some (stamped pkt1 tv_sec tv_nsec), payload_of pkt1 data1), cr1) /\
        proto_recv_packet receiver_le cr1
        = Some ((0, Some (stamped pkt2 tv_sec tv_nsec), payload_of pkt2 data2), cr2) /\
        c_in cr2 = rest.
Proof.
  intros Hr1 Hr2 Hf1 Hf2 Hp1 Hp2 Hclock Hnf.
  destruct (proto_send_packet_run sender_le pad pkt1 data1 cs tv_sec tv_nsec)
    as (cs1 & Hrun1 & Hout1 & Hnf1 & _ & Hclk1 & _);
    [apply Hr1|apply payload_fits_holds, Hf1|exact Hclock|exact Hnf|].
  destruct (proto_send_packet_run sender_le pad pkt2 data2 cs1 tv_sec tv_nsec)
    as (cs2 & Hrun2 & Hout2 & _);
    [apply Hr2|apply payload_fits_holds, Hf2|congruence|exact Hnf1|].
  exists cs1, cs2,
    (wire_header pad (stamped pkt1 tv_sec tv_nsec) ++ payload_bytes pkt1 data1
     ++ wire_header pad (stamped pkt2 tv_sec tv_nsec) ++ payload_bytes pkt2 data2).
  split; [exact Hrun1|]. split; [exact Hrun2|].
  split; [rewrite Hout2, Hout1, <- !app_assoc; reflexivity|].
  intros cr rest Hin Hmal Hoi.
  pose proof (to_u32_range tv_sec) as Hts. pose proof (to_u32_range tv_nsec) as Htn.
  destruct (proto_recv_packet_frame receiver_le pad (stamped pkt1 tv_sec tv_nsec) data1 cr
              (wire_header pad (stamped pkt2 tv_sec tv_nsec)
               ++ payload_bytes pkt2 data2 ++ rest))
    as (cr1 & Hrecv1 & Hin1 & Hmal1 & Hoi1);
    [exact Hr1|exact Hts|exact Htn|exact Hp1|exact Hp2|exact Hf1| |exact Hmal|exact Hoi|].
  { rewrite Hin, <- !app_assoc. reflexivity. }
  destruct (proto_recv_packet_frame receiver_le pad (stamped pkt2 tv_sec tv_nsec) data2 cr1
              rest)
    as (cr2 & Hrecv2 & Hin2 & _);
    [exact Hr2|exact Hts|exact Htn|exact Hp1|exact Hp2|exact Hf2|exact Hin1
    |exact Hmal1|exact Hoi1|].
  exists cr1, cr2. split; [exact Hrecv1|]. split; [exact Hrecv2|exact Hin2].
Qed.

Lemma proto_frames_in_order_witness :
  exists cs1 cs2 wire,
    proto_send_packet true (0, 0) (Some (mkHeader 6 2 0 0 0 0 0)) (Some (bytes "hi"))
      (conn_of [] [IoUpTo 4])
    = Some ((0, Some (stamped (mkHeader 6 2 0 0 0 0 0) 7 9)), cs1) /\
    proto_send_packet true (0, 0) (Some (mkHeader 4 0 0 0 0 0 0)) None cs1
    = Some ((0, Some (stamped (mkHeader 4 0 0 0 0 0 0) 7 9)), cs2) /\
    c_out cs2 = [] ++ wire /\
    length wire = 34%nat.
Proof.
  destruct (proto_frames_in_order true false (0, 0) (mkHeader 6 2 0 0 0 0 0)
              (mkHeader 4 0 0 0 0 0 0) (Some (bytes "hi")) None
              (conn_of [] [IoUpTo 4]) 7 9)
    as (cs1 & cs2 & wire & H1 & H2 & Hout & _).
  - unfold packet_in_range. simpl. lia.
  - unfold packet_in_range. simpl. lia.
  - simpl. lia.
  - reflexivity.
  - simpl. lia.
  - simpl. lia.
  - reflexivity.
  - repeat constructor.
  - exists cs1, cs2, wire. split; [exact H1|]. split; [exact H2|]. split; [exact Hout|].
    vm_compute in H1. injection H1 as <-. vm_compute in H2. injection H2 as <-.
    simpl in Hout. rewrite <- Hout. reflexivity.
Defined.

(** ** References to a player *)

Lemma player_ref_run (w : World) p r :
  heap w !! p = Some r ->
  player_ref p w
  = Some (p, after [EvLock (player_mutex p); EvUnlock (player_mutex p)]
               (set_heap (<[p := set_p_ref_count (p_ref_count r + 1) r]> (heap w)) w)).
Proof.
  intros Hp. unfold player_ref, after. pred. rewrite Hp. pred. rewrite Hp. pred.
  rewrite <- app_assoc. reflexivity.
Qed.

Lemma player_unref_run (w : World) p r :
  heap w !! p = Some r ->
  player_unref p w
  = Some (tt,
          if p_ref_count r - 1 =? 0
          then after [EvLock (player_mutex p); EvUnlock (player_mutex p);
                      EvMutexDestroy (player_mutex p); EvFreePlayer p]
                 (set_heap (delete p (heap w)) w)
          else after [EvLock (player_mutex p); EvUnlock (player_mutex p)]
                 (set_heap (<[p := set_p_ref_count (p_ref_count r - 1) r]> (heap w)) w)).
Proof.
  intros Hp. unfold player_unref, after. pred. rewrite Hp. pred. rewrite Hp. pred.
  rewrite lookup_insert_eq. pred.
  destruct (p_ref_count r - 1 =? 0); pred.
  - rewrite lookup_insert_eq. pred. rewrite delete_insert_eq.
    rewrite <- !app_assoc. reflexivity.
  - rewrite <- !app_assoc. reflexivity.
Qed.

Lemma set_p_ref_count_same r : set_p_ref_count (p_ref_count r) r = r.
Proof. destruct r; reflexivity. Qed.

(** Player_ref followed by player_unref leaves the record as it
    was, whatever its count, provided the count is not 0: the two
    calls lock and unlock the mutex of the record twice and free
    nothing. *)
Theorem player_ref_unref (w : World) (p : Z) (r : PLAYER) :
  heap w !! p = Some r ->
  p_ref_count r <> 0 ->
  exists w',
    (player_ref p ;; player_unref p) w = Some (tt, w') /\
    heap w' = heap w /\
    trace w' = trace w ++ [EvLock (player_mutex p); EvUnlock (player_mutex p);
                           EvLock (player_mutex p); EvUnlock (player_mutex p)].
Proof.
  intros Hp Hcount.
  erewrite bind_Some by (apply player_ref_run; exact Hp).
  erewrite player_unref_run
    by (unfold after; cbn [heap set_heap set_trace]; apply lookup_insert_eq).
  assert (Hc : p_ref_count (set_p_ref_count (p_ref_count r + 1) r) - 1 = p_ref_count r)
    by (cbn [p_ref_count set_p_ref_count]; lia).
  rewrite Hc. assert ((p_ref_count r =? 0) = false) as -> by lia.
  eexists. split; [reflexivity|]. unfold after. cbn [heap trace set_heap set_trace].
  split; [|rewrite <- app_assoc; reflexivity].
  rewrite insert_insert_eq.
  replace (set_p_ref_count (p_ref_count r) (set_p_ref_count (p_ref_count r + 1) r))
    with r by (destruct r; reflexivity).
  apply insert_id. exact Hp.
Qed.

Lemma player_ref_unref_witness :
  exists w',
    (player_ref 1 ;; player_unref 1) alice_world = Some (tt, w') /\
    heap w' = heap alice_world.
Proof.
  destruct (player_ref_unref alice_world 1 _ eq_refl) as (w' & Hrun & Hheap & _).
  - discriminate.
  - exists w'. split; [exact Hrun|exact Hheap].
Defined.

(** X18.  player_unref takes one from the count of the record.  When
    the count was 1 it destroys the mutex of the record and frees the
    record; otherwise the record stays, with the new count, and
    nothing is freed, also when the count was 0 or less.  No other
    record changes. *)
Theorem player_unref_frees (w : World) (p : Z) (r : PLAYER) :
  heap w !! p = Some r ->
  exists w',
    player_unref p w = Some (tt, w') /\
    (p_ref_count r = 1 ->
     heap w' = delete p (heap w) /\
     trace w' = trace w ++ [EvLock (player_mutex p); EvUnlock (player_mutex p);
                            EvMutexDestroy (player_mutex p); EvFreePlayer p]) /\
    (p_ref_count r <> 1 ->
     heap w' = <[p := set_p_ref_count (p_ref_count r - 1) r]> (heap w) /\
     trace w' = trace w ++ [EvLock (player_mutex p); EvUnlock (player_mutex p)]) /\
    (forall q, q <> p -> heap w' !! q = heap w !! q) /\
    player_map w' = player_map w /\ maze w' = maze w.
Proof.
  intros Hp. rewrite (player_unref_run w p r Hp).
  destruct (Z.eqb_spec (p_ref_count r - 1) 0) as [H0|H0].
  - eexists. split; [reflexivity|]. unfold after. cbn [heap trace set_heap set_trace].
    split; [intros _; split; reflexivity|]. split; [intros H1; lia|].
    split; [|split; reflexivity].
    intros q Hq. apply lookup_delete_ne. congruence.
  - eexists. split; [reflexivity|]. unfold after. cbn [heap trace set_heap set_trace].
    split; [intros H1; lia|]. split; [intros _; split; reflexivity|].
    split; [|split; reflexivity].
    intros q Hq. apply lookup_insert_ne. congruence.
Qed.

Lemma player_unref_frees_witness :
  exists w',
    player_unref 1 alice_world = Some (tt, w') /\
    heap w' = delete 1 (heap alice_world).
Proof.
  destruct (player_unref_frees alice_world 1 _ eq_refl) as (w' & Hrun & Hlast & _).
  exists w'. split; [exact Hrun|]. apply Hlast. reflexivity.
Defined.

(** Player_get looks the avatar up in the table under the table
    lock.  For a free entry it returns NULL and changes nothing; for a
    player it returns the record with one more reference. *)
Theorem player_get_spec (w : World) (avatar : Z) :
  table_live w ->
  0 <= avatar < 256 ->
  exists e w',
    player_map w !! Z.to_nat avatar = Some e /\
    player_get avatar w = Some (e, w') /\
    match e with
    | None => w' = after [EvLock map_mutex; EvUnlock map_mutex] w
    | Some q =>
        exists r,
          heap w !! q = Some r /\
          heap w' = <[q := set_p_ref_count (p_ref_count r + 1) r]> (heap w) /\
          player_map w' = player_map w /\
          trace w' = trace w ++ [EvLock map_mutex; EvLock (player_mutex q);
                                 EvUnlock (player_mutex q); EvUnlock map_mutex]
    end.
Proof.
  intros [Hlen Hlive] Hav.
  destruct (lookup_lt_is_Some_2 (player_map w) (Z.to_nat avatar)) as [e He].
  { rewrite Hlen. unfold MAX_PLAYERS. lia. }
  exists e. unfold player_get.
  erewrite bind_Some by apply emit_after.
  erewrite bind_Some.
  2:{ rewrite <- (Z2Nat.id avatar) at 1 by lia. apply player_map_read_at. exact He. }
  destruct e as [q|].
  - destruct (Hlive _ _ He) as [r Hr].
    erewrite bind_Some.
    2:{ erewrite bind_Some by (apply player_ref_run; exact Hr). reflexivity. }
    erewrite bind_Some by apply emit_after.
    eexists. split; [exact He|]. split; [reflexivity|].
    exists r. split; [exact Hr|]. unfold after. cbn [heap trace player_map set_heap set_trace].
    split; [reflexivity|]. split; [reflexivity|]. rewrite <- !app_assoc. reflexivity.
  - erewrite bind_Some by reflexivity.
    erewrite bind_Some by apply emit_after.
    eexists. split; [exact He|]. split; [reflexivity|].
    rewrite after_after. reflexivity.
Qed.

Lemma alice_world_live : table_live alice_world.
Proof.
  split; [reflexivity|]. intros i q Hq.
  destruct (decide (i = 65%nat)) as [->|Hne].
  - vm_compute in Hq. injection Hq as <-. vm_compute. eauto.
  - unfold alice_world in Hq. cbn [player_map] in Hq.
    rewrite list_lookup_insert_ne in Hq by congruence.
    apply lookup_replicate in Hq. destruct Hq as [Hq _]. discriminate.
Qed.

Lemma player_get_spec_witness :
  exists w',
    player_get 65 alice_world = Some (Some 1, w') /\
    option_map p_ref_count (heap w' !! 1) = Some 2.
Proof.
  destruct (player_get_spec alice_world 65 alice_world_live)
    as (e & w' & He & Hrun & Hres); [lia|].
  vm_compute in He. injection He as <-.
  destruct Hres as (r & Hr & Hheap & _).
  exists w'. split; [exact Hrun|]. rewrite Hheap, lookup_insert_eq.
  vm_compute in Hr. injection Hr as <-. reflexivity.
Defined.

(** ** Logout *)

(** X19.  player_logout of a live record whose position is a cell of
    the grid: under the table lock it clears the table entry of the
    avatar if it designates this record; it takes the avatar from its
    cell if the value of the cell as a [char] is the avatar, which a
    byte of 128 or more in the cell never is; it sends one frame, SCORE with the
    avatar and the score -1, to the client of the record itself and to
    no other client; it drops one reference, which frees the record
    when it was the last. *)
Theorem player_logout_spec (w : World) (p : Z) (r : PLAYER)
    (e : option Z) (c : Z) :
  heap w !! p = Some r ->
  0 <= p_avatar r ->
  player_map w !! Z.to_nat (p_avatar r) = Some e ->
  maze_at (maze w) (p_row r) (p_col r) = Some c ->
  exists w',
    player_logout p w = Some (tt, w') /\
    player_map w' = (if decide (e = Some p)
                     then <[Z.to_nat (p_avatar r) := None]> (player_map w)
                     else player_map w) /\
    maze w' = (if decide (char_value c = p_avatar r)
               then maze_put (maze w) (p_row r) (p_col r) EMPTY
               else maze w) /\
    heap w' = (if decide (p_ref_count r = 1)
               then delete p (heap w)
               else <[p := set_p_ref_count (p_ref_count r - 1) r]> (heap w)) /\
    trace w' = trace w
               ++ [EvLock map_mutex; EvUnlock map_mutex;
                   EvLock maze_mutex; EvUnlock maze_mutex;
                   EvLock (player_mutex p);
                   EvSend (p_client_fd r)
                     (mkPkt MZW_SCORE_PKT 0 (to_u8 (p_avatar r)) 255 0) None;
                   EvUnlock (player_mutex p);
                   EvLock (player_mutex p); EvUnlock (player_mutex p)]
               ++ (if decide (p_ref_count r = 1)
                   then [EvMutexDestroy (player_mutex p); EvFreePlayer p]
                   else []).
Proof.
  intros Hp Hav He Hc. unfold player_logout.
  erewrite bind_Some by apply emit_after.
  erewrite bind_Some by (unfold load, after; cbn [heap set_trace]; rewrite Hp; reflexivity).
  erewrite bind_Some.
  2:{ rewrite <- (Z2Nat.id (p_avatar r)) at 1 by lia. apply player_map_read_at. exact He. }
  set (w1 := if decide (e = Some p)
             then set_player_map (<[Z.to_nat (p_avatar r) := None]> (player_map w))
                    (after [EvLock map_mutex] w)
             else after [EvLock map_mutex] w).
  assert (Hlt : (Z.to_nat (p_avatar r) < length (player_map w))%nat)
    by (eapply lookup_lt_Some; exact He).
  erewrite (bind_Some _ _ _ tt w1).
  2:{ subst w1. case_bool_decide as Heq.
      - rewrite decide_True by exact Heq. unfold player_map_write, after.
        cbv beta. cbn [player_map set_trace].
        assert ((p_avatar r <? 0) = false) as -> by (apply Z.ltb_ge; lia).
        assert ((Z.of_nat (length (player_map w)) <=? p_avatar r) = false) as ->
          by (apply Z.leb_gt; lia).
        reflexivity.
      - rewrite decide_False by exact Heq. reflexivity. }
  assert (Hheap1 : heap w1 = heap w) by (subst w1; destruct (decide _); reflexivity).
  assert (Hmaze1 : maze w1 = maze w) by (subst w1; destruct (decide _); reflexivity).
  erewrite bind_Some by apply emit_after.
  erewrite bind_Some
    by (unfold load, after; cbn [heap set_trace]; rewrite Hheap1, Hp; reflexivity).
  erewrite bind_Some.
  2:{ rewrite maze_remove_player_run. unfold after at 1. cbn [maze set_trace].
      rewrite Hmaze1, Hc. reflexivity. }
  set (w2 := if char_value c =? p_avatar r then _ else _).
  assert (Hheap2 : heap w2 = heap w).
  { subst w2. destruct (char_value c =? p_avatar r); exact Hheap1. }
  erewrite bind_Some.
  2:{ apply (player_send_packet_spec _ p r). unfold after. cbn [heap set_trace].
      rewrite Hheap2. exact Hp. }
  erewrite player_unref_run by (unfold after; cbn [heap set_trace]; rewrite Hheap2; exact Hp).
  eexists. split; [reflexivity|].
  assert (Hdec : (p_ref_count r - 1 =? 0) = if decide (p_ref_count r = 1) then true else false).
  { destruct (decide (p_ref_count r = 1)); lia. }
  rewrite Hdec.
  assert (Hmap2 : player_map w2 = player_map w1).
  { subst w2. destruct (char_value c =? p_avatar r); reflexivity. }
  assert (Htr2 : trace w2 = trace w1 ++ [EvUnlock map_mutex]).
  { subst w2. destruct (char_value c =? p_avatar r); reflexivity. }
  assert (Htr1 : trace w1 = trace w ++ [EvLock map_mutex]).
  { subst w1. destruct (decide _); reflexivity. }
  split; [|split; [|split]].
  - destruct (decide (p_ref_count r = 1)); unfold after;
      cbn [player_map set_trace set_heap]; rewrite Hmap2; subst w1;
      destruct (decide (e = Some p)); reflexivity.
  - destruct (decide (p_ref_count r = 1)); unfold after;
      cbn [maze set_trace set_heap]; subst w2;
      destruct (Z.eqb_spec (char_value c) (p_avatar r));
      destruct (decide (char_value c = p_avatar r));
      try contradiction; cbn [maze set_maze set_trace]; rewrite ?Hmaze1; reflexivity.
  - destruct (decide (p_ref_count r = 1)); unfold after;
      cbn [heap set_trace set_heap]; rewrite Hheap2; reflexivity.
  - destruct (decide (p_ref_count r = 1)); unfold after;
      cbn [trace set_trace set_heap]; rewrite Htr2, Htr1, <- !app_assoc; reflexivity.
Qed.

Lemma player_logout_spec_witness :
  exists w',
    player_logout 1 alice_world = Some (tt, w') /\
    player_map w' = replicate MAX_PLAYERS None /\
    heap w' = ∅.
Proof.
  destruct (player_logout_spec alice_world 1 _ (Some 1) 65 eq_refl)
    as (w' & Hrun & Hmap & _ & Hheap & _).
  - simpl. lia.
  - reflexivity.
  - reflexivity.
  - exists w'. split; [exact Hrun|]. rewrite Hmap, Hheap. split; reflexivity.
Defined.

(** ** Updating a view *)

(** A loop whose iterations only add events, in worlds that satisfy
    [ok], adds the events of its iterations in order. *)
Lemma for_loop_emits (ok : World -> Prop) (body : Z -> M unit)
    (ev : nat -> list event) :
  (forall w evs, ok w -> ok (after evs w)) ->
  forall (n from : nat) (w : World),
    ok w ->
    (forall (k : nat) (w' : World),
       (from <= k < from + n)%nat -> ok w' ->
       body (Z.of_nat k) w' = Some (tt, after (ev k) w')) ->
    for_loop n (Z.of_nat from) body w
    = Some (tt, after (concat (map ev (seq from n))) w).
Proof.
  intros Hok. induction n as [|n IH]; intros from w Hw Hbody.
  - simpl. rewrite after_nil. reflexivity.
  - cbn [for_loop seq map concat].
    erewrite bind_Some by (apply Hbody; [lia|exact Hw]).
    replace (Z.of_nat from + 1) with (Z.of_nat (S from)) by lia.
    rewrite IH.
    + rewrite after_after. reflexivity.
    + apply Hok, Hw.
    + intros k w' Hk Hw'. apply Hbody; [lia|exact Hw'].
Qed.

Lemma view_read_cell (view : VIEW) (d x : nat) :
  (d < length view)%nat ->
  Forall (fun line => length line = 3%nat) view ->
  (x < 3)%nat ->
  forall w : World, view_read view (Z.of_nat d) (Z.of_nat x) w
                    = Some (view_cell view d x, w).
Proof.
  intros Hd Hrows Hx w. unfold view_read, view_cell.
  assert ((Z.of_nat d <? 0) = false) as -> by (apply Z.ltb_ge; lia).
  assert ((Z.of_nat x <? 0) = false) as -> by (apply Z.ltb_ge; lia).
  cbn [orb]. rewrite !Nat2Z.id.
  destruct (lookup_lt_is_Some_2 view d Hd) as [line Hline].
  rewrite Hline. rewrite Forall_lookup in Hrows. pose proof (Hrows _ _ Hline) as Hl.
  simpl in Hl.
  destruct (lookup_lt_is_Some_2 line x ltac:(lia)) as [c Hc].
  rewrite Hc. unfold ret. f_equal. f_equal.
  rewrite (nth_lookup_Some _ _ _ _ Hline). symmetry. apply nth_lookup_Some. exact Hc.
Qed.

Lemma sends_to_app p fd l1 l2 :
  sends_to p fd (l1 ++ l2) = sends_to p fd l1 ++ sends_to p fd l2.
Proof. unfold sends_to. rewrite map_app, concat_app. reflexivity. Qed.

Lemma sends_to_concat {A} p fd (f : A -> list PKT) (l : list A) :
  sends_to p fd (concat (map f l)) = concat (map (fun a => sends_to p fd (f a)) l).
Proof.
  induction l as [|a l IH]; [reflexivity|].
  cbn [map concat]. rewrite sends_to_app, IH. reflexivity.
Qed.

(** The loops of player_update_view that send the whole view. *)
Lemma show_all_loop (w : World) p r (view : VIEW) (depth : nat) :
  heap w !! p = Some r ->
  (depth <= length view)%nat ->
  Forall (fun line => length line = 3%nat) view ->
  for_loop depth 0 (fun d =>
    for_loop (Z.to_nat VIEW_WIDTH) 0 (fun x =>
      c <- view_read view d x ;;
      player_send_packet p (packet MZW_SHOW_PKT 0 c x d) None)) w
  = Some (tt, after (sends_to p (p_client_fd r)
                       (concat (map (fun d => map (show_frame view d) (seq 0 3))
                                  (seq 0 depth)))) w).
Proof.
  intros Hp Hdepth Hrows.
  rewrite sends_to_concat.
  apply (for_loop_emits (fun w' => heap w' !! p = Some r) _
           (fun d => sends_to p (p_client_fd r) (map (show_frame view d) (seq 0 3)))
           ltac:(intros ? ? H; exact H) depth 0 w Hp).
  intros d w' Hd Hw'.
  change (Z.to_nat VIEW_WIDTH) with 3%nat.
  unfold sends_to. rewrite map_map.
  apply (for_loop_emits (fun w' => heap w' !! p = Some r) _
           (fun x => [EvLock (player_mutex p);
                      EvSend (p_client_fd r) (show_frame view d x) None;
                      EvUnlock (player_mutex p)])
           ltac:(intros ? ? H; exact H) 3 0 w' Hw').
  intros x w'' Hx Hw''.
  erewrite bind_Some by (apply view_read_cell; [lia|exact Hrows|lia]).
  apply player_send_packet_spec. exact Hw''.
Qed.

(** The loops of player_update_view that send the cells that have
    changed. *)
Lemma show_changed_loop (w : World) p r (view : VIEW) (depth : nat) :
  heap w !! p = Some r ->
  (depth <= length view)%nat ->
  Forall (fun line => length line = 3%nat) view ->
  (depth <= length (p_last_view r))%nat ->
  Forall (fun line => length line = 3%nat) (p_last_view r) ->
  for_loop depth 0 (fun d =>
    for_loop (Z.to_nat VIEW_WIDTH) 0 (fun x =>
      c <- view_read view d x ;;
      r <- load p ;;
      l <- view_read (p_last_view r) d x ;;
      if negb (c =? l) then
        player_send_packet p (packet MZW_SHOW_PKT 0 c x d) None
      else ret tt)) w
  = Some (tt, after (sends_to p (p_client_fd r)
                       (concat (map (fun d =>
                          concat (map (fun x =>
                            if view_cell view d x =? view_cell (p_last_view r) d x
                            then [] else [show_frame view d x]) (seq 0 3)))
                          (seq 0 depth)))) w).
Proof.
  intros Hp Hdepth Hrows Hold Holdrows.
  rewrite sends_to_concat.
  apply (for_loop_emits (fun w' => heap w' !! p = Some r) _
           (fun d => sends_to p (p_client_fd r)
              (concat (map (fun x =>
                 if view_cell view d x =? view_cell (p_last_view r) d x
                 then [] else [show_frame view d x]) (seq 0 3))))
           ltac:(intros ? ? H; exact H) depth 0 w Hp).
  intros d w' Hd Hw'.
  change (Z.to_nat VIEW_WIDTH) with 3%nat.
  rewrite sends_to_concat.
  apply (for_loop_emits (fun w' => heap w' !! p = Some r) _
           (fun x => sends_to p (p_client_fd r)
              (if view_cell view d x =? view_cell (p_last_view r) d x
               then [] else [show_frame view d x]))
           ltac:(intros ? ? H; exact H) 3 0 w' Hw').
  intros x w'' Hx Hw''.
  erewrite bind_Some by (apply view_read_cell; [lia|exact Hrows|lia]).
  erewrite bind_Some by (unfold load; rewrite Hw''; reflexivity).
  erewrite bind_Some by (apply view_read_cell; [lia|exact Holdrows|lia]).
  destruct (view_cell view d x =? view_cell (p_last_view r) d x); cbn [negb].
  - unfold ret, sends_to. simpl. rewrite after_nil. reflexivity.
  - unfold sends_to. simpl.
    apply player_send_packet_spec. exact Hw''.
Qed.

Lemma fresh_view_shaped (VIEW_DEPTH : Z) (w : World) :
  view_shaped VIEW_DEPTH (fresh_view VIEW_DEPTH w).
Proof.
  unfold view_shaped, fresh_view. split.
  - rewrite length_map, length_seq. reflexivity.
  - apply Forall_map. apply Forall_forall. intros d _. cbv beta.
    rewrite length_map, length_seq. reflexivity.
Qed.

Lemma view_steps_bound (w : World) row col dir depth :
  (Z.to_nat (view_steps w row col dir depth) <= Z.to_nat depth)%nat.
Proof. unfold view_steps. lia. Qed.

(** player_update_view for a record at a cell of the grid. *)
Lemma player_update_view_run (VIEW_DEPTH : Z) (w : World) p r :
  heap w !! p = Some r ->
  maze_wf w ->
  outside (maze_rows w) (maze_cols w) (p_row r) (p_col r) = false ->
  (0 <= p_view_valid_depth r -> view_shaped VIEW_DEPTH (p_last_view r)) ->
  let depth := view_steps w (p_row r) (p_col r) (p_dir r) VIEW_DEPTH in
  exists view' : VIEW,
    view_shaped VIEW_DEPTH view' /\
    (forall i : nat,
       view' !! i =
       if decide (Z.of_nat i < depth)
       then Some (view_row table_left_offset w (p_row r) (p_col r) (p_dir r) (Z.of_nat i))
       else fresh_view VIEW_DEPTH w !! i) /\
    player_update_view VIEW_DEPTH p w
    = Some (tt, after ([EvLock (player_mutex p); EvLock maze_mutex; EvUnlock maze_mutex]
                       ++ sends_to p (p_client_fd r)
                            (update_frames (p_view_valid_depth r) (p_last_view r) view'
                               (Z.to_nat depth))
                       ++ [EvUnlock (player_mutex p)])
                  (set_heap (<[p := with_view view' depth r]> (heap w))
                     (set_junk_pos (S (junk_pos w)) w))).
Proof.
  intros Hp Hwf Hin Hold depth.
  destruct (fresh_view_shaped VIEW_DEPTH w) as [Hflen Hfrows].
  set (w0 := set_junk_pos (S (junk_pos w)) w).
  assert (Hwf0 : maze_wf (after [EvLock (player_mutex p)] w0)) by exact Hwf.
  destruct (maze_get_view_spec (after [EvLock (player_mutex p)] w0)
              (fresh_view VIEW_DEPTH w) (p_row r) (p_col r) (p_dir r) VIEW_DEPTH)
    as (view' & Hview & Hlen & Hrows); [exact Hwf0|exact Hin|exact Hfrows|lia|].
  assert (Hview' : maze_get_view (fresh_view VIEW_DEPTH w) (p_row r) (p_col r) (p_dir r)
                     VIEW_DEPTH (after [EvLock (player_mutex p)] w0)
                   = Some ((view', depth),
                           after [EvLock (player_mutex p); EvLock maze_mutex;
                                  EvUnlock maze_mutex] w0)).
  { rewrite Hview, after_after. reflexivity. }
  assert (Hrows' : forall i : nat,
             view' !! i =
             if decide (Z.of_nat i < depth)
             then Some (view_row table_left_offset w (p_row r) (p_col r) (p_dir r)
                          (Z.of_nat i))
             else fresh_view VIEW_DEPTH w !! i) by exact Hrows.
  clear Hview Hrows.
  assert (Hshape : view_shaped VIEW_DEPTH view').
  { split; [congruence|]. apply Forall_lookup. intros i line Hl.
    rewrite Hrows' in Hl. destruct (decide (Z.of_nat i < depth)).
    - injection Hl as <-. reflexivity.
    - rewrite Forall_lookup in Hfrows. exact (Hfrows _ _ Hl). }
  exists view'. split; [exact Hshape|]. split; [exact Hrows'|].
  destruct Hshape as [Hlen' Hvrows].
  pose proof (view_steps_bound w (p_row r) (p_col r) (p_dir r) VIEW_DEPTH) as Hbound.
  fold depth in Hbound.
  assert (Hp0 : heap w0 !! p = Some r) by exact Hp.
  unfold player_update_view.
  erewrite (bind_Some _ _ _ (fresh_view VIEW_DEPTH w) w0) by reflexivity.
  erewrite bind_Some by apply emit_after.
  erewrite bind_Some by (unfold load, after; cbn [heap set_trace]; rewrite Hp0; reflexivity).
  erewrite bind_Some by exact Hview'. cbn [fst snd].
  set (w1 := after _ w0).
  assert (Hp1 : heap w1 !! p = Some r) by exact Hp.
  erewrite bind_Some by (unfold load; rewrite Hp1; reflexivity).
  set (frames := update_frames (p_view_valid_depth r) (p_last_view r) view' (Z.to_nat depth)).
  erewrite (bind_Some _ _ _ tt (after (sends_to p (p_client_fd r) frames) w1)).
  2:{ subst frames. unfold update_frames.
      destruct (p_view_valid_depth r <? 0) eqn:Ev.
      - erewrite bind_Some by (apply (player_send_packet_spec _ p r); exact Hp1).
        rewrite (show_all_loop _ p r view' (Z.to_nat depth)); [|exact Hp1|lia|exact Hvrows].
        rewrite after_after. reflexivity.
      - destruct (Hold ltac:(lia)) as [Holen Horows].
        apply (show_changed_loop _ p r view' (Z.to_nat depth));
          [exact Hp1|lia|exact Hvrows|lia|exact Horows]. }
  unfold upd, load, store, after. subst w1 w0. unfold after. mred.
  rewrite Hp. mred. rewrite Hp. mred. rewrite lookup_insert_eq. mred.
  rewrite lookup_insert_eq. mred. rewrite insert_insert_eq.
  unfold with_view. rewrite <- !app_assoc. reflexivity.
Qed.

(** X20.  player_update_view for a record at a cell of the grid takes
    the view from the maze and sends the client what it lacks: when
    the view of the client is not valid, CLEAR and then a SHOW for
    every cell of the rows in sight, row by row; otherwise a SHOW for
    each cell that differs from the view sent last, and nothing for
    the others.  It then records the new view and its depth.  The
    frames go to the client of the record only, under its mutex. *)
Theorem player_update_view_spec (VIEW_DEPTH : Z) (w : World) (p : Z) (r : PLAYER) :
  heap w !! p = Some r ->
  maze_wf w ->
  outside (maze_rows w) (maze_cols w) (p_row r) (p_col r) = false ->
  (0 <= p_view_valid_depth r -> view_shaped VIEW_DEPTH (p_last_view r)) ->
  let depth := view_steps w (p_row r) (p_col r) (p_dir r) VIEW_DEPTH in
  exists (view' : VIEW) (w' : World),
    player_update_view VIEW_DEPTH p w = Some (tt, w') /\
    (forall i : nat,
       Z.of_nat i < depth ->
       view' !! i = Some (view_row table_left_offset w (p_row r) (p_col r) (p_dir r)
                            (Z.of_nat i))) /\
    heap w' = <[p := with_view view' depth r]> (heap w) /\
    maze w' = maze w /\ player_map w' = player_map w /\
    trace w' = trace w
               ++ [EvLock (player_mutex p); EvLock maze_mutex; EvUnlock maze_mutex]
               ++ sends_to p (p_client_fd r)
                    (update_frames (p_view_valid_depth r) (p_last_view r) view'
                       (Z.to_nat depth))
               ++ [EvUnlock (player_mutex p)].
Proof.
  intros Hp Hwf Hin Hold depth.
  destruct (player_update_view_run VIEW_DEPTH w p r Hp Hwf Hin Hold)
    as (view' & _ & Hrows & Hrun).
  eexists view', _. split; [exact Hrun|]. split.
  - intros i Hi. rewrite Hrows. apply decide_True. exact Hi.
  - repeat split.
Qed.

Lemma player_update_view_spec_witness :
  exists (view' : VIEW) (w' : World),
    player_update_view 8 1 alice_world = Some (tt, w') /\
    view' !! 0%nat = Some [42; 65; 32] /\
    option_map p_view_valid_depth (heap w' !! 1) = Some 2.
Proof.
  destruct (player_update_view_spec 8 alice_world 1 _ eq_refl)
    as (view' & w' & Hrun & Hrows & Hheap & _).
  - split; [reflexivity|]. repeat constructor.
  - reflexivity.
  - simpl. lia.
  - exists view', w'. split; [exact Hrun|]. split.
    + rewrite (Hrows 0%nat); [reflexivity|]. vm_compute. reflexivity.
    + rewrite Hheap, lookup_insert_eq. reflexivity.
Defined.

Lemma concat_map_nil {A B} (f : A -> list B) (l : list A) :
  (forall a, f a = []) -> concat (map f l) = [].
Proof.
  intros Hf. induction l as [|a l IH]; [reflexivity|].
  cbn [map concat]. rewrite Hf, IH. reflexivity.
Qed.

Lemma concat_map_nil_in {A B} (f : A -> list B) (l : list A) :
  (forall a, In a l -> f a = []) -> concat (map f l) = [].
Proof.
  intros Hf. induction l as [|a l IH]; [reflexivity|].
  cbn [map concat]. rewrite Hf by (left; reflexivity).
  rewrite IH; [reflexivity|]. intros b Hb. apply Hf. right. exact Hb.
Qed.

(** No frame is due when the rows in sight are those sent last. *)
Lemma update_frames_same_rows (valid : Z) (old new : VIEW) (depth : nat) :
  0 <= valid ->
  (forall i : nat, (i < depth)%nat -> new !! i = old !! i) ->
  update_frames valid old new depth = [].
Proof.
  intros Hv Hrows. unfold update_frames.
  assert ((valid <? 0) = false) as -> by lia.
  apply concat_map_nil_in. intros d Hd. apply in_seq in Hd.
  apply concat_map_nil. intros x.
  assert (Hcell : view_cell new d x = view_cell old d x).
  { unfold view_cell. f_equal.
    specialize (Hrows d ltac:(lia)).
    destruct (old !! d) as [line|] eqn:Ho.
    - rewrite (nth_lookup_Some _ _ _ _ Hrows), (nth_lookup_Some _ _ _ _ Ho). reflexivity.
    - rewrite !nth_overflow; [reflexivity| |].
      + apply lookup_ge_None. exact Ho.
      + apply lookup_ge_None. exact Hrows. }
  rewrite Hcell, Z.eqb_refl. reflexivity.
Qed.

(** X21.  An update of the view that follows another, with the maze
    and the position as they were, sends no frame: the second call
    only takes and releases the locks.  The record keeps its depth and
    the rows in sight; the rows beyond them, which the call copies
    from its uninitialised array with the others, may differ from
    those of the first call.  No other record changes. *)
Theorem player_update_view_twice (VIEW_DEPTH : Z) (w : World) (p : Z) (r : PLAYER) :
  heap w !! p = Some r ->
  maze_wf w ->
  outside (maze_rows w) (maze_cols w) (p_row r) (p_col r) = false ->
  (0 <= p_view_valid_depth r -> view_shaped VIEW_DEPTH (p_last_view r)) ->
  let depth := view_steps w (p_row r) (p_col r) (p_dir r) VIEW_DEPTH in
  exists (w1 w2 : World) (view1 view2 : VIEW),
    player_update_view VIEW_DEPTH p w = Some (tt, w1) /\
    player_update_view VIEW_DEPTH p w1 = Some (tt, w2) /\
    heap w1 !! p = Some (with_view view1 depth r) /\
    heap w2 !! p = Some (with_view view2 depth r) /\
    (forall i : nat, Z.of_nat i < depth -> view2 !! i = view1 !! i) /\
    (forall q, q <> p -> heap w2 !! q = heap w1 !! q) /\
    maze w2 = maze w1 /\ player_map w2 = player_map w1 /\
    trace w2 = trace w1 ++ [EvLock (player_mutex p); EvLock maze_mutex;
                            EvUnlock maze_mutex; EvUnlock (player_mutex p)].
Proof.
  intros Hp Hwf Hin Hold depth.
  destruct (player_update_view_run VIEW_DEPTH w p r Hp Hwf Hin Hold)
    as (view1 & Hshape1 & Hrows1 & Hrun1).
  fold depth in Hrows1, Hrun1.
  set (r1 := with_view view1 depth r) in *.
  match type of Hrun1 with _ = Some (tt, ?W) => set (w1 := W) in * end.
  assert (Hp1 : heap w1 !! p = Some r1) by apply lookup_insert_eq.
  destruct (player_update_view_run VIEW_DEPTH w1 p r1 Hp1 Hwf Hin (fun _ => Hshape1))
    as (view2 & Hshape2 & Hrows2 & Hrun2).
  assert (Hdepth : 0 <= depth) by (unfold depth, view_steps; lia).
  change (view_steps w1 (p_row r1) (p_col r1) (p_dir r1) VIEW_DEPTH) with depth
    in Hrun2, Hrows2.
  change (p_view_valid_depth r1) with depth in Hrun2.
  change (p_last_view r1) with view1 in Hrun2.
  assert (Hsame : forall i : nat, Z.of_nat i < depth -> view2 !! i = view1 !! i).
  { intros i Hi. rewrite Hrows2, Hrows1. rewrite !decide_True by exact Hi. reflexivity. }
  rewrite update_frames_same_rows in Hrun2;
    [|exact Hdepth|intros i Hi; apply Hsame; lia].
  exists w1. eexists. exists view1, view2.
  split; [exact Hrun1|]. split; [exact Hrun2|].
  unfold after. cbn [heap trace maze player_map set_heap set_trace set_junk_pos].
  split; [exact Hp1|]. split; [rewrite lookup_insert_eq; reflexivity|].
  split; [exact Hsame|]. split; [|split; [reflexivity|split; reflexivity]].
  intros q Hq. rewrite lookup_insert_ne by congruence. reflexivity.
Qed.

Lemma player_update_view_twice_witness :
  exists w1 w2,
    player_update_view 8 1 alice_world = Some (tt, w1) /\
    player_update_view 8 1 w1 = Some (tt, w2) /\
    trace w2 = trace w1 ++ [EvLock (player_mutex 1); EvLock maze_mutex;
                            EvUnlock maze_mutex; EvUnlock (player_mutex 1)].
Proof.
  destruct (player_update_view_twice 8 alice_world 1 _ eq_refl)
    as (w1 & w2 & view1 & view2 & H1 & H2 & _ & _ & _ & _ & _ & _ & Htr).
  - split; [reflexivity|]. repeat constructor.
  - reflexivity.
  - simpl. lia.
  - exists w1, w2. split; [exact H1|]. split; [exact H2|exact Htr].
Defined.

(** ** Updating the views of all the players *)

Lemma same_but_view_refl r : same_but_view r r.
Proof. unfold same_but_view. destruct r; reflexivity. Qed.

Lemma same_but_view_trans r1 r2 r3 :
  same_but_view r1 r2 -> same_but_view r2 r3 -> same_but_view r1 r3.
Proof.
  unfold same_but_view. intros H12 H23.
  destruct r1, r2, r3. unfold with_view in *. cbn in *.
  injection H12 as -> -> -> -> -> -> -> -> -> ->.
  injection H23 as -> -> -> -> -> -> -> -> -> ->. reflexivity.
Qed.

Lemma views_step_refl VD w : views_step VD w w.
Proof.
  unfold views_step. repeat (split; [reflexivity|]).
  split; [exists []; rewrite app_nil_r; reflexivity|].
  intros q. destruct (heap w !! q); [|exact I].
  split; [apply same_but_view_refl|auto].
Qed.

Lemma views_step_trans VD w1 w2 w3 :
  views_step VD w1 w2 -> views_step VD w2 w3 -> views_step VD w1 w3.
Proof.
  unfold views_step.
  intros (A1 & A2 & A3 & A4 & A5 & A6 & A7 & A8 & A9 & A10 & A11 & A12 & A13
          & [e1 T1] & H1)
         (B1 & B2 & B3 & B4 & B5 & B6 & B7 & B8 & B9 & B10 & B11 & B12 & B13
          & [e2 T2] & H2).
  repeat (split; [congruence|]).
  split; [exists (e1 ++ e2); rewrite T2, T1, app_assoc; reflexivity|].
  intros q. specialize (H1 q). specialize (H2 q).
  destruct (heap w1 !! q), (heap w2 !! q), (heap w3 !! q); try tauto.
  destruct H1 as [S1 V1], H2 as [S2 V2].
  split; [eapply same_but_view_trans; eassumption|auto].
Qed.

Lemma player_update_view_step (VD : Z) (w : World) p r :
  heap w !! p = Some r ->
  maze_wf w ->
  outside (maze_rows w) (maze_cols w) (p_row r) (p_col r) = false ->
  view_shaped VD (p_last_view r) ->
  exists w',
    player_update_view VD p w = Some (tt, w') /\ views_step VD w w'.
Proof.
  intros Hp Hwf Hin Hshape.
  destruct (player_update_view_run VD w p r Hp Hwf Hin (fun _ => Hshape))
    as (view' & Hshape' & _ & Hrun).
  eexists. split; [exact Hrun|].
  unfold views_step, after. cbn [maze maze_rows maze_cols rand_src rand_pos
    client_registry heap brk calloc_ok junk player_map this_player self listenfd trace
    set_heap set_trace].
  repeat (split; [reflexivity|]).
  split; [eexists; reflexivity|].
  intros q. destruct (decide (q = p)) as [->|Hne].
  - rewrite Hp, lookup_insert_eq. split; [reflexivity|]. intros _. exact Hshape'.
  - rewrite lookup_insert_ne by congruence.
    destruct (heap w !! q); [|exact I]. split; [apply same_but_view_refl|auto].
Qed.

Lemma players_ok_step (VD : Z) (w w' : World) :
  players_ok VD w -> views_step VD w w' -> players_ok VD w'.
Proof.
  intros [[Hlen Hlive] Hok]
    (_ & Er & Ec & _ & _ & _ & _ & _ & _ & Emap & _ & _ & _ & _ & Hheap).
  split; [split|].
  - congruence.
  - intros i q Hq. rewrite Emap in Hq. destruct (Hlive i q Hq) as [r Hr].
    specialize (Hheap q). rewrite Hr in Hheap.
    destruct (heap w' !! q); [eauto|contradiction].
  - intros i q r' Hq Hr'. rewrite Emap in Hq. destruct (Hlive i q Hq) as [r Hr].
    specialize (Hheap q). rewrite Hr, Hr' in Hheap. destruct Hheap as [Hsame Hshape].
    destruct (Hok i q r Hq Hr) as [Hin Hsh]. rewrite Er, Ec.
    rewrite Hsame. cbn [with_view p_row p_col set_p_view_valid_depth set_p_last_view].
    split; [exact Hin|]. rewrite Hsame in Hshape. exact (Hshape Hsh).
Qed.

Lemma for_each_update_loop (VD : Z) (n : nat) :
  forall (i : nat) (w : World),
    players_ok VD w -> maze_wf w ->
    (i + n <= length (player_map w))%nat ->
    exists w',
      for_loop n (Z.of_nat i) (fun i =>
        e <- player_map_read i ;;
        match e with
        | Some q => player_update_view VD q
        | None => ret tt
        end) w = Some (tt, w') /\
      views_step VD w w'.
Proof.
  induction n as [|n IH]; intros i w Hok Hwf Hlen.
  - exists w. split; [reflexivity|apply views_step_refl].
  - cbn [for_loop].
    destruct (lookup_lt_is_Some_2 (player_map w) i ltac:(lia)) as [e He].
    replace (Z.of_nat i + 1) with (Z.of_nat (S i)) by lia.
    assert (Hbody : exists w1,
               (e <- player_map_read (Z.of_nat i) ;;
                match e with
                | Some q => player_update_view VD q
                | None => ret tt
                end) w = Some (tt, w1) /\ views_step VD w w1).
    { erewrite bind_Some by (apply player_map_read_at; exact He).
      destruct e as [q|].
      - destruct Hok as [[_ Hlive] Hok]. destruct (Hlive i q He) as [r Hr].
        destruct (Hok i q r He Hr) as [Hin Hsh].
        apply (player_update_view_step VD w q r); assumption.
      - exists w. split; [reflexivity|apply views_step_refl]. }
    destruct Hbody as (w1 & Hrun1 & Hstep1).
    erewrite bind_Some by exact Hrun1.
    assert (Hwf1 : maze_wf w1).
    { destruct Hstep1 as (Em & Er & Ec & _). unfold maze_wf. rewrite Em, Er, Ec. exact Hwf. }
    destruct (IH (S i) w1 (players_ok_step VD w w1 Hok Hstep1) Hwf1) as (w' & Hrun & Hstep).
    { destruct Hstep1 as (_&_&_&_&_&_&_&_&_&Emap&_). rewrite Emap. lia. }
    exists w'. split; [exact Hrun|]. eapply views_step_trans; eassumption.
Qed.

Lemma for_each_update_views (VD : Z) (w : World) :
  players_ok VD w -> maze_wf w ->
  exists w',
    for_each_player (player_update_view VD) w = Some (tt, w') /\
    views_step VD w w'.
Proof.
  intros Hok Hwf. unfold for_each_player.
  apply (for_each_update_loop VD MAX_PLAYERS 0 w Hok Hwf).
  destruct Hok as [[Hlen _] _]. rewrite Hlen. simpl. lia.
Qed.

(** ** Views that are up to date *)

Lemma view_fresh_ext (VD : Z) (w w' : World) (q : Z) :
  maze w' = maze w -> maze_rows w' = maze_rows w -> maze_cols w' = maze_cols w ->
  heap w' !! q = heap w !! q ->
  view_fresh VD w q -> view_fresh VD w' q.
Proof.
  intros Em Er Ec Eh (r & Hr & Hd & Hrows).
  exists r. split; [rewrite Eh; exact Hr|].
  assert (Hsteps : forall row col d,
             view_steps w' row col d VD = view_steps w row col d VD).
  { intros row col d. unfold view_steps, steps_to_edge. rewrite Er, Ec. reflexivity. }
  assert (Hrow : forall row col d k,
             view_row table_left_offset w' row col d k
             = view_row table_left_offset w row col d k).
  { intros row col d k. unfold view_row, cell_or_star. rewrite Em. reflexivity. }
  split; [rewrite Hsteps; exact Hd|].
  intros i Hi. rewrite Hrow. apply Hrows. exact Hi.
Qed.

(** An update makes the view of its record up to date and keeps the
    others so. *)
Lemma player_update_view_fresh (VD : Z) (w : World) p r :
  heap w !! p = Some r ->
  maze_wf w ->
  outside (maze_rows w) (maze_cols w) (p_row r) (p_col r) = false ->
  view_shaped VD (p_last_view r) ->
  exists w',
    player_update_view VD p w = Some (tt, w') /\
    views_step VD w w' /\
    view_fresh VD w' p /\
    forall q, view_fresh VD w q -> view_fresh VD w' q.
Proof.
  intros Hp Hwf Hin Hshape.
  destruct (player_update_view_step VD w p r Hp Hwf Hin Hshape) as (w' & Hrun & Hstep).
  destruct (player_update_view_run VD w p r Hp Hwf Hin (fun _ => Hshape))
    as (view' & Hshape' & Hrows & Hrun').
  rewrite Hrun in Hrun'. injection Hrun' as Hw'.
  exists w'. split; [exact Hrun|]. split; [exact Hstep|].
  set (depth := view_steps w (p_row r) (p_col r) (p_dir r) VD) in *.
  assert (Hfresh : view_fresh VD w' p).
  { exists (with_view view' depth r). rewrite Hw'. unfold after.
    cbn [heap set_heap set_trace set_junk_pos]. split; [apply lookup_insert_eq|].
    split; [reflexivity|].
    intros i Hi. cbn [with_view p_last_view p_view_valid_depth set_p_view_valid_depth
                      set_p_last_view p_row p_col p_dir] in *.
    rewrite Hrows. rewrite decide_True by exact Hi. reflexivity. }
  split; [exact Hfresh|].
  intros q Hq. destruct (decide (q = p)) as [->|Hne]; [exact Hfresh|].
  apply (view_fresh_ext VD w w' q); try (rewrite Hw'; reflexivity); [|exact Hq].
  rewrite Hw'. unfold after. cbn [heap set_heap set_trace set_junk_pos].
  apply lookup_insert_ne. congruence.
Qed.

Lemma for_each_update_fresh_loop (VD : Z) (n : nat) :
  forall (i : nat) (w : World),
    players_ok VD w -> maze_wf w ->
    (i + n <= length (player_map w))%nat ->
    exists w',
      for_loop n (Z.of_nat i) (fun i =>
        e <- player_map_read i ;;
        match e with
        | Some q => player_update_view VD q
        | None => ret tt
        end) w = Some (tt, w') /\
      views_step VD w w' /\
      (forall q, view_fresh VD w q -> view_fresh VD w' q) /\
      (forall (j : nat) q,
         (i <= j < i + n)%nat -> player_map w !! j = Some (Some q) ->
         view_fresh VD w' q).
Proof.
  induction n as [|n IH]; intros i w Hok Hwf Hlen.
  - exists w. split; [reflexivity|]. split; [apply views_step_refl|].
    split; [auto|]. intros j q Hj. lia.
  - cbn [for_loop].
    destruct (lookup_lt_is_Some_2 (player_map w) i ltac:(lia)) as [e He].
    replace (Z.of_nat i + 1) with (Z.of_nat (S i)) by lia.
    assert (Hbody : exists w1,
               (e <- player_map_read (Z.of_nat i) ;;
                match e with
                | Some q => player_update_view VD q
                | None => ret tt
                end) w = Some (tt, w1) /\ views_step VD w w1 /\
               (forall q, view_fresh VD w q -> view_fresh VD w1 q) /\
               (forall q, e = Some q -> view_fresh VD w1 q)).
    { erewrite bind_Some by (apply player_map_read_at; exact He).
      destruct e as [q|].
      - destruct Hok as [[_ Hlive] Hok]. destruct (Hlive i q He) as [r Hr].
        destruct (Hok i q r He Hr) as [Hin Hsh].
        destruct (player_update_view_fresh VD w q r Hr Hwf Hin Hsh)
          as (w1 & Hrun1 & Hstep1 & Hf1 & Hkeep1).
        exists w1. split; [exact Hrun1|]. split; [exact Hstep1|].
        split; [exact Hkeep1|]. intros q' [= <-]. exact Hf1.
      - exists w. split; [reflexivity|]. split; [apply views_step_refl|].
        split; [auto|]. intros q' [=]. }
    destruct Hbody as (w1 & Hrun1 & Hstep1 & Hkeep1 & Hnew1).
    erewrite bind_Some by exact Hrun1.
    assert (Hwf1 : maze_wf w1).
    { destruct Hstep1 as (Em & Er & Ec & _). unfold maze_wf. rewrite Em, Er, Ec. exact Hwf. }
    assert (Emap1 : player_map w1 = player_map w).
    { destruct Hstep1 as (_&_&_&_&_&_&_&_&_&Emap&_). exact Emap. }
    destruct (IH (S i) w1 (players_ok_step VD w w1 Hok Hstep1) Hwf1)
      as (w' & Hrun & Hstep & Hkeep & Hnew).
    { rewrite Emap1. lia. }
    exists w'. split; [exact Hrun|].
    split; [eapply views_step_trans; eassumption|].
    split; [auto|].
    intros j q Hj Hq. destruct (decide (j = i)) as [->|Hne].
    + apply Hkeep, Hnew1. rewrite He in Hq. injection Hq as ->. reflexivity.
    + apply (Hnew j q); [lia|]. rewrite Emap1. exact Hq.
Qed.

(** The loop that updates the view of every player of the table
    leaves every one of them up to date. *)
Lemma for_each_update_fresh (VD : Z) (w : World) :
  players_ok VD w -> maze_wf w ->
  exists w',
    for_each_player (player_update_view VD) w = Some (tt, w') /\
    views_step VD w w' /\
    (forall (j : nat) q, player_map w' !! j = Some (Some q) -> view_fresh VD w' q).
Proof.
  intros Hok Hwf. unfold for_each_player.
  destruct (for_each_update_fresh_loop VD MAX_PLAYERS 0 w Hok Hwf)
    as (w' & Hrun & Hstep & _ & Hnew).
  { destruct Hok as [[Hlen _] _]. rewrite Hlen. simpl. lia. }
  exists w'. split; [exact Hrun|]. split; [exact Hstep|].
  intros j q Hq.
  assert (Emap : player_map w' = player_map w).
  { destruct Hstep as (_&_&_&_&_&_&_&_&_&Emap&_). exact Emap. }
  rewrite Emap in Hq. apply (Hnew j q); [|exact Hq].
  apply lookup_lt_Some in Hq. destruct Hok as [[Hlen _] _]. rewrite Hlen in Hq.
  unfold MAX_PLAYERS in *. lia.
Qed.

(** ** Turning and moving *)

(** X22.  player_rotate turns the gaze of the player to the left when
    the direction given is 1 and to the right for any other value,
    leaves its position alone, and sends the client the whole of the
    new view: CLEAR, then a SHOW for every cell of the rows in
    sight. *)
Theorem player_rotate_spec (VIEW_DEPTH : Z) (w : World) (p : Z) (r : PLAYER) (dir : Z) :
  heap w !! p = Some r ->
  maze_wf w ->
  outside (maze_rows w) (maze_cols w) (p_row r) (p_col r) = false ->
  let gaze := if dir =? 1 then TURN_LEFT (p_dir r) else TURN_RIGHT (p_dir r) in
  let depth := view_steps w (p_row r) (p_col r) gaze VIEW_DEPTH in
  exists (view' : VIEW) (w' : World),
    player_rotate VIEW_DEPTH p dir w = Some (tt, w') /\
    heap w' = <[p := with_view view' depth (set_p_dir gaze r)]> (heap w) /\
    (forall i : nat,
       Z.of_nat i < depth ->
       view' !! i = Some (view_row table_left_offset w (p_row r) (p_col r) gaze
                            (Z.of_nat i))) /\
    maze w' = maze w /\ player_map w' = player_map w /\
    trace w' = trace w
               ++ [EvLock (player_mutex p); EvUnlock (player_mutex p);
                   EvLock (player_mutex p); EvLock maze_mutex; EvUnlock maze_mutex]
               ++ sends_to p (p_client_fd r)
                    (packet MZW_CLEAR_PKT 0 0 0 0
                     :: concat (map (fun d => map (show_frame view' d) (seq 0 3))
                                  (seq 0 (Z.to_nat depth))))
               ++ [EvUnlock (player_mutex p)].
Proof.
  intros Hp Hwf Hin gaze depth. unfold player_rotate, player_invalidate_view.
  erewrite bind_Some by apply emit_after.
  erewrite bind_Some
    by (unfold upd, load, store, after; mred; rewrite Hp; mred; rewrite Hp; reflexivity).
  erewrite bind_Some
    by (unfold upd, load, store, after; mred; rewrite lookup_insert_eq; mred;
        rewrite lookup_insert_eq; reflexivity).
  erewrite bind_Some by apply emit_after.
  fold gaze. rewrite insert_insert_eq.
  set (r1 := set_p_view_valid_depth (-1) (set_p_dir gaze r)).
  match goal with |- context [player_update_view _ _ ?W] => set (w1 := W) end.
  assert (Hp1 : heap w1 !! p = Some r1) by apply lookup_insert_eq.
  destruct (player_update_view_run VIEW_DEPTH w1 p r1 Hp1 Hwf Hin)
    as (view' & _ & Hrows & Hrun).
  { cbn. lia. }
  exists view'. eexists. split; [exact Hrun|].
  unfold after. subst w1. unfold after.
  cbn [heap maze player_map trace set_heap set_trace set_junk_pos].
  split; [rewrite insert_insert_eq; reflexivity|].
  split; [intros i Hi; rewrite Hrows; apply decide_True; exact Hi|].
  split; [reflexivity|]. split; [reflexivity|].
  rewrite <- !app_assoc. reflexivity.
Qed.

Lemma player_rotate_spec_witness :
  exists (view' : VIEW) (w' : World),
    player_rotate 8 1 1 alice_world = Some (tt, w') /\
    option_map p_dir (heap w' !! 1) = Some WEST /\
    view' !! 0%nat = Some [42; 65; 32].
Proof.
  destruct (player_rotate_spec 8 alice_world 1 _ 1 eq_refl)
    as (view' & w' & Hrun & Hheap & Hrows & _).
  - split; [reflexivity|]. repeat constructor.
  - reflexivity.
  - exists view', w'. split; [exact Hrun|]. split.
    + rewrite Hheap, lookup_insert_eq. reflexivity.
    + rewrite (Hrows 0%nat); [reflexivity|]. vm_compute. reflexivity.
Defined.

Lemma maze_move_cases (w : World) row col dir :
  maze_wf w ->
  let r' := row + fst (offset dir) in
  let c' := col + snd (offset dir) in
  (move_ok w row col dir /\
   exists a,
     maze_at (maze w) row col = Some a /\
     maze_move row col dir w
     = Some (0, after [EvLock maze_mutex; EvUnlock maze_mutex]
                  (set_maze (maze_put (maze_put (maze w) r' c' a) row col EMPTY) w)))
  \/ (~ move_ok w row col dir /\
      maze_move row col dir w
      = Some (-1, after [EvLock maze_mutex; EvUnlock maze_mutex] w)).
Proof.
  intros Hwf r' c'. rewrite (maze_move_run w row col dir Hwf). cbv zeta.
  fold r' c'. unfold move_ok. rewrite ahead_one. cbn [fst snd]. fold r' c'.
  destruct (maze_at (maze w) row col) as [a|] eqn:Ha.
  2:{ right. split; [|reflexivity]. intros (a & Ha' & _). discriminate. }
  destruct (IS_AVATAR a) eqn:Hav.
  2:{ right. split; [|reflexivity]. intros (a' & Ha' & Hav' & _). congruence. }
  destruct (maze_at (maze w) r' c') as [b|] eqn:Hb.
  2:{ right. split; [|reflexivity]. intros (a' & _ & _ & Hb'). discriminate. }
  destruct (IS_EMPTY b) eqn:He.
  - apply IS_EMPTY_true in He. subst b. left. split; [eauto|]. exists a. auto.
  - right. split; [|reflexivity]. intros (a' & _ & _ & [= ->]). discriminate.
Qed.

(** The record after a step in direction [d]. *)
Lemma moved_record (w : World) p r d :
  heap w !! p = Some r ->
  exists r2,
    match d with
    | NORTH => upd p (fun r => set_p_row (p_row r - 1) r)
    | SOUTH => upd p (fun r => set_p_row (p_row r + 1) r)
    | WEST => upd p (fun r => set_p_col (p_col r - 1) r)
    | EAST => upd p (fun r => set_p_col (p_col r + 1) r)
    end w = Some (tt, set_heap (<[p := r2]> (heap w)) w) /\
    p_row r2 = p_row r + fst (offset d) /\
    p_col r2 = p_col r + snd (offset d) /\
    r2 = set_p_col (p_col r2) (set_p_row (p_row r2) r).
Proof.
  intros Hp. destruct d; eexists; (split; [unfold upd, load, store; mred; rewrite Hp; mred;
    rewrite Hp; reflexivity|]); destruct r; cbn; repeat split; f_equal; lia.
Qed.

(** X23.  player_move steps forward, or backward when the sign is
    -1, by maze_move from the position of the record, and refreshes
    the view of every player either way.  It returns 0 exactly when
    the record is at a cell that holds an avatar and the cell in the
    direction of the move is an EMPTY cell of the grid; the byte then
    moves to that cell and the position recorded follows it.
    Otherwise it returns -1 and neither the grid nor the position
    changes.  The gaze and the score stay as they were, and the
    players of the table remain at cells of the grid.  After the
    call the view of every player of the table is up to date: the
    depth and the rows in sight that its record holds, which its
    client has been sent, are those of the grid as the move leaves
    it.  The events of the call start with the lock of the record, the
    lock and unlock of the maze and the unlock of the record, and go
    on with those of the updates. *)
Theorem player_move_spec (VIEW_DEPTH : Z) (w : World) (p : Z) (r : PLAYER) (sign : Z) :
  players_ok VIEW_DEPTH w ->
  maze_wf w ->
  heap w !! p = Some r ->
  let d := if sign =? -1 then REVERSE (p_dir r) else p_dir r in
  exists (rc : Z) (w' : World) (r' : PLAYER),
    player_move VIEW_DEPTH p sign w = Some (rc, w') /\
    heap w' !! p = Some r' /\
    (rc = 0 \/ rc = -1) /\
    (rc = 0 <-> move_ok w (p_row r) (p_col r) d) /\
    (rc = 0 ->
     (p_row r', p_col r') = ahead (p_row r) (p_col r) d 1 /\
     maze_at (maze w') (p_row r') (p_col r') = maze_at (maze w) (p_row r) (p_col r) /\
     maze_at (maze w') (p_row r) (p_col r) = Some EMPTY /\
     forall r0 c0,
       (r0, c0) <> (p_row r, p_col r) -> (r0, c0) <> (p_row r', p_col r') ->
       maze_at (maze w') r0 c0 = maze_at (maze w) r0 c0) /\
    (rc = -1 -> maze w' = maze w /\ p_row r' = p_row r /\ p_col r' = p_col r) /\
    p_dir r' = p_dir r /\ p_score r' = p_score r /\ p_ref_count r' = p_ref_count r /\
    player_map w' = player_map w /\
    players_ok VIEW_DEPTH w' /\ maze_wf w' /\
    (forall (j : nat) q,
       player_map w' !! j = Some (Some q) -> view_fresh VIEW_DEPTH w' q) /\
    (exists evs,
       trace w' = trace w
                  ++ [EvLock (player_mutex p); EvLock maze_mutex; EvUnlock maze_mutex;
                      EvUnlock (player_mutex p)]
                  ++ evs).
Proof.
  intros Hok Hwf Hp d. unfold player_move.
  erewrite bind_Some by apply emit_after.
  erewrite bind_Some by (unfold load, after; cbn [heap set_trace]; rewrite Hp; reflexivity).
  fold d.
  set (w0 := after [EvLock (player_mutex p)] w).
  assert (Hwf0 : maze_wf w0) by exact Hwf.
  destruct (maze_move_cases w0 (p_row r) (p_col r) d Hwf0)
    as [(Hmok & a & Ha & Hmove)|(Hnok & Hmove)].
  - (* the move succeeds *)
    erewrite bind_Some by exact Hmove. change (0 =? 0) with true. cbv iota.
    set (r1 := p_row r + fst (offset d)) in *. set (c1 := p_col r + snd (offset d)) in *.
    set (g1 := maze_put (maze_put (maze w0) r1 c1 a) (p_row r) (p_col r) EMPTY) in *.
    set (wm := after _ (set_maze g1 w0)).
    destruct (moved_record wm p r d Hp) as (r2 & Hupd & Hrow2 & Hcol2 & Hr2).
    erewrite bind_Some by exact Hupd.
    erewrite bind_Some by apply emit_after.
    set (w2 := after _ (set_heap _ wm)).
    assert (Hmid : is_Some (maze_at (maze_put (maze w) r1 c1 a) (p_row r) (p_col r))).
    { destruct Hmok as (a' & Ha' & _ & Hb). rewrite ahead_one in Hb. cbn [fst snd] in Hb.
      rewrite maze_at_put by eauto. case_decide; eauto. }
    assert (Hne : ~ (r1 = p_row r /\ c1 = p_col r)).
    { pose proof (offset_unit d). subst r1 c1. lia. }
    assert (Hg1 : forall r0 c0, maze_at g1 r0 c0 =
                    if decide (r0 = p_row r /\ c0 = p_col r) then Some EMPTY
                    else if decide (r0 = r1 /\ c0 = c1) then Some a
                         else maze_at (maze w) r0 c0).
    { intros r0 c0. subst g1. change (maze w0) with (maze w).
      rewrite maze_at_put by exact Hmid.
      case_decide; [reflexivity|]. apply maze_at_put.
      destruct Hmok as (_ & _ & _ & Hb). rewrite ahead_one in Hb. eauto. }
    assert (Hwf2 : maze_wf w2).
    { apply (maze_wf_put (set_maze (maze_put (maze w) r1 c1 a) w)).
      apply maze_wf_put, Hwf. }
    assert (Hin1 : outside (maze_rows w) (maze_cols w) r1 c1 = false).
    { destruct Hmok as (_ & _ & _ & Hb). rewrite ahead_one in Hb.
      eapply maze_at_Some_inside; [exact Hwf|exact Hb]. }
    assert (Hok2 : players_ok VIEW_DEPTH w2).
    { destruct Hok as [[Hlen Hlive] Hpl]. split; [split|].
      - exact Hlen.
      - intros i q Hq. change (heap w2) with (<[p := r2]> (heap w)).
        destruct (decide (q = p)) as [->|Hqp];
          [rewrite lookup_insert_eq; eauto|rewrite lookup_insert_ne by congruence].
        exact (Hlive i q Hq).
      - intros i q rq Hq Hrq. change (heap w2) with (<[p := r2]> (heap w)) in Hrq.
        change (maze_rows w2) with (maze_rows w). change (maze_cols w2) with (maze_cols w).
        destruct (decide (q = p)) as [->|Hqp].
        + rewrite lookup_insert_eq in Hrq. injection Hrq as <-.
          destruct (Hpl i p r Hq Hp) as [_ Hsh]. rewrite Hrow2, Hcol2.
          split; [exact Hin1|]. rewrite Hr2. exact Hsh.
        + rewrite lookup_insert_ne in Hrq by congruence. exact (Hpl i q rq Hq Hrq). }
    destruct (for_each_update_fresh VIEW_DEPTH w2 Hok2 Hwf2) as (w' & Hrun & Hstep & Hfresh).
    erewrite bind_Some by exact Hrun.
    pose proof Hstep as (Em & Er & Ec & _ & _ & _ & _ & _ & _ & Emap & _ & _ & _ & [evs Hevs] & Hheap).
    pose proof (Hheap p) as Hhp. change (heap w2 !! p) with (<[p := r2]> (heap w) !! p) in Hhp.
    rewrite lookup_insert_eq in Hhp.
    destruct (heap w' !! p) as [r'|] eqn:Hr'; [|contradiction].
    destruct Hhp as [Hsame _].
    assert (Hrow' : p_row r' = r1) by (rewrite Hsame; exact Hrow2).
    assert (Hcol' : p_col r' = c1) by (rewrite Hsame; exact Hcol2).
    exists 0, w', r'. split; [reflexivity|]. split; [exact Hr'|]. split; [auto|].
    split; [tauto|]. split.
    { intros _. rewrite ahead_one, Hrow', Hcol'. split; [reflexivity|].
      rewrite Em. change (maze w2) with g1.
      split; [rewrite Hg1, decide_False, decide_True by tauto; symmetry; exact Ha|].
      split; [rewrite Hg1, decide_True by tauto; reflexivity|].
      intros r0 c0 H1 H2. rewrite Hg1.
      rewrite decide_False by (intros [-> ->]; apply H1; reflexivity).
      rewrite decide_False by (intros [-> ->]; apply H2; reflexivity). reflexivity. }
    split; [lia|].
    split; [rewrite Hsame, Hr2; reflexivity|].
    split; [rewrite Hsame, Hr2; reflexivity|].
    split; [rewrite Hsame, Hr2; reflexivity|].
    split; [rewrite Emap; reflexivity|].
    split; [exact (players_ok_step _ _ _ Hok2 Hstep)|].
    split; [unfold maze_wf; rewrite Em, Er, Ec; exact Hwf2|].
    split; [exact Hfresh|].
    exists evs. rewrite Hevs. unfold w2, wm, w0, after.
    cbn [trace set_trace set_heap set_maze]. rewrite <- !app_assoc. reflexivity.
  - (* the move fails *)
    erewrite bind_Some by exact Hmove. change (-1 =? 0) with false. cbv iota.
    erewrite bind_Some by reflexivity.
    erewrite bind_Some by apply emit_after.
    set (w2 := after _ (after _ w0)).
    assert (Hok2 : players_ok VIEW_DEPTH w2) by exact Hok.
    assert (Hwf2 : maze_wf w2) by exact Hwf.
    destruct (for_each_update_fresh VIEW_DEPTH w2 Hok2 Hwf2) as (w' & Hrun & Hstep & Hfresh).
    erewrite bind_Some by exact Hrun.
    pose proof Hstep as (Em & Er & Ec & _ & _ & _ & _ & _ & _ & Emap & _ & _ & _ & [evs Hevs] & Hheap).
    pose proof (Hheap p) as Hhp. change (heap w2 !! p) with (heap w !! p) in Hhp.
    rewrite Hp in Hhp.
    destruct (heap w' !! p) as [r'|] eqn:Hr'; [|contradiction].
    destruct Hhp as [Hsame _].
    exists (-1), w', r'. split; [reflexivity|]. split; [exact Hr'|]. split; [auto|].
    split; [split; [lia|intros H; destruct (Hnok H)]|]. split; [lia|].
    split; [intros _; split; [exact Em|rewrite Hsame; split; reflexivity]|].
    split; [rewrite Hsame; reflexivity|].
    split; [rewrite Hsame; reflexivity|].
    split; [rewrite Hsame; reflexivity|].
    split; [rewrite Emap; reflexivity|].
    split; [exact (players_ok_step _ _ _ Hok2 Hstep)|].
    split; [unfold maze_wf; rewrite Em, Er, Ec; exact Hwf2|].
    split; [exact Hfresh|].
    exists evs. rewrite Hevs. unfold w2, w0, after.
    cbn [trace set_trace set_heap set_maze]. rewrite <- !app_assoc. reflexivity.
Qed.

Lemma alice_maze_wf : maze_wf alice_world.
Proof. split; [reflexivity|]. repeat constructor. Qed.

Lemma alice_world_ok : players_ok 8 alice_world.
Proof.
  split; [exact alice_world_live|]. intros i q r Hq Hr.
  assert (i = 65%nat) as ->.
  { destruct (decide (i = 65%nat)) as [->|Hne]; [reflexivity|].
    unfold alice_world in Hq. cbn [player_map] in Hq.
    rewrite list_lookup_insert_ne in Hq by congruence.
    apply lookup_replicate in Hq. destruct Hq as [Hq _]. discriminate. }
  vm_compute in Hq. injection Hq as <-. vm_compute in Hr. injection Hr as <-.
  split; [reflexivity|]. split; [reflexivity|]. repeat constructor.
Qed.

Lemma player_move_spec_witness :
  exists (rc : Z) (w' : World) (r' : PLAYER),
    player_move 8 1 (-1) alice_world = Some (rc, w') /\
    heap w' !! 1 = Some r' /\
    (rc = 0 <-> move_ok alice_world 1 1 SOUTH) /\
    players_ok 8 w' /\
    view_fresh 8 w' 1.
Proof.
  destruct (player_move_spec 8 alice_world 1 _ (-1) alice_world_ok alice_maze_wf eq_refl)
    as (rc & w' & r' & Hrun & Hr' & _ & Hiff & _ & _ & _ & _ & _ & Hmap & Hok & _ & Hfresh & _).
  exists rc, w', r'. split; [exact Hrun|]. split; [exact Hr'|]. split; [exact Hiff|].
  split; [exact Hok|]. apply (Hfresh 65%nat). rewrite Hmap. reflexivity.
Defined.

(** ** Firing *)

Lemma maze_find_target_run (w : World) row col d :
  maze_wf w ->
  outside (maze_rows w) (maze_cols w) row col = false ->
  exists k,
    scan_stops w row col d k /\
    maze_find_target row col d w
    = Some (target_at w row col d k,
            after [EvLock maze_mutex; EvUnlock maze_mutex] w).
Proof.
  intros Hwf Hin. unfold maze_find_target. mred.
  destruct (maze_find_target_loop_spec (after [EvLock maze_mutex] w) d
              (maze_find_target_fuel w) Hwf row col Hin
              (steps_to_edge_fuel w row col d Hin)) as (k & Hk & Hrun).
  exists k. split; [exact Hk|].
  unfold after in Hrun. mred. unfold maze_find_target_fuel in *. mred.
  rewrite Hrun. unfold target_at, after. mred.
  rewrite <- app_assoc. reflexivity.
Qed.

Lemma scan_stops_unique (w : World) row col d k k' :
  scan_stops w row col d k -> scan_stops w row col d k' -> k = k'.
Proof.
  intros (H1 & Hbefore & Hstop) (H1' & Hbefore' & Hstop').
  destruct (Z.lt_trichotomy k k') as [Hlt|[Heq|Hgt]]; [|exact Heq|].
  - destruct Hstop. apply Hbefore'. lia.
  - destruct Hstop'. apply Hbefore. lia.
Qed.

Lemma player_get_run (w : World) (avatar : Z) e :
  0 <= avatar ->
  player_map w !! Z.to_nat avatar = Some e ->
  match e with Some q => is_Some (heap w !! q) | None => True end ->
  player_get avatar w
  = Some (e,
          match e with
          | Some q =>
              match heap w !! q with
              | Some r =>
                  after [EvLock map_mutex; EvLock (player_mutex q);
                         EvUnlock (player_mutex q); EvUnlock map_mutex]
                    (set_heap (<[q := set_p_ref_count (p_ref_count r + 1) r]> (heap w)) w)
              | None => w
              end
          | None => after [EvLock map_mutex; EvUnlock map_mutex] w
          end).
Proof.
  intros Hav He Hlive. unfold player_get.
  erewrite bind_Some by apply emit_after.
  erewrite bind_Some.
  2:{ rewrite <- (Z2Nat.id avatar) at 1 by lia. apply player_map_read_at. exact He. }
  destruct e as [q|].
  - destruct Hlive as [r Hr]. rewrite Hr.
    erewrite bind_Some.
    2:{ erewrite bind_Some by (apply player_ref_run; exact Hr). reflexivity. }
    erewrite bind_Some by apply emit_after.
    unfold ret, after. cbn [heap trace player_map set_heap set_trace].
    rewrite <- !app_assoc. reflexivity.
  - erewrite bind_Some by reflexivity.
    erewrite bind_Some by apply emit_after.
    rewrite after_after. reflexivity.
Qed.

Lemma IS_AVATAR_range a : IS_AVATAR a = true -> 0 <= a < 256.
Proof. unfold IS_AVATAR. lia. Qed.

(** A broadcast reaches the clients of the table, whatever else the
    records hold. *)
Lemma broadcast_events_fds (w w' : World) pkt data :
  player_map w' = player_map w ->
  (forall x, option_map p_client_fd (heap w' !! x)
             = option_map p_client_fd (heap w !! x)) ->
  broadcast_events w' pkt data = broadcast_events w pkt data.
Proof.
  intros Hmap Hfd. unfold broadcast_events. rewrite Hmap. f_equal.
  apply map_ext. intros [x|]; [|reflexivity]. unfold send_events.
  specialize (Hfd x). destruct (heap w' !! x), (heap w !! x); simpl in Hfd;
    try discriminate; [|reflexivity].
  injection Hfd as ->. reflexivity.
Qed.

(** X24.  A shot that hits no player changes nothing: when the scan
    from the position of the shooter stops at a wall or at the edge of
    the grid, player_fire_laser only takes and releases the locks of
    the shooter and of the maze; when it stops at an avatar that no
    entry of the table designates, it looks the table up as well.  No
    score changes and no frame is sent. *)
Theorem player_fire_laser_miss (w : World) (p : Z) (r : PLAYER) (k : Z) :
  heap w !! p = Some r ->
  maze_wf w ->
  outside (maze_rows w) (maze_cols w) (p_row r) (p_col r) = false ->
  scan_stops w (p_row r) (p_col r) (p_dir r) k ->
  let target := target_at w (p_row r) (p_col r) (p_dir r) k in
  (IS_AVATAR target = false ->
   player_fire_laser p w
   = Some (tt, after [EvLock (player_mutex p); EvLock maze_mutex; EvUnlock maze_mutex;
                      EvUnlock (player_mutex p)] w)) /\
  (IS_AVATAR target = true ->
   player_map w !! Z.to_nat target = Some None ->
   player_fire_laser p w
   = Some (tt, after [EvLock (player_mutex p); EvLock maze_mutex; EvUnlock maze_mutex;
                      EvUnlock (player_mutex p);
                      EvLock map_mutex; EvUnlock map_mutex] w)).
Proof.
  intros Hp Hwf Hin Hk target.
  assert (Hscan : (pthread_mutex_lock (player_mutex p) ;;
                   r <- load p ;;
                   target <- maze_find_target (p_row r) (p_col r) (p_dir r) ;;
                   pthread_mutex_unlock (player_mutex p) ;;
                   ret target) w
                  = Some (target,
                          after [EvLock (player_mutex p); EvLock maze_mutex;
                                 EvUnlock maze_mutex; EvUnlock (player_mutex p)] w)).
  { erewrite bind_Some by apply emit_after.
    erewrite bind_Some
      by (unfold load, after; cbn [heap set_trace]; rewrite Hp; reflexivity).
    destruct (maze_find_target_run (after [EvLock (player_mutex p)] w)
                (p_row r) (p_col r) (p_dir r) Hwf Hin) as (k' & Hk' & Hrun).
    assert (k' = k) as -> by (eapply scan_stops_unique; [exact Hk'|exact Hk]).
    erewrite bind_Some by exact Hrun.
    erewrite bind_Some by apply emit_after.
    unfold ret. rewrite !after_after. reflexivity. }
  unfold player_fire_laser.
  apply bind_inv in Hscan. destruct Hscan as (u1 & w1 & H1 & Hscan).
  erewrite bind_Some by exact H1.
  apply bind_inv in Hscan. destruct Hscan as (r1 & w2 & H2 & Hscan).
  erewrite bind_Some by exact H2.
  apply bind_inv in Hscan. destruct Hscan as (t & w3 & H3 & Hscan).
  erewrite bind_Some by exact H3.
  apply bind_inv in Hscan. destruct Hscan as (u2 & w4 & H4 & Hscan).
  erewrite bind_Some by exact H4.
  injection Hscan as -> ->.
  split.
  - intros Hno. rewrite Hno. reflexivity.
  - intros Hav Hfree. rewrite Hav. cbn [negb].
    erewrite bind_Some.
    2:{ apply (player_get_run _ target None);
          [exact (proj1 (IS_AVATAR_range _ Hav))|exact Hfree|exact I]. }
    unfold ret. rewrite after_after. reflexivity.
Qed.

Lemma player_fire_laser_miss_witness :
  player_fire_laser 1 alice_world
  = Some (tt, after [EvLock (player_mutex 1); EvLock maze_mutex; EvUnlock maze_mutex;
                     EvUnlock (player_mutex 1)] alice_world).
Proof.
  refine (proj1 (player_fire_laser_miss alice_world 1 _ 1 eq_refl alice_maze_wf eq_refl _) _).
  - split; [lia|]. split; [intros j Hj; lia|]. vm_compute. discriminate.
  - reflexivity.
Defined.

Lemma hit_victim_record vr :
  set_p_ref_count
    (p_ref_count (set_p_laser_hit 1 (set_p_laser_hit 1
                    (set_p_ref_count (p_ref_count vr + 1) vr))) - 1)
    (set_p_laser_hit 1 (set_p_laser_hit 1 (set_p_ref_count (p_ref_count vr + 1) vr)))
  = set_p_laser_hit 1 vr.
Proof.
  destruct vr. unfold set_p_ref_count, set_p_laser_hit. cbn. f_equal. lia.
Qed.

(** X25.  A shot that hits a player: when the scan stops at an avatar
    that the table gives to a live record other than the shooter's,
    player_fire_laser marks the victim as hit, signals the thread that
    serves it, adds one to the score of the shooter and sends every
    player of the table a SCORE frame with the avatar of the shooter
    and its new score, reduced to a byte.  The reference it took on
    the victim is given back: the count of the victim is as before.
    Neither the grid nor the table nor any other record changes; the
    victim stays in its cell until its own thread handles the hit. *)
Theorem player_fire_laser_hit (w : World) (p : Z) (r : PLAYER) (k : Z)
    (q : Z) (vr : PLAYER) :
  table_live w ->
  maze_wf w ->
  heap w !! p = Some r ->
  outside (maze_rows w) (maze_cols w) (p_row r) (p_col r) = false ->
  scan_stops w (p_row r) (p_col r) (p_dir r) k ->
  let target := target_at w (p_row r) (p_col r) (p_dir r) k in
  IS_AVATAR target = true ->
  player_map w !! Z.to_nat target = Some (Some q) ->
  heap w !! q = Some vr ->
  q <> p ->
  this_player w !! p_thread_id vr = Some q ->
  p_ref_count vr <> 0 ->
  let pkt := packet MZW_SCORE_PKT 0 (p_avatar r) (p_score r + 1) 0 in
  exists w',
    player_fire_laser p w = Some (tt, w') /\
    heap w' !! p = Some (set_p_score (p_score r + 1) r) /\
    heap w' !! q = Some (set_p_laser_hit 1 vr) /\
    (forall x, x <> p -> x <> q -> heap w' !! x = heap w !! x) /\
    maze w' = maze w /\ player_map w' = player_map w /\
    trace w' = trace w ++ hit_events p q (p_thread_id vr)
                 ++ broadcast_events w pkt None
                 ++ [EvLock (player_mutex q); EvUnlock (player_mutex q)].
Proof.
  intros Hlive Hwf Hp Hin Hk target Hav Hq Hvr Hqp Htp Hcount pkt.
  assert (Hscan : (pthread_mutex_lock (player_mutex p) ;;
                   r <- load p ;;
                   target <- maze_find_target (p_row r) (p_col r) (p_dir r) ;;
                   pthread_mutex_unlock (player_mutex p) ;;
                   ret target) w
                  = Some (target,
                          after [EvLock (player_mutex p); EvLock maze_mutex;
                                 EvUnlock maze_mutex; EvUnlock (player_mutex p)] w)).
  { erewrite bind_Some by apply emit_after.
    erewrite bind_Some
      by (unfold load, after; cbn [heap set_trace]; rewrite Hp; reflexivity).
    destruct (maze_find_target_run (after [EvLock (player_mutex p)] w)
                (p_row r) (p_col r) (p_dir r) Hwf Hin) as (k' & Hk' & Hrun).
    assert (k' = k) as -> by (eapply scan_stops_unique; [exact Hk'|exact Hk]).
    erewrite bind_Some by exact Hrun.
    erewrite bind_Some by apply emit_after.
    unfold ret. rewrite !after_after. reflexivity. }
  unfold player_fire_laser.
  apply bind_inv in Hscan. destruct Hscan as (u1 & w1 & H1 & Hscan).
  erewrite bind_Some by exact H1.
  apply bind_inv in Hscan. destruct Hscan as (r1 & w2 & H2 & Hscan).
  erewrite bind_Some by exact H2.
  apply bind_inv in Hscan. destruct Hscan as (t & w3 & H3 & Hscan).
  erewrite bind_Some by exact H3.
  apply bind_inv in Hscan. destruct Hscan as (u2 & w4 & H4 & Hscan).
  erewrite bind_Some by exact H4.
  injection Hscan as -> ->. clear H1 H2 H3 H4.
  assert (Hr1 : heap w2 !! p = Some r1 -> True) by auto. clear Hr1.
  rewrite Hav. cbn [negb].
  set (wa := after _ w).
  erewrite bind_Some.
  2:{ apply (player_get_run wa target (Some q));
        [exact (proj1 (IS_AVATAR_range _ Hav))|exact Hq|].
      change (heap wa) with (heap w). eauto. }
  change (heap wa !! q) with (heap w !! q). rewrite Hvr.
  set (v1 := set_p_ref_count (p_ref_count vr + 1) vr).
  erewrite bind_Some by apply emit_after.
  erewrite bind_Some.
  2:{ unfold upd, load, store; subst wa; unfold after; mred. rewrite lookup_insert_eq. mred.
      rewrite lookup_insert_eq. mred. rewrite insert_insert_eq. reflexivity. }
  erewrite bind_Some by apply emit_after.
  erewrite bind_Some.
  2:{ unfold load; subst wa; unfold after; mred. rewrite lookup_insert_eq. reflexivity. }
  erewrite bind_Some.
  2:{ unfold pthread_kill. erewrite bind_Some by apply emit_after.
      unfold handle_sigusr1.
      erewrite bind_Some.
      2:{ unfold gets; subst wa; unfold after; mred. cbn [p_thread_id set_p_laser_hit v1 set_p_ref_count].
          rewrite Htp. reflexivity. }
      cbv beta iota.
      unfold upd, load, store; subst wa; unfold after; mred. rewrite lookup_insert_eq. mred.
      rewrite lookup_insert_eq. mred. rewrite insert_insert_eq. reflexivity. }
  erewrite bind_Some by apply emit_after.
  erewrite bind_Some.
  2:{ unfold upd, load, store; subst wa; unfold after; mred.
      rewrite lookup_insert_ne by congruence. rewrite Hp. mred.
      rewrite lookup_insert_ne by congruence. rewrite Hp. reflexivity. }
  erewrite bind_Some.
  2:{ unfold load; subst wa; unfold after; mred. rewrite lookup_insert_eq. reflexivity. }
  erewrite bind_Some by apply emit_after.
  erewrite bind_Some.
  2:{ unfold load; subst wa; unfold after; mred. rewrite lookup_insert_eq. reflexivity. }
  cbn [p_score p_avatar set_p_score]. fold pkt.
  set (v3 := set_p_laser_hit 1 (set_p_laser_hit 1 v1)).
  set (r2 := set_p_score (p_score r + 1) r).
  match goal with
  | |- context [bind (for_each_player _) _ ?W] => set (wc := W)
  end.
  assert (Hc : heap wc = <[p := r2]> (<[q := v3]> (heap w))) by reflexivity.
  assert (Hmapc : player_map wc = player_map w) by reflexivity.
  assert (Hlivec : table_live wc).
  { destruct Hlive as [Hlen Hl]. split; [exact Hlen|]. intros i x Hx.
    rewrite Hmapc in Hx. rewrite Hc.
    destruct (decide (x = p)) as [->|Hxp]; [rewrite lookup_insert_eq; eauto|].
    rewrite lookup_insert_ne by congruence.
    destruct (decide (x = q)) as [->|Hxq]; [rewrite lookup_insert_eq; eauto|].
    rewrite lookup_insert_ne by congruence. exact (Hl i x Hx). }
  erewrite bind_Some by (apply for_each_player_send; exact Hlivec).
  assert (Hbc : broadcast_events wc pkt None = broadcast_events w pkt None).
  { apply broadcast_events_fds; [exact Hmapc|]. intros x. rewrite Hc.
    destruct (decide (x = p)) as [->|Hxp]; [rewrite lookup_insert_eq, Hp; reflexivity|].
    rewrite lookup_insert_ne by congruence.
    destruct (decide (x = q)) as [->|Hxq]; [rewrite lookup_insert_eq, Hvr; reflexivity|].
    rewrite lookup_insert_ne by congruence. reflexivity. }
  rewrite Hbc.
  erewrite player_unref_run.
  2:{ unfold after. cbn [heap set_trace]. rewrite Hc.
      rewrite lookup_insert_ne by congruence. apply lookup_insert_eq. }
  assert (Hnz : (p_ref_count v3 - 1 =? 0) = false).
  { subst v3 v1. cbn [p_ref_count set_p_laser_hit set_p_ref_count]. lia. }
  rewrite Hnz. eexists. split; [reflexivity|].
  unfold after. cbn [heap maze player_map trace set_heap set_trace]. rewrite Hc.
  split; [rewrite lookup_insert_ne by congruence; apply lookup_insert_eq|].
  split; [rewrite lookup_insert_eq; f_equal; apply hit_victim_record|].
  split.
  { intros x Hxp Hxq. rewrite !lookup_insert_ne by congruence. reflexivity. }
  split; [reflexivity|]. split; [reflexivity|].
  subst wc. unfold after, hit_events. cbn [trace set_heap set_trace].
  rewrite <- !app_assoc. reflexivity.
Qed.

Lemma duel_world_live : table_live duel_world.
Proof.
  split; [reflexivity|]. intros i q Hq.
  destruct (decide (i = 65%nat)) as [->|H65].
  { vm_compute in Hq. injection Hq as <-. vm_compute. eauto. }
  destruct (decide (i = 66%nat)) as [->|H66].
  { vm_compute in Hq. injection Hq as <-. vm_compute. eauto. }
  unfold duel_world in Hq. cbn [player_map] in Hq.
  rewrite !list_lookup_insert_ne in Hq by congruence.
  apply lookup_replicate in Hq. destruct Hq as [Hq _]. discriminate.
Qed.

Lemma duel_maze_wf : maze_wf duel_world.
Proof. split; [reflexivity|]. repeat constructor. Qed.

Lemma player_fire_laser_hit_witness :
  exists w',
    player_fire_laser 1 duel_world = Some (tt, w') /\
    option_map p_score (heap w' !! 1) = Some 1 /\
    option_map p_laser_hit (heap w' !! 2) = Some 1 /\
    option_map p_ref_count (heap w' !! 2) = Some 1.
Proof.
  destruct (player_fire_laser_hit duel_world 1
              (mkPlayer 1 10 65 (bytes "alice") 1 1 EAST 0 0 7 (replicate 8 [0; 0; 0]) (-1))
              2 2
              (mkPlayer 1 11 66 (bytes "bob") 1 3 WEST 4 0 8 (replicate 8 [0; 0; 0]) (-1))
              duel_world_live duel_maze_wf eq_refl eq_refl)
    as (w' & Hrun & Hp & Hq & _).
  - split; [lia|]. split.
    + intros j Hj. assert (j = 1) as -> by lia. reflexivity.
    + vm_compute. discriminate.
  - reflexivity.
  - reflexivity.
  - reflexivity.
  - discriminate.
  - reflexivity.
  - discriminate.
  - exists w'. split; [exact Hrun|]. rewrite Hp, Hq. repeat split.
Defined.

(** ** Logins that fail *)

Lemma c_string_unterminated (buf : list Z) : ~ In 0 buf -> c_string buf = None.
Proof.
  induction buf as [|b buf IH]; intros H; [reflexivity|].
  cbn [c_string]. destruct (Z.eqb_spec b 0) as [->|_]; [destruct H; left; reflexivity|].
  rewrite IH; [reflexivity|]. intros Hin. apply H. right. exact Hin.
Qed.

(** X26.  The payload of a LOGIN frame is taken for a C string.  When
    it holds no NUL byte, the copy of the name reads past the end of
    the payload: a login for a free avatar, with memory for the
    record, then has no defined outcome, in player_login and so in the
    service loop. *)
Theorem login_unterminated_name (VIEW_DEPTH : Z) (w : World)
    (client_fd avatar : Z) (name : list Z) :
  0 <= avatar ->
  player_map w !! Z.to_nat avatar = Some None ->
  calloc_ok w = true ->
  ~ In 0 name ->
  player_login VIEW_DEPTH client_fd avatar (Some name) w = None /\
  dispatch VIEW_DEPTH client_fd (None, false) (login_frame avatar (Some name)) w = None.
Proof.
  intros Hav Hfree Hok Hname.
  assert (Hlogin : player_login VIEW_DEPTH client_fd avatar (Some name) w = None).
  { unfold player_login. pred.
    assert ((avatar <? 0) = false) as -> by (apply Z.ltb_ge; lia).
    rewrite Hfree. pred. rewrite Hok. pred.
    repeat (rewrite lookup_insert_eq; pred; rewrite ?insert_insert_eq).
    rewrite (c_string_unterminated name Hname). reflexivity. }
  split; [exact Hlogin|].
  unfold dispatch, login_frame. cbn [fst snd pkt_type pkt_param1].
  apply bind_None. exact Hlogin.
Qed.

Lemma login_unterminated_name_witness :
  dispatch 8 11 (None, false) (login_frame 66 (Some (bytes "bob"))) alice_world = None.
Proof.
  refine (proj2 (login_unterminated_name 8 alice_world 11 66 (bytes "bob") _ _ _ _)).
  - lia.
  - reflexivity.
  - reflexivity.
  - simpl. intros [H|[H|[H|[]]]]; discriminate.
Defined.

(** player_login without memory for the record. *)
Lemma player_login_no_memory (VIEW_DEPTH : Z) (w : World) client_fd avatar name :
  0 <= avatar ->
  player_map w !! Z.to_nat avatar = Some None ->
  calloc_ok w = false ->
  player_login VIEW_DEPTH client_fd avatar name w
  = Some (None, after [EvLock map_mutex; EvUnlock map_mutex;
                       EvError "player_login: Memory allocation failed"] w).
Proof.
  intros Hav Hfree Hok. unfold player_login. pred.
  assert ((avatar <? 0) = false) as -> by (apply Z.ltb_ge; lia).
  rewrite Hfree. pred. rewrite Hok. pred.
  unfold after. rewrite <- !app_assoc. reflexivity.
Qed.

(** player_login on a grid without an EMPTY cell. *)
Lemma player_login_no_cell (VIEW_DEPTH : Z) (w : World) client_fd avatar name s :
  0 <= avatar ->
  player_map w !! Z.to_nat avatar = Some None ->
  calloc_ok w = true ->
  c_string match name with Some n => n | None => Anonymous end = Some s ->
  maze_wf w -> maze_rows w <> 0 -> maze_cols w <> 0 ->
  (forall rc, ~ free_cell w rc) ->
  exists w' evs,
    player_login VIEW_DEPTH client_fd avatar name w = Some (None, w') /\
    trace w' = trace w ++ evs /\ Forall not_a_send evs /\
    In (EvFreePlayer (brk w)) evs /\
    heap w' = delete (brk w) (heap w) /\
    player_map w' = player_map w /\ maze w' = maze w /\
    this_player w' = this_player w /\ self w' = self w.
Proof.
  intros Hav Hfree Hok Hs Hwf Hrows Hcols Hfull. unfold player_login. pred.
  assert ((avatar <? 0) = false) as -> by (apply Z.ltb_ge; lia).
  rewrite Hfree. pred. rewrite Hok. pred.
  repeat (rewrite lookup_insert_eq; pred; rewrite ?insert_insert_eq).
  rewrite Hs. pred.
  repeat (rewrite lookup_insert_eq; pred; rewrite ?insert_insert_eq).
  match goal with
  | |- context [maze_set_player_random avatar ?W] =>
      destruct (maze_set_player_random_loop_spec avatar max_attempts W Hwf Hrows Hcols)
        as (res & w2 & Hrun & Hres);
      pose proof (maze_set_player_random_loop_step _ _ _ _ _ Hrun)
        as (_ & _ & _ & _ & Hheap & _ & _ & _ & Hmap & Htp & Hself & _ & evs & Htr & Hevs);
      unfold maze_set_player_random; rewrite Hrun
  end.
  destruct res as [rc|].
  { destruct Hres as (k & _ & _ & Hcell & _). destruct (Hfull rc Hcell). }
  destruct Hres as (_ & Hmaze & _). pred.
  rewrite Hheap. pred. rewrite lookup_insert_eq. pred.
  rewrite Hheap. pred. rewrite delete_insert_eq.
  eexists. eexists. split; [reflexivity|]. pred.
  split.
  { rewrite Htr. pred. rewrite <- !app_assoc. cbn [app]. reflexivity. }
  split.
  { repeat first [apply Forall_cons; split; [exact I|] | apply Forall_app; split].
    - eapply Forall_impl; [exact Hevs|]. apply maze_event_not_a_send.
    - repeat constructor. }
  split.
  { right. right. apply in_or_app. right. right. left. reflexivity. }
  split; [reflexivity|]. split; [exact Hmap|]. split; [exact Hmaze|].
  split; [exact Htp|exact Hself].
Qed.

(** X27.  A LOGIN for a free avatar that player_login cannot serve is
    answered INUSE, like one for an avatar in use, and the connection
    stays logged out.  Without memory for the record, the failure is
    logged and nothing else changes.  On a grid without an EMPTY cell,
    the record that was allocated is released again and the table and
    the grid are as before. *)
Theorem login_refused (VIEW_DEPTH : Z) (w : World) (client_fd avatar : Z)
    (name : option (list Z)) :
  this_player w !! self w = None ->
  0 <= avatar ->
  player_map w !! Z.to_nat avatar = Some None ->
  let inuse := EvSend client_fd (mkPkt MZW_INUSE_PKT 0 0 0 0) None in
  (calloc_ok w = false ->
   dispatch VIEW_DEPTH client_fd (None, false) (login_frame avatar name) w
   = Some ((None, false),
           after [EvLock map_mutex; EvUnlock map_mutex;
                  EvError "player_login: Memory allocation failed"; inuse] w)) /\
  (calloc_ok w = true ->
   is_Some (c_string match name with Some n => n | None => Anonymous end) ->
   maze_wf w -> maze_rows w <> 0 -> maze_cols w <> 0 ->
   (forall rc, ~ free_cell w rc) ->
   exists w' evs,
     dispatch VIEW_DEPTH client_fd (None, false) (login_frame avatar name) w
     = Some ((None, false), w') /\
     trace w' = trace w ++ evs ++ [inuse] /\
     Forall not_a_send evs /\ In (EvFreePlayer (brk w)) evs /\
     heap w' = delete (brk w) (heap w) /\
     player_map w' = player_map w /\ maze w' = maze w).
Proof.
  intros Htp Hav Hfree inuse. split.
  - intros Hok. unfold dispatch, login_frame. cbn [fst snd pkt_type pkt_param1].
    erewrite bind_Some by (apply player_login_no_memory; assumption).
    erewrite bind_Some.
    2:{ unfold this_player_write, modify. reflexivity. }
    cbv beta iota. unfold send_call. erewrite bind_Some by apply emit_after.
    unfold ret. f_equal. f_equal.
    unfold after. cbn [this_player self set_trace trace].
    rewrite delete_id by exact Htp.
    rewrite <- (set_this_player_id w) at 3.
    destruct w; cbn. rewrite <- !app_assoc. reflexivity.
  - intros Hok [s Hs] Hwf Hrows Hcols Hfull.
    destruct (player_login_no_cell VIEW_DEPTH w client_fd avatar name s
                Hav Hfree Hok Hs Hwf Hrows Hcols Hfull)
      as (w1 & evs & Hlogin & Htr & Hevs & Hin & Hheap & Hmap & Hmaze & Htp1 & Hself).
    unfold dispatch, login_frame. cbn [fst snd pkt_type pkt_param1].
    erewrite bind_Some by exact Hlogin.
    erewrite bind_Some.
    2:{ unfold this_player_write, modify. reflexivity. }
    cbv beta iota. unfold send_call. erewrite bind_Some by apply emit_after.
    eexists. exists evs. split; [reflexivity|].
    unfold after. cbn [trace set_trace heap player_map maze set_this_player].
    split; [rewrite Htr, <- app_assoc; reflexivity|].
    split; [exact Hevs|]. split; [exact Hin|]. split; [exact Hheap|].
    split; [exact Hmap|exact Hmaze].
Qed.

Lemma full_maze_no_free_cell : forall rc, ~ free_cell (world_of full_maze) rc.
Proof.
  intros [r c]. unfold free_cell, maze_at. cbn [fst snd].
  destruct ((r <? 0) || (c <? 0)); [discriminate|].
  cbn [maze world_of]. unfold full_maze.
  destruct (Z.to_nat r) as [|i]; [|discriminate].
  destruct (Z.to_nat c) as [|[|j]]; discriminate.
Qed.

(** The theorem on the full grid [full_maze], for the avatar C. *)
Lemma login_refused_witness :
  exists w' evs,
    dispatch 8 11 (None, false) (login_frame 67 (Some (bytes "carol" ++ [0])))
      (world_of full_maze)
    = Some ((None, false), w') /\
    trace w' = evs ++ [EvSend 11 (mkPkt MZW_INUSE_PKT 0 0 0 0) None] /\
    heap w' = ∅ /\ maze w' = full_maze.
Proof.
  destruct (proj2 (login_refused 8 (world_of full_maze) 11 67
                     (Some (bytes "carol" ++ [0])) eq_refl ltac:(lia) eq_refl))
    as (w' & evs & Hrun & Htr & _ & _ & Hheap & _ & Hmaze).
  - reflexivity.
  - eexists. reflexivity.
  - split; [reflexivity|]. repeat constructor.
  - discriminate.
  - discriminate.
  - exact full_maze_no_free_cell.
  - exists w', evs. split; [exact Hrun|]. split; [exact Htr|].
    split; [rewrite Hheap; reflexivity|exact Hmaze].
Defined.

(** ** A connection that never logs in *)

Lemma dispatch_not_login (VIEW_DEPTH : Z) (w : World) client_fd player (f : frame) :
  not_login f ->
  dispatch VIEW_DEPTH client_fd (player, false) f w = Some ((player, false), w).
Proof.
  unfold not_login, dispatch. destruct f as [pkt data]. cbn [fst snd].
  destruct (pkt_type pkt); intros H; try reflexivity.
  - contradiction.
  - destruct data; reflexivity.
Qed.

Lemma service_loop_not_login (VIEW_DEPTH : Z) (w : World) client_fd (frames : list frame) :
  this_player w !! self w = None ->
  Forall not_login frames ->
  service_loop VIEW_DEPTH client_fd frames (None, false) w = Some ((None, false), w).
Proof.
  intros Htp Hall. induction Hall as [|f frames Hf _ IH]; cbn [service_loop].
  - erewrite bind_Some by (apply check_this_player_unbound; exact Htp). reflexivity.
  - erewrite bind_Some by (apply check_this_player_unbound; exact Htp).
    erewrite bind_Some by (apply check_this_player_unbound; exact Htp).
    erewrite bind_Some by (apply dispatch_not_login; exact Hf).
    exact IH.
Qed.

(** X28.  Before a login the service loop ignores every frame that is
    no LOGIN.  A connection that sends such frames only and then
    closes leaves the server as it found it: its thread registers the
    descriptor, unregisters it and closes it, sends nothing, and the
    slots and the count of the registry are as before; the semaphore
    is posted when no other client is registered. *)
Theorem client_service_without_login (VIEW_DEPTH : Z) (w : World)
    (cr : CLIENT_REGISTRY) (client_fd : Z) (k : nat) (frames : list frame) :
  client_registry w = Some cr ->
  length (cr_client_fds cr) = MAX_CLIENTS ->
  first_slot (cr_client_fds cr) (-1) k ->
  ~ In client_fd (cr_client_fds cr) ->
  this_player w !! self w = None ->
  Forall not_login frames ->
  mzw_client_service VIEW_DEPTH client_fd frames w
  = Some (tt,
          after ([EvLock creg_mutex; EvUnlock creg_mutex; EvLock creg_mutex]
                 ++ (if cr_count cr =? 0 then [EvSemPost] else [])
                 ++ [EvUnlock creg_mutex; EvClose client_fd])
            (with_registry
               (mkRegistry (cr_client_fds cr) (cr_count cr)
                  (cr_empty cr + (if cr_count cr =? 0 then 1 else 0))) w)).
Proof.
  intros Hcr Hlen Hk Habs Htp Hall. unfold mzw_client_service.
  erewrite bind_Some by (apply (creg_register_run w cr client_fd k); assumption).
  erewrite bind_Some by (apply service_loop_not_login; [exact Htp|exact Hall]).
  cbn [fst]. erewrite bind_Some by reflexivity.
  set (cr1 := mkRegistry (<[k := client_fd]> (cr_client_fds cr)) (cr_count cr + 1)
                (cr_empty cr)).
  assert (Hlt : (k < length (cr_client_fds cr))%nat).
  { destruct Hk as [Hk _]. eapply lookup_lt_Some, Hk. }
  assert (Hk1 : first_slot (cr_client_fds cr1) client_fd k).
  { split.
    - apply list_lookup_insert_eq. exact Hlt.
    - intros j Hj. cbn [cr_client_fds cr1].
      rewrite list_lookup_insert_ne by lia. intros Hin. apply Habs.
      apply list_elem_of_In. eapply list_elem_of_lookup_2, Hin. }
  erewrite bind_Some.
  2:{ apply (creg_unregister_run _ cr1 client_fd k); [reflexivity| |exact Hk1].
      cbn [cr_client_fds cr1]. rewrite length_insert. exact Hlen. }
  cbn [cr_client_fds cr_count cr_empty cr1].
  assert (Hfds : <[k := -1]> (<[k := client_fd]> (cr_client_fds cr)) = cr_client_fds cr).
  { rewrite list_insert_insert_eq. apply list_insert_id. apply Hk. }
  rewrite Hfds. replace (cr_count cr + 1 - 1) with (cr_count cr) by lia.
  rewrite emit_after.
  destruct (cr_count cr =? 0); unfold after, with_registry; mred;
    rewrite <- ?app_assoc, ?Z.add_0_r; reflexivity.
Qed.

(** The theorem in [alice_world]: a connection on the descriptor 12
    that sends a MOVE and a FIRE frame and closes. *)
Lemma client_service_without_login_witness :
  mzw_client_service 8 12
    [(mkPkt MZW_MOVE_PKT 0 1 0 0, None); (mkPkt MZW_FIRE_PKT 0 0 0 0, None)]
    alice_world
  = Some (tt, after [EvLock creg_mutex; EvUnlock creg_mutex; EvLock creg_mutex;
                     EvUnlock creg_mutex; EvClose 12]
                alice_world).
Proof.
  refine (client_service_without_login 8 alice_world _ 12 2 _
            eq_refl eq_refl _ _ eq_refl _).
  - split; [reflexivity|]. intros [|[|j]] Hj; [discriminate|discriminate|lia].
  - intros Hin. apply list_elem_of_In in Hin.
    apply list_elem_of_lookup_1 in Hin. destruct Hin as [i Hi].
    unfold alice_world in Hi. cbn [client_registry cr_client_fds] in Hi.
    destruct i as [|[|i]]; [discriminate|discriminate|].
    rewrite !list_lookup_insert_ne in Hi by lia.
    apply lookup_replicate in Hi. destruct Hi as [Hi _]. discriminate.
  - repeat constructor; discriminate.
Defined.

(** ** Start and stop *)






